(* ===== verification/_CoqProject ===== *)
-Q . S2P
Prelude.v
Text.v
Protocol.v
World.v
Fs.v
Hash.v
FsSpec.v
Workspace.v
Jsonl.v
Store.v
StoreSpec.v
FsOps.v
FsOpsSpec.v
Undo.v
UndoSpec.v
Prune.v
Transfer.v
TransferSpec.v
Recovery.v
Crash.v
PruneSpec.v
Config.v
Exec.v
Server.v
ServerSpec.v
Concurrency.v
ConcurrencyLog.v
Tables.v
Schedule.v
Durability.v
Codec.v
Concrete.v
ClientApi.v
Agreement.v
ClientTransfer.v
DownloadSpec.v
UploadHandlers.v
Wire.v
UploadSpec.v
DirLock.v
ServerMain.v
Mcp.v
McpSpec.v
ClientMain.v
ClientConn.v
UndoDurability.v
Witnesses.v
ClientWitnesses.v
TransferWitnesses.v
ConcurrencyWitnesses.v
CommandLineWitnesses.v
DirLockWitnesses.v
