(* ===== verification/Prelude.v ===== *)
(** * agent-remote: a verification development

    agent-remote gives an AI agent file access, command execution and file
    transfers in a workspace on another machine.  Paths below are under
    [src/crates/]; [server], [client], [protocol] and [mcp] abbreviate
    [agent-remote-server/src] and so on.

    ** The program and how its parts interact

    A resident _server_ process owns one workspace directory and one state
    directory.  It reads one JSON request per line, executes it, and writes
    one JSON answer per line ([server/server.rs]).  Requests list, read,
    create, edit and delete files ([fs_ops.rs]), undo a recorded operation
    ([undo.rs]), run a command ([exec.rs]), prepare, commit or abort an upload
    and record a download ([transfer.rs]).  Every path is first confined to
    the workspace root or the scratch root ([workspace.rs]).

    The _store_ ([server/store.rs]) makes requests idempotent and mutations
    durable.  It keeps two append-only logs: [operations.jsonl] (a "prepared"
    marker before a mutation, its record after it, an "aborted" marker when
    recovery drops it) and [requests.jsonl] (a request is claimed before it
    runs and answered after), a counter for operation ids, and a blob with the
    content before each mutation.  A start loads and repairs the logs and
    settles what a crash left undecided; [gc] prunes old operations.

    A _client_ ([client/lib.rs]) shares one connection among concurrent calls,
    pairing answers with calls by request id.  File contents too large for the
    protocol travel beside it, through one process per transfer
    ([client/transfer.rs] driving [--transfer-receive] and [--transfer-send] of
    the server binary), between a prepare and a commit on the connection.  The
    _MCP server_ ([mcp/lib.rs]) turns the tools an agent sees into client calls
    on a fleet of workspaces, reconnecting when a connection has died.

    ** How it is modelled

    Handlers are computations of the monad [M] of [World.v]: state passing over
    a [world] (file trees, state files, the server's tables, a count of system
    calls), with an outcome that is a value, an error, or the death of the
    process.  Each system call consults the environment [Env], which may let it
    succeed, make it fail, or kill the process there, having done part of a
    write.  A theorem that quantifies over [Env] therefore covers every error
    path and every crash point; one with [FaultFree] is about a machine on which
    nothing fails, one with [CrashOnly] about one on which nothing fails but the
    process may die anywhere.  [wp] is the weakest precondition of such a
    computation, a predicate on its outcome and its last world; a component's
    operations have one lemma each, [<operation>_wp], which the components
    above use.

    A handler of [M] runs from its beginning to its end.  What requests do that
    are served side by side is a second model, a step relation on the tables,
    the request log and the locks they share ([Concurrency.v]); the two are tied
    by a refinement: every run of the first is a schedule of the second
    ([Schedule.v]).  The client's connection, whose point is sharing, is a step
    relation too ([ClientConn.v]).  And that one server has the state directory
    to itself, which both models take for granted, is a theorem about a third,
    of any number of server processes and the directory lock ([DirLock.v]).

    Numbers are naturals, with the wrap-around, saturation and checks of [u64]
    and [usize] written out where the code has them.  Bytes are
    [list Byte.byte], texts are [string]s of UTF-8 bytes, paths lists of names,
    a directory tree a [gmap] from paths to nodes.

    ** The files

    Foundations.
    - [Prelude.v]: integers, bytes, results, lists, notation, tactics.
    - [Text.v]: the UTF-8 operations of the standard library.
    - [World.v], [Fs.v], [FsSpec.v]: the machine, [std::fs] on it (with
      symbolic links and path resolution), and what its calls do.
    - [Codec.v], [Concrete.v]: an instance of every parameter, for the
      witnesses.

    Protocol: [Protocol.v] is [protocol/error.rs], [messages.rs], [record.rs].

    Server.
    - [Hash.v]: [server/hash.rs], [fsync.rs].
    - [Workspace.v]: [server/workspace.rs]; [resolve] is [Workspace::resolve].
    - [Jsonl.v]: the file half of [server/store.rs] ([load_log] to
      [rewrite_jsonl], [append_any_record]).
    - [Store.v], [StoreSpec.v]: its tables ([claim_request],
      [prepare_fs_record], [commit_fs_record], [history],
      [reconstruct_result], ...).
    - [Recovery.v], [Crash.v]: [OperationStore::recover] and what any number of
      crashes and restarts leads to.
    - [Prune.v], [PruneSpec.v]: [OperationStore::prune].
    - [FsOps.v], [FsOpsSpec.v]: [server/fs_ops.rs].
    - [Undo.v], [UndoSpec.v]: [server/undo.rs].
    - [Transfer.v], [TransferSpec.v]: [server/transfer.rs] and
      [state_dir_under] of [lib.rs].
    - [Config.v], [Exec.v]: [server/config.rs], [exec.rs].
    - [Server.v], [ServerSpec.v]: [server/server.rs]; [handle] is one request
      from claim to recorded answer, [run] a connection that serves its lines in
      turn.
    - [Concurrency.v]: the tasks that [Server::run] spawns, side by side, as a
      step relation: [claim_request] with its two lookups and its unlocked
      append between them, the write guard, [next_operation_id], the stages of
      [prune], the append of the result, each [write] a step of its own.
      [ConcurrencyLog.v]: what is then in the request log.
    - [Tables.v], [Schedule.v]: what the handlers do to the shared tables, and
      that requests served in turn are a schedule of that relation.
    - [DirLock.v]: [acquire_dir_lock] of [server/store.rs], and server
      processes over one state directory as a step relation.
    - [ServerMain.v]: [server/main.rs].
    - [Durability.v], [UndoDurability.v]: mutations and undos as requests,
      from outside, through crashes.

    Client.
    - [ClientApi.v]: the calls of [client/lib.rs], against the interface
      [Connection].
    - [ClientConn.v]: the connection that provides it, as a step relation.
    - [Agreement.v]: server and calls agree on the kinds of results.
    - [ClientTransfer.v], [DownloadSpec.v], [UploadSpec.v]:
      [client/transfer.rs], and what downloads and uploads deliver.

    MCP: [Mcp.v], [McpSpec.v] are [mcp/lib.rs] and the message filter of
    [mcp/main.rs].

    Command lines: [ClientMain.v] is [client/main.rs], the [main] of
    [mcp/main.rs] with its diagnostic mode, and [client/log_writer.rs].

    Witnesses: [Witnesses.v], [ClientWitnesses.v], [TransferWitnesses.v],
    [ConcurrencyWitnesses.v], [CommandLineWitnesses.v], [DirLockWitnesses.v] apply the theorems to
    concrete runs.

    Names are those of the source; a trailing underscore avoids a clash
    ([list_], [finish_]), and a Module of a type's name holds its fields,
    variants and methods ([FsOperationRecord.before_hash]).  Where a function
    is long, its loop and its phases are definitions of their own, named in
    its text.

    ** What the theorems show

    - Durability: an edit, create, delete or undo of an edit interrupted at any
      system call, with recoveries interrupted any number of times, is after
      the next start either without trace or completely done, recorded and
      answered ([edit_survives_crashes], [create_survives_crashes],
      [delete_survives_crashes], [undo_edit_survives_crashes]); a log torn by a
      crash is repaired ([load_log_repairs]) and a complete line is never lost
      ([load_lines_keeps_every_line]).
    - What a request does: [edit_succeeds], [create_succeeds],
      [delete_succeeds], [edit_text_spec], [exec_spec], and that an undo gives
      back what the operation took ([undo_restores_edit],
      [undo_removes_creation], [undo_restores_deletion]).
    - Confinement: [resolve_confined], [resolve_refusals].
    - Idempotency and answers: [handle_replays], [handle_answers],
      [answers_agree].
    - Requests side by side: [requests_run_once]; [results_are_durable] as long
      as appends do not meet; and what happens when they do,
      [appends_garble_log] and [gc_loses_claim] (flaws of the code).
      [connection_is_a_schedule] is the refinement that carries the first two
      over to the detailed handlers; [connection_log_is_durable] is what they say
      there: requests of any kind, served in turn, and the process dying anywhere.
    - One server per state directory: [server_alone]; a starter waits for the
      grace period and no longer, [acquire_dir_lock_spec].
    - Pruning and sweeping: [prune_keeps_newest], [prune_survives_restart],
      [interrupted_prune_blocks_start] (a flaw), [sweep_removes_only_abandoned].
    - Transfers: [upload_delivers] and [upload_spares_target] in every
      environment, [upload_succeeds] where nothing fails; [abort_undoes_prepare],
      [download_checked], [download_roundtrip]; [endpoints_reach_the_server]: the command lines
      the endpoints make, through ssh's shell too ([ssh_runs_the_local_command]),
      start the server in the mode and with the values meant.
    - Paging and capture: [read_page_spec], [read_all_whole],
      [list_all_whole], [capture_any_chunks].
    - The client: [calls_deliver] for the calls; [answers_reach_their_call],
      [no_call_is_forgotten], [request_ids_unique] for the connection;
      [missing_input_sends_nothing] for the command line, [client_log_spec] for
      its log.
    - Fleet and tools: [parse_fleet_spec], [client_reaches],
      [tool_is_its_request], [check_fleet_spec].
    - Configuration: [load_from_str_valid].

    ** Fuel

    Every loop is structural over its data, or has fuel the code's own data
    bounds; the lemmas of each show that it is not used up.
    - [canonicalize] follows at most forty symbolic links, as Linux does, and
      then fails with the error the system gives ([Fs.v]).
    - [sweep_tree] descends at most as deep as the tree has entries.
    - [send_loop] has one round more than the file has bytes; a round sends at
      least one byte ([TransferSpec.send_loop_all]).
    - [receive_bytes] has more rounds than the stream can still yield bytes
      ([ClientTransfer.yield_bound]); a round takes at least one byte.
    - [lock_loop] has two rounds more than the grace period has pauses
      ([DirLock.lock_fuel_enough]).
    - [boundary_loop] (the next character boundary) has as many rounds as the
      text has bytes; the number and text helpers of [Text.v] as many as their
      input has digits or bytes.
    - The loops of [Exec.v] are structural over the events of the run.

    ** Parameters

    Code that is not in the repository is a class with the laws used of it.
    - [Sha256]: the hash; only that it is not empty is assumed, and where two
      contents must be told apart, that theirs differ is a hypothesis.
    - [JsonCodec], [JsonCodecLaws]: crate [serde_json] on the derived
      implementations: what is written parses back, a proper prefix of it does
      not, and it has no newline.
    - [TomlConfig], [FleetToml]: the TOML parser.  [JsonValues]: pretty JSON.
    - [Tempfile], [TempfileLaws]: crate [tempfile] picks a fresh name with the
      prefix and suffix it is given.
    - [HashIter]: the iteration order of a [HashMap].
    - [Processes], [ReceiverProcess], [SenderProcess]: what child processes
      do.  [UploadSpec.linked_receiver] is the receiver that is this program.
    - [Network]: which dials and probes succeed.  [Env]: faults and clock.
      [LockMachine]: when [flock] is granted, and how long things take.
    - [Clap], [ClapLaws]: the option parser of the server, of which only the
      reading of options with separate values that are no options themselves is
      assumed.  The client's and the MCP server's options are given as records.

    ** Not modelled, and why

    - Of requests side by side, the effects on the workspace and on the
      operation log: the step relation has the tables, the request log and the
      locks.  The mutating handlers hold the write guard over both; [exec] does
      not, so its appends to the operation log can meet others in the ways shown
      for the request log, and its command can run beside mutations.
    - The set-up of tracing, and the reading of the options of the client and of
      the MCP server (derived code).
    - Spawning, signals, pipes and the shutdown of the transport child.
    - Changes other programs make to the workspace during a request ([DirLock.v]
      has those between requests).
    - [get_info] of the MCP server and the schema descriptions (constant texts).
    - The textual form of local paths given to the client: a [LocalTarget]
      names the entry and its parent directly. *)

From Stdlib Require Export NArith.
From Stdlib Require Export Strings.Byte Strings.Ascii Strings.String.
From stdpp Require Export prelude gmap strings list pretty sorting.

#[global] Set Default Goal Selector "!".
#[global] Generalizable All Variables.

(** ** Machine integers

    Rust's [u64] and (on the 64-bit targets the program is built for)
    [usize] are naturals below [2^64]; the operations the code applies
    to them are written out here. *)

Definition u64_max : N := 18446744073709551615.

(** [u64] addition in a release build: it wraps around. *)
Definition u64_add (a b : N) : N := ((a + b) mod (u64_max + 1))%N.

(** [x as u64]. *)
Definition as_u64 (a : N) : N := (a mod (u64_max + 1))%N.

(** [u64::saturating_add]. *)
Definition saturating_add (a b : N) : N := N.min (a + b) u64_max.

(** [usize::checked_add]. *)
Definition checked_add (a b : N) : option N :=
  if (a + b <=? u64_max)%N then Some (a + b)%N else None.

(** [u64::saturating_sub]: subtraction on [N] is already truncated. *)
Definition saturating_sub (a b : N) : N := (a - b)%N.

(** Length of a Rust slice, as a [usize]. *)
Definition lenN {A} (l : list A) : N := N.of_nat (length l).

(** ** Bytes *)

Abbreviation bytes := (list byte).

#[global] Instance byte_eq_dec : EqDecision byte := Byte.byte_eq_dec.

#[global] Program Instance byte_countable : Countable byte :=
  inj_countable Byte.to_N Byte.of_N _.
Next Obligation. intros b. apply Byte.of_to_N. Qed.

(** The bytes of a string literal ([str::as_bytes]). *)
Definition as_bytes (s : string) : bytes := list_byte_of_string s.

Definition nl : byte := Byte.x0a.

Lemma as_bytes_inj s t : as_bytes s = as_bytes t → s = t.
Proof.
  intros H. rewrite <- (string_of_list_byte_of_string s).
  rewrite <- (string_of_list_byte_of_string t).
  unfold as_bytes in H. by rewrite H.
Qed.

Lemma as_bytes_of_bytes bs : as_bytes (string_of_list_byte bs) = bs.
Proof. apply list_byte_of_string_of_list_byte. Qed.

(** [format!] concatenation. *)
Declare Scope fmt_scope.
Delimit Scope fmt_scope with fmt.
Notation "a ++ b" := (String.append a b) : fmt_scope.

Lemma append_assoc (a b c : string) : (a +:+ b) +:+ c = a +:+ (b +:+ c).
Proof.
  induction a as [|x a IH]; [done|].
  change (String x ((a +:+ b) +:+ c) = String x (a +:+ (b +:+ c))). by f_equal.
Qed.

Lemma as_u64_le a : (as_u64 a <= u64_max)%N.
Proof. unfold as_u64. pose proof (N.mod_lt a (u64_max + 1)). lia. Qed.

Lemma append_length (a b : string) :
  String.length (a +:+ b) = String.length a + String.length b.
Proof.
  induction a as [|x a IH]; [done|].
  change (S (String.length (a +:+ b)) = S (String.length a + String.length b)). by rewrite IH.
Qed.

Lemma append_inj_l (a b c : string) : a +:+ b = a +:+ c → b = c.
Proof. induction a as [|x a IH]; [done|]. intros Heq. injection Heq as Heq. auto. Qed.

Lemma append_inj_r (a b c : string) : a +:+ c = b +:+ c → a = b.
Proof.
  revert b. induction a as [|x a IH]; intros [|y b] Heq; [done|..].
  - apply (f_equal String.length) in Heq. rewrite !append_length in Heq. simpl in Heq. lia.
  - apply (f_equal String.length) in Heq. rewrite !append_length in Heq. simpl in Heq. lia.
  - change (String x (a +:+ c) = String y (b +:+ c)) in Heq. injection Heq as -> Heq.
    f_equal. by apply IH.
Qed.

Lemma append_nil_r (a : string) : a +:+ "" = a.
Proof. induction a as [|c a IH]; [done|]. change (String c (a +:+ "") = String c a). by f_equal. Qed.

(** ** Fallible computations: Rust's [Result] and the [?] operator *)

Inductive result (E A : Type) : Type :=
| Ok (a : A)
| Err (e : E).
Arguments Ok {E A} a.
Arguments Err {E A} e.

#[global] Instance result_ret {E} : MRet (result E) := λ A, Ok.
#[global] Instance result_bind {E} : MBind (result E) := λ A B f r,
  match r with Ok a => f a | Err e => Err e end.
#[global] Instance result_fmap {E} : FMap (result E) := λ A B f r,
  match r with Ok a => Ok (f a) | Err e => Err e end.

Definition map_err {E F A} (f : E → F) (r : result E A) : result F A :=
  match r with Ok a => Ok a | Err e => Err (f e) end.

(** [Option::ok_or]. *)
Definition ok_or {E A} (o : option A) (e : E) : result E A :=
  match o with Some a => Ok a | None => Err e end.

(** [Result::ok]. *)
Definition ok {E A} (r : result E A) : option A :=
  match r with Ok a => Some a | Err _ => None end.

Definition is_ok {E A} (r : result E A) : bool :=
  match r with Ok _ => true | Err _ => false end.

Lemma result_bind_Ok {E A B} (r : result E A) (f : A → result E B) b :
  r ≫= f = Ok b ↔ ∃ a, r = Ok a ∧ f a = Ok b.
Proof. destruct r; naive_solver. Qed.

(** ** Lists *)

(** [find] as a Rust iterator adaptor: the first element satisfying [p]. *)
Fixpoint find_first {A} (p : A → bool) (l : list A) : option A :=
  match l with
  | [] => None
  | x :: l' => if p x then Some x else find_first p l'
  end.

(** [iter_mut().find(p)] followed by an assignment through the slot, or a
    [push] when nothing matches. *)
Fixpoint replace_first {A} (p : A → bool) (y : A) (l : list A) : option (list A) :=
  match l with
  | [] => None
  | x :: l' => if p x then Some (y :: l') else cons x <$> replace_first p y l'
  end.

Definition replace_or_push {A} (p : A → bool) (y : A) (l : list A) : list A :=
  default (l ++ [y]) (replace_first p y l).

Lemma find_first_Some {A} (p : A → bool) l x :
  find_first p l = Some x → x ∈ l ∧ p x = true.
Proof.
  induction l as [|y l IH]; simpl; [done|].
  destruct (p y) eqn:E; intros H; simplify_eq.
  - split; [apply list_elem_of_here|done].
  - destruct (IH H). split; [by apply list_elem_of_further|done].
Qed.

Lemma find_first_None {A} (p : A → bool) l :
  find_first p l = None ↔ ∀ x, x ∈ l → p x = false.
Proof.
  rewrite <- Forall_forall.
  induction l as [|y l IH]; simpl; [by split|].
  rewrite Forall_cons. destruct (p y) eqn:E; [naive_solver|].
  rewrite IH. naive_solver.
Qed.

Lemma find_first_ext {A} (p q : A → bool) l :
  (∀ x, p x = q x) → find_first p l = find_first q l.
Proof. intros Hpq. induction l as [|x l IH]; simpl; [done|]. by rewrite Hpq, IH. Qed.

(** The only candidate is the one found. *)
Lemma find_first_unique {A} (p : A → bool) l x :
  x ∈ l → p x = true → (∀ y, y ∈ l → p y = true → y = x) → find_first p l = Some x.
Proof.
  intros Hin Hp Hu. destruct (find_first p l) as [y|] eqn:Hf.
  - apply find_first_Some in Hf as [Hy Hpy]. f_equal. auto.
  - rewrite find_first_None in Hf. by rewrite Hf in Hp.
Qed.

Lemma omap_nil_forall {A B} (f : A → option B) l :
  (∀ x, x ∈ l → f x = None) → omap f l = [].
Proof.
  induction l as [|x l IH]; intros Hl; [done|]. cbn.
  rewrite (Hl x) by set_solver. apply IH. set_solver.
Qed.

Lemma find_first_app {A} (p : A → bool) l k :
  find_first p (l ++ k) =
  match find_first p l with Some x => Some x | None => find_first p k end.
Proof. induction l as [|x l IH]; simpl; [done|]. by destruct (p x). Qed.

Lemma replace_first_None {A} (p : A → bool) y l :
  (∀ x, x ∈ l → p x = false) → replace_first p y l = None.
Proof.
  induction l as [|x l IH]; simpl; [done|]. intros H.
  rewrite (H x) by set_solver. rewrite IH by set_solver. done.
Qed.

Lemma replace_or_push_fresh {A} (p : A → bool) y l :
  (∀ x, x ∈ l → p x = false) → replace_or_push p y l = l ++ [y].
Proof. intros H. unfold replace_or_push. by rewrite replace_first_None. Qed.

Lemma elem_of_replace_or_push {A} (p : A → bool) y l x :
  x ∈ replace_or_push p y l → x ∈ l ∨ x = y.
Proof.
  unfold replace_or_push.
  assert (∀ l', replace_first p y l = Some l' → x ∈ l' → x ∈ l ∨ x = y) as Hs.
  { induction l as [|z l IH]; [done|]. intros l'. simpl. destruct (p z).
    - intros [= <-]. set_solver.
    - destruct (replace_first p y l) as [k|]; [|done]. intros [= <-].
      rewrite !elem_of_cons. intros [->|Hin]; [auto|]. destruct (IH k); auto. }
  destruct (replace_first p y l) as [l'|]; cbn; [by apply Hs|set_solver].
Qed.

Lemma find_first_replace_or_push {A} (p q : A → bool) y l :
  q y = true → (∀ x, q x = true → p x = true) → find_first q (replace_or_push p y l) = Some y.
Proof.
  intros Hy Hqp. unfold replace_or_push.
  assert (match replace_first p y l with
          | Some l' => find_first q l' = Some y | None => find_first q l = None end) as Hs.
  { induction l as [|z l IH]; [done|]. simpl. destruct (p z) eqn:Hz; simpl; [by rewrite Hy|].
    assert (q z = false) as Hq.
    { destruct (q z) eqn:Hq; [|done]. apply Hqp in Hq. congruence. }
    destruct (replace_first p y l); simpl; by rewrite ?Hq. }
  destruct (replace_first p y l) as [l'|]; cbn; [done|].
  rewrite find_first_app, Hs. simpl. by rewrite Hy.
Qed.

Lemma elem_of_replaced {A} (p : A → bool) y l : p y = true → y ∈ replace_or_push p y l.
Proof. intros Hp. by eapply find_first_Some, (find_first_replace_or_push p p). Qed.

(** [Vec::retain]. *)
Abbreviation retain := List.filter.

Lemma elem_of_retain {A} (f : A → bool) l x :
  x ∈ List.filter f l ↔ f x = true ∧ x ∈ l.
Proof. rewrite !list_elem_of_In, List.filter_In. tauto. Qed.

Lemma retain_all {A} (f : A → bool) l :
  (∀ x, x ∈ l → f x = true) → List.filter f l = l.
Proof.
  induction l as [|x l IH]; simpl; [done|]. intros H.
  rewrite (H x) by set_solver. rewrite IH by set_solver. done.
Qed.

(** A stable sort by a numeric key ([slice::sort_by_key]): an element is
    placed after every element whose key is not larger. *)
Fixpoint insert_by_key {A} (key : A → N) (x : A) (l : list A) : list A :=
  match l with
  | [] => [x]
  | y :: l' => if (key x <? key y)%N then x :: l else y :: insert_by_key key x l'
  end.

Definition sort_by_key {A} (key : A → N) (l : list A) : list A :=
  foldl (λ acc x, insert_by_key key x acc) [] l.

Section sort_by_key.
Context {A : Type} (key : A → N).

Lemma insert_by_key_perm x l : insert_by_key key x l ≡ₚ x :: l.
Proof.
  induction l as [|y l IH]; simpl; [done|].
  case_match; [done|]. rewrite IH. apply Permutation_swap.
Qed.

Lemma sort_by_key_perm_acc l acc :
  foldl (λ acc x, insert_by_key key x acc) acc l ≡ₚ acc ++ l.
Proof.
  revert acc. induction l as [|x l IH]; intros acc; simpl.
  - by rewrite app_nil_r.
  - rewrite IH, insert_by_key_perm. by rewrite <- Permutation_middle.
Qed.

Lemma sort_by_key_perm l : sort_by_key key l ≡ₚ l.
Proof. apply (sort_by_key_perm_acc l []). Qed.

Lemma insert_by_key_last x l :
  (∀ y, y ∈ l → (key y <= key x)%N) → insert_by_key key x l = l ++ [x].
Proof.
  induction l as [|y l IH]; simpl; intros H; [done|].
  assert (key y <= key x)%N by (apply H; set_solver).
  destruct (N.ltb_spec (key x) (key y)); [lia|].
  rewrite IH; [done|set_solver].
Qed.

Lemma sort_by_key_sorted_acc l acc :
  StronglySorted (λ a b, (key a <= key b)%N) (acc ++ l) →
  foldl (λ acc x, insert_by_key key x acc) acc l = acc ++ l.
Proof.
  revert acc. induction l as [|x l IH]; intros acc Hs; simpl.
  - by rewrite app_nil_r.
  - rewrite insert_by_key_last.
    + rewrite IH; rewrite <- (assoc_L (++)); done.
    + intros y Hy. clear IH. induction acc as [|z acc IHa]; [set_solver|].
      inversion Hs as [|?? Hs' Hall]; subst.
      apply elem_of_cons in Hy as [->|Hy]; [|by apply IHa].
      rewrite Forall_forall in Hall. apply Hall. set_solver.
Qed.

(** A list already in key order is left alone. *)
Lemma sort_by_key_sorted l :
  StronglySorted (λ a b, (key a <= key b)%N) l → sort_by_key key l = l.
Proof. apply (sort_by_key_sorted_acc l []). Qed.
End sort_by_key.

(** ** Prefixes of byte strings *)

(** Decidable prefix test, [slice::starts_with]. *)
Fixpoint starts_with {A} `{EqDecision A} (l p : list A) : bool :=
  match p, l with
  | [], _ => true
  | x :: p', y :: l' => bool_decide (x = y) && starts_with l' p'
  | _ :: _, [] => false
  end.

Lemma starts_with_spec {A} `{EqDecision A} (l p : list A) :
  starts_with l p = true ↔ p `prefix_of` l.
Proof.
  revert l. induction p as [|x p IH]; intros l; simpl.
  - split; intros _; [apply prefix_nil|]. by destruct l.
  - destruct l as [|y l]; simpl.
    + split; [done|]. intros [k Hk]. done.
    + rewrite andb_true_iff, bool_decide_eq_true, IH. split.
      * intros [-> H]. by apply prefix_cons.
      * intros H. split; [by eapply prefix_cons_inv_1|by eapply prefix_cons_inv_2].
Qed.

(** [slice::ends_with]. *)
Definition ends_with {A} `{EqDecision A} (l p : list A) : bool :=
  starts_with (reverse l) (reverse p).

Lemma ends_with_spec {A} `{EqDecision A} (l p : list A) :
  ends_with l p = true ↔ p `suffix_of` l.
Proof.
  unfold ends_with. rewrite starts_with_spec. symmetry. apply suffix_prefix_reverse.
Qed.

(** [x] is a proper prefix of [y]. *)
Definition strict_prefix {A} (x y : list A) : Prop := ∃ k, k ≠ [] ∧ y = x ++ k.

(** ** Automation shared by the components *)

Create HintDb agent.

#[export] Hint Resolve prefix_nil : agent.
#[export] Hint Resolve list_elem_of_here list_elem_of_further : agent.

(** Destruct the scrutinee of a [match] or an [if] in a hypothesis that
    equates a computation with a value, and clean up. *)
Ltac break H :=
  repeat match type of H with
  | context [match ?x with _ => _ end] =>
      first [ is_var x; destruct x
            | let E := fresh "E" in destruct x eqn:E ];
      simplify_eq/=
  end.

Ltac break_goal :=
  repeat match goal with
  | |- context [match ?x with _ => _ end] =>
      first [ is_var x; destruct x
            | let E := fresh "E" in destruct x eqn:E ];
      simplify_eq/=
  end.
