(* ===== verification/Text.v ===== *)
(** * Text: the string operations of the Rust standard library

    Rust's [String]/[&str] are UTF-8 byte strings.  This file models the
    operations on them that the server uses -- [str::from_utf8],
    [String::from_utf8_lossy], [is_char_boundary], [trim], [matches],
    [replace], [replacen], [parse::<u64>] -- on byte lists, with the lemmas
    the components rely on.  It models no file of the repository. *)

From S2P Require Import Prelude.

Local Open Scope N_scope.

(** ** UTF-8 validity ([core::str::from_utf8]) *)

Definition in_range (lo hi : N) (b : byte) : bool :=
  (lo <=? Byte.to_N b) && (Byte.to_N b <=? hi).

Definition is_cont (b : byte) : bool := in_range 128 191 b.

(** The second byte of a three-byte sequence: no overlong forms, no
    surrogates. *)
Definition second3 (b0 b1 : byte) : bool :=
  (in_range 224 224 b0 && in_range 160 191 b1)
  || (in_range 225 236 b0 && in_range 128 191 b1)
  || (in_range 237 237 b0 && in_range 128 159 b1)
  || (in_range 238 239 b0 && in_range 128 191 b1).

(** The second byte of a four-byte sequence: no overlong forms, at most
    U+10FFFF. *)
Definition second4 (b0 b1 : byte) : bool :=
  (in_range 240 240 b0 && in_range 144 191 b1)
  || (in_range 241 243 b0 && in_range 128 191 b1)
  || (in_range 244 244 b0 && in_range 128 143 b1).

(** The width the first byte announces (0: not a first byte). *)
Definition utf8_width (b0 : byte) : nat :=
  if in_range 0 127 b0 then 1
  else if in_range 194 223 b0 then 2
  else if in_range 224 239 b0 then 3
  else if in_range 240 244 b0 then 4
  else 0.

Fixpoint utf8_valid (bs : bytes) : bool :=
  match bs with
  | [] => true
  | b0 :: r0 =>
    match utf8_width b0, r0 with
    | 1%nat, _ => utf8_valid r0
    | 2%nat, b1 :: r1 => is_cont b1 && utf8_valid r1
    | 3%nat, b1 :: b2 :: r2 => second3 b0 b1 && is_cont b2 && utf8_valid r2
    | 4%nat, b1 :: b2 :: b3 :: r3 =>
        second4 b0 b1 && is_cont b2 && is_cont b3 && utf8_valid r3
    | _, _ => false
    end
  end.

(** [String::from_utf8] (the text, when the bytes are valid). *)
Definition from_utf8 (bs : bytes) : option string :=
  if utf8_valid bs then Some (string_of_list_byte bs) else None.

(** One encoded character. *)
Definition utf8_char (c : bytes) : bool :=
  match c with
  | [b0] => bool_decide (utf8_width b0 = 1%nat)
  | [b0; b1] => bool_decide (utf8_width b0 = 2%nat) && is_cont b1
  | [b0; b1; b2] => bool_decide (utf8_width b0 = 3%nat) && second3 b0 b1 && is_cont b2
  | [b0; b1; b2; b3] =>
      bool_decide (utf8_width b0 = 4%nat) && second4 b0 b1 && is_cont b2 && is_cont b3
  | _ => false
  end.

Lemma utf8_char_app c r : utf8_char c = true → utf8_valid (c ++ r) = utf8_valid r.
Proof.
  destruct c as [|b0 [|b1 [|b2 [|b3 [|]]]]]; cbn [utf8_char]; try done;
    rewrite ?andb_true_iff, bool_decide_eq_true; intros; destruct_and?;
    cbn [utf8_valid app];
    repeat match goal with H : _ = _ |- _ => rewrite H; clear H end; done.
Qed.

Lemma utf8_valid_cons bs :
  utf8_valid bs = true → bs ≠ [] →
  ∃ c r, utf8_char c = true ∧ bs = c ++ r ∧ utf8_valid r = true.
Proof.
  destruct bs as [|b0 r0]; [done|]. intros H _. cbn [utf8_valid] in H.
  destruct (utf8_width b0) as [|[|[|[|[|]]]]] eqn:W; try done.
  - exists [b0], r0. cbn [utf8_char]. rewrite W. done.
  - destruct r0 as [|b1 r1]; [done|]. apply andb_true_iff in H as [H1 H2].
    exists [b0; b1], r1. cbn [utf8_char]. rewrite W, H1. done.
  - destruct r0 as [|b1 [|b2 r2]]; try done.
    apply andb_true_iff in H as [H1 H2]. exists [b0; b1; b2], r2.
    cbn [utf8_char]. rewrite W, <- (andb_assoc _ _ (is_cont b2)), H1. done.
  - destruct r0 as [|b1 [|b2 [|b3 r3]]]; try done.
    apply andb_true_iff in H as [H1 H2]. exists [b0; b1; b2; b3], r3.
    cbn [utf8_char]. rewrite W, <- !(andb_assoc true). cbn [andb].
    rewrite <- (andb_true_l (second4 _ _ && _ && _)) in H1. done.
Qed.

Lemma utf8_char_nonempty c : utf8_char c = true → c ≠ [].
Proof. by destruct c. Qed.

(** Induction over the characters of a valid text. *)
Lemma utf8_ind (P : bytes → Prop) :
  P [] →
  (∀ c r, utf8_char c = true → utf8_valid r = true → P r → P (c ++ r)) →
  ∀ bs, utf8_valid bs = true → P bs.
Proof.
  intros H0 HS bs. remember (length bs) as n eqn:Hn.
  revert bs Hn. induction (lt_wf n) as [n _ IH]; intros bs -> Hv.
  destruct (decide (bs = [])) as [->|Hne]; [done|].
  destruct (utf8_valid_cons bs Hv Hne) as (c & r & Hc & -> & Hr).
  apply HS; [done..|]. eapply IH; [|done..].
  pose proof (utf8_char_nonempty c Hc). destruct c; [done|].
  rewrite length_app. simpl. lia.
Qed.

Lemma utf8_valid_app a b :
  utf8_valid a = true → utf8_valid (a ++ b) = utf8_valid b.
Proof.
  intros Ha. revert a Ha. apply utf8_ind; [done|]. intros c r Hc _ IH.
  by rewrite <- (assoc_L (++)), utf8_char_app.
Qed.

Lemma utf8_valid_app_2 a b :
  utf8_valid a = true → utf8_valid b = true → utf8_valid (a ++ b) = true.
Proof. intros Ha Hb. by rewrite utf8_valid_app. Qed.

(** Every byte of a character after its first is a continuation byte, and
    its first byte is not one. *)
Lemma second_is_cont b0 b1 :
  second3 b0 b1 = true ∨ second4 b0 b1 = true → is_cont b1 = true.
Proof.
  unfold second3, second4, is_cont, in_range.
  rewrite !orb_true_iff, !andb_true_iff, !N.leb_le. lia.
Qed.

Lemma utf8_char_tail c i b :
  utf8_char c = true → (0 < i)%nat → c !! i = Some b → is_cont b = true.
Proof.
  intros Hc Hi Hb.
  destruct c as [|b0 [|b1 [|b2 [|b3 [|]]]]]; cbn [utf8_char] in Hc; try done;
    rewrite ?andb_true_iff in Hc; destruct_and?;
    destruct i as [|[|[|[|]]]]; simplify_eq/=; try lia; try done;
    eapply second_is_cont; eauto.
Qed.

Lemma utf8_char_head c b :
  utf8_char c = true → c !! 0%nat = Some b → is_cont b = false.
Proof.
  intros Hc Hb.
  assert (utf8_width b ≠ 0%nat) as Hw.
  { destruct c as [|b0 [|b1 [|b2 [|b3 [|]]]]]; cbn [utf8_char] in Hc; try done;
      rewrite ?andb_true_iff, bool_decide_eq_true in Hc; destruct_and?;
      simplify_eq/=; congruence. }
  unfold utf8_width, is_cont, in_range in *.
  destruct (128 <=? Byte.to_N b) eqn:E1; [|done].
  destruct (Byte.to_N b <=? 191) eqn:E2; [|done]. exfalso. apply Hw.
  rewrite N.leb_le in E1, E2.
  repeat match goal with |- context [(?x <=? ?y)] => destruct (N.leb_spec x y); try lia end;
    done.
Qed.

(** ** Character boundaries ([str::is_char_boundary]) *)

Definition is_char_boundary (s : bytes) (i : nat) : bool :=
  match i with
  | O => true
  | _ => match s !! i with
         | Some b => negb (is_cont b)
         | None => bool_decide (i = length s)
         end
  end.

Lemma is_char_boundary_end s : is_char_boundary s (length s) = true.
Proof.
  unfold is_char_boundary. destruct (length s) eqn:E; [done|].
  rewrite lookup_ge_None_2 by lia. by rewrite bool_decide_eq_true.
Qed.

(** Slicing a valid text at a boundary gives two valid texts: the code's
    [&s[a..b]] neither panics nor produces an invalid [str]. *)
Lemma boundary_split s i :
  utf8_valid s = true → is_char_boundary s i = true →
  utf8_valid (take i s) = true ∧ utf8_valid (drop i s) = true.
Proof.
  intros Hs. revert s Hs i.
  refine (utf8_ind (λ s, ∀ i, is_char_boundary s i = true → _ ∧ _) _ _).
  { intros [|i] _; done. }
  intros c r Hc Hr IH i Hi.
  destruct (decide (i = 0)%nat) as [->|Hi0].
  { rewrite take_0, drop_0, utf8_char_app; done. }
  destruct (decide (i < length c)%nat) as [Hlt|Hge].
  - exfalso. unfold is_char_boundary in Hi. destruct i; [done|].
    destruct (lookup_lt_is_Some_2 c (S i) Hlt) as [b Hb].
    rewrite (lookup_app_l_Some _ _ _ _ Hb) in Hi.
    by rewrite (utf8_char_tail c (S i) b) in Hi by (done || lia).
  - rewrite take_app_ge, drop_app_ge by lia.
    rewrite utf8_char_app by done. apply IH.
    unfold is_char_boundary in Hi |- *. destruct i; [done|].
    rewrite lookup_app_r in Hi by lia.
    destruct (S i - length c)%nat eqn:E; [done|]. destruct (r !! S n); [done|].
    rewrite bool_decide_eq_true in Hi |- *. rewrite length_app in Hi. lia.
Qed.

(** A character is at most four bytes long, so a boundary is never more than
    three bytes away. *)
Lemma boundary_near s i :
  utf8_valid s = true → (i <= length s)%nat →
  ∃ j, (i <= j)%nat ∧ (j <= i + 3)%nat ∧ (j <= length s)%nat ∧ is_char_boundary s j = true.
Proof.
  intros Hs. revert s Hs i.
  refine (utf8_ind (λ s, ∀ i, (i <= length s)%nat → ∃ j, _) _ _).
  { intros i Hi. exists i. simpl in Hi. assert (i = 0)%nat as -> by lia. split_and!; [lia..|done]. }
  intros c r Hc Hr IH i Hi. rewrite length_app in Hi.
  assert (length c <= 4)%nat as Hlen.
  { destruct c as [|? [|? [|? [|? [|]]]]]; cbn in Hc |- *; lia || done. }
  assert (∀ j, is_char_boundary r j = true → (j <= length r)%nat →
    is_char_boundary (c ++ r) (length c + j) = true) as Hshift.
  { intros j Hj Hjr. destruct (decide (j = 0)%nat) as [->|Hj0]; [clear Hj Hjr|].
    - rewrite Nat.add_0_r. unfold is_char_boundary.
      destruct (length c) eqn:El; [done|]. rewrite <- El.
      rewrite lookup_app_r, Nat.sub_diag by done.
      destruct r as [|b0 r0]; [simpl; rewrite bool_decide_eq_true, length_app; simpl; lia|].
      destruct (utf8_valid_cons (b0 :: r0) Hr) as (c' & r' & Hc' & Heq & _); [done|].
      pose proof (utf8_char_nonempty c' Hc'). destruct c' as [|b' c']; [done|].
      cbn in Heq. injection Heq as -> _. cbn. by rewrite (utf8_char_head (b' :: c') b' Hc').
    - unfold is_char_boundary in *. destruct j; [done|].
      destruct (length c + S j)%nat eqn:El; [lia|]. rewrite <- El.
      rewrite lookup_app_r by lia. replace (length c + S j - length c)%nat with (S j) by lia.
      destruct (r !! S j); [done|]. rewrite bool_decide_eq_true in Hj |- *.
      rewrite length_app. lia. }
  destruct (decide (length c <= i)%nat) as [Hci|Hci].
  - destruct (IH (i - length c)%nat) as (j & H1 & H2 & H3 & H4); [lia|].
    exists (length c + j)%nat. rewrite length_app. split_and!; [lia..|]. by apply Hshift.
  - destruct (decide (i = 0)%nat) as [->|Hi0].
    + exists 0%nat. split_and!; [lia..|done].
    + exists (length c). rewrite length_app. split_and!; [lia..|].
      rewrite <- (Nat.add_0_r (length c)). apply Hshift; [done|lia].
Qed.

(** ** [str::trim] *)

(** The UTF-8 encodings of the characters with the White_Space property. *)
Definition whitespace : list bytes :=
  (λ b, [b]) <$> [Byte.x09; Byte.x0a; Byte.x0b; Byte.x0c; Byte.x0d; Byte.x20].
Definition whitespace_wide : list bytes :=
  [[Byte.xc2; Byte.x85]; [Byte.xc2; Byte.xa0]; [Byte.xe1; Byte.x9a; Byte.x80]]
  ++ ((λ b, [Byte.xe2; Byte.x80; b]) <$>
       [Byte.x80; Byte.x81; Byte.x82; Byte.x83; Byte.x84; Byte.x85; Byte.x86;
        Byte.x87; Byte.x88; Byte.x89; Byte.x8a; Byte.xa8; Byte.xa9; Byte.xaf])
  ++ [[Byte.xe2; Byte.x81; Byte.x9f]; [Byte.xe3; Byte.x80; Byte.x80]].

(** Strip whitespace characters from the front; [ws] lists the encodings,
    each read in the direction of travel. *)
Fixpoint strip_ws (ws : list bytes) (fuel : nat) (s : bytes) : bytes :=
  match fuel with
  | O => s
  | S fuel' =>
      match find_first (starts_with s) ws with
      | Some w => strip_ws ws fuel' (drop (length w) s)
      | None => s
      end
  end.

Definition trim_start (s : bytes) : bytes :=
  strip_ws (whitespace ++ whitespace_wide) (length s) s.
Definition trim_end (s : bytes) : bytes :=
  reverse (strip_ws (reverse <$> (whitespace ++ whitespace_wide)) (length s) (reverse s)).
Definition trim (s : bytes) : bytes := trim_end (trim_start s).

Lemma strip_ws_id ws fuel s :
  (∀ w, w ∈ ws → starts_with s w = false) → strip_ws ws fuel s = s.
Proof.
  intros H. destruct fuel; [done|]. simpl.
  by rewrite (proj2 (find_first_None _ _)).
Qed.

Lemma not_ws_head b s :
  is_cont b = false → in_range 9 13 b = false → b ≠ Byte.x20 →
  b ≠ Byte.xc2 → b ≠ Byte.xe1 → b ≠ Byte.xe2 → b ≠ Byte.xe3 →
  ∀ w, w ∈ whitespace ++ whitespace_wide → starts_with (b :: s) w = false.
Proof.
  intros _ Hr ?????. apply Forall_forall.
  repeat (apply Forall_cons; split; [|]); [.. | by apply Forall_nil];
    cbn [starts_with]; rewrite andb_false_iff, bool_decide_eq_false; left;
    first [ congruence | intros <-; discriminate ].
Qed.

Lemma not_ws_last b s :
  in_range 33 126 b = true →
  ∀ w, w ∈ reverse <$> (whitespace ++ whitespace_wide) → starts_with (b :: s) w = false.
Proof.
  intros Hr. apply Forall_forall.
  repeat (apply Forall_cons; split; [|]); [.. | by apply Forall_nil];
    cbn; rewrite andb_false_iff, bool_decide_eq_false; left;
    intros <-; discriminate.
Qed.

(** A text that starts with printable ASCII keeps its start. *)
Lemma trim_start_printable b s :
  in_range 33 126 b = true → trim_start (b :: s) = b :: s.
Proof.
  intros Hb. apply strip_ws_id, not_ws_head;
    unfold is_cont, in_range in *; rewrite andb_true_iff, !N.leb_le in Hb;
    first [ apply andb_false_iff; rewrite !N.leb_gt; lia
          | intros ->; vm_compute in Hb; destruct Hb; congruence ].
Qed.

(** A text that starts and ends with printable ASCII is its own trim, also
    when a newline follows. *)
Lemma trim_printable b m e :
  in_range 33 126 b = true → in_range 33 126 e = true →
  trim (b :: m ++ [e]) = b :: m ++ [e].
Proof.
  intros Hb He. unfold trim. rewrite trim_start_printable by done.
  unfold trim_end. rewrite strip_ws_id; [by rewrite reverse_involutive|].
  rewrite app_comm_cons, reverse_app. by apply (not_ws_last e).
Qed.

Lemma strip_nl n x :
  strip_ws (reverse <$> (whitespace ++ whitespace_wide)) (S n) (nl :: x)
  = strip_ws (reverse <$> (whitespace ++ whitespace_wide)) n x.
Proof. by destruct x. Qed.

Lemma trim_printable_line b l m e :
  in_range 33 126 b = true → in_range 33 126 e = true → b :: l = m ++ [e] →
  trim ((b :: l) ++ [nl]) = b :: l.
Proof.
  intros Hb He Hl. unfold trim. rewrite <- app_comm_cons, trim_start_printable by done.
  unfold trim_end. rewrite app_comm_cons, reverse_snoc, length_app, Nat.add_1_r, strip_nl.
  rewrite Hl, reverse_snoc, strip_ws_id; [by rewrite <- reverse_snoc, reverse_involutive|].
  by apply not_ws_last.
Qed.

(** ** Substring search and replacement

    [str::matches(..).count()], [str::replace] and [str::replacen] visit the
    leftmost non-overlapping occurrences of a non-empty pattern.  The
    functions scan the text once; [skip] counts the bytes of an occurrence
    still to be passed over. *)

Fixpoint count_go (pat : bytes) (skip : nat) (s : bytes) : nat :=
  match s with
  | [] => 0
  | _ :: s' =>
    match skip with
    | S k => count_go pat k s'
    | O => if starts_with s pat then S (count_go pat (length pat - 1) s')
           else count_go pat 0 s'
    end
  end.
Definition count_matches (s pat : bytes) : nat := count_go pat 0 s.

Fixpoint replace_go (pat rep : bytes) (limit : option nat) (skip : nat) (s : bytes) : bytes :=
  match s with
  | [] => []
  | b :: s' =>
    match skip with
    | S k => replace_go pat rep limit k s'
    | O => if bool_decide (limit ≠ Some 0%nat) && starts_with s pat
           then rep ++ replace_go pat rep (pred <$> limit) (length pat - 1) s'
           else b :: replace_go pat rep limit 0 s'
    end
  end.
Definition replace (s pat rep : bytes) : bytes := replace_go pat rep None 0 s.
Definition replacen (s pat rep : bytes) (n : nat) : bytes := replace_go pat rep (Some n) 0 s.

(** [pat] occurs in [s] at byte offset [length pre]. *)
Definition occurs_at (s pat pre : bytes) : Prop := (pre ++ pat) `prefix_of` s.
Definition occurs (s pat : bytes) : Prop := ∃ pre, occurs_at s pat pre.

Lemma count_go_skip pat k s : count_go pat k s = count_go pat 0 (drop k s).
Proof.
  revert s. induction k as [|k IH]; intros s; [by rewrite drop_0|].
  destruct s; [done|]. apply IH.
Qed.

Lemma replace_go_skip pat rep lim k s :
  replace_go pat rep lim k s = replace_go pat rep lim 0 (drop k s).
Proof.
  revert s. induction k as [|k IH]; intros s; [by rewrite drop_0|].
  destruct s; [done|]. apply IH.
Qed.

Lemma replace_go_0 pat rep s : replace_go pat rep (Some 0%nat) 0 s = s.
Proof. induction s as [|b s IH]; [done|]. cbn. by rewrite IH. Qed.

(** No occurrence: nothing is counted and nothing changes. *)
Lemma no_occurrence s pat rep lim :
  pat ≠ [] → ¬ occurs s pat →
  count_matches s pat = 0%nat ∧ replace_go pat rep lim 0 s = s.
Proof.
  intros Hp. unfold count_matches. induction s as [|b s IH]; intros Hno; [done|].
  assert (starts_with (b :: s) pat = false) as Hs.
  { apply not_true_is_false. intros H%starts_with_spec. apply Hno. by exists []. }
  destruct IH as [IH1 IH2].
  { intros [pre Hpre]. apply Hno. exists (b :: pre). by apply prefix_cons. }
  split; cbn [count_go replace_go]; rewrite Hs, ?andb_false_r; [done|by rewrite IH2].
Qed.

(** An occurrence at the front is counted and replaced. *)
Lemma match_here pat post rep :
  pat ≠ [] →
  count_matches (pat ++ post) pat = S (count_matches post pat) ∧
  replace (pat ++ post) pat rep = rep ++ replace post pat rep ∧
  replacen (pat ++ post) pat rep 1 = rep ++ post.
Proof.
  intros Hp. destruct pat as [|p0 pat']; [done|].
  assert (starts_with (p0 :: pat' ++ post) (p0 :: pat') = true) as Hs.
  { apply starts_with_spec. by exists post. }
  unfold count_matches, replace, replacen. cbn [app count_go replace_go].
  rewrite Hs. cbn [length]. rewrite Nat.sub_succ, Nat.sub_0_r.
  rewrite count_go_skip, (replace_go_skip _ _ (_ <$> None)).
  rewrite (replace_go_skip _ _ (_ <$> Some _)), drop_app_length. cbn.
  by rewrite replace_go_0.
Qed.

(** [pre] ends where the leftmost occurrence of [pat] starts. *)
Definition leftmost (s pat pre : bytes) : Prop :=
  occurs_at s pat pre ∧ ∀ pre', occurs_at s pat pre' → (length pre <= length pre')%nat.

(** The leftmost occurrence: the text before it is copied. *)
Lemma match_leftmost s pat :
  pat ≠ [] → occurs s pat →
  ∃ pre post, s = pre ++ pat ++ post ∧ leftmost s pat pre ∧
    count_matches s pat = S (count_matches post pat) ∧
    ∀ rep, replace s pat rep = pre ++ rep ++ replace post pat rep ∧
           replacen s pat rep 1 = pre ++ rep ++ post.
Proof.
  intros Hp. induction s as [|b s IH]; intros Ho.
  { destruct Ho as [pre [k Hk]]. symmetry in Hk.
    apply app_nil in Hk as [Hk _]. apply app_nil in Hk as [_ Hk]. done. }
  destruct (starts_with (b :: s) pat) eqn:Hs.
  - apply starts_with_spec in Hs as [post Hs]. rewrite Hs.
    exists [], post. split; [done|].
    split; [split; [by exists post|simpl; lia]|].
    split; [by apply (match_here pat post [])|].
    intros rep. by destruct (match_here pat post rep Hp) as (_ & -> & ->).
  - assert (∀ pre, occurs_at (b :: s) pat pre →
      ∃ pre', pre = b :: pre' ∧ occurs_at s pat pre') as Hnot.
    { intros [|b' pre] [k Hk].
      - exfalso. apply not_true_iff_false in Hs. apply Hs, starts_with_spec.
        by exists k.
      - simplify_eq/=. exists pre. split; [done|]. by exists k. }
    destruct IH as (pre & post & -> & [Hat Hleft] & Hc & Hr).
    { destruct Ho as [pre Hpre]. destruct (Hnot pre Hpre) as (pre' & _ & ?). by exists pre'. }
    exists (b :: pre), post. split; [done|]. split.
    { split; [by apply prefix_cons|]. intros pre' (pre'' & -> & Hp')%Hnot.
      apply Hleft in Hp'. simpl. lia. }
    unfold count_matches, replace, replacen in *. cbn [count_go replace_go].
    rewrite Hs, !andb_false_r. split; [done|].
    intros rep. destruct (Hr rep) as [-> ->]. done.
Qed.

Lemma match_first s pat :
  pat ≠ [] → occurs s pat →
  ∃ pre post, s = pre ++ pat ++ post ∧
    count_matches s pat = S (count_matches post pat) ∧
    ∀ rep, replace s pat rep = pre ++ rep ++ replace post pat rep ∧
           replacen s pat rep 1 = pre ++ rep ++ post.
Proof.
  intros Hp Ho. destruct (match_leftmost s pat Hp Ho) as (pre & post & ? & _ & ?). eauto.
Qed.

Lemma count_matches_pos s pat :
  pat ≠ [] → (0 < count_matches s pat)%nat ↔ occurs s pat.
Proof.
  intros Hp. split.
  - intros Hc. destruct (decide (count_matches s pat = 0%nat)); [lia|].
    (* The scan is a decision procedure for [occurs]. *)
    revert Hc. unfold count_matches. clear n. induction s as [|b s IH]; [cbn; lia|].
    cbn [count_go]. destruct (starts_with (b :: s) pat) eqn:Hs.
    + intros _. apply starts_with_spec in Hs. by exists [].
    + intros H. destruct (IH H) as [pre Hpre]. exists (b :: pre). by apply prefix_cons.
  - intros Ho. destruct (match_first s pat Hp Ho) as (?&?&?&->&?). lia.
Qed.

Lemma count_matches_zero s pat :
  pat ≠ [] → count_matches s pat = 0%nat ↔ ¬ occurs s pat.
Proof. intros Hp. rewrite <- count_matches_pos by done. lia. Qed.

(** Induction over the occurrences a scan visits. *)
Lemma matches_ind pat (P : bytes → Prop) :
  pat ≠ [] →
  (∀ s, ¬ occurs s pat → P s) →
  (∀ pre post, occurs (pre ++ pat ++ post) pat →
     count_matches (pre ++ pat ++ post) pat = S (count_matches post pat) →
     (∀ rep, replace (pre ++ pat ++ post) pat rep = pre ++ rep ++ replace post pat rep) →
     P post → P (pre ++ pat ++ post)) →
  ∀ s, P s.
Proof.
  intros Hp H0 HS s. remember (length s) as n eqn:Hn. revert s Hn.
  induction (lt_wf n) as [n _ IH]; intros s ->.
  destruct (decide (count_matches s pat = 0%nat)) as [Hz|Hnz].
  { apply H0. by apply count_matches_zero. }
  assert (occurs s pat) as Ho by (apply count_matches_pos; [done|lia]).
  destruct (match_first s pat Hp Ho) as (pre & post & -> & Hc & Hr).
  apply HS; [done|done|by intros; apply Hr|]. eapply IH; [|done].
  rewrite !length_app. destruct pat; [done|]. simpl. lia.
Qed.

(** [t] is [s] with [n] occurrences of [pat], each the leftmost one after
    the one before it, replaced by [rep]. *)
Inductive replaced (pat rep : bytes) : bytes → bytes → nat → Prop :=
| replaced_none s : ¬ occurs s pat → replaced pat rep s s 0
| replaced_next pre post post' n :
    leftmost (pre ++ pat ++ post) pat pre → replaced pat rep post post' n →
    replaced pat rep (pre ++ pat ++ post) (pre ++ rep ++ post') (S n).

Lemma replace_replaced s pat rep :
  pat ≠ [] → replaced pat rep s (replace s pat rep) (count_matches s pat).
Proof.
  intros Hp. remember (length s) as n eqn:Hn. revert s Hn.
  induction (lt_wf n) as [n _ IH]; intros s ->.
  destruct (decide (count_matches s pat = 0%nat)) as [Hz|Hnz].
  { rewrite Hz. apply count_matches_zero in Hz; [|done]. unfold replace.
    destruct (no_occurrence s pat rep None Hp Hz) as [_ ->]. by constructor. }
  assert (occurs s pat) as Ho by (apply count_matches_pos; [done|lia]).
  destruct (match_leftmost s pat Hp Ho) as (pre & post & -> & Hl & -> & Hr).
  destruct (Hr rep) as [-> _]. constructor; [done|]. eapply IH; [|done].
  rewrite !length_app. destruct pat; [done|]. simpl. lia.
Qed.

(** Two matches are counted exactly when two disjoint occurrences exist. *)
Lemma count_matches_two s pat :
  pat ≠ [] →
  (1 < count_matches s pat)%nat ↔
  ∃ pre mid post, s = pre ++ pat ++ mid ++ pat ++ post.
Proof.
  intros Hp. split.
  - intros Hc. assert (occurs s pat) as Ho by (apply count_matches_pos; [done|lia]).
    destruct (match_first s pat Hp Ho) as (pre & post & -> & Hc' & _).
    assert (occurs post pat) as Ho' by (apply count_matches_pos; [done|lia]).
    destruct (match_first post pat Hp Ho') as (mid & post' & -> & _).
    by exists pre, mid, post'.
  - intros (pre & mid & post & ->).
    assert (occurs (pre ++ pat ++ mid ++ pat ++ post) pat) as Ho.
    { exists pre, (mid ++ pat ++ post). by rewrite <- !(assoc_L (++)). }
    destruct (match_leftmost _ pat Hp Ho) as (pre0 & post0 & Heq & [_ Hl] & -> & _).
    assert (length pre0 <= length pre)%nat as Hle.
    { apply Hl. exists (mid ++ pat ++ post). by rewrite <- !(assoc_L (++)). }
    assert (occurs post0 pat) as Ho'.
    { apply (f_equal (drop (length (pre0 ++ pat)))) in Heq.
      rewrite (assoc_L (++) pre0), drop_app_length in Heq. rewrite <- Heq.
      rewrite (assoc_L (++) pre), drop_app_le by (rewrite !length_app; lia).
      exists (drop (length (pre0 ++ pat)) (pre ++ pat) ++ mid). exists post.
      by rewrite <- !(assoc_L (++)). }
    apply count_matches_pos in Ho'; [lia|done].
Qed.

(** Replacing every match changes the length by the difference of the two
    texts, once per match. *)
Lemma length_replace s pat rep :
  pat ≠ [] →
  (length (replace s pat rep) + count_matches s pat * length pat =
   length s + count_matches s pat * length rep)%nat.
Proof.
  intros Hp. revert s. apply (matches_ind pat); [done|..].
  - intros s Hno. unfold replace.
    destruct (no_occurrence s pat rep None Hp Hno) as [-> ->]. lia.
  - intros pre post _ Hc Hr IH. rewrite Hc, Hr, !length_app. lia.
Qed.

Lemma replace_changes s pat rep :
  pat ≠ [] → pat ≠ rep → occurs s pat →
  replace s pat rep ≠ s ∧ replacen s pat rep 1 ≠ s.
Proof.
  intros Hp Hne Ho. pose proof (length_replace s pat rep Hp) as Hlen.
  pose proof (proj2 (count_matches_pos s pat Hp) Ho) as Hpos.
  destruct (match_first s pat Hp Ho) as (pre & post & -> & Hc & Hr).
  destruct (Hr rep) as [Ha H1]. split.
  - intros Heq. destruct (decide (length pat = length rep)) as [Hl|Hl].
    + rewrite Ha in Heq. apply app_inv_head, app_inj_1 in Heq as [? _]; congruence.
    + rewrite Heq in Hlen. apply Hl.
      assert (count_matches (pre ++ pat ++ post) pat * length pat =
              count_matches (pre ++ pat ++ post) pat * length rep)%nat as Hm by lia.
      eapply Nat.mul_cancel_l; [|exact Hm]. lia.
  - rewrite H1. intros Heq%app_inv_head.
    destruct (decide (length pat = length rep)) as [Hl|Hl].
    + apply app_inj_1 in Heq as [? _]; congruence.
    + apply (f_equal length) in Heq. rewrite !length_app in Heq. lia.
Qed.

(** The pieces around an occurrence of a valid text in a valid text are
    valid: UTF-8 is self-synchronising. *)
Lemma occurrence_valid pre pat post :
  pat ≠ [] → utf8_valid pat = true → utf8_valid (pre ++ pat ++ post) = true →
  utf8_valid pre = true ∧ utf8_valid post = true.
Proof.
  intros Hp Hv Hs.
  assert (is_char_boundary (pre ++ pat ++ post) (length pre) = true) as Hb.
  { unfold is_char_boundary. destruct (length pre) eqn:Hl; [done|]. rewrite <- Hl.
    destruct (utf8_valid_cons pat Hv Hp) as (c & r & Hc & -> & _).
    pose proof (utf8_char_nonempty c Hc). destruct c as [|b c]; [done|].
    rewrite lookup_app_r, Nat.sub_diag by done. simpl.
    by rewrite (utf8_char_head (b :: c) b Hc). }
  destruct (boundary_split _ _ Hs Hb) as [H1 H2].
  rewrite take_app_length in H1. rewrite drop_app_length in H2.
  split; [done|]. by rewrite utf8_valid_app in H2.
Qed.

Lemma replace_valid s pat rep :
  pat ≠ [] → utf8_valid pat = true → utf8_valid rep = true → utf8_valid s = true →
  utf8_valid (replace s pat rep) = true.
Proof.
  intros Hp Hv Hr. revert s.
  apply (matches_ind pat (λ s, utf8_valid s = true →
           utf8_valid (replace s pat rep) = true)); [done|..].
  - intros s Hno Hs. unfold replace.
    by destruct (no_occurrence s pat rep None Hp Hno) as [_ ->].
  - intros pre post _ _ Heq IH Hs.
    destruct (occurrence_valid pre pat post Hp Hv Hs) as [Hpre Hpost].
    rewrite Heq, !utf8_valid_app; auto.
Qed.

Lemma replacen_1_valid s pat rep :
  pat ≠ [] → utf8_valid pat = true → utf8_valid rep = true → utf8_valid s = true →
  utf8_valid (replacen s pat rep 1) = true.
Proof.
  intros Hp Hv Hr Hs. destruct (decide (count_matches s pat = 0%nat)) as [Hz|Hnz].
  - apply count_matches_zero in Hz; [|done]. unfold replacen.
    by destruct (no_occurrence s pat rep (Some 1%nat) Hp Hz) as [_ ->].
  - assert (occurs s pat) as Ho by (apply count_matches_pos; [done|lia]).
    destruct (match_first s pat Hp Ho) as (pre & post & -> & _ & Hq).
    destruct (Hq rep) as [_ ->].
    destruct (occurrence_valid pre pat post Hp Hv Hs) as [Hpre Hpost].
    rewrite !utf8_valid_app; auto.
Qed.

(** ** [String::from_utf8_lossy]

    Each maximal ill-formed subpart becomes U+FFFD. *)

Definition replacement_char : bytes := [Byte.xef; Byte.xbf; Byte.xbd].

Fixpoint from_utf8_lossy (bs : bytes) : bytes :=
  match bs with
  | [] => []
  | b0 :: r0 =>
    match utf8_width b0 with
    | 1%nat => b0 :: from_utf8_lossy r0
    | 2%nat =>
      match r0 with
      | b1 :: r1 => if is_cont b1 then b0 :: b1 :: from_utf8_lossy r1
                    else replacement_char ++ from_utf8_lossy r0
      | [] => replacement_char
      end
    | 3%nat =>
      match r0 with
      | b1 :: r1 =>
        if second3 b0 b1 then
          match r1 with
          | b2 :: r2 => if is_cont b2 then b0 :: b1 :: b2 :: from_utf8_lossy r2
                        else replacement_char ++ from_utf8_lossy r1
          | [] => replacement_char
          end
        else replacement_char ++ from_utf8_lossy r0
      | [] => replacement_char
      end
    | 4%nat =>
      match r0 with
      | b1 :: r1 =>
        if second4 b0 b1 then
          match r1 with
          | b2 :: r2 =>
            if is_cont b2 then
              match r2 with
              | b3 :: r3 => if is_cont b3 then b0 :: b1 :: b2 :: b3 :: from_utf8_lossy r3
                            else replacement_char ++ from_utf8_lossy r2
              | [] => replacement_char
              end
            else replacement_char ++ from_utf8_lossy r1
          | [] => replacement_char
          end
        else replacement_char ++ from_utf8_lossy r0
      | [] => replacement_char
      end
    | _ => replacement_char ++ from_utf8_lossy r0
    end
  end.

Lemma from_utf8_lossy_char c r :
  utf8_char c = true → from_utf8_lossy (c ++ r) = c ++ from_utf8_lossy r.
Proof.
  destruct c as [|b0 [|b1 [|b2 [|b3 [|]]]]]; cbn [utf8_char]; try done;
    rewrite ?andb_true_iff, bool_decide_eq_true; intros; destruct_and?;
    cbn [from_utf8_lossy app];
    repeat match goal with H : _ = _ |- _ => rewrite H; clear H end; done.
Qed.

(** Valid text is returned as it is. *)
Lemma from_utf8_lossy_valid bs : utf8_valid bs = true → from_utf8_lossy bs = bs.
Proof.
  revert bs. apply utf8_ind; [done|]. intros c r Hc _ IH.
  by rewrite from_utf8_lossy_char, IH.
Qed.

Lemma from_utf8_lossy_is_valid bs : utf8_valid (from_utf8_lossy bs) = true.
Proof.
  remember (length bs) as n eqn:Hn. revert bs Hn.
  induction (lt_wf n) as [n _ IH]; intros bs ->.
  assert (∀ r, (length r < length bs)%nat → utf8_valid (from_utf8_lossy r) = true) as IH'.
  { intros r Hr. by eapply IH. }
  clear IH. destruct bs as [|b0 r0]; [done|]. cbn [from_utf8_lossy].
  assert (∀ r, (length r < length (b0 :: r0))%nat →
            utf8_valid (replacement_char ++ from_utf8_lossy r) = true) as HR.
  { intros r Hr. rewrite utf8_valid_app; [by apply IH'|done]. }
  destruct (utf8_width b0) as [|[|[|[|[|]]]]] eqn:W;
    [apply HR; simpl; lia|..|apply HR; simpl; lia].
  - cbn [utf8_valid]. rewrite W. apply IH'. simpl. lia.
  - destruct r0 as [|b1 r1]; [done|].
    destruct (is_cont b1) eqn:E1; [|apply HR; simpl; lia].
    cbn [utf8_valid]. rewrite W, E1. apply IH'. simpl. lia.
  - destruct r0 as [|b1 r1]; [done|].
    destruct (second3 b0 b1) eqn:E1; [|apply HR; simpl; lia].
    destruct r1 as [|b2 r2]; [done|].
    destruct (is_cont b2) eqn:E2; [|apply HR; simpl; lia].
    cbn [utf8_valid]. rewrite W, E1, E2. apply IH'. simpl. lia.
  - destruct r0 as [|b1 r1]; [done|].
    destruct (second4 b0 b1) eqn:E1; [|apply HR; simpl; lia].
    destruct r1 as [|b2 r2]; [done|].
    destruct (is_cont b2) eqn:E2; [|apply HR; simpl; lia].
    destruct r2 as [|b3 r3]; [done|].
    destruct (is_cont b3) eqn:E3; [|apply HR; simpl; lia].
    cbn [utf8_valid]. rewrite W, E1, E2, E3. apply IH'. simpl. lia.
Qed.

(** ** [str::parse::<u64>()] and decimal formatting *)

Definition digit_of (c : ascii) : option N :=
  let n := N_of_ascii c in
  if (48 <=? n) && (n <=? 57) then Some (n - 48) else None.

(** [checked_mul(10)] then [checked_add(digit)], digit by digit. *)
Fixpoint parse_digits (acc : N) (s : string) : option N :=
  match s with
  | EmptyString => Some acc
  | String c s' =>
      d ← digit_of c;
      if acc * 10 + d <=? u64_max then parse_digits (acc * 10 + d) s' else None
  end.

Definition parse_u64 (s : string) : option N :=
  match s with
  | EmptyString => None
  | String "+"%char EmptyString => None
  | String "+"%char s' => parse_digits 0 s'
  | _ => parse_digits 0 s
  end.

(** No character of [s] is [c]. *)
Fixpoint lacks (c : ascii) (s : string) : bool :=
  match s with EmptyString => true | String d s' => negb (Ascii.eqb d c) && lacks c s' end.
Abbreviation no_slash := (lacks "/").

Lemma lacks_append c a b : lacks c (a +:+ b) = lacks c a && lacks c b.
Proof.
  induction a as [|d a IH]; [done|].
  change (negb (Ascii.eqb d c) && lacks c (a +:+ b) = negb (Ascii.eqb d c) && lacks c a && lacks c b).
  by rewrite IH, andb_assoc.
Qed.

(** [str::strip_prefix]. *)
Fixpoint strip_prefix (s pre : string) : option string :=
  match pre, s with
  | EmptyString, _ => Some s
  | String c pre', String d s' => if bool_decide (c = d) then strip_prefix s' pre' else None
  | String _ _, EmptyString => None
  end.

Lemma strip_prefix_append pre s : strip_prefix (pre +:+ s) pre = Some s.
Proof.
  induction pre as [|c pre IH]; [by destruct s|].
  change (String c pre +:+ s) with (String c (pre +:+ s)).
  cbn [strip_prefix]. by rewrite bool_decide_true.
Qed.

Lemma digit_of_pretty x :
  x < 10 → digit_of (pretty_N_char x) = Some x ∧ pretty_N_char x ≠ "+"%char.
Proof.
  intros Hx.
  assert (x = 0 ∨ x = 1 ∨ x = 2 ∨ x = 3 ∨ x = 4 ∨ x = 5 ∨ x = 6 ∨ x = 7 ∨ x = 8 ∨ x = 9)
    as Hc by lia.
  destruct_or! Hc; subst; done.
Qed.

Lemma parse_digits_pretty_go x s :
  x <= u64_max → parse_digits 0 (pretty_N_go x s) = parse_digits x s.
Proof.
  revert s. induction (N.lt_wf_0 x) as [x _ IH]; intros s Hx.
  destruct (decide (x = 0)) as [->|Hne]; [done|].
  rewrite pretty_N_go_step by lia.
  assert (x / 10 < x) by (apply N.div_lt; lia).
  rewrite IH by lia. cbn [parse_digits].
  destruct (digit_of_pretty (x mod 10)) as [-> _]; [apply N.mod_lt; lia|].
  cbn. rewrite (N.mul_comm (x / 10)), <- N.div_mod by done.
  by rewrite (proj2 (N.leb_le _ _) Hx).
Qed.

Lemma pretty_go_head x s :
  0 < x → ∃ c t, pretty_N_go x s = String c t ∧ c ≠ "+"%char.
Proof.
  revert s. induction (N.lt_wf_0 x) as [x _ IH]; intros s Hx.
  rewrite pretty_N_go_step by done.
  destruct (decide (x / 10 = 0)) as [->|Hne].
  - eexists _, _. split; [done|]. apply digit_of_pretty, N.mod_lt. lia.
  - apply IH; [apply N.div_lt; lia|by apply N.neq_0_lt_0].
Qed.

(** Every [u64] survives being printed and parsed back. *)
Lemma parse_u64_pretty n : n <= u64_max → parse_u64 (pretty n) = Some n.
Proof.
  intros Hn. unfold pretty, pretty_N. destruct (decide (n = 0)) as [->|Hne]; [done|].
  destruct (pretty_go_head n "") as (c & t & Heq & Hc); [lia|].
  transitivity (parse_digits 0 (pretty_N_go n "")).
  - rewrite Heq. unfold parse_u64.
    destruct c as [[] [] [] [] [] [] [] []]; try reflexivity. by destruct Hc.
  - by rewrite parse_digits_pretty_go.
Qed.

Lemma pretty_N_inj (n m : N) : pretty n = pretty m → n = m.
Proof. apply (inj pretty). Qed.

(** The decimal digits of a number are ASCII and contain no separator. *)
Lemma parse_u64_le s n : parse_u64 s = Some n → n <= u64_max.
Proof.
  assert (∀ s acc, acc <= u64_max → parse_digits acc s = Some n → n <= u64_max) as H.
  { clear s. induction s as [|c s IH]; cbn; intros acc Hacc Heq; [by simplify_eq|].
    destruct (digit_of c) as [d|]; [|done]. cbn in Heq.
    destruct (N.leb_spec (acc * 10 + d) u64_max); [|done]. eauto. }
  unfold parse_u64. destruct s as [|c s']; [done|].
  assert (0 <= u64_max) by (unfold u64_max; lia).
  destruct c as [[] [] [] [] [] [] [] []]; eauto. destruct s'; eauto. done.
Qed.

(** Decimal digits as bytes, and a number written on a line of its own. *)
Lemma pretty_char_byte x :
  x < 10 → in_range 48 57 (byte_of_ascii (pretty_N_char x)) = true.
Proof.
  intros Hx.
  assert (x = 0 ∨ x = 1 ∨ x = 2 ∨ x = 3 ∨ x = 4 ∨ x = 5 ∨ x = 6 ∨ x = 7 ∨ x = 8 ∨ x = 9)
    as Hc by lia.
  destruct_or! Hc; subst; done.
Qed.

Lemma pretty_go_digits x s :
  Forall (λ b, in_range 48 57 b = true) (as_bytes s) →
  Forall (λ b, in_range 48 57 b = true) (as_bytes (pretty_N_go x s)).
Proof.
  revert s. induction (N.lt_wf_0 x) as [x _ IH]; intros s Hs.
  destruct (decide (x = 0)) as [->|Hne]; [done|].
  rewrite pretty_N_go_step by lia. apply IH; [apply N.div_lt; lia|].
  apply Forall_cons. split; [|done]. apply pretty_char_byte, N.mod_lt. lia.
Qed.

Lemma pretty_digits (n : N) :
  as_bytes (pretty n) ≠ [] ∧ Forall (λ b, in_range 48 57 b = true) (as_bytes (pretty n)).
Proof.
  unfold pretty, pretty_N. destruct (decide (n = 0)) as [->|Hne].
  - split; [done|]. by repeat constructor.
  - split; [|by apply pretty_go_digits].
    destruct (pretty_go_head n "") as (c & t & -> & _); [lia|done].
Qed.

Lemma digits_utf8 l : Forall (λ b, in_range 48 57 b = true) l → utf8_valid (l ++ [nl]) = true.
Proof.
  induction 1 as [|b l Hb _ IH]; [done|]. cbn [app utf8_valid].
  assert (utf8_width b = 1)%nat as ->; [|done].
  unfold utf8_width. replace (in_range 0 127 b) with true; [done|].
  unfold in_range in *. rewrite andb_true_iff, !N.leb_le in Hb. symmetry.
  apply andb_true_iff. rewrite !N.leb_le. lia.
Qed.

Lemma trim_digits_line l :
  l ≠ [] → Forall (λ b, in_range 48 57 b = true) l → trim (l ++ [nl]) = l.
Proof.
  assert (∀ b, in_range 48 57 b = true → in_range 33 126 b = true) as Hr.
  { intros b. unfold in_range. rewrite !andb_true_iff, !N.leb_le. lia. }
  intros Hne Hl. destruct l as [|b l]; [done|]. pose proof Hl as Hb.
  apply Forall_cons in Hb as [Hb _].
  destruct (b :: l) as [|e m _] eqn:Heq using rev_ind; [done|].
  apply Forall_app in Hl as [_ He]. inversion He as [|? ? He' _]; subst.
  rewrite <- Heq. by apply (trim_printable_line b l m e); auto.
Qed.

(** ** Hexadecimal numbers *)

Definition hex_char (d : N) : ascii :=
  ascii_of_N (if (d <? 10)%N then 48 + d else 87 + d).

(** [{n:0<width>x}]: at least [width] digits.  Sixteen rounds print any
    [u64]. *)
Fixpoint hex_digits (fuel width : nat) (n : N) (acc : string) : string :=
  match fuel with
  | O => acc
  | S fuel' =>
      if bool_decide (n = 0%N) && bool_decide (width = 0%nat) then acc
      else hex_digits fuel' (pred width) (n / 16) (String (hex_char (n mod 16)) acc)
  end.
Definition to_hex (width : nat) (n : N) : string := hex_digits 16 width n "".

(** Reading back. *)
Definition hex_value (c : ascii) : N :=
  let n := N_of_ascii c in if (n <? 58)%N then (n - 48)%N else (n - 87)%N.
Fixpoint of_hex (acc : N) (s : string) : N :=
  match s with EmptyString => acc | String c s' => of_hex (acc * 16 + hex_value c)%N s' end.

Lemma hex_value_char d : (d < 16)%N → hex_value (hex_char d) = d.
Proof.
  intros Hd. unfold hex_value, hex_char.
  destruct (N.ltb_spec d 10); rewrite N_ascii_embedding by lia.
  - destruct (N.ltb_spec (48 + d) 58); lia.
  - destruct (N.ltb_spec (87 + d) 58); lia.
Qed.

Lemma of_hex_digits fuel width n acc :
  (n < 16 ^ N.of_nat fuel)%N → of_hex 0 (hex_digits fuel width n acc) = of_hex n acc.
Proof.
  revert width n acc. induction fuel as [|fuel IH]; intros width n acc Hn; cbn [hex_digits].
  - cbn in Hn. by replace n with 0%N by lia.
  - case_bool_decide as Hz; cbn [andb]; [case_bool_decide; [by rewrite Hz|]|].
    all: rewrite IH by (rewrite Nat2N.inj_succ, N.pow_succ_r' in Hn; by apply N.Div0.div_lt_upper_bound).
    all: cbn [of_hex]; rewrite hex_value_char by (by apply N.mod_lt); f_equal;
      rewrite N.mul_comm; symmetry; apply N.div_mod; done.
Qed.

(** A number is read back from its digits. *)
Lemma of_hex_to_hex width n : (n <= u64_max)%N → of_hex 0 (to_hex width n) = n.
Proof.
  intros Hn. unfold to_hex. rewrite of_hex_digits; [done|].
  apply N.le_lt_trans with u64_max; [done|]. by vm_compute.
Qed.

(** No digit is a dash. *)
Abbreviation no_dash := (lacks "-").

Lemma hex_char_no_dash d : (d < 16)%N → Ascii.eqb (hex_char d) "-" = false.
Proof.
  intros Hd. apply Ascii.eqb_neq. unfold hex_char. intros Hc. apply (f_equal N_of_ascii) in Hc.
  change (N_of_ascii "-") with 45 in Hc.
  destruct (N.ltb_spec d 10); rewrite N_ascii_embedding in Hc by lia; lia.
Qed.

Lemma hex_digits_no_dash fuel width n acc :
  no_dash acc = true → no_dash (hex_digits fuel width n acc) = true.
Proof.
  revert width n acc. induction fuel as [|fuel IH]; intros width n acc Ha; cbn [hex_digits]; [done|].
  destruct (_ && _); [done|]. apply IH. cbn [lacks].
  by rewrite hex_char_no_dash by (by apply N.mod_lt).
Qed.

Lemma to_hex_no_dash width n : no_dash (to_hex width n) = true.
Proof. by apply hex_digits_no_dash. Qed.

(** Texts without dashes are told apart by the first dash. *)
Lemma split_dash a a' b b' :
  no_dash a = true → no_dash a' = true → a +:+ "-" +:+ b = a' +:+ "-" +:+ b' → a = a' ∧ b = b'.
Proof.
  revert a'. induction a as [|c a IH]; intros [|c' a'] Ha Ha' Heq.
  - by injection Heq.
  - injection Heq as <- _. done.
  - injection Heq as -> _. done.
  - injection Heq as -> Heq. apply andb_true_iff in Ha as [_ Ha], Ha' as [_ Ha'].
    destruct (IH a' Ha Ha' Heq) as [-> ->]. done.
Qed.
