(* ===== verification/Protocol.v ===== *)
(** * Protocol: the messages, errors and operation records

    Models [crates/agent-remote-protocol/src/{error,messages,record}.rs].
    Each Rust struct or enum is a Module of the same name holding the type
    and its methods, so that fields and variants read as in the source
    ([FsOperationRecord.before_hash], [ResultBody.Mutation]).  [usize] and
    [u64] fields are [N], [i32] fields are [Z]; the JSON attributes are the
    business of the serializer, which the log file is parametric in
    ([Jsonl.JsonCodec]). *)

From S2P Require Import Prelude.

(** ** [error.rs] *)

Inductive ErrorCode :=
| InvalidRequest | UnknownOperation | PathOutsideRoot | NotFound | NotAFile
| NotADirectory | IsADirectory | InvalidHash | StaleFile | IoError | ExecFailed
| UndoConflict | OperationNotFound | RequestNotFound | PatchFailed
| AlreadyExists | NoMatch | AmbiguousMatch.

#[global] Instance ErrorCode_eq_dec : EqDecision ErrorCode.
Proof. solve_decision. Defined.

(** [std::io::Error] as far as the code looks at it: the kinds it tests for,
    and the text [to_string] gives. *)
Module ErrorKind.
Inductive ErrorKind := NotFound | AlreadyExists | InvalidInput | Other.
#[global] Instance eq_dec : EqDecision ErrorKind.
Proof. solve_decision. Defined.
End ErrorKind.

Module io.
Record Error := MkError { kind : ErrorKind.ErrorKind; to_string : string }.
#[global] Instance eq_dec : EqDecision Error.
Proof. solve_decision. Defined.
End io.

Module ProtocolError.
Record ProtocolError := Mk {
  code : ErrorCode;
  message : string;
  expected_hash : option string;
  actual_hash : option string }.

Definition new (c : ErrorCode) (m : string) : ProtocolError :=
  {| code := c; message := m; expected_hash := None; actual_hash := None |}.

Definition with_hashes (e : ProtocolError) (expected actual : string) : ProtocolError :=
  {| code := code e; message := message e;
     expected_hash := Some expected; actual_hash := Some actual |}.

(** [impl Display]: [{:?}: {}]. *)
Definition debug_code (c : ErrorCode) : string :=
  match c with
  | InvalidRequest => "InvalidRequest" | UnknownOperation => "UnknownOperation"
  | PathOutsideRoot => "PathOutsideRoot" | NotFound => "NotFound"
  | NotAFile => "NotAFile" | NotADirectory => "NotADirectory"
  | IsADirectory => "IsADirectory" | InvalidHash => "InvalidHash"
  | StaleFile => "StaleFile" | IoError => "IoError" | ExecFailed => "ExecFailed"
  | UndoConflict => "UndoConflict" | OperationNotFound => "OperationNotFound"
  | RequestNotFound => "RequestNotFound" | PatchFailed => "PatchFailed"
  | AlreadyExists => "AlreadyExists" | NoMatch => "NoMatch"
  | AmbiguousMatch => "AmbiguousMatch"
  end.
Definition display (e : ProtocolError) : string :=
  String.append (debug_code (code e)) (String.append ": " (message e)).

(** [impl From<std::io::Error>]: what [?] applies to an I/O error. *)
Definition from_io (e : io.Error) : ProtocolError :=
  new (if decide (io.kind e = ErrorKind.NotFound) then NotFound else IoError)
      (io.to_string e).

#[global] Instance eq_dec : EqDecision ProtocolError.
Proof. solve_decision. Defined.
End ProtocolError.
Abbreviation ProtocolError := ProtocolError.ProtocolError.

(** ** [record.rs] and the types of [messages.rs] it uses *)

Module ExecTermination.
Inductive ExecTermination := Exited (code : Z) | TimedOut | Signaled (signal : Z).
#[global] Instance eq_dec : EqDecision ExecTermination.
Proof. solve_decision. Defined.
End ExecTermination.
Abbreviation ExecTermination := ExecTermination.ExecTermination.

Module ExecOutput.
Record ExecOutput := Mk {
  prefix : string; suffix : string; total_bytes : N; omitted_bytes : N }.
(** [#[derive(Default)]]. *)
Definition default : ExecOutput := Mk "" "" 0 0.
#[global] Instance eq_dec : EqDecision ExecOutput.
Proof. solve_decision. Defined.
End ExecOutput.
Abbreviation ExecOutput := ExecOutput.ExecOutput.

Module OperationKind.
Inductive OperationKind := Create | Edit | Delete | Undo | Write | Patch.
#[global] Instance eq_dec : EqDecision OperationKind.
Proof. solve_decision. Defined.
End OperationKind.
Abbreviation OperationKind := OperationKind.OperationKind.

Module FsOperationRecord.
Record FsOperationRecord := Mk {
  operation_id : string;
  request_id : string;
  kind : OperationKind;
  path : string;
  before_hash : option string;
  after_hash : string;
  timestamp_ms : N }.
#[global] Instance eq_dec : EqDecision FsOperationRecord.
Proof. solve_decision. Defined.
End FsOperationRecord.
Abbreviation FsOperationRecord := FsOperationRecord.FsOperationRecord.

Module TransferDirection.
Inductive TransferDirection := Upload | Download.
#[global] Instance eq_dec : EqDecision TransferDirection.
Proof. solve_decision. Defined.
End TransferDirection.
Abbreviation TransferDirection := TransferDirection.TransferDirection.

Module TransferOperationRecord.
Record TransferOperationRecord := Mk {
  operation_id : string;
  request_id : string;
  direction : TransferDirection;
  path : string;
  size : N;
  sha256 : string;
  duration_ms : N;
  timestamp_ms : N }.
#[global] Instance eq_dec : EqDecision TransferOperationRecord.
Proof. solve_decision. Defined.
End TransferOperationRecord.
Abbreviation TransferOperationRecord := TransferOperationRecord.TransferOperationRecord.

Module ExecDisposition.
Inductive ExecDisposition := Completed | TimedOut | Rejected.
#[global] Instance eq_dec : EqDecision ExecDisposition.
Proof. solve_decision. Defined.
End ExecDisposition.
Abbreviation ExecDisposition := ExecDisposition.ExecDisposition.

Module ExecOperationRecord.
Record ExecOperationRecord := Mk {
  operation_id : string;
  request_id : string;
  argv : list string;
  cwd : option string;
  profile : option string;
  timeout_ms : option N;
  disposition : ExecDisposition;
  termination : option ExecTermination;
  drain_timed_out : bool;
  duration_ms : N;
  timestamp_ms : N;
  error : option string;
  error_code : option ErrorCode;
  stdout : ExecOutput;
  stderr : ExecOutput }.
#[global] Instance eq_dec : EqDecision ExecOperationRecord.
Proof. solve_decision. Defined.
End ExecOperationRecord.
Abbreviation ExecOperationRecord := ExecOperationRecord.ExecOperationRecord.

Module PreparedRecord.
Record PreparedRecord := Mk {
  operation_id : string;
  request_id : string;
  kind : OperationKind;
  path : string;
  before_hash : option string;
  expected_after_hash : string;
  timestamp_ms : N }.
#[global] Instance eq_dec : EqDecision PreparedRecord.
Proof. solve_decision. Defined.
End PreparedRecord.
Abbreviation PreparedRecord := PreparedRecord.PreparedRecord.

Module AbortedRecord.
Record AbortedRecord := Mk { operation_id : string; timestamp_ms : N }.
#[global] Instance eq_dec : EqDecision AbortedRecord.
Proof. solve_decision. Defined.
End AbortedRecord.
Abbreviation AbortedRecord := AbortedRecord.AbortedRecord.

Module AnyOperationRecord.
Inductive AnyOperationRecord :=
| Fs (r : FsOperationRecord)
| Exec (r : ExecOperationRecord)
| Transfer (r : TransferOperationRecord)
| Prepared (r : PreparedRecord)
| Aborted (r : AbortedRecord).

Definition operation_id (self : AnyOperationRecord) : string :=
  match self with
  | Fs r => FsOperationRecord.operation_id r
  | Exec r => ExecOperationRecord.operation_id r
  | Transfer r => TransferOperationRecord.operation_id r
  | Prepared r => PreparedRecord.operation_id r
  | Aborted r => AbortedRecord.operation_id r
  end.

Definition timestamp_ms (self : AnyOperationRecord) : N :=
  match self with
  | Fs r => FsOperationRecord.timestamp_ms r
  | Exec r => ExecOperationRecord.timestamp_ms r
  | Transfer r => TransferOperationRecord.timestamp_ms r
  | Prepared r => PreparedRecord.timestamp_ms r
  | Aborted r => AbortedRecord.timestamp_ms r
  end.

Definition is_committed (self : AnyOperationRecord) : bool :=
  match self with
  | Fs _ | Exec _ | Transfer _ => true
  | Prepared _ | Aborted _ => false
  end.

#[global] Instance eq_dec : EqDecision AnyOperationRecord.
Proof. solve_decision. Defined.
End AnyOperationRecord.
Abbreviation AnyOperationRecord := AnyOperationRecord.AnyOperationRecord.

(** ** [messages.rs] *)

Module RequestBody.
Inductive RequestBody :=
| List (path : string) (offset limit : option N)
| Stat (path : string)
| Read (path : string) (offset limit : option N)
| Create (path content : string)
| Edit (path base_hash old_text new_text : string) (replace_all : bool)
| Exec (argv : list string) (cwd profile : option string) (timeout_ms : option N)
| Delete (path : string)
| Undo (operation_id : string)
| UploadPrepare (path : string) (overwrite : bool)
| UploadCommit (transfer_id : string) (size : N) (sha256 : string) (duration_ms : N)
| UploadAbort (transfer_id : string)
| DownloadRecord (path : string) (size : N) (sha256 : string) (duration_ms : N)
| History (limit : option N)
| OperationGet (operation_id : string)
| RequestStatus (target : string)
| Gc (keep : option N).
End RequestBody.
Abbreviation RequestBody := RequestBody.RequestBody.

Module Request.
Record Request := Mk { request_id : string; body : RequestBody }.
End Request.
Abbreviation Request := Request.Request.

Module ListKind.
Inductive ListKind := File | Dir | Symlink.
#[global] Instance eq_dec : EqDecision ListKind.
Proof. solve_decision. Defined.
End ListKind.
Abbreviation ListKind := ListKind.ListKind.

Module ListEntry.
Record ListEntry := Mk { name : string; kind : ListKind; size : option N }.
#[global] Instance eq_dec : EqDecision ListEntry.
Proof. solve_decision. Defined.
End ListEntry.
Abbreviation ListEntry := ListEntry.ListEntry.

Module ListResult.
Record ListResult := Mk { entries : list ListEntry; next_offset : option N }.
#[global] Instance eq_dec : EqDecision ListResult.
Proof. solve_decision. Defined.
End ListResult.
Abbreviation ListResult := ListResult.ListResult.

Module FileMode.
Record FileMode := Mk { readable : bool; writable : bool; executable : bool }.
#[global] Instance eq_dec : EqDecision FileMode.
Proof. solve_decision. Defined.
End FileMode.
Abbreviation FileMode := FileMode.FileMode.

Module FileEntry.
Record FileEntry := Mk {
  path : string; kind : ListKind; size : N;
  hash : option string; mode : option FileMode }.
#[global] Instance eq_dec : EqDecision FileEntry.
Proof. solve_decision. Defined.
End FileEntry.
Abbreviation FileEntry := FileEntry.FileEntry.

Module ReadResult.
Record ReadResult := Mk {
  content : string; hash : option string; truncated : bool; next_offset : option N }.
#[global] Instance eq_dec : EqDecision ReadResult.
Proof. solve_decision. Defined.
End ReadResult.
Abbreviation ReadResult := ReadResult.ReadResult.

Module MutationResult.
Record MutationResult := Mk {
  operation_id : string; old_hash : option string; new_hash : string }.
#[global] Instance eq_dec : EqDecision MutationResult.
Proof. solve_decision. Defined.
End MutationResult.
Abbreviation MutationResult := MutationResult.MutationResult.

Module ExecResult.
Record ExecResult := Mk {
  operation_id : string; termination : ExecTermination; duration_ms : N;
  drain_timed_out : bool; stdout : ExecOutput; stderr : ExecOutput }.
#[global] Instance eq_dec : EqDecision ExecResult.
Proof. solve_decision. Defined.
End ExecResult.
Abbreviation ExecResult := ExecResult.ExecResult.

Module UploadPrepareResult.
Record UploadPrepareResult := Mk { transfer_id : string; staging_path : string }.
#[global] Instance eq_dec : EqDecision UploadPrepareResult.
Proof. solve_decision. Defined.
End UploadPrepareResult.
Abbreviation UploadPrepareResult := UploadPrepareResult.UploadPrepareResult.

Module TransferResult.
Record TransferResult := Mk {
  operation_id : string; direction : TransferDirection; path : string;
  size : N; sha256 : string; duration_ms : N }.
#[global] Instance eq_dec : EqDecision TransferResult.
Proof. solve_decision. Defined.
End TransferResult.
Abbreviation TransferResult := TransferResult.TransferResult.

Module UndoResult.
Record UndoResult := Mk {
  operation_id : string; restored_hash : option string; new_hash : string }.
#[global] Instance eq_dec : EqDecision UndoResult.
Proof. solve_decision. Defined.
End UndoResult.
Abbreviation UndoResult := UndoResult.UndoResult.

Module GcResult.
Record GcResult := Mk {
  removed_operations : N; removed_requests : N;
  retained_operations : N; removed_stale_staging : N }.
#[global] Instance eq_dec : EqDecision GcResult.
Proof. solve_decision. Defined.
End GcResult.
Abbreviation GcResult := GcResult.GcResult.

Module OperationDetails.
Record OperationDetails := Mk { record : AnyOperationRecord }.
#[global] Instance eq_dec : EqDecision OperationDetails.
Proof. solve_decision. Defined.
End OperationDetails.
Abbreviation OperationDetails := OperationDetails.OperationDetails.

Module RequestStatus.
Inductive RequestStatus := Unknown | InProgress | Done | Error.
#[global] Instance eq_dec : EqDecision RequestStatus.
Proof. solve_decision. Defined.
End RequestStatus.
Abbreviation RequestStatus := RequestStatus.RequestStatus.

Module RequestStatusResult.
Record RequestStatusResult := Mk {
  target : string; status : RequestStatus; error : option ProtocolError }.
#[global] Instance eq_dec : EqDecision RequestStatusResult.
Proof. solve_decision. Defined.
End RequestStatusResult.
Abbreviation RequestStatusResult := RequestStatusResult.RequestStatusResult.

Module ResultBody.
Inductive ResultBody :=
| List (r : ListResult)
| Stat (stat : FileEntry)
| Read (r : ReadResult)
| Mutation (r : MutationResult)
| Exec (r : ExecResult)
| Undo (r : UndoResult)
| UploadPrepare (r : UploadPrepareResult)
| UploadAbort (transfer_id : string)
| Transfer (r : TransferResult)
| History (operations : list AnyOperationRecord)
| Operation (r : OperationDetails)
| RequestStatus (r : RequestStatusResult)
| Gc (r : GcResult).
#[global] Instance eq_dec : EqDecision ResultBody.
Proof. solve_decision. Defined.
End ResultBody.
Abbreviation ResultBody := ResultBody.ResultBody.

Module ServerMessage.
Inductive ServerMessage :=
| Result (request_id : string) (result : ResultBody)
| Error (request_id : string) (error : ProtocolError).
#[global] Instance eq_dec : EqDecision ServerMessage.
Proof. solve_decision. Defined.

Definition request_id (m : ServerMessage) : string :=
  match m with Result rid _ | Error rid _ => rid end.
End ServerMessage.
Abbreviation ServerMessage := ServerMessage.ServerMessage.
