(* ===== verification/World.v ===== *)
(** * World: the machine the server runs on

    The server is a sequence of system calls, each of which can fail, and at
    each of which the process can be killed.  This file gives the state those
    calls act on -- the directory trees of the workspace and the scratch area,
    the files of the state directory, and the server's own memory -- and the
    state-and-error monad [M] the handlers are written in.  The functions of
    [std::fs] the code calls are modelled in [Fs.v] on top of it.

    The environment ([Env]) decides, for every system call, whether it
    succeeds, fails, or is never completed because the process dies; writes
    that fail or die may have put any number of bytes in the file.  Theorems
    that quantify over [Env] therefore cover every error path and every crash
    point.  It also supplies the clock readings. *)

From S2P Require Import Prelude Text Protocol.

(** ** Third-party code

    The SHA-256 of crates [sha2]/[hex], and the names crate [tempfile] picks
    for temporary files, are parameters. *)

Class Sha256 := { sha256_hex : bytes → string }.

(** What the code relies on: a digest is never the empty string, so no hash
    equals the deleted-file sentinel. *)
Class Sha256Laws `{Sha256} := { sha256_hex_nonempty b : sha256_hex b ≠ "" }.

(** [tempfile::Builder]: a name with the given prefix and suffix, for a
    directory whose names are given. *)
Class Tempfile := { tempfile_name : string → string → gset string → string }.

(** It creates with [O_EXCL] and retries, so the name was not taken; the
    random characters come between prefix and suffix, and keep it from being
    the empty name, [.] or [..]. *)
Class TempfileLaws `{Tempfile} := {
  tempfile_name_fresh pre suf used : tempfile_name pre suf used ∉ used;
  tempfile_name_ok pre suf used : tempfile_name pre suf used ∉ [""; "."; ".."];
  tempfile_name_affixes pre suf used :
    ∃ m, no_slash m = true ∧ tempfile_name pre suf used = pre +:+ m +:+ suf }.

(** ** Directory trees *)

(** An absolute path: its components below [/]. *)
Abbreviation path := (list string).

Inductive node :=
| File (data : bytes) (mode : N) (mtime : N)
| Dir (mode : N) (len : N)
| Symlink (target : string).

#[global] Instance node_eq_dec : EqDecision node.
Proof. solve_decision. Defined.

Abbreviation tree := (gmap path node).

(** ** The server's memory

    [OperationStore]'s tables ([store.rs]) and the registry of pending
    uploads ([transfer.rs]). *)

Module StoredResult.
Inductive StoredResult := Done (m : ServerMessage) | Error (e : ProtocolError).
#[global] Instance eq_dec : EqDecision StoredResult.
Proof. solve_decision. Defined.
End StoredResult.
Abbreviation StoredResult := StoredResult.StoredResult.

Module RequestEntry.
Record RequestEntry := Mk {
  status : RequestStatus;
  result : option StoredResult;
  op : option string }.
#[global] Instance eq_dec : EqDecision RequestEntry.
Proof. solve_decision. Defined.
End RequestEntry.
Abbreviation RequestEntry := RequestEntry.RequestEntry.

Module PendingUpload.
Record PendingUpload := Mk {
  staging : path;
  target : path;
  logical_path : string;
  overwrite : bool }.
#[global] Instance eq_dec : EqDecision PendingUpload.
Proof. solve_decision. Defined.
End PendingUpload.
Abbreviation PendingUpload := PendingUpload.PendingUpload.

Record memory := MkMemory {
  next_id : N;
  records : list AnyOperationRecord;
  requests : gmap string RequestEntry;
  uploads : gmap string PendingUpload;
  transfer_counter : N }.

Definition empty_memory : memory := MkMemory 0 [] ∅ ∅ 0.

(** ** System calls and what they leave behind *)

Inductive event :=
| EvState (name : string)                 (* bytes written to a state file *)
| EvStateSync (name : string)             (* [sync_all] of a state file *)
| EvStateRename (name : string)           (* a rewritten state file installed *)
| EvStateRemove (name : string)           (* a state file removed *)
| EvWrite (p : path)                      (* bytes written to a tree file *)
| EvSync (p : path)                       (* [sync_all] of a tree file and its directory *)
| EvRename (src dst : path)
| EvLink (src dst : path)
| EvRemove (p : path)
| EvMkdir (p : path)
| EvChmod (p : path)
| EvSpawn (argv : list string) (dir : path)   (* a command started *)
| EvKillGroup.                            (* [SIGKILL] sent to a command's process group *)

Record world := World {
  w_fs : tree;                       (* workspace and scratch trees *)
  w_sd : gmap string bytes;          (* files of the state directory, by name *)
  w_mem : memory;
  w_step : nat;                      (* system calls so far *)
  w_trace : list event }.            (* latest first *)

Definition set_fs (f : tree → tree) (w : world) : world :=
  World (f (w_fs w)) (w_sd w) (w_mem w) (w_step w) (w_trace w).
Definition set_sd (f : gmap string bytes → gmap string bytes) (w : world) : world :=
  World (w_fs w) (f (w_sd w)) (w_mem w) (w_step w) (w_trace w).
Definition set_mem (f : memory → memory) (w : world) : world :=
  World (w_fs w) (w_sd w) (f (w_mem w)) (w_step w) (w_trace w).
Definition tick (w : world) : world :=
  World (w_fs w) (w_sd w) (w_mem w) (S (w_step w)) (w_trace w).
Definition emit (ev : event) (w : world) : world :=
  World (w_fs w) (w_sd w) (w_mem w) (w_step w) (ev :: w_trace w).

Definition set_next_id (n : N) (m : memory) : memory :=
  MkMemory n (records m) (requests m) (uploads m) (transfer_counter m).
Definition set_records (r : list AnyOperationRecord) (m : memory) : memory :=
  MkMemory (next_id m) r (requests m) (uploads m) (transfer_counter m).
Definition set_requests (r : gmap string RequestEntry) (m : memory) : memory :=
  MkMemory (next_id m) (records m) r (uploads m) (transfer_counter m).
Definition set_uploads (u : gmap string PendingUpload) (m : memory) : memory :=
  MkMemory (next_id m) (records m) (requests m) u (transfer_counter m).
Definition set_transfer_counter (n : N) (m : memory) : memory :=
  MkMemory (next_id m) (records m) (requests m) (uploads m) n.

(** What the environment does with a system call: let it through, make it
    fail, or kill the process in it.  [k] bytes of an interrupted write reach
    the file.  The failures it injects are those a call can meet at any time
    (no space, no permission, a bad disk); that a file is absent or already
    there is a fact of the tree, which the environment does not invent. *)
Inductive fault := NoFault | FailWith (k : nat) (text : string) | Kill (k : nat).

Definition injected (text : string) : io.Error := io.MkError ErrorKind.Other text.

Class Env := { env_fault : nat → fault; env_clock : nat → N }.

(** ** The monad *)

Inductive outcome (E A : Type) :=
| Returned (a : A)      (* [Ok(a)] *)
| Raised (e : E)        (* [Err(e)] *)
| Killed.               (* the process died here *)
Arguments Returned {E A} a.
Arguments Raised {E A} e.
Arguments Killed {E A}.

Definition M (E A : Type) : Type := world → outcome E A * world.

#[global] Instance M_ret {E} : MRet (M E) := λ A a w, (Returned a, w).
#[global] Instance M_bind {E} : MBind (M E) := λ A B k m w,
  match m w with
  | (Returned a, w') => k a w'
  | (Raised e, w') => (Raised e, w')
  | (Killed, w') => (Killed, w')
  end.

Definition raise {E A} (e : E) : M E A := λ w, (Raised e, w).

(** [map_err(f)?]. *)
Definition map_raise {E F A} (f : E → F) (m : M E A) : M F A := λ w,
  match m w with
  | (Returned a, w') => (Returned a, w')
  | (Raised e, w') => (Raised (f e), w')
  | (Killed, w') => (Killed, w')
  end.

(** The [Result] itself, for the places the code does not use [?] on it. *)
Definition attempt {E F A} (m : M E A) : M F (result E A) := λ w,
  match m w with
  | (Returned a, w') => (Returned (Ok a), w')
  | (Raised e, w') => (Returned (Err e), w')
  | (Killed, w') => (Killed, w')
  end.

(** A pure [Result] followed by [?]. *)
Definition lift {E A} (r : result E A) : M E A := λ w,
  match r with Ok a => (Returned a, w) | Err e => (Raised e, w) end.

Definition get_mem {E} : M E memory := λ w, (Returned (w_mem w), w).
Definition put_mem {E} (f : memory → memory) : M E unit := λ w, (Returned tt, set_mem f w).
Definition get_fs {E} : M E tree := λ w, (Returned (w_fs w), w).
Definition get_sd {E} : M E (gmap string bytes) := λ w, (Returned (w_sd w), w).

Fixpoint for_each {E A} (l : list A) (f : A → M E unit) : M E unit :=
  match l with
  | [] => mret tt
  | x :: l' => f x ;; for_each l' f
  end.

(** A [for] loop that pushes one value per round. *)
Fixpoint collect {E A B} (l : list A) (f : A → M E B) : M E (list B) :=
  match l with
  | [] => mret []
  | x :: l' => y ← f x; ys ← collect l' f; mret (y :: ys)
  end.

Section syscalls.
Context `{Env}.

(** A system call that takes effect as a whole or not at all. *)
Definition sys {A} (ev : option event) (act : world → result io.Error (A * world))
  : M io.Error A := λ w,
  match env_fault (w_step w) with
  | NoFault =>
      match act (tick w) with
      | Ok (a, w') => (Returned a, match ev with Some e => emit e w' | None => w' end)
      | Err e => (Raised e, tick w)
      end
  | FailWith _ e => (Raised (injected e), tick w)
  | Kill _ => (Killed, tick w)
  end.

(** A write of [bs], of which an interrupted call leaves a prefix. *)
Definition sys_write (ev : event) (put : bytes → world → world) (bs : bytes)
  : M io.Error unit := λ w,
  match env_fault (w_step w) with
  | NoFault => (Returned tt, emit ev (put bs (tick w)))
  | FailWith k e => (Raised (injected e), put (take k bs) (tick w))
  | Kill k => (Killed, put (take k bs) (tick w))
  end.

(** [SystemTime::now()]: nanoseconds since the epoch, and [now_ms], the
    milliseconds as a [u64]. *)
Definition now_ns {E} : M E N := λ w, (Returned (env_clock (w_step w)), w).
Definition now_ms {E} : M E N :=
  ns ← now_ns; mret (as_u64 (ns / 1000000)).
End syscalls.

(** ** Errors of the operating system *)

Definition enoent : io.Error :=
  io.MkError ErrorKind.NotFound "No such file or directory (os error 2)".
Definition eexist : io.Error :=
  io.MkError ErrorKind.AlreadyExists "File exists (os error 17)".
Definition enotdir : io.Error :=
  io.MkError ErrorKind.Other "Not a directory (os error 20)".
Definition eisdir : io.Error :=
  io.MkError ErrorKind.Other "Is a directory (os error 21)".
Definition einval : io.Error :=
  io.MkError ErrorKind.InvalidInput "Invalid argument (os error 22)".
Definition eloop : io.Error :=
  io.MkError ErrorKind.Other "Too many levels of symbolic links (os error 40)".

(** ** Reasoning about [M]

    [wp m w Φ]: whatever [m] does from [w], [Φ] holds of how it ends and of
    the world it leaves. *)

Definition wp {E A} (m : M E A) (w : world) (Φ : outcome E A → world → Prop) : Prop :=
  Φ (m w).1 (m w).2.

Section wp.
Context {E F A B : Type}.
Implicit Types (w : world).

Lemma wp_run (m : M E A) w Φ o w' : m w = (o, w') → wp m w Φ → Φ o w'.
Proof. unfold wp. by intros ->. Qed.

(** A statement about a run, proved call by call. *)
Lemma wp_let (m : M E A) w Φ :
  wp m w Φ → let '(o, w') := m w in Φ o w'.
Proof. unfold wp. by destruct (m w). Qed.

Lemma wp_mono (m : M E A) w (Φ Ψ : outcome E A → world → Prop) :
  (∀ o w', Φ o w' → Ψ o w') → wp m w Φ → wp m w Ψ.
Proof. unfold wp. auto. Qed.

(** A second fact about the same run. *)
Lemma wp_and (m : M E A) w (Ψ Φ : outcome E A → world → Prop) :
  wp m w Ψ → wp m w (λ o w', Ψ o w' → Φ o w') → wp m w Φ.
Proof. unfold wp. auto. Qed.

(** A computation of which only the value matters. *)
Lemma wp_any (m : M E A) w (Φ : outcome E A → world → Prop) :
  (∀ a w', m w = (Returned a, w') → Φ (Returned a) w') → (∀ e w', Φ (Raised e) w') →
  (∀ w', Φ Killed w') → wp m w Φ.
Proof. unfold wp. destruct (m w) as [[a|e|] w']; cbn; auto. Qed.

Lemma wp_ret (a : A) w (Φ : outcome E A → world → Prop) :
  Φ (Returned a) w → wp (mret a) w Φ.
Proof. done. Qed.

Lemma wp_bind (m : M E A) (k : A → M E B) w Φ :
  wp m w (λ o w', match o with
                  | Returned a => wp (k a) w' Φ
                  | Raised e => Φ (Raised e) w'
                  | Killed => Φ Killed w'
                  end) →
  wp (m ≫= k) w Φ.
Proof. unfold wp, mbind, M_bind. by destruct (m w) as [[a|e|] w']. Qed.

Lemma wp_bind_assoc {C} (m : M E A) (f : A → M E B) (g : B → M E C) w Φ :
  wp ((m ≫= f) ≫= g) w Φ → wp (m ≫= λ a, f a ≫= g) w Φ.
Proof. unfold wp, mbind, M_bind. by destruct (m w) as [[a|e|] w']. Qed.

Lemma bind_assoc {C} (m : M E A) (f : A → M E B) (g : B → M E C) w :
  ((m ≫= f) ≫= g) w = (m ≫= λ a, f a ≫= g) w.
Proof. unfold mbind, M_bind. by destruct (m w) as [[a|e|] w']. Qed.

Lemma bind_ext (m : M E A) (f g : A → M E B) w :
  (∀ a w', f a w' = g a w') → (m ≫= f) w = (m ≫= g) w.
Proof. intros Hfg. unfold mbind, M_bind. destruct (m w) as [[a|e|] w']; [apply Hfg|done|done]. Qed.

Lemma wp_map_raise (f : E → F) (m : M E A) w Φ :
  wp m w (λ o w', match o with
                  | Returned a => Φ (Returned a) w'
                  | Raised e => Φ (Raised (f e)) w'
                  | Killed => Φ Killed w'
                  end) →
  wp (map_raise f m) w Φ.
Proof. unfold wp, map_raise. by destruct (m w) as [[a|e|] w']. Qed.

Lemma wp_attempt (m : M E A) w (Φ : outcome F (result E A) → world → Prop) :
  wp m w (λ o w', match o with
                  | Returned a => Φ (Returned (Ok a)) w'
                  | Raised e => Φ (Returned (Err e)) w'
                  | Killed => Φ Killed w'
                  end) →
  wp (attempt m) w Φ.
Proof. unfold wp, attempt. by destruct (m w) as [[a|e|] w']. Qed.

Lemma wp_lift (r : result E A) w Φ :
  (∀ a, r = Ok a → Φ (Returned a) w) →
  (∀ e, r = Err e → Φ (Raised e) w) →
  wp (lift r) w Φ.
Proof. intros HO HE. unfold wp, lift. destruct r; simpl; auto. Qed.

Lemma wp_bind_Ok (a : A) (k : A → M E B) w Φ :
  wp (k a) w Φ → wp (lift (Ok a) ≫= k) w Φ.
Proof. done. Qed.

Lemma wp_raise (e : E) w (Φ : outcome E A → world → Prop) :
  Φ (Raised e) w → wp (raise e) w Φ.
Proof. done. Qed.

Lemma wp_get_mem w (Φ : outcome E memory → world → Prop) :
  Φ (Returned (w_mem w)) w → wp get_mem w Φ.
Proof. done. Qed.

Lemma wp_get_fs w (Φ : outcome E tree → world → Prop) :
  Φ (Returned (w_fs w)) w → wp get_fs w Φ.
Proof. done. Qed.

Lemma wp_put_mem f w (Φ : outcome E unit → world → Prop) :
  Φ (Returned tt) (set_mem f w) → wp (put_mem f) w Φ.
Proof. done. Qed.
End wp.

(** Loops, with an invariant on the rounds done. *)
Section loops.
Context {E A : Type}.

Lemma for_each_wp (I : list A → world → Prop) (l : list A) (f : A → M E unit) w
    (Φ : outcome E unit → world → Prop) :
  (∀ l1 x l2 w', l = l1 ++ x :: l2 → I l1 w' →
     wp (f x) w' (λ o w'', match o with
       | Returned _ => I (l1 ++ [x]) w'' | Raised e => Φ (Raised e) w'' | Killed => Φ Killed w''
       end)) →
  I [] w → (∀ w', I l w' → Φ (Returned tt) w') → wp (for_each l f) w Φ.
Proof.
  intros Hf H0 HR. assert (∀ l2 l1 w', l = l1 ++ l2 → I l1 w' → wp (for_each l2 f) w' Φ) as Hgo.
  { induction l2 as [|x l2 IH]; intros l1 w' Hl HI; cbn [for_each].
    - rewrite app_nil_r in Hl. subst l1. by apply wp_ret, HR.
    - apply wp_bind. eapply wp_mono; [|by apply (Hf l1 x l2)].
      intros [a|e|] w'' Ho; [|done|done]. apply (IH (l1 ++ [x])); [|done].
      by rewrite <- (assoc_L (++)). }
  by apply (Hgo l []).
Qed.

Lemma collect_wp {B} (I : list A → list B → world → Prop) (l : list A) (f : A → M E B) w
    (Φ : outcome E (list B) → world → Prop) :
  (∀ l1 x l2 ys w', l = l1 ++ x :: l2 → I l1 ys w' →
     wp (f x) w' (λ o w'', match o with
       | Returned y => I (l1 ++ [x]) (ys ++ [y]) w''
       | Raised e => Φ (Raised e) w'' | Killed => Φ Killed w''
       end)) →
  I [] [] w → (∀ ys w', I l ys w' → Φ (Returned ys) w') → wp (collect l f) w Φ.
Proof.
  intros Hf H0 HR.
  assert (∀ l2 l1 ys w' Ψ, l = l1 ++ l2 → I l1 ys w' →
    (∀ ys' w'', I l (ys ++ ys') w'' → Ψ (Returned ys') w'') →
    (∀ e w'', Φ (Raised e) w'' → Ψ (Raised e) w'') →
    (∀ w'', Φ Killed w'' → Ψ Killed w'') → wp (collect l2 f) w' Ψ) as Hgo.
  { induction l2 as [|x l2 IH]; intros l1 ys w' Ψ Hl HI HΨ HE HK; cbn [collect].
    - rewrite app_nil_r in Hl. subst l1. apply wp_ret, HΨ. by rewrite app_nil_r.
    - apply wp_bind. eapply wp_mono; [|by apply (Hf l1 x l2 ys)].
      intros [y|e|] w'' Ho; [|by apply HE|by apply HK].
      apply wp_bind, (IH (l1 ++ [x]) (ys ++ [y])); [by rewrite <- (assoc_L (++))|done|..].
      + intros ys' w3 HI'. apply wp_ret, HΨ. by rewrite <- (assoc_L (++)) in HI'.
      + done.
      + done. }
  by apply (Hgo l [] []).
Qed.
End loops.

Section wp_syscalls.
Context `{Env}.

(** The environment makes some call fail, or kills the process. *)
Definition fails : Prop := ∃ n k text, env_fault n = FailWith k text.
Definition dies : Prop := ∃ n k, env_fault n = Kill k.

Definition not_returned {E A} (o : outcome E A) : Prop :=
  match o with Returned _ => False | _ => True end.

(** An ending that only the environment can have caused. *)
Definition faulty {E A} (o : outcome E A) : Prop :=
  match o with Returned _ => False | Raised _ => fails | Killed => dies end.

(** An ending that the environment has caused, or a reason to raise. *)
Definition stopped {E A} (raises : Prop) (o : outcome E A) : Prop :=
  match o with Returned _ => False | Raised _ => fails ∨ raises | Killed => dies end.

Lemma faulty_stopped {E A} raises (o : outcome E A) : faulty o → stopped raises o.
Proof. destruct o; cbn; tauto. Qed.

Lemma wp_sys {A} ev (act : world → result io.Error (A * world)) w Φ :
  (∀ a w', act (tick w) = Ok (a, w') →
     Φ (Returned a) (match ev with Some e => emit e w' | None => w' end)) →
  (∀ e, act (tick w) = Err e → Φ (Raised e) (tick w)) →
  (∀ text, fails → Φ (Raised (injected text)) (tick w)) →
  (dies → Φ Killed (tick w)) →
  wp (sys ev act) w Φ.
Proof.
  intros HR HE HF HK. unfold wp, sys. destruct (env_fault _) as [|k text|k] eqn:Hf; simpl.
  - destruct (act (tick w)) as [[a w']|e] eqn:Ha; simpl; auto.
  - apply HF. by exists (w_step w), k, text.
  - apply HK. by exists (w_step w), k.
Qed.

Lemma wp_sys_write ev put bs w Φ :
  Φ (Returned tt) (emit ev (put bs (tick w))) →
  (∀ k text, fails → Φ (Raised (injected text)) (put (take k bs) (tick w))) →
  (∀ k, dies → Φ Killed (put (take k bs) (tick w))) →
  wp (sys_write ev put bs) w Φ.
Proof.
  intros HR HF HK. unfold wp, sys_write.
  destruct (env_fault _) as [|k text|k] eqn:Hf; simpl; [done|..].
  - apply HF. by exists (w_step w), k, text.
  - apply HK. by exists (w_step w), k.
Qed.

Lemma wp_now_ns {E} w (Φ : outcome E N → world → Prop) :
  Φ (Returned (env_clock (w_step w))) w → wp now_ns w Φ.
Proof. done. Qed.

Lemma wp_now_ms {E} w (Φ : outcome E N → world → Prop) :
  (∀ ms, Φ (Returned ms) w) → wp now_ms w Φ.
Proof. intros HΦ. apply HΦ. Qed.

(** Runs in which the environment interferes with no call. *)
Class FaultFree := fault_free n : env_fault n = NoFault.

(** Runs in which calls do not fail, but the process can die in any. *)
Class CrashOnly := crash_only n k text : env_fault n ≠ FailWith k text.

Lemma fault_free_fails `{FaultFree} : ¬ fails.
Proof. intros (n & k & t & Hf). by rewrite fault_free in Hf. Qed.
Lemma fault_free_dies `{FaultFree} : ¬ dies.
Proof. intros (n & k & Hf). by rewrite fault_free in Hf. Qed.
Lemma fault_free_faulty `{FaultFree} {E A} (o : outcome E A) : ¬ faulty o.
Proof. destruct o; cbn; [tauto|apply fault_free_fails|apply fault_free_dies]. Qed.
Lemma crash_only_fails `{CrashOnly} : ¬ fails.
Proof. intros (n & k & t & Hf). by apply crash_only in Hf. Qed.

Lemma fault_free_crash_only `{FaultFree} : CrashOnly.
Proof. intros n k text. by rewrite fault_free. Qed.

Lemma sys_ok `{FaultFree} {A} ev (act : world → result io.Error (A * world)) w :
  sys ev act w =
  match act (tick w) with
  | Ok (a, w') => (Returned a, match ev with Some e => emit e w' | None => w' end)
  | Err e => (Raised e, tick w)
  end.
Proof. unfold sys. by rewrite fault_free. Qed.

Lemma sys_write_ok `{FaultFree} ev put bs w :
  sys_write ev put bs w = (Returned tt, emit ev (put bs (tick w))).
Proof. unfold sys_write. by rewrite fault_free. Qed.
End wp_syscalls.

(** Walk a computation call by call: one goal per way it can end. *)
Ltac wp_step :=
  lazymatch goal with
  | |- wp (mbind _ _) _ _ => apply wp_bind
  | |- wp (map_raise _ _) _ _ => apply wp_map_raise
  | |- wp (attempt _) _ _ => apply wp_attempt
  | |- wp (mret _) _ _ => apply wp_ret
  | |- wp (raise _) _ _ => apply wp_raise
  | |- wp (lift _) _ _ => apply wp_lift; [intros ? ?|intros ? ?]
  | |- wp get_mem _ _ => apply wp_get_mem
  | |- wp (put_mem _) _ _ => apply wp_put_mem
  | |- wp get_fs _ _ => apply wp_get_fs
  | |- wp (now_ms) _ _ => apply wp_now_ms; intros ?
  | |- wp (now_ns) _ _ => apply wp_now_ns
  | |- wp (sys _ _) _ _ => apply wp_sys; [intros ? ? ?; simplify_eq/=|intros ? ?; simplify_eq/=|intros ? ?|intros ?]
  | |- wp (sys_write _ _ _) _ _ => apply wp_sys_write; [|intros ? ? ?|intros ? ?]
  | |- wp (if ?b then _ else _) _ _ => destruct b eqn:?
  | |- wp (match ?x with _ => _ end) _ _ => destruct x eqn:?
  end.
Ltac wp_go := repeat (wp_step; simpl).
