(* ===== verification/Fs.v ===== *)
(** * Fs: the part of [std::fs] the server uses

    Path resolution as the operating system does it ([canonicalize]), and the
    calls of [std::fs] on directory trees, first as functions of a tree and
    then as system calls of the monad [M].  It models no file of the
    repository: it is the standard library (and, for [NamedTempFile], the
    documented behaviour of crate [tempfile]) the other files stand on.

    A hard link shares its content with the name it was made from; since no
    code path writes in place to a file it has linked, the two names are
    modelled as two entries with equal content. *)

From S2P Require Import Prelude Text Protocol World.

(** ** Paths *)

(** The segments of a path string between its slashes. *)
Fixpoint split_slash (s : string) : list string :=
  match s with
  | EmptyString => [""]
  | String "/" s' => "" :: split_slash s'
  | String c s' =>
      match split_slash s' with
      | seg :: rest => String c seg :: rest
      | [] => [String c ""]
      end
  end.

Definition is_absolute (s : string) : bool :=
  match s with String "/" _ => true | _ => false end.

(** [Path::components] of a relative path. *)
Inductive Component := CurDir | ParentDir | Normal (name : string).

Definition component_of (seg : string) : Component :=
  if decide (seg = ".") then CurDir
  else if decide (seg = "..") then ParentDir
  else Normal seg.

(** Empty segments are skipped, and so is [.] anywhere but in front. *)
Definition components (s : string) : list Component :=
  match split_slash s with
  | [] => []
  | seg :: segs =>
      component_of <$>
        (if decide (seg = "") then [] else [seg])
        ++ retain (λ x, bool_decide (x ≠ "" ∧ x ≠ ".")) segs
  end.

(** The names left when a path is reduced to its components. *)
Definition normal_names (segs : list string) : list string :=
  retain (λ x, bool_decide (x ≠ "" ∧ x ≠ ".")) segs.

(** ** Resolution *)

Definition is_dir_node (n : option node) : bool :=
  match n with Some (Dir _ _) => true | _ => false end.

(** Linux gives up after following 40 symbolic links. *)
Definition max_symlinks : nat := 40.

(** Resolve [segs] from the directory [cur], following every symbolic link. *)
Fixpoint walk (t : tree) (links : nat) : path → list string → result io.Error path :=
  fix go (cur : path) (segs : list string) {struct segs} :=
    match segs with
    | [] => Ok cur
    | s :: rest =>
      if is_dir_node (t !! cur) then
        if decide (s = "" ∨ s = ".") then go cur rest
        else if decide (s = "..") then go (removelast cur) rest
        else match t !! (cur ++ [s]) with
             | None => Err enoent
             | Some (Symlink tgt) =>
                 match links with
                 | O => Err eloop
                 | S links' =>
                     walk t links' (if is_absolute tgt then [] else cur)
                          (split_slash tgt ++ rest)
                 end
             | Some _ => go (cur ++ [s]) rest
             end
      else Err enotdir
    end.

(** [Path::canonicalize] of an absolute path, given by its segments. *)
Definition canonicalize (t : tree) (segs : list string) : result io.Error path :=
  walk t max_symlinks [] segs.

(** Where the last component of [p] lives: its directory is resolved, the
    name itself is not. *)
Definition entry_loc (t : tree) (p : path) : result io.Error path :=
  match last p with
  | None => Ok []
  | Some name =>
      d ← canonicalize t (removelast p);
      if is_dir_node (t !! d) then Ok (d ++ [name]) else Err enotdir
  end.

(** [fs::metadata] (follows links) and [fs::symlink_metadata] (does not). *)
Definition metadata (t : tree) (p : path) : result io.Error node :=
  q ← canonicalize t p; ok_or (t !! q) enoent.
Definition symlink_metadata (t : tree) (p : path) : result io.Error node :=
  l ← entry_loc t p; ok_or (t !! l) enoent.

(** [Path::exists], [Path::is_dir]. *)
Definition exists_ (t : tree) (p : path) : bool := is_ok (metadata t p).
Definition is_dir (t : tree) (p : path) : bool := is_dir_node (ok (metadata t p)).

(** The names in a directory, with their entries. *)
Definition dir_entries (t : tree) (d : path) : list (string * node) :=
  omap (λ '(p, n), match last p with
                   | Some name => if decide (p = d ++ [name]) then Some (name, n) else None
                   | None => None
                   end) (map_to_list t).
Definition dir_names (t : tree) (d : path) : gset string :=
  list_to_set (dir_entries t d).*1.

(** ** Calls that change a tree *)

Definition tree_mkdir (t : tree) (p : path) : result io.Error tree :=
  l ← entry_loc t p;
  match t !! l with
  | Some _ => Err eexist
  | None => Ok (<[l := Dir 493 4096]> t)
  end.

Definition tree_remove (t : tree) (p : path) : result io.Error tree :=
  l ← entry_loc t p;
  match t !! l with
  | None => Err enoent
  | Some (Dir _ _) => Err eisdir
  | Some _ => Ok (delete l t)
  end.

Definition tree_rename (t : tree) (src dst : path) : result io.Error tree :=
  ls ← entry_loc t src;
  ld ← entry_loc t dst;
  n ← ok_or (t !! ls) enoent;
  match t !! ld with
  | Some (Dir _ _) => Err eisdir
  | _ => Ok (<[ld := n]> (delete ls t))
  end.

(** [renameat2] with [RENAME_NOREPLACE], which [persist_noclobber] uses. *)
Definition tree_rename_noreplace (t : tree) (src dst : path) : result io.Error tree :=
  ls ← entry_loc t src;
  ld ← entry_loc t dst;
  n ← ok_or (t !! ls) enoent;
  match t !! ld with
  | Some _ => Err eexist
  | None => Ok (<[ld := n]> (delete ls t))
  end.

Definition tree_link (t : tree) (src dst : path) : result io.Error tree :=
  ls ← entry_loc t src;
  ld ← entry_loc t dst;
  n ← ok_or (t !! ls) enoent;
  match t !! ld with
  | Some _ => Err eexist
  | None => Ok (<[ld := n]> t)
  end.

(** A regular file, links followed. *)
Definition tree_read (t : tree) (p : path) : result io.Error bytes :=
  n ← metadata t p;
  match n with
  | File data _ _ => Ok data
  | Dir _ _ => Err eisdir
  | Symlink _ => Err eloop
  end.

Definition tree_chmod (t : tree) (p : path) (mode : N) : result io.Error tree :=
  q ← canonicalize t p;
  match t !! q with
  | Some (File data _ mtime) => Ok (<[q := File data mode mtime]> t)
  | Some (Dir _ len) => Ok (<[q := Dir mode len]> t)
  | _ => Err enoent
  end.

(** Replace the content of an existing file: open with [O_TRUNC], write. *)
Definition tree_write (p : path) (now : N) (data : bytes) (t : tree) : tree :=
  match canonicalize t p with
  | Ok q => match t !! q with
            | Some (File _ mode _) => <[q := File data mode now]> t
            | _ => t
            end
  | Err _ => t
  end.

(** Open an existing regular file with [O_TRUNC]. *)
Definition tree_truncate (p : path) (now : N) (t : tree) : result io.Error tree :=
  q ← canonicalize t p;
  match t !! q with
  | Some (File _ mode _) => Ok (<[q := File [] mode now]> t)
  | Some (Dir _ _) => Err eisdir
  | _ => Err enoent
  end.

(** Write at the end of an existing file. *)
Definition tree_append (p : path) (now : N) (bs : bytes) (t : tree) : tree :=
  match canonicalize t p with
  | Ok q => match t !! q with
            | Some (File data mode _) => <[q := File (data ++ bs) mode now]> t
            | _ => t
            end
  | Err _ => t
  end.

(** ** The calls, as system calls *)

Section calls.
Context `{Env} `{Tempfile}.

Definition fs_symlink_metadata (p : path) : M io.Error node :=
  sys None (λ w, n ← symlink_metadata (w_fs w) p; Ok (n, w)).
Definition fs_metadata (p : path) : M io.Error node :=
  sys None (λ w, n ← metadata (w_fs w) p; Ok (n, w)).
Definition fs_read (p : path) : M io.Error bytes :=
  sys None (λ w, b ← tree_read (w_fs w) p; Ok (b, w)).
(** [Path::exists] and [Path::is_dir] take any failure for a no. *)
Definition fs_exists {E} (p : path) : M E bool :=
  r ← attempt (fs_metadata p); mret (is_ok r).
Definition fs_is_dir {E} (p : path) : M E bool :=
  r ← attempt (fs_metadata p); mret (is_dir_node (ok r)).

Definition fs_change (ev : event) (f : tree → result io.Error tree) : M io.Error unit :=
  sys (Some ev) (λ w, t ← f (w_fs w); Ok (tt, set_fs (λ _, t) w)).

Definition fs_mkdir (p : path) : M io.Error unit := fs_change (EvMkdir p) (λ t, tree_mkdir t p).
Definition fs_remove_file (p : path) : M io.Error unit :=
  fs_change (EvRemove p) (λ t, tree_remove t p).
Definition fs_rename (src dst : path) : M io.Error unit :=
  fs_change (EvRename src dst) (λ t, tree_rename t src dst).
Definition fs_rename_noreplace (src dst : path) : M io.Error unit :=
  fs_change (EvRename src dst) (λ t, tree_rename_noreplace t src dst).
Definition fs_hard_link (src dst : path) : M io.Error unit :=
  fs_change (EvLink src dst) (λ t, tree_link t src dst).
Definition fs_set_permissions (p : path) (mode : N) : M io.Error unit :=
  fs_change (EvChmod p) (λ t, tree_chmod t p mode).

(** [fs::write] to an existing file: truncate on open, then the bytes. *)
Definition fs_write (p : path) (data : bytes) : M io.Error unit :=
  sys_write (EvWrite p)
    (λ bs w, set_fs (tree_write p (env_clock (w_step w)) bs) w) data.

(** [OpenOptions::new().write(true).truncate(true).open], and [write_all] on
    the open file. *)
Definition fs_open_truncate (p : path) : M io.Error unit :=
  sys (Some (EvWrite p)) (λ w,
    t ← tree_truncate p (env_clock (w_step w)) (w_fs w); Ok (tt, set_fs (λ _, t) w)).
Definition fs_append (p : path) (bs : bytes) : M io.Error unit :=
  sys_write (EvWrite p) (λ bs w, set_fs (tree_append p (env_clock (w_step w)) bs) w) bs.

(** [sync_all] of a file and of its directory ([fsync.rs]). *)
Definition fs_sync (p : path) : M io.Error unit :=
  sys (Some (EvSync p)) (λ w, Ok (tt, w)).

(** [fs::create_dir_all]; the recursion is on the path, leaf first. *)
Fixpoint create_dir_all_rev (rp : list string) : M io.Error unit :=
  r ← attempt (fs_mkdir (reverse rp));
  match r with
  | Ok _ => mret tt
  | Err e =>
    if decide (io.kind e = ErrorKind.NotFound) then
      match rp with
      | [] => raise (io.MkError ErrorKind.Other "failed to create whole tree")
      | _ :: rparent =>
          create_dir_all_rev rparent ;;
          r2 ← attempt (fs_mkdir (reverse rp));
          match r2 with
          | Ok _ => mret tt
          | Err e2 => d ← fs_is_dir (reverse rp); if d : bool then mret tt else raise e2
          end
      end
    else d ← fs_is_dir (reverse rp); if d : bool then mret tt else raise e
  end.
Definition fs_create_dir_all (p : path) : M io.Error unit := create_dir_all_rev (reverse p).

(** [tempfile::Builder::new().prefix(pre).suffix(suf).tempfile_in(dir)]:
    an empty file of mode 0600 under a fresh name. *)
Definition tempfile_in (dir : path) (pre suf : string) : M io.Error path :=
  sys (Some (EvWrite dir)) (λ w,
    d ← canonicalize (w_fs w) dir;
    if is_dir_node (w_fs w !! d) then
      let name := tempfile_name pre suf (dir_names (w_fs w) d) in
      Ok (dir ++ [name],
          set_fs <[d ++ [name] := File [] 384 (env_clock (w_step w))]> w)
    else Err enotdir).

(** [NamedTempFile::new_in(dir)]. *)
Definition named_temp_file (dir : path) : M io.Error path := tempfile_in dir ".tmp" "".

(** Dropping a [NamedTempFile] removes the file; errors are ignored. *)
Definition drop_temp {E} (tmp : path) : M E unit :=
  _ ← attempt (fs_remove_file tmp); mret tt.

(** Run [body] with a [NamedTempFile] in hand, which is dropped when [body]
    is left, unless the process died. *)
Definition with_temp {E A} (tmp : path) (body : M E A) : M E A :=
  r ← attempt body; drop_temp tmp ;; lift r.

(** The same for a [body] that ends by persisting the file: only an error
    leaves it to be removed. *)
Definition until_persisted {E A} (tmp : path) (body : M E A) : M E A :=
  r ← attempt body;
  match r with
  | Ok a => mret a
  | Err e => drop_temp tmp ;; raise e
  end.
End calls.

(** ** Real paths

    [real t p]: every component of [p] is there, and every one before the
    last is a directory -- in particular none of them is a symbolic link. *)

Definition name_ok (s : string) : Prop := s ≠ "" ∧ s ≠ "." ∧ s ≠ "..".

#[global] Instance name_ok_dec s : Decision (name_ok s).
Proof. unfold name_ok. apply _. Defined.

Definition not_symlink (n : node) : Prop :=
  match n with Symlink _ => False | _ => True end.

Inductive real (t : tree) : path → Prop :=
| real_root : is_dir_node (t !! []) = true → real t []
| real_snoc p s n :
    real t p → is_dir_node (t !! p) = true → name_ok s →
    t !! (p ++ [s]) = Some n → not_symlink n → real t (p ++ [s]).

(** A well-formed tree: [/] is a directory, every entry has a directory above
    it, and no entry is called [.], [..] or the empty name. *)
Definition tree_wf (t : tree) : Prop :=
  is_dir_node (t !! []) = true ∧
  ∀ p s n, t !! (p ++ [s]) = Some n → is_dir_node (t !! p) = true ∧ name_ok s.

Lemma real_lookup t p : real t p → ∃ n, t !! p = Some n ∧ not_symlink n.
Proof.
  intros [Hd|]; [|eauto]. destruct (t !! []) as [[]|] eqn:E; try done.
  by exists (Dir mode len).
Qed.

Lemma real_prefix t p q : real t (p ++ q) → real t p.
Proof.
  induction q as [|s q IH] using rev_ind; [by rewrite app_nil_r|].
  rewrite (assoc_L (++)). inversion 1 as [Hd Heq|p' s' n' Hr Hd Hn Hl Hs Heq].
  - by destruct (p ++ q).
  - apply app_inj_tail in Heq as [-> ->]. auto.
Qed.

Lemma real_removelast t p : real t p → real t (removelast p).
Proof.
  destruct p as [|s p'] using rev_ind; [done|].
  rewrite removelast_last. apply real_prefix.
Qed.

(** One step of [walk], and induction over its steps. *)
Lemma walk_cons t links cur s rest :
  walk t links cur (s :: rest) =
  if is_dir_node (t !! cur) then
    if decide (s = "" ∨ s = ".") then walk t links cur rest
    else if decide (s = "..") then walk t links (removelast cur) rest
    else match t !! (cur ++ [s]) with
         | None => Err enoent
         | Some (Symlink tgt) =>
             match links with
             | O => Err eloop
             | S links' => walk t links' (if is_absolute tgt then [] else cur)
                             (split_slash tgt ++ rest)
             end
         | Some _ => walk t links (cur ++ [s]) rest
         end
  else Err enotdir.
Proof. by destruct links. Qed.

Lemma walk_nil t links cur : walk t links cur [] = Ok cur.
Proof. by destruct links. Qed.

Lemma walk_ind t (P : nat → path → list string → result io.Error path → Prop) :
  (∀ l cur, P l cur [] (Ok cur)) →
  (∀ l cur s rest, is_dir_node (t !! cur) = false → P l cur (s :: rest) (Err enotdir)) →
  (∀ l cur s rest r, is_dir_node (t !! cur) = true → s = "" ∨ s = "." →
     P l cur rest r → P l cur (s :: rest) r) →
  (∀ l cur rest r, is_dir_node (t !! cur) = true →
     P l (removelast cur) rest r → P l cur (".." :: rest) r) →
  (∀ l cur s rest, is_dir_node (t !! cur) = true → name_ok s →
     t !! (cur ++ [s]) = None → P l cur (s :: rest) (Err enoent)) →
  (∀ cur s rest tgt, is_dir_node (t !! cur) = true → name_ok s →
     t !! (cur ++ [s]) = Some (Symlink tgt) → P 0 cur (s :: rest) (Err eloop)) →
  (∀ l cur s rest tgt r, is_dir_node (t !! cur) = true → name_ok s →
     t !! (cur ++ [s]) = Some (Symlink tgt) →
     P l (if is_absolute tgt then [] else cur) (split_slash tgt ++ rest) r →
     P (S l) cur (s :: rest) r) →
  (∀ l cur s rest n r, is_dir_node (t !! cur) = true → name_ok s →
     t !! (cur ++ [s]) = Some n → not_symlink n →
     P l (cur ++ [s]) rest r → P l cur (s :: rest) r) →
  ∀ l cur segs, P l cur segs (walk t l cur segs).
Proof.
  intros Hnil Hnd Hdot Hdd Hno Hloop Hsym Hn l.
  induction l as [|l IHl]; intros cur segs; revert cur;
    induction segs as [|s rest IH]; intros cur; rewrite ?walk_nil; auto;
    rewrite walk_cons; destruct (is_dir_node (t !! cur)) eqn:Hd; auto;
    (destruct (decide (s = "" ∨ s = ".")) as [|Hs]; [by auto|]);
    (destruct (decide (s = "..")) as [->|Hs2]; [by auto|]);
    assert (name_ok s) by (unfold name_ok; naive_solver);
    destruct (t !! (cur ++ [s])) as [[]|] eqn:Hl; eauto;
    by eapply Hn; [..|eapply IH].
Qed.

Ltac walk_induct ind l cur a := refine (ind _ _ _ _ _ _ _ _ l cur a); cbv beta.

(** Resolution ends at a real path. *)
Lemma walk_real t links cur segs q :
  real t cur → walk t links cur segs = Ok q → real t q.
Proof.
  revert q. walk_induct (walk_ind t (λ _ cur _ r, ∀ q, real t cur → r = Ok q → real t q)) links cur segs; try done.
  - intros; by simplify_eq.
  - auto using real_removelast.
  - intros l' cur' s rest tgt r Hd Hs Hl IH q Hr. apply IH.
    destruct (is_absolute tgt); [by apply (real_prefix t [] cur')|done].
  - intros l' cur' s rest n r Hd Hs Hl Hn IH q Hr. apply IH. by econstructor.
Qed.

(** Walking a real path, one name at a time, stays on it. *)
Lemma walk_real_app t links p q segs :
  real t (p ++ q) → walk t links p (q ++ segs) = walk t links (p ++ q) segs.
Proof.
  revert p. induction q as [|s q IH]; intros p Hr; [by rewrite app_nil_r|].
  assert (p ++ s :: q = (p ++ [s]) ++ q) as Heq by by rewrite <- (assoc_L (++)).
  assert (real t (p ++ [s])) as Hps by (rewrite Heq in Hr; by eapply real_prefix).
  inversion Hps as [Hd Hnil|p' s' n Hr' Hd Hn Hl Hsym Hsn]; [by destruct p|].
  apply app_inj_tail in Hsn as [-> ->].
  rewrite Heq, <- IH by by rewrite <- Heq.
  rewrite <- app_comm_cons, walk_cons, Hd.
  destruct Hn as (H1 & H2 & H3).
  rewrite decide_False, decide_False, Hl by naive_solver. by destruct n.
Qed.

(** Canonicalisation is idempotent: a real path resolves to itself. *)
Lemma canonicalize_real t p : real t p → canonicalize t p = Ok p.
Proof.
  intros Hr. unfold canonicalize. rewrite <- (app_nil_r p) at 1.
  rewrite (walk_real_app t _ [] p []) by done. by rewrite walk_nil.
Qed.

Lemma canonicalize_is_real t segs q :
  tree_wf t → canonicalize t segs = Ok q → real t q.
Proof. intros [Hd _]. apply walk_real. by constructor. Qed.

(** ** Composition of walks *)

Definition not_found {A} (r : result io.Error A) : Prop :=
  ∃ e, r = Err e ∧ io.kind e = ErrorKind.NotFound.

Lemma not_found_enoent {A} : not_found (A := A) (Err enoent).
Proof. by exists enoent. Qed.

#[export] Hint Resolve not_found_enoent : agent.

(** Rewrite one step of a walk with the facts in the context. *)
Ltac walk_known :=
  rewrite walk_cons;
  repeat match goal with
  | H : is_dir_node (?t !! ?p) = _ |- context [is_dir_node (?t !! ?p)] => rewrite H
  | H : name_ok ?s |- context [decide (?s = "" ∨ ?s = ".")] =>
      rewrite decide_False by (unfold name_ok in H; naive_solver)
  | H : name_ok ?s |- context [decide (?s = "..")] =>
      rewrite decide_False by (unfold name_ok in H; naive_solver)
  | |- context [decide (".." = "" ∨ ".." = ".")] =>
      rewrite (decide_False (P := ".." = "" ∨ ".." = ".")) by naive_solver
  | |- context [decide (".." = "..")] => rewrite (decide_True (P := ".." = "..")) by done
  | H : ?s = "" ∨ ?s = "." |- context [decide (?s = "" ∨ ?s = ".")] =>
      rewrite decide_True by done
  | H : ?t !! ?p = _ |- context [?t !! ?p] => rewrite H
  end.

(** A successful walk continues from where it ends, with the links it has
    left. *)
Lemma walk_app t links cur a q :
  walk t links cur a = Ok q →
  ∃ links', links' ≤ links ∧ ∀ b, walk t links cur (a ++ b) = walk t links' q b.
Proof.
  walk_induct (walk_ind t (λ l cur a r, r = Ok q →
    ∃ l', l' ≤ l ∧ ∀ b, walk t l cur (a ++ b) = walk t l' q b)) links cur a; try done.
  - intros l cur' H. simplify_eq. by exists l.
  - intros l cur' s rest r Hd Hs IH Hr. destruct (IH Hr) as (l' & ? & Hb).
    exists l'. split; [done|]. intros b. rewrite <- app_comm_cons, <- Hb. by walk_known.
  - intros l cur' rest r Hd IH Hr. destruct (IH Hr) as (l' & ? & Hb).
    exists l'. split; [done|]. intros b. rewrite <- app_comm_cons, <- Hb. by walk_known.
  - intros l cur' s rest tgt r Hd Hs Hl IH Hr. destruct (IH Hr) as (l' & ? & Hb).
    exists l'. split; [lia|]. intros b. rewrite <- app_comm_cons, <- Hb.
    walk_known. by rewrite (assoc_L (++)).
  - intros l cur' s rest n r Hd Hs Hl Hn IH Hr. destruct (IH Hr) as (l' & ? & Hb).
    exists l'. split; [done|]. intros b. rewrite <- app_comm_cons, <- Hb.
    walk_known. by destruct n.
Qed.

(** A walk that fails stays failed when more segments follow. *)
Lemma walk_app_err t links cur a b e :
  walk t links cur a = Err e → walk t links cur (a ++ b) = Err e.
Proof.
  walk_induct (walk_ind t (λ l cur a r, r = Err e → walk t l cur (a ++ b) = Err e)) links cur a; try done;
    intros; rewrite <- app_comm_cons; walk_known; auto.
  - rewrite (assoc_L (++)). auto.
  - by destruct n; auto.
Qed.

(** More links to spend change nothing unless the walk ran out of them. *)
Lemma walk_more_links t l l' cur a :
  l ≤ l' → not_found (walk t l cur a) → walk t l' cur a = walk t l cur a.
Proof.
  intros Hle Hnf. revert l' Hle Hnf.
  walk_induct (walk_ind t (λ l cur a r, ∀ l', l ≤ l' → not_found r → walk t l' cur a = r)) l cur a; clear; try (intros; walk_known; by auto).
  - intros. by rewrite walk_nil.
  - intros cur s rest tgt _ _ _ l' _ [e [He Hk]]. by simplify_eq.
  - intros l cur s rest tgt r Hd Hs Hl IH [|l'] Hle Hnf; [lia|].
    walk_known. apply IH; [lia|done].
  - intros l cur s rest n r Hd Hs Hl Hn IH l' Hle Hnf. walk_known.
    by destruct n; auto.
Qed.

(** Dropping empty and [.] segments can only turn "not a directory" into
    something else. *)
Inductive undot : list string → list string → Prop :=
| undot_nil : undot [] []
| undot_keep s a b : undot a b → undot (s :: a) (s :: b)
| undot_drop s a b : s = "" ∨ s = "." → undot a b → undot (s :: a) b.

Lemma undot_refl a : undot a a.
Proof. induction a; by constructor. Qed.

Lemma undot_app_l a b c : undot b c → undot (a ++ b) (a ++ c).
Proof. intros. induction a; [done|]. by constructor. Qed.

Lemma undot_normal a : undot a (normal_names a).
Proof.
  induction a as [|s a IH]; [constructor|]. cbn.
  case_bool_decide; constructor; [done| |done]. destruct (decide (s = "")); [auto|].
  destruct (decide (s = ".")); [auto|naive_solver].
Qed.

Lemma walk_undot t links cur a b :
  undot a b → walk t links cur a = Err enotdir ∨ walk t links cur a = walk t links cur b.
Proof.
  revert b. walk_induct (walk_ind t (λ l cur a r, ∀ b, undot a b →
    r = Err enotdir ∨ r = walk t l cur b)) links cur a; clear; try by auto.
  - intros l cur b Hu. inversion Hu. by rewrite walk_nil; auto.
  - intros l cur s rest r Hd Hs IH b Hu. inversion Hu; subst; [|by auto].
    walk_known. auto.
  - intros l cur rest r Hd IH b Hu. inversion Hu; subst; [|naive_solver].
    walk_known. auto.
  - intros l cur s rest Hd Hs Hl b Hu. inversion Hu; subst; [|unfold name_ok in *; naive_solver].
    right. by walk_known.
  - intros cur s rest tgt Hd Hs Hl b Hu. inversion Hu; subst; [|unfold name_ok in *; naive_solver].
    right. by walk_known.
  - intros l cur s rest tgt r Hd Hs Hl IH b Hu.
    inversion Hu; subst; [|unfold name_ok in *; naive_solver].
    walk_known. apply IH. by apply undot_app_l.
  - intros l cur s rest n r Hd Hs Hl Hn IH b Hu.
    inversion Hu; subst; [|unfold name_ok in *; naive_solver].
    walk_known. by destruct n; auto.
Qed.

(** ** Looking at real paths *)

Lemma last_removelast (p : path) s : last p = Some s → p = removelast p ++ [s].
Proof.
  destruct p as [|x p' _] using rev_ind; [done|].
  rewrite last_snoc, removelast_last. intros. by simplify_eq.
Qed.

Lemma real_parent_dir t p s : real t (p ++ [s]) → real t p ∧ is_dir_node (t !! p) = true.
Proof.
  inversion 1 as [Hd Hnil|p' s' n Hr Hd Hn Hl Hs Heq]; [by destruct p|].
  by apply app_inj_tail in Heq as [-> ->].
Qed.

(** The entry of a name in a real directory is where it says. *)
Lemma entry_loc_real t p s :
  real t p → is_dir_node (t !! p) = true → entry_loc t (p ++ [s]) = Ok (p ++ [s]).
Proof.
  intros Hr Hd. unfold entry_loc. rewrite last_snoc, removelast_last.
  by rewrite (canonicalize_real t p Hr); simpl; rewrite Hd.
Qed.

Lemma entry_loc_self t p : real t p → entry_loc t p = Ok p.
Proof.
  intros Hr. destruct p as [|s p' _] using rev_ind; [done|].
  apply real_parent_dir in Hr as [Hr Hd]. by apply entry_loc_real.
Qed.

Lemma metadata_real t p n : real t p → t !! p = Some n → metadata t p = Ok n.
Proof. intros Hr Hl. unfold metadata. by rewrite (canonicalize_real t p Hr); simpl; rewrite Hl. Qed.

Lemma symlink_metadata_real t p n : real t p → t !! p = Some n → symlink_metadata t p = Ok n.
Proof. intros Hr Hl. unfold symlink_metadata. by rewrite (entry_loc_self t p Hr); simpl; rewrite Hl. Qed.

Lemma tree_read_real t p data mode mtime :
  real t p → t !! p = Some (File data mode mtime) → tree_read t p = Ok data.
Proof. intros Hr Hl. unfold tree_read. by rewrite (metadata_real t p _ Hr Hl). Qed.

(** A file as opposed to a directory: replacing or removing it leaves the
    paths that do not pass through it real. *)
Lemma real_insert_file t p q data mode mtime :
  real t p → is_dir_node (t !! q) = false → p ≠ q →
  real (<[q := File data mode mtime]> t) p.
Proof.
  intros Hr Hq. induction Hr as [Hd|p s n Hr IH Hd Hn Hl Hs]; intros Hne.
  - constructor. by rewrite lookup_insert_ne.
  - assert (p ≠ q) by (intros ->; congruence).
    econstructor; [by apply IH| |done| |done]; by rewrite lookup_insert_ne.
Qed.

Lemma real_insert_file_self t p s data mode mtime :
  real t p → is_dir_node (t !! p) = true → name_ok s →
  is_dir_node (t !! (p ++ [s])) = false →
  real (<[p ++ [s] := File data mode mtime]> t) (p ++ [s]).
Proof.
  intros Hr Hd Hs Hf.
  assert (p ≠ p ++ [s]) by (intros H; apply (f_equal length) in H; rewrite length_app in H; simpl in H; lia).
  econstructor; [by apply real_insert_file| |done|by rewrite lookup_insert_eq|done].
  by rewrite lookup_insert_ne.
Qed.

Lemma real_delete_file t p q :
  real t p → is_dir_node (t !! q) = false → p ≠ q → real (delete q t) p.
Proof.
  intros Hr Hq. induction Hr as [Hd|p s n Hr IH Hd Hn Hl Hs]; intros Hne.
  - constructor. by rewrite lookup_delete_ne.
  - assert (p ≠ q) by (intros ->; congruence).
    econstructor; [by apply IH| |done| |done]; by rewrite lookup_delete_ne.
Qed.
