(* ===== verification/Hash.v ===== *)
(** * Hash: content hashes and directory syncs

    Models [crates/agent-remote-server/src/hash.rs] and [fsync.rs]. *)

From S2P Require Import Prelude Text Protocol World Fs.

Section hash.
Context `{Sha256}.

Definition hash_bytes (bs : bytes) : string := "sha256:" +:+ sha256_hex bs.

Definition hash_str (s : string) : string := hash_bytes (as_bytes s).

(** [hash_file]: the hash of a regular file; [None] for anything else and
    for nothing at all. *)
Definition hash_file `{Env} (abs : path) : M io.Error (option string) :=
  r ← attempt (fs_metadata abs);
  match r with
  | Ok (File _ _ _) => bs ← fs_read abs; mret (Some (hash_bytes bs))
  | Ok _ => mret None
  | Err e => if decide (io.kind e = ErrorKind.NotFound) then mret None else raise e
  end.
End hash.

(** [fsync_file_or_dir] opens and syncs a file, then its directory;
    [fsync_dir] a directory alone. *)
Definition fsync_file_or_dir `{Env} (p : path) : M io.Error unit :=
  sys (Some (EvSync p)) (λ w, _ ← metadata (w_fs w) p; Ok (tt, w)).
Definition fsync_dir `{Env} (p : path) : M io.Error unit :=
  sys (Some (EvSync p)) (λ w, _ ← metadata (w_fs w) p; Ok (tt, w)).

(** The path of [FILE_DELETED_SENTINEL] through the records relies on no hash
    looking like it. *)
Definition FILE_DELETED_SENTINEL : string := "sha256:".

Lemma hash_not_sentinel `{Sha256Laws} bs : hash_bytes bs ≠ FILE_DELETED_SENTINEL.
Proof.
  unfold hash_bytes, FILE_DELETED_SENTINEL. intros Heq.
  apply (f_equal (λ s, strip_prefix s "sha256:")) in Heq.
  rewrite strip_prefix_append in Heq. injection Heq. apply sha256_hex_nonempty.
Qed.
