(* ===== verification/FsSpec.v ===== *)
(** * FsSpec: what the file system calls do

    Specifications of the calls of [Fs.v] in any environment, the life of a
    temporary file beside its target, and the stability of path resolution
    under the changes the server makes to files. *)

From S2P Require Import Prelude Text Protocol World Fs Hash.

(** [w'] is [w] with the tree [t'] and some more system calls made. *)
Definition fs_step (w w' : world) (t' : tree) : Prop :=
  w_fs w' = t' ∧ w_sd w' = w_sd w ∧ w_mem w' = w_mem w.

Lemma fs_step_refl w : fs_step w w (w_fs w).
Proof. done. Qed.

Lemma fs_step_trans w1 w2 w3 t2 t3 :
  fs_step w1 w2 t2 → fs_step w2 w3 t3 → fs_step w1 w3 t3.
Proof. intros (_ & ? & ?) (? & ? & ?). split_and!; congruence. Qed.

Ltac fs_eq :=
  unfold fs_step in *; destruct_and?;
  cbn [w_fs w_sd w_mem tick emit set_fs set_sd set_mem] in *; split_and?; congruence.

Section calls.
Context `{Env}.

(** A call that fails has met the environment or an error of its own. *)
Lemma fs_change_wp ev f w Φ :
  (∀ t' w', f (w_fs w) = Ok t' → fs_step w w' t' → Φ (Returned tt) w') →
  (∀ e w', f (w_fs w) = Err e → fs_step w w' (w_fs w) → Φ (Raised e) w') →
  (∀ text w', fails → fs_step w w' (w_fs w) → Φ (Raised (injected text)) w') →
  (∀ w', dies → fs_step w w' (w_fs w) → Φ Killed w') →
  wp (fs_change ev f) w Φ.
Proof.
  intros HR HE HF HK. unfold fs_change. apply wp_sys.
  - intros [] w' Ha. apply result_bind_Ok in Ha as (t' & Ht & ?). simplify_eq.
    apply (HR t'); [done|]. by split_and!.
  - intros e Ha. apply HE; [|by split_and!]. change (w_fs (tick w)) with (w_fs w) in Ha.
    destruct (f (w_fs w)); simplify_eq/=. done.
  - intros text Hf. by apply HF.
  - intros Hf. by apply HK.
Qed.

(** The same for a call that only looks. *)
Lemma fs_look_wp {A} (f : tree → result io.Error A) w Φ :
  (∀ a w', f (w_fs w) = Ok a → fs_step w w' (w_fs w) → Φ (Returned a) w') →
  (∀ e w', f (w_fs w) = Err e → fs_step w w' (w_fs w) → Φ (Raised e) w') →
  (∀ text w', fails → fs_step w w' (w_fs w) → Φ (Raised (injected text)) w') →
  (∀ w', dies → fs_step w w' (w_fs w) → Φ Killed w') →
  wp (sys None (λ w, a ← f (w_fs w); Ok (a, w))) w Φ.
Proof.
  intros HR HE HF HK. apply wp_sys.
  - intros a w' Ha. apply result_bind_Ok in Ha as (a' & Ht & ?). simplify_eq.
    by apply HR.
  - intros e Ha. apply HE; [|done]. change (w_fs (tick w)) with (w_fs w) in Ha.
    by destruct (f (w_fs w)); simplify_eq/=.
  - intros text Hf. by apply HF.
  - intros Hf. by apply HK.
Qed.

Definition looks {A} (r : result io.Error A) w (Φ : outcome io.Error A → world → Prop) : Prop :=
  (∀ a w', r = Ok a → fs_step w w' (w_fs w) → Φ (Returned a) w') ∧
  (∀ e w', r = Err e → fs_step w w' (w_fs w) → Φ (Raised e) w') ∧
  (∀ text w', fails → fs_step w w' (w_fs w) → Φ (Raised (injected text)) w') ∧
  (∀ w', dies → fs_step w w' (w_fs w) → Φ Killed w').

Lemma fs_metadata_wp p w Φ : looks (metadata (w_fs w) p) w Φ → wp (fs_metadata p) w Φ.
Proof. intros (?&?&?&?). by apply (fs_look_wp (λ t, metadata t p)). Qed.
Lemma fs_symlink_metadata_wp p w Φ :
  looks (symlink_metadata (w_fs w) p) w Φ → wp (fs_symlink_metadata p) w Φ.
Proof. intros (?&?&?&?). by apply (fs_look_wp (λ t, symlink_metadata t p)). Qed.
Lemma fs_read_wp p w Φ : looks (tree_read (w_fs w) p) w Φ → wp (fs_read p) w Φ.
Proof. intros (?&?&?&?). by apply (fs_look_wp (λ t, tree_read t p)). Qed.

Lemma fs_is_dir_wp {E} p w (Φ : outcome E bool → world → Prop) :
  (∀ b w', fs_step w w' (w_fs w) → b = is_dir (w_fs w) p ∨ fails ∧ b = false →
     Φ (Returned b) w') →
  (∀ w', dies → fs_step w w' (w_fs w) → Φ Killed w') →
  wp (fs_is_dir p) w Φ.
Proof.
  intros HR HK. unfold fs_is_dir, is_dir in *. apply wp_bind, wp_attempt, fs_metadata_wp.
  split_and!.
  - intros n w' Hn Hw. rewrite Hn in HR. apply wp_ret, HR; [done|by left].
  - intros e w' He Hw. rewrite He in HR. apply wp_ret, HR; [done|by left].
  - intros text w' Hf Hw. apply wp_ret, HR; [done|by right].
  - intros w' Hf Hw. by apply HK.
Qed.

Lemma fs_exists_wp {E} p w (Φ : outcome E bool → world → Prop) :
  (∀ b w', fs_step w w' (w_fs w) → b = exists_ (w_fs w) p ∨ fails ∧ b = false →
     Φ (Returned b) w') →
  (∀ w', dies → fs_step w w' (w_fs w) → Φ Killed w') →
  wp (fs_exists p) w Φ.
Proof.
  intros HR HK. unfold fs_exists, exists_ in *. apply wp_bind, wp_attempt, fs_metadata_wp.
  split_and!.
  - intros n w' Hn Hw. rewrite Hn in HR. apply wp_ret, HR; [done|by left].
  - intros e w' He Hw. rewrite He in HR. apply wp_ret, HR; [done|by left].
  - intros text w' Hf Hw. apply wp_ret, HR; [done|by right].
  - intros w' Hf Hw. by apply HK.
Qed.

(** Creating a directory that is there changes nothing. *)
Lemma create_dir_all_rev_existing_wp rp w Φ :
  real (w_fs w) (reverse rp) → is_dir_node (w_fs w !! reverse rp) = true →
  (∀ w', fs_step w w' (w_fs w) → Φ (Returned tt) w') →
  (∀ o w', faulty o → fs_step w w' (w_fs w) → Φ o w') →
  wp (create_dir_all_rev rp) w Φ.
Proof.
  intros Hr Hd HR HF.
  assert (is_dir (w_fs w) (reverse rp) = true) as Hdir.
  { unfold is_dir. destruct (w_fs w !! reverse rp) as [n|] eqn:Hl; [|done].
    by rewrite (metadata_real _ _ n Hr Hl). }
  assert (∀ w' e, fs_step w w' (w_fs w) →
    wp (d ← fs_is_dir (reverse rp); if d : bool then mret tt else raise e) w' Φ) as Hend.
  { intros w' e Hw'. apply wp_bind, fs_is_dir_wp.
    - intros b w'' Hw'' Hb. destruct b; [apply wp_ret, HR; fs_eq|].
      destruct Hb as [Hb|[Hf _]].
      + rewrite (proj1 Hw'), Hdir in Hb. done.
      + apply wp_raise, HF; [done|fs_eq].
    - intros w'' Hf Hw''. apply HF; [done|fs_eq]. }
  assert (tree_mkdir (w_fs w) (reverse rp) = Err eexist) as Hmk.
  { unfold tree_mkdir. rewrite entry_loc_self by done. cbn.
    by destruct (w_fs w !! reverse rp). }
  clear Hr Hd Hdir.
  assert (∃ missing, create_dir_all_rev rp =
    (r ← attempt (fs_mkdir (reverse rp));
     match r with
     | Ok _ => mret tt
     | Err e =>
         if decide (io.kind e = ErrorKind.NotFound) then missing e
         else d ← fs_is_dir (reverse rp); if d : bool then mret tt else raise e
     end)) as [missing ->] by (destruct rp; eexists (λ _, _); reflexivity).
  apply wp_bind, wp_attempt, fs_change_wp; cbv beta; rewrite ?Hmk.
  - done.
  - intros e w' [= <-] Hw'. rewrite decide_False by done. by apply Hend.
  - intros text w' Hf Hw'. rewrite decide_False by done. by apply Hend.
  - intros w' Hf Hw'. by apply HF.
Qed.

Lemma create_dir_all_existing_wp p w Φ :
  real (w_fs w) p → is_dir_node (w_fs w !! p) = true →
  (∀ w', fs_step w w' (w_fs w) → Φ (Returned tt) w') →
  (∀ o w', faulty o → fs_step w w' (w_fs w) → Φ o w') →
  wp (fs_create_dir_all p) w Φ.
Proof.
  intros Hr Hd. apply create_dir_all_rev_existing_wp; by rewrite reverse_involutive.
Qed.

Lemma fsync_wp p w Φ :
  is_ok (metadata (w_fs w) p) = true →
  (∀ w', fs_step w w' (w_fs w) → Φ (Returned tt) w') →
  (∀ o w', faulty o → fs_step w w' (w_fs w) → Φ o w') →
  wp (fsync_file_or_dir p) w Φ.
Proof.
  intros Hm HR HF. unfold fsync_file_or_dir. apply wp_sys.
  - intros [] w' Ha. apply result_bind_Ok in Ha as (n & _ & ?). simplify_eq. by apply HR.
  - intros e Ha. change (w_fs (tick w)) with (w_fs w) in Ha.
    by destruct (metadata (w_fs w) p).
  - intros text Hf. by apply HF.
  - intros Hf. by apply HF.
Qed.
End calls.

(** ** The content hash of a path *)

Definition hash_of `{Sha256} (t : tree) (abs : path) : result io.Error (option string) :=
  match metadata t abs with
  | Ok (File data _ _) => Ok (Some (hash_bytes data))
  | Ok _ => Ok None
  | Err e => if decide (io.kind e = ErrorKind.NotFound) then Ok None else Err e
  end.

Lemma tree_read_metadata t p data mode mtime :
  metadata t p = Ok (File data mode mtime) → tree_read t p = Ok data.
Proof. unfold tree_read. by intros ->. Qed.

Lemma hash_file_wp `{Env} `{Sha256} abs w Φ :
  (∀ h w', hash_of (w_fs w) abs = Ok h → fs_step w w' (w_fs w) → Φ (Returned h) w') →
  (∀ e w', hash_of (w_fs w) abs = Err e → fs_step w w' (w_fs w) → Φ (Raised e) w') →
  (∀ o w', faulty o → fs_step w w' (w_fs w) → Φ o w') →
  wp (hash_file abs) w Φ.
Proof.
  intros HR HE HF. unfold hash_file.
  apply wp_bind, wp_attempt, fs_metadata_wp. split_and!.
  - intros n w1 Hn Hw1. destruct n as [data mode mtime| |].
    2,3: apply wp_ret, HR; [unfold hash_of; by rewrite Hn|done].
    assert (tree_read (w_fs w1) abs = Ok data) as Hread.
    { apply (tree_read_metadata _ _ _ mode mtime). destruct Hw1 as [-> _]. done. }
    apply wp_bind, fs_read_wp. rewrite Hread. split_and!.
    + intros bs w2 [= <-] Hw2. apply wp_ret, HR; [unfold hash_of; by rewrite Hn|fs_eq].
    + done.
    + intros text w2 Hfl Hw2. apply HF; [done|fs_eq].
    + intros w2 Hfl Hw2. apply HF; [done|fs_eq].
  - intros e w1 He Hw1. case_decide as Hk.
    + apply wp_ret, HR; [unfold hash_of; by rewrite He, decide_True|done].
    + apply wp_raise, HE; [unfold hash_of; by rewrite He, decide_False|done].
  - intros text w1 Hfl Hw1. rewrite decide_False by done. by apply wp_raise, HF.
  - intros w1 Hfl Hw1. by apply HF.
Qed.

(** ** A temporary file beside its target *)

Lemma snoc_ne (p : path) s : p ≠ p ++ [s].
Proof. intros H. apply (f_equal length) in H. rewrite length_app in H. simpl in H. lia. Qed.

Section temp_tree.
Context (t : tree) (p : path) (tn : string).
Context (Hp : real t p) (Hd : is_dir_node (t !! p) = true).
Context (Hn : name_ok tn) (Hfree : t !! (p ++ [tn]) = None).

Definition with_temp_file (data : bytes) (mode mtime : N) : tree :=
  <[p ++ [tn] := File data mode mtime]> t.

Lemma temp_dir data mode mtime :
  real (with_temp_file data mode mtime) p ∧
  is_dir_node (with_temp_file data mode mtime !! p) = true.
Proof.
  unfold with_temp_file. split.
  - apply real_insert_file; [done|by rewrite Hfree|apply snoc_ne].
  - by rewrite lookup_insert_ne by (apply not_eq_sym, snoc_ne).
Qed.

Lemma temp_real data mode mtime : real (with_temp_file data mode mtime) (p ++ [tn]).
Proof. apply real_insert_file_self; [done..|]. by rewrite Hfree. Qed.

Lemma temp_lookup data mode mtime :
  with_temp_file data mode mtime !! (p ++ [tn]) = Some (File data mode mtime).
Proof. apply lookup_insert_eq. Qed.

Lemma temp_loc data mode mtime :
  entry_loc (with_temp_file data mode mtime) (p ++ [tn]) = Ok (p ++ [tn]).
Proof. apply entry_loc_self, temp_real. Qed.

Lemma temp_target data mode mtime s :
  entry_loc (with_temp_file data mode mtime) (p ++ [s]) = Ok (p ++ [s]).
Proof. by apply entry_loc_real; apply (temp_dir data mode mtime). Qed.

Lemma temp_write data mode mtime now bs :
  tree_write (p ++ [tn]) now bs (with_temp_file data mode mtime) = with_temp_file bs mode now.
Proof.
  unfold tree_write. rewrite canonicalize_real by apply temp_real.
  rewrite temp_lookup. apply insert_insert_eq.
Qed.

Lemma temp_append data mode mtime now bs :
  tree_append (p ++ [tn]) now bs (with_temp_file data mode mtime)
  = with_temp_file (data ++ bs) mode now.
Proof.
  unfold tree_append. rewrite canonicalize_real by apply temp_real.
  rewrite temp_lookup. apply insert_insert_eq.
Qed.

Lemma temp_truncate data mode mtime now :
  tree_truncate (p ++ [tn]) now (with_temp_file data mode mtime) = Ok (with_temp_file [] mode now).
Proof.
  unfold tree_truncate. rewrite canonicalize_real by apply temp_real. cbn.
  rewrite temp_lookup. f_equal. apply insert_insert_eq.
Qed.

Lemma temp_chmod data mode mtime mode' :
  tree_chmod (with_temp_file data mode mtime) (p ++ [tn]) mode'
  = Ok (with_temp_file data mode' mtime).
Proof.
  unfold tree_chmod. rewrite canonicalize_real by apply temp_real. cbn.
  rewrite temp_lookup. f_equal. apply insert_insert_eq.
Qed.

Lemma temp_remove data mode mtime :
  tree_remove (with_temp_file data mode mtime) (p ++ [tn]) = Ok t.
Proof.
  unfold tree_remove. rewrite (temp_loc data mode mtime). cbn.
  rewrite temp_lookup. f_equal. by apply delete_insert_id.
Qed.

(** Renamed over the name [s] of the same directory. *)
Lemma temp_rename data mode mtime s :
  s ≠ tn → is_dir_node (t !! (p ++ [s])) = false →
  tree_rename (with_temp_file data mode mtime) (p ++ [tn]) (p ++ [s])
  = Ok (<[p ++ [s] := File data mode mtime]> t).
Proof.
  intros Hs Hnd. unfold tree_rename. rewrite (temp_loc data mode mtime). cbn.
  rewrite (temp_target data mode mtime s). cbn. rewrite temp_lookup. cbn.
  assert (p ++ [s] ≠ p ++ [tn]) by (intros [_ ?]%app_inj_tail; done).
  unfold with_temp_file. rewrite lookup_insert_ne by done.
  rewrite delete_insert_id by done. by destruct (t !! (p ++ [s])) as [[]|].
Qed.

Lemma temp_rename_noreplace data mode mtime s :
  s ≠ tn →
  tree_rename_noreplace (with_temp_file data mode mtime) (p ++ [tn]) (p ++ [s])
  = match t !! (p ++ [s]) with
    | Some _ => Err eexist
    | None => Ok (<[p ++ [s] := File data mode mtime]> t)
    end.
Proof.
  intros Hs. unfold tree_rename_noreplace. rewrite (temp_loc data mode mtime). cbn.
  rewrite (temp_target data mode mtime s). cbn. rewrite temp_lookup. cbn.
  assert (p ++ [s] ≠ p ++ [tn]) by (intros [_ ?]%app_inj_tail; done).
  unfold with_temp_file. rewrite lookup_insert_ne by done. by rewrite delete_insert_id.
Qed.

(** Linked to the free name [s] of the same directory. *)
Lemma temp_link data mode mtime s :
  s ≠ tn → t !! (p ++ [s]) = None →
  tree_link (with_temp_file data mode mtime) (p ++ [tn]) (p ++ [s])
  = Ok (<[p ++ [s] := File data mode mtime]> (with_temp_file data mode mtime)).
Proof.
  intros Hs Hnd. unfold tree_link. rewrite (temp_loc data mode mtime). cbn.
  rewrite (temp_target data mode mtime s). cbn. rewrite temp_lookup. cbn.
  assert (p ++ [s] ≠ p ++ [tn]) by (intros [_ ?]%app_inj_tail; done).
  unfold with_temp_file. by rewrite lookup_insert_ne, Hnd by done.
Qed.
End temp_tree.

(** [t'] is [t], but for a temporary file that may have been left beside
    [abs]. *)
Definition beside (t : tree) (abs : path) (t' : tree) : Prop :=
  t' = t ∨
  ∃ p s tn data mode mtime, abs = p ++ [s] ∧ s ≠ tn ∧ name_ok tn ∧ t !! (p ++ [tn]) = None ∧
    t' = with_temp_file t p tn data mode mtime.

(** [t'] is [t] with the file [abs] holding [content] (and any mtime). *)
Definition installed (t : tree) (abs : path) (content : bytes) (mode : N) (t' : tree) : Prop :=
  ∃ mtime, t' = <[abs := File content mode mtime]> t.

Section temp_calls.
Context `{Env} `{TempfileLaws}.

Lemma dir_names_spec t d s : s ∉ dir_names t d → t !! (d ++ [s]) = None.
Proof.
  intros Hs. apply eq_None_not_Some. intros [n Hl]. apply Hs.
  unfold dir_names. apply elem_of_list_to_set, list_elem_of_fmap. exists (s, n).
  split; [done|]. unfold dir_entries. apply list_elem_of_omap. exists (d ++ [s], n).
  split; [by apply elem_of_map_to_list|]. rewrite last_snoc. by rewrite decide_True.
Qed.

(** A temporary file made in a real directory is a new entry of it. *)
Lemma tempfile_in_wp p pre suf w Φ :
  real (w_fs w) p → is_dir_node (w_fs w !! p) = true →
  (∀ tn w' mtime, name_ok tn → (∃ m, no_slash m = true ∧ tn = pre +:+ m +:+ suf) → w_fs w !! (p ++ [tn]) = None →
     fs_step w w' (with_temp_file (w_fs w) p tn [] 384 mtime) →
     Φ (Returned (p ++ [tn])) w') →
  (∀ o w', faulty o → fs_step w w' (w_fs w) → Φ o w') →
  wp (tempfile_in p pre suf) w Φ.
Proof.
  intros Hr Hd HR HF. unfold tempfile_in. apply wp_sys.
  - intros q w' Ha. change (w_fs (tick w)) with (w_fs w) in Ha.
    rewrite canonicalize_real in Ha by done. cbn in Ha. rewrite Hd in Ha. simplify_eq.
    apply (HR _ _ (env_clock (S (w_step w)))).
    + pose proof (tempfile_name_ok pre suf (dir_names (w_fs w) p)) as Hok.
      rewrite !not_elem_of_cons in Hok. unfold name_ok. naive_solver.
    + apply tempfile_name_affixes.
    + apply dir_names_spec, tempfile_name_fresh.
    + by split_and!.
  - intros e Ha. change (w_fs (tick w)) with (w_fs w) in Ha.
    rewrite canonicalize_real in Ha by done. cbn in Ha. by rewrite Hd in Ha.
  - intros text Hf. by apply HF.
  - intros Hf. by apply HF.
Qed.
End temp_calls.

(** ** Persisting a temporary file over its target *)

Section persist.
Context `{Env} {E : Type}.
Context (t : tree) (p : path) (tn s : string).
Context (Hp : real t p) (Hd : is_dir_node (t !! p) = true).
Context (Hn : name_ok tn) (Hfree : t !! (p ++ [tn]) = None).
Context (Hs : s ≠ tn) (Hnd : is_dir_node (t !! (p ++ [s])) = false).

(** Writing at the end of the temporary file. *)
Lemma append_temp_wp w data mode mtime bs Φ :
  w_fs w = with_temp_file t p tn data mode mtime →
  (∀ w' mt, fs_step w w' (with_temp_file t p tn (data ++ bs) mode mt) → Φ (Returned tt) w') →
  (∀ o w' data' mt, faulty o → fs_step w w' (with_temp_file t p tn data' mode mt) → Φ o w') →
  wp (fs_append (p ++ [tn]) bs) w Φ.
Proof.
  intros Hw HR HF. unfold fs_append. apply wp_sys_write.
  - eapply HR. split_and!; [cbn; rewrite Hw; by apply temp_append|done|done].
  - intros k text Hf. eapply HF; [done|]. split_and!; [cbn; rewrite Hw; by apply temp_append|done|done].
  - intros k Hf. eapply HF; [done|]. split_and!; [cbn; rewrite Hw; by apply temp_append|done|done].
Qed.

Lemma truncate_temp_wp w data mode mtime Φ :
  w_fs w = with_temp_file t p tn data mode mtime →
  (∀ w' mt, fs_step w w' (with_temp_file t p tn [] mode mt) → Φ (Returned tt) w') →
  (∀ o w', faulty o → fs_step w w' (w_fs w) → Φ o w') →
  wp (fs_open_truncate (p ++ [tn])) w Φ.
Proof.
  intros Hw HR HF. unfold fs_open_truncate. apply wp_sys.
  - intros [] w' Ha. apply result_bind_Ok in Ha as (t' & Ht & [= <-]).
    change (w_fs (tick w)) with (w_fs w) in Ht.
    rewrite Hw, temp_truncate in Ht by done. injection Ht as <-. eapply HR. by split_and!.
  - intros e Ha. change (w_fs (tick w)) with (w_fs w) in Ha. by rewrite Hw, temp_truncate in Ha.
  - intros text Hf. by apply HF.
  - intros Hf. by apply HF.
Qed.

Lemma beside_temp data mode mtime : beside t (p ++ [s]) (with_temp_file t p tn data mode mtime).
Proof. right. by exists p, s, tn, data, mode, mtime. Qed.

(** Dropping the temporary file: it is gone, or at worst still there. *)
Lemma drop_temp_wp w data mode mtime (Φ : outcome E unit → world → Prop) :
  w_fs w = with_temp_file t p tn data mode mtime →
  (∀ w', fs_step w w' t → Φ (Returned tt) w') →
  (∀ w', fails → fs_step w w' (w_fs w) → Φ (Returned tt) w') →
  (∀ w', dies → fs_step w w' (w_fs w) → Φ Killed w') →
  wp (drop_temp (p ++ [tn])) w Φ.
Proof.
  intros Hw HR HF HK. unfold drop_temp.
  apply wp_bind, wp_attempt, fs_change_wp; rewrite Hw, ?temp_remove by done.
  - intros t' w' [= <-] Hw'. by apply wp_ret, HR.
  - done.
  - intros text w' Hf Hw'. rewrite <- Hw in Hw'. by apply wp_ret, HF.
  - intros w' Hf Hw'. rewrite <- Hw in Hw'. by apply HK.
Qed.

(** A step between the write and the rename that only changes the mode of
    the temporary file. *)
Definition sets_mode (m : M E unit) (mode0 mode : N) : Prop :=
  ∀ w data mtime (Ψ : outcome E unit → world → Prop),
    w_fs w = with_temp_file t p tn data mode0 mtime →
    (∀ w' mode', fs_step w w' (with_temp_file t p tn data mode' mtime) →
       (¬ fails → mode' = mode) → Ψ (Returned tt) w') →
    (∀ o w', faulty o → fs_step w w' (w_fs w) → Ψ o w') →
    wp m w Ψ.

Lemma until_persisted_wp f1 f2 (chmod : M E unit) mode content w mode0 mtime0 Φ :
  sets_mode chmod mode0 mode →
  w_fs w = with_temp_file t p tn [] mode0 mtime0 →
  (∀ w' t' mode', installed t (p ++ [s]) content mode' t' → (¬ fails → mode' = mode) →
     fs_step w w' t' → Φ (Returned tt) w') →
  (∀ o w' t', faulty o → beside t (p ++ [s]) t' → fs_step w w' t' → Φ o w') →
  wp (until_persisted (p ++ [tn]) (
        map_raise f1 (fs_write (p ++ [tn]) content) ;;
        chmod ;;
        map_raise f2 (fs_rename (p ++ [tn]) (p ++ [s])))) w Φ.
Proof.
  intros Hchmod Hw HR HF. unfold until_persisted.
  apply wp_bind, wp_attempt.
  (* the body: installed, or only the temporary file *)
  apply (wp_mono _ _ (λ o w', match o with
    | Returned _ => ∃ t' mode', installed t (p ++ [s]) content mode' t' ∧
        (¬ fails → mode' = mode) ∧ fs_step w w' t'
    | _ => faulty o ∧ ∃ data mode' mtime, fs_step w w' (with_temp_file t p tn data mode' mtime)
    end)).
  - intros [[]|e|] w' Ho; cbn in Ho.
    + destruct Ho as (t' & mode' & Hi & Hm & Hw'). by apply wp_ret, (HR _ t' mode').
    + destruct Ho as (Hf & data & mode' & mtime & Hw').
      destruct Hw' as (Hfs & Hsd & Hmem). apply wp_bind, (drop_temp_wp _ data mode' mtime).
      * done.
      * intros w'' Hw''. apply wp_raise, (HF _ _ t); [done|by left|fs_eq].
      * intros w'' _ Hw''. apply wp_raise, (HF _ _ (w_fs w')); [done| |fs_eq].
        rewrite Hfs. apply beside_temp.
      * intros w'' Hd' Hw''. apply (HF _ _ (w_fs w')); [done| |fs_eq].
        rewrite Hfs. apply beside_temp.
    + destruct Ho as (Hf & data & mode' & mtime & Hw').
      eapply HF; [done|apply beside_temp|done].
  - apply wp_bind, wp_map_raise. unfold fs_write. apply wp_sys_write.
    + cbn. apply wp_bind.
      eapply Hchmod.
      * cbn. rewrite Hw. by apply temp_write.
      * intros w1 mode' Hw1 Hm. apply wp_map_raise, fs_change_wp.
        -- intros t' w2 Ht' Hw2. destruct Hw1 as (Hf1 & Hs1 & Hm1). rewrite Hf1 in Ht'.
           rewrite temp_rename in Ht' by done. injection Ht' as Ht'.
           exists t', mode'. split_and!; [by eexists|done|fs_eq].
        -- intros e w2 He Hw2. destruct Hw1 as (Hf1 & Hs1 & Hm1). rewrite Hf1 in He.
           by rewrite temp_rename in He.
        -- intros text w2 Hf Hw2. split; [done|]. eexists content, mode', _.
           split_and!; [by rewrite (proj1 Hw2), (proj1 Hw1)|fs_eq|fs_eq].
        -- intros w2 Hf Hw2. split; [done|]. eexists content, mode', _.
           split_and!; [by rewrite (proj1 Hw2), (proj1 Hw1)|fs_eq|fs_eq].
      * intros o w1 Ho Hw1. destruct o as [[]|e|]; [done|..];
          (split; [done|]; eexists content, mode0, _;
           split_and!; [rewrite (proj1 Hw1); cbn; rewrite Hw; by apply temp_write
                       |fs_eq|fs_eq]).
    + intros k text Hf. cbn. split; [done|]. eexists (take k content), mode0, _.
      split; [cbn; rewrite Hw; by apply temp_write|done].
    + intros k Hf. cbn. split; [done|]. eexists (take k content), mode0, _.
      split; [cbn; rewrite Hw; by apply temp_write|done].
Qed.
End persist.

(** ** Resolution does not look at the content of files *)

Definition same_shape (n n' : node) : Prop :=
  match n, n' with
  | File _ _ _, File _ _ _ | Dir _ _, Dir _ _ => True
  | Symlink tgt, Symlink tgt' => tgt = tgt'
  | _, _ => False
  end.

(** Every entry of [t] is in [t'], as the same kind of entry. *)
Definition extends (t t' : tree) : Prop :=
  ∀ p n, t !! p = Some n → ∃ n', t' !! p = Some n' ∧ same_shape n n'.

Lemma same_shape_refl n : same_shape n n.
Proof. by destruct n. Qed.

Lemma extends_dir t t' p :
  extends t t' → is_dir_node (t !! p) = true → is_dir_node (t' !! p) = true.
Proof.
  intros He Hd. destruct (t !! p) as [n|] eqn:Hl; [|done].
  destruct (He p n Hl) as (n' & -> & Hs). by destruct n, n'.
Qed.

Lemma walk_extends t t' links cur segs q :
  extends t t' → walk t links cur segs = Ok q → walk t' links cur segs = Ok q.
Proof.
  intros He. revert q.
  walk_induct (walk_ind t (λ l cur segs r, ∀ q, r = Ok q → walk t' l cur segs = Ok q))
    links cur segs; try done.
  - intros l cur' q. by rewrite walk_nil.
  - intros l cur' s rest r Hd Hs IH q Hr.
    pose proof (extends_dir _ _ _ He Hd). walk_known. by apply IH.
  - intros l cur' rest r Hd IH q Hr.
    pose proof (extends_dir _ _ _ He Hd). walk_known. by apply IH.
  - intros l cur' s rest tgt r Hd Hs Hl IH q Hr.
    pose proof (extends_dir _ _ _ He Hd). destruct (He _ _ Hl) as (n' & Hl' & Hsh).
    destruct n' as [| |tgt']; try done. cbn in Hsh. subst tgt'. walk_known. by apply IH.
  - intros l cur' s rest n r Hd Hs Hl Hn IH q Hr.
    pose proof (extends_dir _ _ _ He Hd). destruct (He _ _ Hl) as (n' & Hl' & Hsh).
    walk_known. destruct n, n'; try done; by apply IH.
Qed.

(** Every directory and every link of [t] is in [t']; files may be gone. *)
Definition keeps_ways (t t' : tree) : Prop :=
  ∀ p n, t !! p = Some n →
    (∃ data mode mtime, n = File data mode mtime) ∨
    ∃ n', t' !! p = Some n' ∧ same_shape n n'.

Lemma keeps_ways_dir t t' p :
  keeps_ways t t' → is_dir_node (t !! p) = true → is_dir_node (t' !! p) = true.
Proof.
  intros He Hd. destruct (t !! p) as [n|] eqn:Hl; [|done].
  destruct (He p n Hl) as [(?&?&?&->)|(n' & -> & Hs)]; [done|]. by destruct n, n'.
Qed.

Lemma walk_file t links cur segs data mode mtime q :
  t !! cur = Some (File data mode mtime) → walk t links cur segs = Ok q → q = cur.
Proof.
  intros Hl. destruct segs as [|s rest]; [rewrite walk_nil; by intros [= ->]|].
  by rewrite walk_cons, Hl.
Qed.

(** Walks to directories pass through directories and links only. *)
Lemma walk_keeps_ways t t' links cur segs q :
  keeps_ways t t' → walk t links cur segs = Ok q → is_dir_node (t !! q) = true →
  walk t' links cur segs = Ok q.
Proof.
  intros He Hw Hq.
  enough (walk t links cur segs = walk t links cur segs ∧
    (walk t links cur segs = Ok q → walk t' links cur segs = Ok q)) as [_ Hr] by auto.
  clear Hw. walk_induct (walk_ind t (λ l cur segs r, r = walk t l cur segs ∧
    (r = Ok q → walk t' l cur segs = Ok q))) links cur segs.
  - intros l cur'. by rewrite !walk_nil.
  - intros l cur' s rest Hd. by rewrite walk_cons, Hd.
  - intros l cur' s rest r Hd Hs [-> IH]. pose proof (keeps_ways_dir _ _ _ He Hd).
    split; [by walk_known|]. intros Hr. walk_known. auto.
  - intros l cur' rest r Hd [-> IH]. pose proof (keeps_ways_dir _ _ _ He Hd).
    split; [by walk_known|]. intros Hr. walk_known. auto.
  - intros l cur' s rest Hd Hs Hl. split; [by walk_known|done].
  - intros cur' s rest tgt Hd Hs Hl. split; [by walk_known|done].
  - intros l cur' s rest tgt r Hd Hs Hl [-> IH]. pose proof (keeps_ways_dir _ _ _ He Hd).
    split; [by walk_known|]. intros Hr. destruct (He _ _ Hl) as [(?&?&?&?)|(n' & Hl' & Hsh)]; [done|].
    destruct n' as [| |tgt']; try done. cbn in Hsh. subst tgt'. walk_known. auto.
  - intros l cur' s rest n r Hd Hs Hl Hn [-> IH]. pose proof (keeps_ways_dir _ _ _ He Hd).
    split; [walk_known; by destruct n|]. intros Hr.
    destruct (He _ _ Hl) as [(data & mode & mtime & ->)|(n' & Hl' & Hsh)].
    + rewrite (walk_file _ _ _ _ _ _ _ _ Hl Hr), Hl in Hq. done.
    + walk_known. destruct n, n'; try done; auto.
Qed.

Lemma keeps_ways_delete t abs data mode mtime :
  t !! abs = Some (File data mode mtime) → keeps_ways t (delete abs t).
Proof.
  intros Hl p n Hp. destruct (decide (p = abs)) as [->|Hne].
  - left. rewrite Hl in Hp. injection Hp as <-. eauto.
  - right. exists n. rewrite lookup_delete_ne by done. by destruct n.
Qed.

Lemma hash_of_missing `{Sha256} t p s :
  real t p → is_dir_node (t !! p) = true → name_ok s → t !! (p ++ [s]) = None →
  hash_of t (p ++ [s]) = Ok None.
Proof.
  intros Hr Hd Hs Hl. unfold hash_of, metadata, canonicalize.
  rewrite (walk_real_app t _ [] p [s]) by done. cbn [app].
  assert (walk t max_symlinks p [s] = Err enoent) as -> by by walk_known. done.
Qed.


Lemma extends_insert t q data mode mtime :
  (∀ n, t !! q = Some n → same_shape n (File data mode mtime)) →
  extends t (<[q := File data mode mtime]> t).
Proof.
  intros Hq p n Hl. destruct (decide (p = q)) as [->|Hne].
  - exists (File data mode mtime). rewrite lookup_insert_eq. auto.
  - exists n. rewrite lookup_insert_ne by done. auto using same_shape_refl.
Qed.

Lemma extends_beside t abs t' : beside t abs t' → extends t t'.
Proof.
  intros [->|(p & s & tn & data & mode & mtime & _ & _ & _ & Hf & ->)].
  - intros p n Hl. exists n. auto using same_shape_refl.
  - apply extends_insert. intros n. by rewrite Hf.
Qed.

Lemma extends_installed t abs content mode t' data0 mode0 mtime0 :
  t !! abs = Some (File data0 mode0 mtime0) → installed t abs content mode t' → extends t t'.
Proof. intros Hl [mtime ->]. apply extends_insert. intros n. rewrite Hl. by intros [= <-]. Qed.

(** A file that is there stays readable, with what it holds now. *)
Lemma real_extends t t' p : real t p → extends t t' → real t' p.
Proof.
  intros Hr He. induction Hr as [Hd|p s n Hr IH Hd Hn Hl Hs].
  - constructor. by eapply extends_dir.
  - destruct (He _ _ Hl) as (n' & Hl' & Hsh). econstructor; [done| |done|done|].
    + by eapply extends_dir.
    + by destruct n, n'.
Qed.

Lemma hash_of_real `{Sha256} t abs data mode mtime :
  real t abs → t !! abs = Some (File data mode mtime) →
  hash_of t abs = Ok (Some (hash_bytes data)).
Proof. intros Hr Hl. unfold hash_of. by rewrite (metadata_real _ _ _ Hr Hl). Qed.

Lemma beside_lookup t abs t' : beside t abs t' → t' !! abs = t !! abs.
Proof.
  intros [->|(p & s & tn & data & mode & mtime & -> & Hne & _ & _ & ->)]; [done|].
  unfold with_temp_file. apply lookup_insert_ne. intros [_ ?]%app_inj_tail. done.
Qed.
