(* ===== verification/Workspace.v ===== *)
(** * Workspace: the path boundary

    Models [crates/agent-remote-server/src/workspace.rs]: how a path sent by
    a client becomes an absolute path inside the workspace root or the scratch
    root, or is refused.  The theorems say what the boundary promises: an
    accepted path lies under its root, and the part of it that exists is free
    of symbolic links. *)

From S2P Require Import Prelude Text Protocol World Fs Hash FsSpec.

Record Workspace := MkWorkspace { root : path; scratch_root : path }.

(** [Workspace::new]. *)
Definition Workspace_new `{Env} (root_arg scratch_arg : path) : M io.Error Workspace :=
  t ← get_fs;
  canonical ← lift (canonicalize t root_arg);
  fs_create_dir_all scratch_arg ;;
  t' ← get_fs;
  scratch ← lift (canonicalize t' scratch_arg);
  mret (MkWorkspace canonical scratch).

(** The loop of [canonicalize_ancestor]: [r] is the canonicalisation of the
    current path, [rcomps] its components leaf first, [tail] the components
    already given up on. *)
Fixpoint ancestor_loop (t : tree) (rcomps : list string) (r : result io.Error path)
    (tail : list string) : result io.Error path :=
  match r with
  | Ok existing => Ok (existing ++ tail)
  | Err e =>
    if decide (io.kind e = ErrorKind.NotFound) then
      match rcomps with
      | [] => Err (io.MkError ErrorKind.NotFound "no existing ancestor")
      | last :: rparent =>
          ancestor_loop t rparent (canonicalize t (reverse rparent)) (last :: tail)
      end
    else Err e
  end.

(** [canonicalize_ancestor]: [segs] are the segments of the path as written,
    [comps] its components. *)
Definition canonicalize_ancestor (t : tree) (segs comps : list string)
    : result io.Error path :=
  match canonicalize t segs with
  | Ok p => Ok p
  | Err e =>
    if decide (io.kind e = ErrorKind.NotFound)
    then ancestor_loop t (reverse comps) (canonicalize t segs) []
    else Err e
  end.

(** The root a path is resolved against, and the path relative to it. *)
Definition base_and_relative (ws : Workspace) (rel : string) : path * string :=
  match strip_prefix rel "@scratch" with
  | Some EmptyString => (scratch_root ws, ".")
  | Some (String "/" rest) => (scratch_root ws, rest)
  | _ => (root ws, rel)
  end.

Definition is_parent_dir (c : Component) : bool :=
  match c with ParentDir => true | _ => false end.

(** [Workspace::resolve]. *)
Definition resolve (t : tree) (ws : Workspace) (rel : string) : result ProtocolError path :=
  if decide (rel = "") then
    Err (ProtocolError.new InvalidRequest "path must not be empty")
  else
    let '(base, relative) := base_and_relative ws rel in
    if is_absolute relative then
      Err (ProtocolError.new PathOutsideRoot "path must be relative to workspace root")
    else if existsb is_parent_dir (components relative) then
      Err (ProtocolError.new PathOutsideRoot "path escapes workspace root")
    else
      safe ← map_err (λ e, ProtocolError.new IoError
                             ("failed to resolve path: " +:+ io.to_string e))
               (canonicalize_ancestor t (base ++ split_slash relative)
                  (base ++ normal_names (split_slash relative)));
      if starts_with safe base then Ok safe
      else Err (ProtocolError.new PathOutsideRoot "resolved path escapes workspace root").

(** [ws.resolve(path)?] in a handler. *)
Definition ws_resolve (ws : Workspace) (rel : string) : M ProtocolError path :=
  t ← get_fs; lift (resolve t ws rel).

(** [Workspace::relative]: the reporting form of an absolute path. *)
Definition backslash_to_slash (s : string) : string :=
  string_of_list_ascii
    ((λ c, if Ascii.eqb c "\" then "/"%char else c) <$> list_ascii_of_string s).

Definition join_slash (names : list string) : string := String.concat "/" names.

Definition relative (ws : Workspace) (abs : path) : string :=
  if starts_with abs (scratch_root ws) then
    let p := backslash_to_slash (join_slash (drop (length (scratch_root ws)) abs)) in
    if decide (p = "") then "@scratch" else "@scratch/" +:+ p
  else if starts_with abs (root ws) then
    backslash_to_slash (join_slash (drop (length (root ws)) abs))
  else "".

(** ** Auxiliary facts *)

(** What the ancestor search returns: an ancestor that resolved, followed by
    the components below it, of which the first does not resolve. *)
Lemma ancestor_loop_spec t rcomps r tail p :
  not_found r → ancestor_loop t rcomps r tail = Ok p →
  ∃ cs s rest e, reverse rcomps = cs ++ s :: rest ∧ canonicalize t cs = Ok e ∧
    p = e ++ s :: rest ++ tail ∧
    (rest ≠ [] → not_found (canonicalize t (cs ++ [s]))).
Proof.
  revert r tail. induction rcomps as [|s rc IH]; intros r tail (err & -> & Hk);
    cbn [ancestor_loop]; rewrite decide_True by done; [done|].
  destruct (canonicalize t (reverse rc)) as [e|err'] eqn:Hc; intros Hl.
  - destruct rc; simplify_eq/=; rewrite reverse_cons;
      eexists (reverse _), s, [], e; rewrite ?Hc; naive_solver.
  - destruct (decide (io.kind err' = ErrorKind.NotFound)) as [Hk'|Hk'].
    + destruct (IH (Err err') (s :: tail)) as (cs & s' & rest & e & Hr & He & -> & Hn);
        [by exists err'|done|].
      exists cs, s', (rest ++ [s]), e. rewrite reverse_cons, Hr.
      split; [by rewrite <- (assoc_L (++))|]. split; [done|].
      split; [by rewrite <- (assoc_L (++))|]. intros _.
      destruct (decide (rest = [])) as [->|]; [|by apply Hn].
      rewrite <- Hr, Hc. by exists err'.
    + destruct rc; cbn [ancestor_loop] in Hl; by rewrite decide_False in Hl.
Qed.

Lemma canonicalize_ancestor_spec t segs p :
  canonicalize_ancestor t segs (normal_names segs) = Ok p →
  canonicalize t segs = Ok p ∨
  ∃ cs s rest e, normal_names segs = cs ++ s :: rest ∧ canonicalize t cs = Ok e ∧
    p = e ++ s :: rest ∧ not_found (canonicalize t (cs ++ [s])).
Proof.
  unfold canonicalize_ancestor. destruct (canonicalize t segs) as [q|err] eqn:Hc; [auto|].
  case_decide as Hk; [|done]. intros Hl. right.
  destruct (ancestor_loop_spec _ _ _ _ _ (ex_intro _ err (conj eq_refl Hk)) Hl)
    as (cs & s & rest & e & Hr & He & -> & Hn).
  rewrite reverse_involutive in Hr. rewrite app_nil_r.
  exists cs, s, rest, e. split_and!; try done.
  destruct (decide (rest = [])) as [->|]; [|by apply Hn].
  rewrite <- Hr. destruct (walk_undot t max_symlinks [] segs _ (undot_normal segs)) as [H|H];
    fold (canonicalize t segs) in H; rewrite Hc in H.
  - by simplify_eq.
  - unfold canonicalize. rewrite <- H. by exists err.
Qed.

(** An entry that is missing, or a symbolic link leading nowhere. *)
Definition unresolved (t : tree) (p : path) : Prop :=
  t !! p = None ∨ ∃ tgt, t !! p = Some (Symlink tgt) ∧ not_found (canonicalize t p).

Lemma step_unresolved t l e s :
  real t e → name_ok s → l ≤ max_symlinks →
  not_found (walk t l e [s]) → unresolved t (e ++ [s]).
Proof.
  intros He Hs Hl Hnf. pose proof (walk_more_links t l max_symlinks e [s] Hl Hnf) as Hm.
  rewrite <- Hm in Hnf. clear Hm.
  assert (canonicalize t (e ++ [s]) = walk t max_symlinks e [s]) as Hc.
  { apply (walk_real_app t _ [] e [s]). done. }
  unfold unresolved.
  assert (∀ n, not_symlink n → t !! (e ++ [s]) = Some n → False) as Hno.
  { intros n Hn El. revert Hnf. destruct (is_dir_node (t !! e)) eqn:Hd.
    - walk_known. destruct n; rewrite ?walk_nil; by intros (?&?&?).
    - rewrite walk_cons, Hd. by intros (?&[= <-]&?). }
  destruct (t !! (e ++ [s])) as [[| |tgt]|] eqn:El; 
    [by destruct (Hno (File data mode mtime) I eq_refl)
    |by destruct (Hno (Dir mode len) I eq_refl)| |by auto].
  right. exists tgt. by rewrite Hc.
Qed.

Lemma normal_names_ok segs s :
  s ∈ normal_names segs → s ≠ "" ∧ s ≠ ".".
Proof.
  unfold normal_names. rewrite elem_of_retain, bool_decide_eq_true. naive_solver.
Qed.

Lemma normal_names_app a b : normal_names (a ++ b) = normal_names a ++ normal_names b.
Proof. apply List.filter_app. Qed.

Lemma normal_names_id a : Forall name_ok a → normal_names a = a.
Proof.
  intros Ha. apply retain_all. intros s Hs. rewrite Forall_forall in Ha.
  apply bool_decide_eq_true. destruct (Ha s Hs) as (?&?&?). done.
Qed.

Lemma real_names t p : real t p → Forall name_ok p.
Proof. induction 1; [done|]. apply Forall_app; auto. Qed.

(** A path without a [..] component has no [..] segment. *)
Lemma no_parent_segs rel :
  existsb is_parent_dir (components rel) = false → ".." ∉ split_slash rel.
Proof.
  unfold components. destruct (split_slash rel) as [|seg segs]; [set_solver|].
  intros Hex Hin. apply not_true_iff_false in Hex. apply Hex, existsb_exists.
  exists ParentDir. split; [|done]. apply list_elem_of_In, list_elem_of_fmap.
  exists "..". split; [done|]. apply elem_of_app.
  apply elem_of_cons in Hin as [<-|Hin]; [left; simpl; set_solver|right].
  by rewrite elem_of_retain.
Qed.

(** The shape of a successful [resolve]. *)
Lemma resolve_Ok t ws rel p :
  resolve t ws rel = Ok p →
  ∃ relative, (base_and_relative ws rel).2 = relative ∧
    let base := (base_and_relative ws rel).1 in
    is_absolute relative = false ∧ ".." ∉ split_slash relative ∧
    canonicalize_ancestor t (base ++ split_slash relative)
      (base ++ normal_names (split_slash relative)) = Ok p ∧
    base `prefix_of` p.
Proof.
  unfold resolve. case_decide; [done|].
  destruct (base_and_relative ws rel) as [base relative]. simpl. intros H'.
  exists relative. split; [done|].
  destruct (is_absolute relative); [done|].
  destruct (existsb is_parent_dir _) eqn:Hp; [done|].
  destruct (canonicalize_ancestor _ _ _) as [safe|]; simplify_eq/=.
  destruct (starts_with safe base) eqn:Hsw; simplify_eq.
  split_and!; [done|by apply no_parent_segs|done|by apply starts_with_spec].
Qed.

(** The roots as [Workspace::new] leaves them: canonical. *)
Definition ws_canonical (t : tree) (ws : Workspace) : Prop :=
  real t (root ws) ∧ real t (scratch_root ws).

Lemma base_real t ws rel : ws_canonical t ws → real t (base_and_relative ws rel).1.
Proof.
  intros [Hr Hs]. unfold base_and_relative.
  destruct (strip_prefix rel "@scratch") as [[|[[] [] [] [] [] [] [] []] ?]|]; done.
Qed.

(** ** The boundary *)

(** An accepted path: an existing part free of links, and below it names of
    which the first leads nowhere. *)
Lemma resolved_shape t ws rel p :
  tree_wf t → ws_canonical t ws → resolve t ws rel = Ok p →
  (base_and_relative ws rel).1 `prefix_of` p ∧
  ∃ e tl, p = e ++ tl ∧ real t e ∧ Forall name_ok tl ∧
    (tl = [] ∨ ∃ s tl', tl = s :: tl' ∧ unresolved t (e ++ [s])).
Proof.
  intros Hwf Hws Hr. pose proof (base_real t ws rel Hws) as Hb.
  destruct (resolve_Ok t ws rel p Hr) as (relative & _ & _ & Hdd & Hc & Hpre).
  split; [done|]. set (base := (base_and_relative ws rel).1) in *.
  rewrite <- (normal_names_id base) in Hc at 2 by by eapply real_names.
  rewrite <- normal_names_app in Hc.
  destruct (canonicalize_ancestor_spec _ _ _ Hc) as [Hcan|(cs & s & rest & e & Hcomps & He & -> & Hnf)].
  - exists p, []. rewrite app_nil_r. split_and!; eauto using canonicalize_is_real.
  - assert (Forall name_ok (s :: rest)) as Hok.
    { apply Forall_forall. intros x Hx.
      assert (x ∈ normal_names (base ++ split_slash relative)) as Hin.
      { rewrite Hcomps. apply elem_of_app. by right. }
      destruct (normal_names_ok _ _ Hin) as [H1 H2]. split_and!; [done..|].
      intros ->. unfold normal_names in Hin.
      apply elem_of_retain in Hin as [_ [Hin|Hin]%elem_of_app]; [|done].
      apply real_names in Hb. rewrite Forall_forall in Hb.
      destruct (Hb _ Hin) as (_ & _ & ?). done. }
    exists e, (s :: rest). split_and!; [done|by eapply canonicalize_is_real|done|].
    right. exists s, rest. split; [done|].
    destruct (walk_app t _ [] cs e He) as (l' & Hl' & Hw).
    unfold canonicalize in Hnf. rewrite Hw in Hnf.
    apply (step_unresolved t l'); try done; [by eapply canonicalize_is_real|].
    by inversion Hok.
Qed.

(** Nothing can be reached through an unresolved entry. *)
Lemma unresolved_walk t e s tl :
  real t e → unresolved t (e ++ [s]) → name_ok s →
  canonicalize t (e ++ s :: tl) = Err enotdir ∨ not_found (canonicalize t (e ++ s :: tl)).
Proof.
  intros He Hu Hs. unfold canonicalize at 1 2.
  replace (e ++ s :: tl) with ((e ++ [s]) ++ tl) by by rewrite <- (assoc_L (++)).
  assert (canonicalize t (e ++ [s]) = walk t max_symlinks e [s]) as Hc.
  { apply (walk_real_app t _ [] e [s]). done. }
  destruct Hu as [Hn|(tgt & Hl & err & Herr & Hk)].
  - destruct (is_dir_node (t !! e)) eqn:Hd.
    + right. exists enoent. split; [|done]. apply walk_app_err.
      fold (canonicalize t (e ++ [s])). rewrite Hc. by walk_known.
    + left. apply walk_app_err. fold (canonicalize t (e ++ [s])). rewrite Hc.
      by rewrite walk_cons, Hd.
  - right. exists err. split; [|done]. by apply walk_app_err.
Qed.

(** What can be seen through an accepted path is really at that path. *)
Lemma resolved_metadata t ws rel p n :
  tree_wf t → ws_canonical t ws → resolve t ws rel = Ok p →
  metadata t p = Ok n → real t p ∧ t !! p = Some n.
Proof.
  intros Hwf Hws Hr Hm. unfold metadata in Hm.
  destruct (resolved_shape t ws rel p Hwf Hws Hr) as (_ & e & tl & -> & He & Hok & Htl).
  destruct Htl as [->|(s & tl' & -> & Hu)].
  - rewrite app_nil_r in *. split; [done|].
    rewrite (canonicalize_real t e He) in Hm. simpl in Hm. by destruct (t !! e); simplify_eq/=.
  - exfalso. apply Forall_cons in Hok as [Hs _].
    destruct (unresolved_walk t e s tl' He Hu Hs) as [Hw|(? & Hw & _)];
      by rewrite Hw in Hm.
Qed.

Lemma resolved_symlink_metadata t ws rel p n :
  tree_wf t → ws_canonical t ws → resolve t ws rel = Ok p →
  symlink_metadata t p = Ok n →
  t !! p = Some n ∧ (not_symlink n → real t p).
Proof.
  intros Hwf Hws Hr Hm. unfold symlink_metadata in Hm.
  destruct (resolved_shape t ws rel p Hwf Hws Hr) as (_ & e & tl & -> & He & Hok & Htl).
  destruct Htl as [->|(s & tl' & -> & Hu)].
  - rewrite app_nil_r in *. split; [|done].
    rewrite (entry_loc_self t e He) in Hm. simpl in Hm. by destruct (t !! e); simplify_eq/=.
  - apply Forall_cons in Hok as [Hs Hok].
    destruct tl' as [|s' tl'' _] using rev_ind.
    + unfold entry_loc in Hm. rewrite last_snoc, removelast_last in Hm.
      rewrite (canonicalize_real t e He) in Hm. simpl in Hm.
      destruct (is_dir_node (t !! e)); [|done]. simpl in Hm.
      destruct (t !! (e ++ [s])) eqn:Hl; simplify_eq/=. split; [done|].
      destruct Hu as [?|(tgt & ? & _)]; [congruence|].
      intros Hn. by simplify_eq.
    + exfalso. unfold entry_loc in Hm.
      rewrite app_comm_cons, (assoc_L (++)), last_snoc, removelast_last in Hm.
      destruct (unresolved_walk t e s tl'' He Hu Hs) as [Hw|(? & Hw & _)];
        by rewrite Hw in Hm.
Qed.

(** C3: what the boundary accepts lies under the root the request names, and
    so does everything that can be seen through it: following links from the
    accepted path ([metadata]) or not ([symlink_metadata]) shows the entry at
    that very path, and the directories above it are no links.  What does not
    exist yet hangs below an existing, link-free directory. *)
Theorem resolve_confined t ws rel p :
  tree_wf t → ws_canonical t ws → resolve t ws rel = Ok p →
  (base_and_relative ws rel).1 `prefix_of` p ∧
  (∀ n, metadata t p = Ok n → real t p ∧ t !! p = Some n) ∧
  (∀ n, symlink_metadata t p = Ok n → t !! p = Some n ∧ (not_symlink n → real t p)) ∧
  ∃ e tl, p = e ++ tl ∧ real t e ∧ Forall name_ok tl ∧
    (tl = [] ∨ ∃ s tl', tl = s :: tl' ∧ unresolved t (e ++ [s])).
Proof.
  intros Hwf Hws Hr. pose proof (resolved_shape t ws rel p Hwf Hws Hr) as [Hpre Hshape].
  split_and!; [done| | |done]; intros n Hn.
  - by eapply resolved_metadata.
  - by eapply resolved_symlink_metadata.
Qed.

Lemma parent_segs relative :
  existsb is_parent_dir (components relative) = true → ".." ∈ split_slash relative.
Proof.
  unfold components. destruct (split_slash relative) as [|seg segs]; [done|].
  intros (c & (x & -> & Hin)%list_elem_of_In%list_elem_of_fmap & Hc)%existsb_exists.
  assert (x = "..") as -> by (unfold component_of in Hc; by repeat case_decide).
  apply elem_of_app in Hin as [Hin|[_ Hin]%elem_of_retain]; [|set_solver].
  case_decide; set_solver.
Qed.

(** C24: what the boundary refuses: an empty path is an invalid request; an
    absolute path, a path with a [..] component and a path that leads out of
    its root through links are outside the root; nothing else but a failing
    resolution ([IoError]) is refused. *)
Theorem resolve_refusals t ws rel :
  let '(base, relative) := base_and_relative ws rel in
  match resolve t ws rel with
  | Ok p =>
      rel ≠ "" ∧ is_absolute relative = false ∧ ".." ∉ split_slash relative ∧ base `prefix_of` p
  | Err e =>
      match ProtocolError.code e with
      | InvalidRequest => rel = ""
      | PathOutsideRoot =>
          rel ≠ "" ∧
          (is_absolute relative = true ∨ ".." ∈ split_slash relative ∨
           ∃ q, canonicalize_ancestor t (base ++ split_slash relative)
                  (base ++ normal_names (split_slash relative)) = Ok q ∧
                ¬ base `prefix_of` q)
      | IoError => ∃ err, canonicalize_ancestor t (base ++ split_slash relative)
                     (base ++ normal_names (split_slash relative)) = Err err
      | _ => False
      end
  end.
Proof.
  unfold resolve. destruct (base_and_relative ws rel) as [base relative].
  case_decide as Hne; [done|]. destruct (is_absolute relative) eqn:Habs; [by split; [|left]|].
  destruct (existsb is_parent_dir _) eqn:Hdd; cbn [ProtocolError.code ProtocolError.new].
  - split; [done|]. right; left. by apply parent_segs.
  - destruct (canonicalize_ancestor _ _ _) as [q|err]; cbn; [|by exists err].
    destruct (starts_with q base) eqn:Hs; cbn.
    + split_and!; [done..|by apply no_parent_segs|by apply starts_with_spec].
    + split; [done|]. right; right. exists q. split; [done|].
      intros Hp%starts_with_spec. congruence.
Qed.

(** ** Stability of accepted paths *)

(** The walk behind an accepted path that exists. *)
Lemma resolve_existing t ws rel p :
  ws_canonical t ws → resolve t ws rel = Ok p → real t p →
  canonicalize t ((base_and_relative ws rel).1 ++ split_slash (base_and_relative ws rel).2) = Ok p.
Proof.
  intros Hws Hr Hreal. pose proof (base_real t ws rel Hws) as Hb.
  destruct (resolve_Ok t ws rel p Hr) as (relative & <- & _ & _ & Hc & _).
  set (base := (base_and_relative ws rel).1) in *.
  rewrite <- (normal_names_id base) in Hc at 2 by by eapply real_names.
  rewrite <- normal_names_app in Hc.
  destruct (canonicalize_ancestor_spec _ _ _ Hc) as [|(cs & s & rest & e & _ & He & -> & Hnf)];
    [done|exfalso].
  replace (e ++ s :: rest) with ((e ++ [s]) ++ rest) in Hreal by by rewrite <- (assoc_L (++)).
  apply real_prefix in Hreal.
  destruct (walk_app t _ [] cs e He) as (l' & _ & Hw). unfold canonicalize in Hnf.
  rewrite Hw, <- (app_nil_r [s]), (walk_real_app t l' e [s] []), walk_nil in Hnf by done.
  by destruct Hnf as (? & ? & _).
Qed.

(** An accepted path that exists is accepted again, as the same path, after
    files were written, replaced or added. *)
Lemma resolve_extends t t' ws rel p :
  ws_canonical t ws → extends t t' → resolve t ws rel = Ok p → real t p →
  resolve t' ws rel = Ok p.
Proof.
  intros Hws He Hr Hreal. pose proof (resolve_existing t ws rel p Hws Hr Hreal) as Hc.
  apply (walk_extends _ t') in Hc; [|done]. fold (canonicalize t') in Hc.
  unfold resolve in *. case_decide; [done|].
  destruct (base_and_relative ws rel) as [base relative]. cbn [fst snd] in Hc.
  destruct (is_absolute relative); [done|]. destruct (existsb _ _); [done|].
  unfold canonicalize_ancestor at 1. unfold canonicalize at 1. rewrite Hc. cbn [map_err mbind result_bind].
  destruct (canonicalize_ancestor t _ _) as [q|]; cbn in Hr; [|done].
  destruct (starts_with q base) eqn:Hs; [|done]. injection Hr as ->. by rewrite Hs.
Qed.

Lemma resolve_refuses t ws rel p :
  resolve t ws rel = Ok p →
  rel ≠ "" ∧ is_absolute (base_and_relative ws rel).2 = false ∧
  existsb is_parent_dir (components (base_and_relative ws rel).2) = false ∧
  (base_and_relative ws rel).1 `prefix_of` p.
Proof.
  unfold resolve. case_decide; [done|].
  destruct (base_and_relative ws rel) as [base relative]. cbn [fst snd].
  destruct (is_absolute relative); [done|]. destruct (existsb _ _); [done|].
  destruct (canonicalize_ancestor _ _ _) as [q|]; [|done]. cbn.
  destruct (starts_with q base) eqn:Hs; [|done]. intros [= ->].
  split_and!; [done..|by apply starts_with_spec].
Qed.

(** [rel] names the entry [s] of the directory [p] itself: it does not end in
    a slash, and its last component is not a link to [p]/[s]. *)
Definition names_entry (t : tree) (ws : Workspace) (rel : string) (p : path) (s : string) : Prop :=
  ∃ a, (base_and_relative ws rel).1 ++ split_slash (base_and_relative ws rel).2 = a ++ [s] ∧
    canonicalize t a = Ok p.

(** Such a path is accepted as that entry whether the entry is there or not. *)
Lemma resolve_entry t t' ws rel p s :
  ws_canonical t ws → resolve t ws rel = Ok (p ++ [s]) → names_entry t' ws rel p s →
  is_dir_node (t' !! p) = true → name_ok s →
  (∀ n, t' !! (p ++ [s]) = Some n → not_symlink n) →
  resolve t' ws rel = Ok (p ++ [s]).
Proof.
  intros Hws Hr (a & Hsegs & Ha) Hd Hs Hn. pose proof (base_real t ws rel Hws) as Hb.
  destruct (resolve_refuses _ _ _ _ Hr) as (Hne & Habs & Hdd & Hpre%starts_with_spec).
  unfold resolve. rewrite decide_False by done.
  destruct (base_and_relative ws rel) as [base relative]. cbn [fst snd] in *.
  rewrite Habs, Hdd.
  rewrite <- (normal_names_id base) at 2 by by eapply real_names.
  rewrite <- normal_names_app, Hsegs.
  assert (canonicalize_ancestor t' (a ++ [s]) (normal_names (a ++ [s])) = Ok (p ++ [s])) as ->.
  2: { cbn. by rewrite Hpre. }
  destruct (walk_app t' max_symlinks [] a p Ha) as (l' & _ & Hw).
  unfold canonicalize_ancestor, canonicalize at 1 2. rewrite !Hw.
  destruct (t' !! (p ++ [s])) as [node|] eqn:Hl.
  - specialize (Hn _ eq_refl).
    assert (walk t' l' p [s] = Ok (p ++ [s])) as ->; [|done].
    walk_known. destruct node; [by rewrite walk_nil..|done].
  - assert (walk t' l' p [s] = Err enoent) as -> by by walk_known.
    rewrite decide_True by done. rewrite normal_names_app.
    assert (normal_names [s] = [s]) as -> by by apply normal_names_id; constructor.
    rewrite reverse_snoc. cbn [ancestor_loop]. rewrite decide_True by done.
    rewrite reverse_involutive.
    destruct (walk_undot t' max_symlinks [] a _ (undot_normal a)) as [Hw'|Hw'].
    + unfold canonicalize in Ha. congruence.
    + unfold canonicalize in *. rewrite <- Hw', Ha. by destruct (reverse _).
Qed.
