(* ===== verification/Jsonl.v ===== *)
(** * Jsonl: the append-only log files

    Models the file-level half of
    [crates/agent-remote-server/src/store.rs]: reading [operations.jsonl] and
    [requests.jsonl] line by line, telling a record torn by a crash from a
    corrupted one, repairing the file, appending a record, and rewriting the
    file as a whole.  The serializer (crate [serde_json] on the derived
    implementations) is a parameter with its laws as a class.

    The theorems: whatever an interrupted append left behind, loading the file
    gives the records appended before it (and the last one too when all of its
    bytes arrived), and repairs the file so that the next append is sound; a
    complete line that does not parse refuses the start. *)

From S2P Require Import Prelude Text Protocol World.

(** ** The serializer *)

(** [serde_json::to_string] and [serde_json::from_str] at one type.  The
    types logged are made of strings, integers, booleans, options, vectors
    and enums, on which [to_string] cannot fail. *)
Class JsonCodec (T : Type) := {
  json : T → bytes;
  from_json : bytes → result string T }.

(** What the log relies on.  Records serialize to one-line JSON objects, and
    an object cut short is no JSON text. *)
Class JsonCodecLaws (T : Type) `{JsonCodec T} := {
  from_json_json x : from_json (json x) = Ok x;
  json_object x : ∃ m, json x = Byte.x7b :: m ++ [Byte.x7d];
  json_one_line x : nl ∉ json x;
  json_utf8 x : utf8_valid (json x) = true;
  json_prefix x p : strict_prefix p (json x) → ok (from_json p) = None }.

(** ** The files of the state directory *)

Section state_files.
Context `{Env}.

(** [fs::read]. *)
Definition sd_read (name : string) : M io.Error bytes :=
  sys None (λ w, b ← ok_or (w_sd w !! name) enoent; Ok (b, w)).

(** [OpenOptions::new().create(true).append(true).open]. *)
Definition sd_open_append (name : string) : M io.Error unit :=
  sys None (λ w, Ok (tt, set_sd (λ d, <[name := default [] (d !! name)]> d) w)).

(** Opening an existing file for writing. *)
Definition sd_open (name : string) : M io.Error unit :=
  sys None (λ w, _ ← ok_or (w_sd w !! name) enoent; Ok (tt, w)).

(** [write_all] on a file opened for append. *)
Definition append_bytes (name : string) (bs : bytes) (w : world) : world :=
  set_sd (λ d, <[name := default [] (d !! name) ++ bs]> d) w.
Definition sd_append (name : string) (bs : bytes) : M io.Error unit :=
  sys_write (EvState name) (append_bytes name) bs.

(** [fs::write]: truncate (or create), then write. *)
Definition sd_write (name : string) (bs : bytes) : M io.Error unit :=
  sys None (λ w, Ok (tt, set_sd <[name := []]> w)) ;;
  sys_write (EvState name) (append_bytes name) bs.

Definition sd_set_len (name : string) (n : nat) : M io.Error unit :=
  sys (Some (EvState name)) (λ w, Ok (tt, set_sd (alter (take n) name) w)).
Definition sd_sync (name : string) : M io.Error unit :=
  sys (Some (EvStateSync name)) (λ w, Ok (tt, w)).
Definition sd_remove (name : string) : M io.Error unit :=
  sys (Some (EvStateRemove name)) (λ w,
    _ ← ok_or (w_sd w !! name) enoent; Ok (tt, set_sd (delete name) w)).

(** The temporary file of [rewrite_jsonl] and its installation.  Its
    content is built before the rename, which is atomic. *)
Definition sd_install (name : string) (bs : bytes) : M io.Error unit :=
  sys (Some (EvStateRename name)) (λ w, Ok (tt, set_sd <[name := bs]> w)).
End state_files.

(** ** Lines *)

Record LineEntry := MkLineEntry {
  text : bytes;
  start_offset : nat;
  has_newline : bool;
  utf8_ok : bool;
  raw_len : nat }.

Definition bytes_to_text (raw : bytes) : bytes * bool :=
  if utf8_valid raw then (raw, true) else ([], false).

Definition line_entry (raw : bytes) (start : nat) (newline : bool) : LineEntry :=
  let '(t, ok) := bytes_to_text raw in
  MkLineEntry t start newline ok (length raw).

(** [slice.iter().position(|b| b == '\n')]. *)
Fixpoint position_nl (bs : bytes) : option nat :=
  match bs with
  | [] => None
  | b :: bs' => if bool_decide (b = nl) then Some 0 else S <$> position_nl bs'
  end.

(** The [while start < bytes.len()] loop of [read_lines].  Every round moves
    [start] forward, so [length bytes] rounds are enough. *)
Fixpoint read_lines_loop (fuel : nat) (bs : bytes) (start : nat) : list LineEntry :=
  match fuel with
  | O => []
  | S fuel' =>
    if decide (start < length bs) then
      match position_nl (drop start bs) with
      | Some i =>
          line_entry (take i (drop start bs)) start true
          :: read_lines_loop fuel' bs (start + i + 1)
      | None => [line_entry (drop start bs) start false]
      end
    else []
  end.

Definition lines_of (bs : bytes) : list LineEntry := read_lines_loop (length bs) bs 0.

(** [read_lines]: a missing file has no lines. *)
Definition read_lines `{Env} (name : string) : M io.Error (list LineEntry) :=
  r ← attempt (sd_read name);
  match r with
  | Ok bs => mret (lines_of bs)
  | Err e => if decide (io.kind e = ErrorKind.NotFound) then mret [] else raise e
  end.

(** [valid_content_end_offset]. *)
Definition valid_content_end_offset (entries : list LineEntry) : nat :=
  foldr Nat.max 0
    ((λ e, start_offset e + raw_len e + 1) <$> List.filter has_newline entries).

(** ** Parsing a line *)

Inductive ParseResult (T : Type) :=
| Parsed (v : T) | SkippedCrashTruncated | SkippedBlank.
Arguments Parsed {T} v.
Arguments SkippedCrashTruncated {T}.
Arguments SkippedBlank {T}.

(** The refusal of line [idx] (from 0) of a log.  State files are named by
    their path below the state directory. *)
Definition quote_mark : string := String "034"%char "".
Definition debug_name (name : string) : string := quote_mark +:+ name +:+ quote_mark.
Definition corrupted (name : string) (idx : nat) (what : string) : ProtocolError :=
  ProtocolError.new IoError
    ("corrupted log " +:+ debug_name name +:+ ": line " +:+ pretty (S idx) +:+ " is " +:+ what).

Section records.
Context {T : Type} `{JsonCodec T}.

(** [parse_log_line_strict]. *)
Definition parse_log_line_strict (e : LineEntry) (name : string) (idx : nat)
    : result ProtocolError (ParseResult T) :=
  if negb (utf8_ok e) then
    if negb (has_newline e) then Ok SkippedCrashTruncated
    else Err (corrupted name idx "not valid UTF-8; refusing to start")
  else
    let trimmed := trim (text e) in
    if bool_decide (trimmed = []) then
      if negb (has_newline e) then Ok SkippedBlank
      else Err (corrupted name idx "empty (jsonl records must not be blank)")
    else match from_json trimmed with
         | Ok v => Ok (Parsed v)
         | Err err =>
             if negb (has_newline e) then Ok SkippedCrashTruncated
             else Err (corrupted name idx ("not valid JSON (" +:+ err +:+
               "); refusing to start with a damaged authoritative record"))
         end.

(** The loop over the lines of a log at startup: the records in file order
    and whether a torn record was dropped. *)
Fixpoint load_lines (name : string) (idx : nat) (es : list LineEntry)
    : result ProtocolError (list T * bool) :=
  match es with
  | [] => Ok ([], false)
  | e :: es' =>
      pr ← parse_log_line_strict e name idx;
      '(vs, trunc) ← load_lines name (S idx) es';
      match pr with
      | Parsed v => Ok (v :: vs, trunc)
      | SkippedCrashTruncated => Ok (vs, true)
      | SkippedBlank => Ok (vs, trunc)
      end
  end.

(** One record as the log stores it ([writeln!]). *)
Definition line (r : T) : bytes := json r ++ [nl].
Definition lines (rs : list T) : bytes := rs ≫= line.
End records.

(** ** Writing *)

Definition io_to_protocol (e : io.Error) : ProtocolError :=
  ProtocolError.new IoError (io.to_string e).
Definition io_context (what : string) (e : io.Error) : ProtocolError :=
  ProtocolError.new IoError (what +:+ ": " +:+ io.to_string e).

Section writing.
Context `{Env} {T : Type} `{JsonCodec T}.

(** [truncate_trailing_garbage]: cut the file after its last complete
    line; the file and its directory are synced. *)
Definition truncate_trailing_garbage (es : list LineEntry) (name : string)
    : M ProtocolError unit :=
  map_raise io_to_protocol (sd_open name) ;;
  map_raise io_to_protocol (sd_set_len name (valid_content_end_offset es)) ;;
  map_raise io_to_protocol (sd_sync name) ;;
  map_raise io_to_protocol (sd_sync "").

(** [append_missing_newline]. *)
Definition append_missing_newline (es : list LineEntry) (name : string)
    : M ProtocolError unit :=
  match last es with
  | None => mret tt
  | Some l =>
    if has_newline l || bool_decide (trim (text l) = []) || negb (utf8_ok l) then mret tt
    else
      map_raise io_to_protocol (sd_open name) ;;
      map_raise io_to_protocol (sd_append name [nl]) ;;
      map_raise io_to_protocol (sd_sync name) ;;
      map_raise io_to_protocol (sd_sync "")
  end.

(** Reading a log at startup: lines, records, repair. *)
Definition load_log (name : string) : M ProtocolError (list T) :=
  es ← map_raise io_to_protocol (read_lines name);
  '(vs, needs_truncate) ← lift (load_lines name 0 es);
  (if needs_truncate : bool then truncate_trailing_garbage es name
   else append_missing_newline es name) ;;
  mret vs.

(** The body shared by [append_any_record] and [append_request_line]: open
    for append, write the line, sync. *)
Definition append_record (name what : string) (r : T) : M ProtocolError unit :=
  map_raise (io_context ("open " +:+ what)) (sd_open_append name) ;;
  map_raise (io_context ("write " +:+ what)) (sd_append name (line r)) ;;
  map_raise (io_context ("fsync " +:+ what)) (sd_sync name).

(** [rewrite_jsonl]: build a temporary file, sync it, rename it over the
    log, sync the directory. *)
Definition rewrite_jsonl (name : string) (items : list T) : M ProtocolError unit :=
  map_raise io_to_protocol (sys None (λ w, Ok (tt, w))) ;;   (* new_in(dir) *)
  for_each items (λ _, map_raise io_to_protocol (sys None (λ w, Ok (tt, w)))) ;;   (* writeln! *)
  map_raise io_to_protocol (sd_sync name) ;;
  map_raise (io_context "persist") (sd_install name (lines items)) ;;
  map_raise io_to_protocol (sd_sync name).
End writing.

(** ** Reading back what was written *)

Lemma position_nl_app raw rest :
  nl ∉ raw → position_nl (raw ++ nl :: rest) = Some (length raw).
Proof.
  induction raw as [|b raw IH]; intros Hn; cbn; [done|].
  rewrite bool_decide_false by set_solver. rewrite IH by set_solver. done.
Qed.

Lemma position_nl_none tail : nl ∉ tail → position_nl tail = None.
Proof.
  induction tail as [|b tail IH]; intros Hn; cbn; [done|].
  rewrite bool_decide_false by set_solver. by rewrite IH by set_solver.
Qed.

(** The line entries of newline-terminated lines [raws] followed by an
    unterminated [tail]. *)
Fixpoint entries_at (start : nat) (raws : list bytes) (tail : bytes) : list LineEntry :=
  match raws with
  | [] => if bool_decide (tail = []) then [] else [line_entry tail start false]
  | raw :: raws' => line_entry raw start true :: entries_at (start + length raw + 1) raws' tail
  end.

Definition terminated (raws : list bytes) : bytes := raws ≫= λ raw, raw ++ [nl].

Lemma length_terminated_cons raw raws :
  length (terminated (raw :: raws)) = length raw + 1 + length (terminated raws).
Proof. unfold terminated. cbn. rewrite !length_app. simpl. lia. Qed.

Lemma read_lines_loop_spec fuel bs start raws tail :
  Forall (λ raw, nl ∉ raw) raws → nl ∉ tail →
  drop start bs = terminated raws ++ tail → length bs - start ≤ fuel →
  read_lines_loop fuel bs start = entries_at start raws tail.
Proof.
  intros Hraws Htail. revert fuel start.
  induction Hraws as [|raw raws Hraw Hraws IH]; intros fuel start Hd Hf.
  - cbn in Hd. cbn [entries_at]. case_bool_decide as Ht.
    + rewrite Ht in Hd. apply (f_equal length) in Hd. rewrite length_drop in Hd. simpl in Hd.
      destruct fuel; cbn; [done|]. by rewrite decide_False by lia.
    + assert (start < length bs).
      { apply (f_equal length) in Hd. rewrite length_drop in Hd.
        destruct tail; [done|]. simpl in Hd. lia. }
      destruct fuel; [lia|]. cbn [read_lines_loop].
      by rewrite decide_True, Hd, position_nl_none by done.
  - assert (terminated (raw :: raws) ++ tail = raw ++ nl :: (terminated raws ++ tail)) as Heq.
    { unfold terminated. cbn. by rewrite <- !(assoc_L (++)). }
    rewrite Heq in Hd.
    assert (length bs - start = length raw + S (length (terminated raws ++ tail))) as Hlen.
    { apply (f_equal length) in Hd. rewrite length_drop, length_app in Hd. simpl in Hd. lia. }
    destruct fuel; [lia|]. cbn [read_lines_loop entries_at].
    rewrite decide_True, Hd, position_nl_app, take_app_length by (done || lia).
    f_equal. apply IH; [|lia].
    replace (start + length raw + 1) with (start + (length raw + 1)) by lia.
    rewrite <- drop_drop, Hd, drop_app_ge by lia.
    by replace (length raw + 1 - length raw) with 1 by lia.
Qed.

Lemma lines_of_spec raws tail :
  Forall (λ raw, nl ∉ raw) raws → nl ∉ tail →
  lines_of (terminated raws ++ tail) = entries_at 0 raws tail.
Proof. intros Hr Ht. apply read_lines_loop_spec; [done..|lia]. Qed.

(** The offset the repair truncates to is the end of the last terminated
    line. *)
Lemma valid_content_end_offset_spec start raws tail :
  raws ≠ [] →
  valid_content_end_offset (entries_at start raws tail) = start + length (terminated raws).
Proof.
  unfold valid_content_end_offset. revert start.
  induction raws as [|raw raws IH]; intros start Hne; [done|].
  rewrite length_terminated_cons. cbn [entries_at].
  assert (∀ s n raw', has_newline (line_entry raw' s n) = n ∧
    start_offset (line_entry raw' s n) = s ∧ raw_len (line_entry raw' s n) = length raw') as Hle.
  { intros. unfold line_entry, bytes_to_text. by destruct (utf8_valid raw'). }
  destruct (Hle start true raw) as (H1 & H2 & H3).
  cbn [List.filter]. rewrite H1. cbn [fmap list_fmap foldr]. rewrite H2, H3.
  destruct raws as [|raw' raws'].
  - cbn [entries_at]. case_bool_decide; cbn; [lia|].
    destruct (Hle (start + length raw + 1) false tail) as (-> & _). cbn. lia.
  - rewrite IH by done. rewrite length_terminated_cons. lia.
Qed.

Lemma valid_content_end_offset_none tail :
  valid_content_end_offset (entries_at 0 [] tail) = 0.
Proof.
  unfold valid_content_end_offset. cbn. case_bool_decide; [done|].
  unfold line_entry, bytes_to_text. by destruct (utf8_valid tail).
Qed.

Lemma valid_content_end_offset_lines raws tail :
  valid_content_end_offset (entries_at 0 raws tail) = length (terminated raws).
Proof.
  destruct raws; [apply valid_content_end_offset_none|].
  by rewrite valid_content_end_offset_spec.
Qed.

(** Trimming a text that starts with an opening brace only shortens it from
    behind, and leaves the brace. *)
Lemma strip_ws_keeps c ws fuel l :
  Forall (λ w, c ∉ w) ws → ∃ l', strip_ws ws fuel (l ++ [c]) = l' ++ [c] ∧ l' `suffix_of` l.
Proof.
  intros Hws. revert l. induction fuel as [|fuel IH]; intros l; [by exists l|].
  cbn [strip_ws]. destruct (find_first _ _) as [w|] eqn:Hf; [|by exists l].
  apply find_first_Some in Hf as [Hw Hsw]. apply starts_with_spec in Hsw as [k Hk].
  rewrite Forall_forall in Hws. specialize (Hws w Hw).
  destruct k as [|b k _] using rev_ind.
  { exfalso. apply Hws. rewrite app_nil_r in Hk. rewrite <- Hk. set_solver. }
  rewrite (assoc_L (++)) in Hk. apply app_inj_tail in Hk as [-> ->].
  rewrite <- (assoc_L (++)), drop_app_length. destruct (IH k) as (l' & -> & Hs).
  exists l'. split; [done|]. etrans; [done|]. by exists w.
Qed.

Lemma trim_brace p :
  ∃ p' k, trim (Byte.x7b :: p) = Byte.x7b :: p' ∧ p = p' ++ k.
Proof.
  unfold trim. replace (trim_start (Byte.x7b :: p)) with (Byte.x7b :: p).
  2: { unfold trim_start. symmetry. apply strip_ws_id, not_ws_head; done. }
  unfold trim_end. rewrite reverse_cons.
  destruct (strip_ws_keeps Byte.x7b (reverse <$> (whitespace ++ whitespace_wide))
    (length (Byte.x7b :: p)) (reverse p)) as (l' & -> & [k Hk]).
  { by apply (bool_decide_unpack _). }
  exists (reverse l'), (reverse k). split.
  - by rewrite reverse_snoc.
  - rewrite <- reverse_app, <- Hk. by rewrite reverse_involutive.
Qed.

Lemma has_newline_entry raw s n : has_newline (line_entry raw s n) = n.
Proof. unfold line_entry, bytes_to_text. by destruct (utf8_valid raw). Qed.

Lemma last_entry_complete start raws l :
  last (entries_at start raws []) = Some l → has_newline l = true.
Proof.
  revert start. induction raws as [|raw raws IH]; intros start; [done|].
  cbn [entries_at]. destruct raws as [|raw' raws]; [|apply IH].
  intros ?; simplify_eq/=. apply has_newline_entry.
Qed.

Lemma last_entry_tail start raws tail :
  tail ≠ [] → ∃ s, last (entries_at start raws tail) = Some (line_entry tail s false).
Proof.
  intros Ht. revert start. induction raws as [|raw raws IH]; intros start; cbn [entries_at].
  - rewrite bool_decide_false by done. by exists start.
  - destruct (IH (start + length raw + 1)) as [s Hs]. exists s. rewrite last_cons. by rewrite Hs.
Qed.

Section read_back.
Context {T : Type} `{JsonCodecLaws T}.

Lemma lines_terminated (rs : list T) : lines rs = terminated (json <$> rs).
Proof. unfold lines, terminated, line. induction rs; [done|]. cbn. by rewrite IHrs. Qed.

Lemma lines_app (rs rs' : list T) : lines (rs ++ rs') = lines rs ++ lines rs'.
Proof. apply bind_app. Qed.

Lemma lines_snoc (rs : list T) r : lines (rs ++ [r]) = lines rs ++ line r.
Proof. rewrite lines_app. unfold lines at 2. cbn. by rewrite app_nil_r. Qed.

Lemma json_trim (r : T) : trim (json r) = json r.
Proof. destruct (json_object r) as [m ->]. by apply trim_printable. Qed.

Lemma json_trim_line (r : T) : trim (json r ++ [nl]) = json r.
Proof.
  destruct (json_object r) as [m ->]. by apply (trim_printable_line _ _ (Byte.x7b :: m) Byte.x7d).
Qed.

Lemma json_nonempty (r : T) : json r ≠ [].
Proof. by destruct (json_object r) as [m ->]. Qed.


(** A record's own text parses to it, with or without its newline. *)
Lemma parse_record (r : T) start b name idx :
  parse_log_line_strict (line_entry (json r) start b) name idx = Ok (Parsed r).
Proof.
  unfold line_entry, bytes_to_text, parse_log_line_strict. rewrite json_utf8.
  cbn [utf8_ok text has_newline negb]. rewrite json_trim, bool_decide_false by apply json_nonempty.
  by rewrite from_json_json.
Qed.

(** A torn record is recognised as such. *)
Lemma parse_torn (r : T) p start name idx :
  strict_prefix p (json r) → p ≠ [] →
  parse_log_line_strict (T := T) (line_entry p start false) name idx
  = Ok SkippedCrashTruncated.
Proof.
  intros Hp Hne. unfold line_entry, bytes_to_text, parse_log_line_strict.
  destruct (utf8_valid p) eqn:Hv;
    cbn [utf8_ok text has_newline negb]; [|done].
  destruct Hp as [k [Hk Heq]]. destruct (json_object r) as [m Hm].
  destruct p as [|b p]; [done|]. rewrite Hm in Heq. injection Heq as <- Heq.
  destruct (trim_brace p) as (p' & k' & -> & ->).
  rewrite bool_decide_false by done.
  destruct (from_json (Byte.x7b :: p')) eqn:Hj; [|done].
  assert (ok (from_json (Byte.x7b :: p')) = None) as Hn; [|by rewrite Hj in Hn].
  apply (json_prefix r). exists (k' ++ k). rewrite Hm. rewrite Heq.
  split; [by intros [_ ?]%app_nil|]. cbn. by rewrite <- (assoc_L (++)).
Qed.

Lemma load_lines_app (rs : list T) tail vs trunc name :
  (∀ idx start, load_lines (T := T) name idx (entries_at start [] tail) = Ok (vs, trunc)) →
  ∀ idx start,
  load_lines name idx (entries_at start (json <$> rs) tail) = Ok (rs ++ vs, trunc).
Proof.
  intros Ht. induction rs as [|r rs IH]; intros idx start; [apply Ht|].
  cbn [fmap list_fmap entries_at load_lines]. rewrite parse_record.
  cbn [mbind result_bind]. by rewrite IH.
Qed.

(** A complete log gives its records back. *)
Lemma load_lines_complete (rs : list T) name idx start :
  load_lines name idx (entries_at start (json <$> rs) []) = Ok (rs, false).
Proof.
  rewrite (load_lines_app rs [] [] false); [by rewrite app_nil_r|done].
Qed.

(** A last line cut before its end is dropped. *)
Lemma load_lines_torn (rs : list T) (r : T) p name idx start :
  strict_prefix p (json r) → p ≠ [] →
  load_lines name idx (entries_at start (json <$> rs) p) = Ok (rs, true).
Proof.
  intros Hp Hne. rewrite (load_lines_app rs p [] true); [by rewrite app_nil_r|].
  intros idx' start'. cbn [entries_at]. rewrite bool_decide_false by done.
  cbn [load_lines]. by rewrite (parse_torn r p).
Qed.

(** A last line that lacks only its newline is kept. *)
Lemma load_lines_unterminated (rs : list T) (r : T) name idx start :
  load_lines name idx (entries_at start (json <$> rs) (json r)) = Ok (rs ++ [r], false).
Proof.
  apply load_lines_app. intros idx' start'. cbn [entries_at].
  rewrite bool_decide_false by apply json_nonempty.
  cbn [load_lines]. by rewrite parse_record.
Qed.

Lemma lines_of_records (rs : list T) tail :
  nl ∉ tail → lines_of (lines rs ++ tail) = entries_at 0 (json <$> rs) tail.
Proof.
  intros Ht. rewrite lines_terminated. apply lines_of_spec; [|done].
  apply Forall_fmap, Forall_true. intros r. apply json_one_line.
Qed.

(** What the startup makes of a log whose last append was cut after [k]
    bytes: the last record counts if all of its text is there. *)
Definition recovered (rs : list T) (r : T) (k : nat) : list T :=
  if decide (length (json r) ≤ k) then rs ++ [r] else rs.

(** The forms an append cut short can leave its line in. *)
Lemma torn_cases (rs : list T) (r : T) k :
  (take k (line r) = [] ∧ recovered rs r k = rs) ∨
  (strict_prefix (take k (line r)) (json r) ∧ take k (line r) ≠ [] ∧
    nl ∉ take k (line r) ∧ recovered rs r k = rs) ∨
  (take k (line r) = json r ∧ recovered rs r k = rs ++ [r]) ∨
  (take k (line r) = line r ∧ recovered rs r k = rs ++ [r]).
Proof.
  pose proof (json_nonempty r) as Hne. unfold recovered, line.
  destruct (decide (length (json r) ≤ k)) as [Hk|Hk].
  - do 2 right. destruct (decide (k = length (json r))) as [->|Hk'].
    + left. by rewrite take_app_length.
    + right. rewrite take_ge; [done|]. rewrite length_app. simpl. lia.
  - rewrite take_app_le by lia. destruct k as [|k]; [by left|]. right. left. split_and!; [|..].
    + exists (drop (S k) (json r)). split; [|by rewrite take_drop].
      intros Hd. apply (f_equal length) in Hd. rewrite length_drop in Hd. simpl in Hd. lia.
    + destruct (json r); [simpl in *; lia|done].
    + intros Hin. apply (json_one_line r). rewrite <- (take_drop (S k) (json r)). set_solver.
    + done.
Qed.
End read_back.

(** ** Loading and appending, as system calls *)

Definition content (name : string) (w : world) : bytes := default [] (w_sd w !! name).

(** Only the state file [name] differs. *)
Definition only_sd (name : string) (w w' : world) : Prop :=
  w_fs w' = w_fs w ∧ w_mem w' = w_mem w ∧
  ∀ n, n ≠ name → w_sd w' !! n = w_sd w !! n.

#[global] Instance only_sd_preorder name : PreOrder (only_sd name).
Proof.
  split.
  - intros w. done.
  - intros w1 w2 w3 (Hf & Hm & Hs) (Hf' & Hm' & Hs'). repeat split; [congruence..|].
    intros n Hn. by rewrite Hs', Hs.
Qed.

Lemma only_sd_set name f w w' :
  w_fs w' = w_fs w → w_mem w' = w_mem w → w_sd w' = f (w_sd w) →
  (∀ n, n ≠ name → f (w_sd w) !! n = w_sd w !! n) → only_sd name w w'.
Proof. intros Hf Hm Hs Hn. unfold only_sd. rewrite Hs. by repeat split. Qed.

(** Solve the state-file side conditions of a step-by-step run. *)
Ltac sd_frame :=
  solve [ unfold only_sd; cbn; split_and!; try done; intros; by rewrite ?lookup_insert_ne,
            ?lookup_alter_ne, ?lookup_delete_ne by done ].
Ltac sd_content :=
  unfold content in *; cbn; repeat (rewrite lookup_insert_eq; cbn).

Section log_files.
Context `{Env} {T : Type} `{JsonCodecLaws T}.

(** Appending a record to a sound log: the line arrives whole, or the call
    fails, or the process dies, leaving a prefix of it. *)
Lemma append_record_wp name what (rs : list T) (r : T) w Φ :
  content name w = lines rs →
  (∀ w', only_sd name w w' → content name w' = lines (rs ++ [r]) → Φ (Returned tt) w') →
  (∀ o w' k, faulty o → only_sd name w w' →
     content name w' = lines rs ++ take k (line r) → Φ o w') →
  wp (append_record name what r) w Φ.
Proof.
  intros Hc HR HF. unfold append_record, sd_open_append, sd_append, sd_sync, append_bytes.
  unfold content in Hc. wp_go.
  - apply HR; [sd_frame|]. sd_content. by rewrite Hc, lines_snoc.
  - eapply (HF _ _ (length (line r))); [done|sd_frame|]. sd_content. by rewrite Hc, firstn_all.
  - eapply (HF _ _ (length (line r))); [done|sd_frame|]. sd_content. by rewrite Hc, firstn_all.
  - eapply HF; [done|sd_frame|]. sd_content. by rewrite Hc.
  - eapply HF; [done|sd_frame|]. sd_content. by rewrite Hc.
  - apply (HF _ _ 0); [done|sd_frame|]. sd_content. by rewrite Hc, app_nil_r.
  - apply (HF _ _ 0); [done|sd_frame|]. sd_content. by rewrite Hc, app_nil_r.
Qed.

Lemma truncate_trailing_garbage_wp name (rs : list T) tail w Φ :
  tail ≠ [] → nl ∉ tail →
  content name w = lines rs ++ tail →
  (∀ w', only_sd name w w' → content name w' = lines rs → Φ (Returned tt) w') →
  (∀ o w', faulty o → only_sd name w w' →
     content name w' = content name w ∨ content name w' = lines rs → Φ o w') →
  wp (truncate_trailing_garbage (entries_at 0 (json <$> rs) tail) name) w Φ.
Proof.
  intros Hne Hnl Hc HR HF. unfold truncate_trailing_garbage, sd_open, sd_set_len, sd_sync.
  rewrite valid_content_end_offset_lines, <- lines_terminated.
  assert (∃ bs, w_sd w !! name = Some bs ∧ bs = lines rs ++ tail) as (bs & Hbs & ->).
  { unfold content in Hc. destruct (w_sd w !! name); [by eexists|].
    simpl in Hc. symmetry in Hc. apply app_nil in Hc as [_ ?]. done. }
  assert (∀ w', w_sd w' = alter (take (length (lines rs))) name (w_sd w) →
    content name w' = lines rs) as Hcut.
  { intros w' Hw'. unfold content. rewrite Hw', lookup_alter_eq, Hbs. cbn.
    by rewrite take_app_length. }
  wp_go; rewrite ?Hbs in *; simplify_eq/=.
  all: first [ apply HR; [sd_frame|by apply Hcut]
             | apply HF; [done|sd_frame|first [by right; apply Hcut|by left]] ].
Qed.

Lemma append_missing_newline_wp name (rs : list T) (r : T) w Φ :
  content name w = lines rs ++ json r →
  (∀ w', only_sd name w w' → content name w' = lines (rs ++ [r]) → Φ (Returned tt) w') →
  (∀ o w', faulty o → only_sd name w w' →
     content name w' = content name w ∨ content name w' = lines (rs ++ [r]) → Φ o w') →
  wp (append_missing_newline (entries_at 0 (json <$> rs) (json r)) name) w Φ.
Proof.
  intros Hc HR HF. unfold append_missing_newline.
  destruct (last_entry_tail 0 (json <$> rs) (json r) (json_nonempty r)) as [s ->].
  unfold line_entry, bytes_to_text. rewrite json_utf8. cbn [has_newline text utf8_ok].
  rewrite json_trim, (bool_decide_false (json r = [])) by apply json_nonempty. cbn.
  assert (w_sd w !! name = Some (lines rs ++ json r)) as Hbs.
  { unfold content in Hc. destruct (w_sd w !! name); simpl in Hc; [by subst|].
    symmetry in Hc. apply app_nil in Hc as [_ ?]. by destruct (json_nonempty r). }
  assert (∀ w' k, w_sd w' = <[name := content name w ++ take k [nl]]> (w_sd w) →
    content name w' = content name w ∨ content name w' = lines (rs ++ [r])) as Hput.
  { intros w' k Hw'. unfold content at 1 3. rewrite Hw', lookup_insert_eq. cbn.
    destruct k; [left; by rewrite app_nil_r|right]. rewrite lines_snoc, Hc. unfold line.
    rewrite <- (assoc_L (++)). cbn. by rewrite take_nil. }
  unfold sd_open, sd_append, sd_sync, append_bytes. wp_go; rewrite ?Hbs in *; simplify_eq/=.
  all: first
    [ apply HR; [sd_frame|]; sd_content; rewrite Hbs, lines_snoc; cbn;
      unfold line; by rewrite (assoc_L (++))
    | apply HF; [done|sd_frame|]; first [by left | by eapply (Hput _ 1) | by eapply Hput ] ].
Qed.

Lemma append_missing_newline_id name (rs : list T) w Φ :
  Φ (Returned tt) w → wp (append_missing_newline (entries_at 0 (json <$> rs) []) name) w Φ.
Proof.
  unfold append_missing_newline. destruct (last _) as [l|] eqn:Hl; [|done].
  by rewrite (last_entry_complete _ _ _ Hl).
Qed.

Lemma read_lines_wp name w Φ :
  (∀ w', only_sd name w w' → w_sd w' = w_sd w →
     Φ (Returned (lines_of (content name w))) w') →
  (∀ o w', faulty o → only_sd name w w' → w_sd w' = w_sd w → Φ o w') →
  wp (read_lines name) w Φ.
Proof.
  intros HR HF. unfold read_lines, sd_read.
  apply wp_bind, wp_attempt. unfold wp at 1, sys.
  destruct (env_fault (w_step w)) as [|k e|k] eqn:Hf; cbn.
  - unfold content in HR. destruct (w_sd w !! name) as [bs|] eqn:Hbs; cbn; by apply HR.
  - apply HF; [by exists (w_step w), k, e|done..].
  - apply HF; [by exists (w_step w), k|done..].
Qed.


Lemma load_log_wp name (rs : list T) (r : T) k w Φ :
  content name w = lines rs ++ take k (line r) →
  (∀ w', only_sd name w w' → content name w' = lines (recovered rs r k) →
     Φ (Returned (recovered rs r k)) w') →
  (∀ o w', faulty o → only_sd name w w' →
     content name w' = content name w ∨ content name w' = lines (recovered rs r k) →
     Φ o w') →
  wp (load_log name) w Φ.
Proof.
  intros Hc HR HF. unfold load_log. apply wp_bind, wp_map_raise, read_lines_wp.
  2: { intros o w' Ho Hw' Hsd. assert (content name w' = content name w).
       { unfold content. by rewrite Hsd. }
       destruct o as [a|e|]; [done|..]; apply HF; auto. }
  intros w' Hw' Hsd. rewrite Hc.
  assert (content name w' = lines rs ++ take k (line r)) as Hc'.
  { rewrite <- Hc. unfold content. by rewrite Hsd. }
  destruct (torn_cases rs r k) as
    [[Hp Hr]|[(Hp & Hne & Hnl & Hr)|[[Hp Hr]|[Hp Hr]]]]; rewrite ?Hp in *; rewrite ?Hr in *.
  - (* nothing of the line arrived *)
    rewrite lines_of_records, load_lines_complete by set_solver.
    apply wp_bind_Ok, wp_bind, append_missing_newline_id. rewrite app_nil_r in *.
    by apply HR.
  - (* a torn line *)
    rewrite lines_of_records, (load_lines_torn _ r) by done.
    apply wp_bind_Ok, wp_bind, (truncate_trailing_garbage_wp _ rs (take k (line r))); [done..| |].
    + intros w'' Hw'' Hc''. apply HR; [by etrans|done].
    + intros o w'' Ho Hw'' Hc''. destruct o as [[]|e|]; [done|..];
        (apply HF; [done|by etrans|rewrite Hc; rewrite Hc' in Hc''; tauto]).
  - (* the whole text, without its newline *)
    rewrite lines_of_records, load_lines_unterminated by apply json_one_line.
    apply wp_bind_Ok, wp_bind, append_missing_newline_wp; [done|..].
    + intros w'' Hw'' Hc''. apply HR; [by etrans|done].
    + intros o w'' Ho Hw'' Hc''. destruct o as [[]|e|]; [done|..];
        (apply HF; [done|by etrans|rewrite Hc; rewrite Hc' in Hc''; tauto]).
  - (* the whole line *)
    rewrite <- lines_snoc in *. rewrite <- (app_nil_r (lines _)).
    rewrite lines_of_records, load_lines_complete by set_solver.
    apply wp_bind_Ok, wp_bind, append_missing_newline_id. by apply HR.
Qed.

(** Rewriting a log is all or nothing, however it ends. *)
Lemma rewrite_jsonl_wp name (items : list T) w Φ :
  (∀ w', only_sd name w w' → content name w' = lines items → Φ (Returned tt) w') →
  (∀ o w', faulty o → only_sd name w w' →
     content name w' = content name w ∨ content name w' = lines items → Φ o w') →
  wp (rewrite_jsonl name items) w Φ.
Proof.
  intros HR HF. unfold rewrite_jsonl. apply wp_bind, wp_map_raise, wp_sys;
    [intros [] ? [= <-]|done|intros; apply HF; [done|sd_frame|by left]..].
  set (w0 := tick w). apply wp_bind, (for_each_wp (λ _ w', only_sd name w w' ∧ w_sd w' = w_sd w)).
  - intros l1 x l2 w1 _ [Hw1 Hs1]. apply wp_map_raise, wp_sys;
      [intros [] ? [= <-]; by split|done|intros; apply HF; [done|done|left; unfold content; cbn; by rewrite Hs1]..].
  - done.
  - intros w1 [Hw1 Hs1]. unfold sd_sync, sd_install. destruct Hw1 as (Hf1 & Hm1 & _). wp_go.
    all: first
      [ apply HR; [unfold only_sd; cbn; rewrite Hs1; sd_frame|by sd_content]
      | apply HF; [done|unfold only_sd; cbn; rewrite ?Hs1; sd_frame
                  |first [left; unfold content; cbn; by rewrite Hs1|right; by sd_content]] ].
Qed.

(** ** Properties *)

(** C10: an append can be cut after any number of bytes [k], by a crash or by
    an error.  However the next start goes, the log is afterwards the sound
    log of the records appended before -- and of the cut one if all of its
    text had arrived -- or is still as it was, to be repaired by the start
    after that; and a start that gets through returns exactly the records
    the repaired log holds.  Nothing else changes on disk or in memory. *)
Theorem load_log_repairs name (rs : list T) (r : T) k w :
  content name w = lines rs ++ take k (line r) →
  let '(o, w') := load_log name w in
  only_sd name w w' ∧
  match o with
  | Returned vs =>
      vs = (if decide (length (json r) ≤ k) then rs ++ [r] else rs) ∧
      content name w' = lines vs
  | _ =>
      faulty o ∧
      (content name w' = content name w ∨
       content name w' = lines (if decide (length (json r) ≤ k) then rs ++ [r] else rs))
  end.
Proof.
  intros Hc. cut (wp (load_log name) w (λ o w', only_sd name w w' ∧
    match o with
    | Returned vs => vs = recovered rs r k ∧ content name w' = lines vs
    | _ => faulty o ∧ (content name w' = content name w ∨
                       content name w' = lines (recovered rs r k))
    end)).
  { unfold wp. by destruct (load_log name w). }
  apply (load_log_wp _ rs r k); [done|auto..].
  intros [vs|e|] w' Ho Hw' Hc'; [done|auto..].
Qed.
End log_files.

(** What a complete line of a log has to hold for the start to accept it. *)
Definition line_holds `{JsonCodec T} (raw : bytes) (v : T) : Prop :=
  utf8_valid raw = true ∧ trim raw ≠ [] ∧ from_json (trim raw) = Ok v.

Lemma load_lines_accepts `{JsonCodec T} name raws tail (vs : list T) b idx start :
  load_lines name idx (entries_at start raws tail) = Ok (vs, b) →
  ∃ vs1 vs2, vs = vs1 ++ vs2 ∧ Forall2 line_holds raws vs1 ∧ length vs2 ≤ 1.
Proof.
  revert idx start vs b. induction raws as [|raw raws IH]; intros idx start vs b Hl.
  - exists [], vs. split_and!; [done|constructor|]. cbn [entries_at] in Hl.
    case_bool_decide; cbn [load_lines] in Hl; [simplify_eq; simpl; lia|].
    apply result_bind_Ok in Hl as (pr & _ & Hl). cbn in Hl.
    destruct pr; simplify_eq; simpl; lia.
  - cbn [entries_at load_lines] in Hl. apply result_bind_Ok in Hl as (pr & Hpr & Hl).
    apply result_bind_Ok in Hl as ([vs' t] & Hvs & Hl).
    destruct (IH _ _ _ _ Hvs) as (vs1 & vs2 & -> & Hall & Hlen).
    assert (∃ v, pr = Parsed v ∧ line_holds raw v) as (v & -> & Hv).
    { revert Hpr. unfold parse_log_line_strict, line_entry, bytes_to_text, line_holds.
      destruct (utf8_valid raw); cbn [utf8_ok text has_newline negb]; [|done].
      case_bool_decide; [done|]. destruct (from_json _); intros ?; simplify_eq. eauto. }
    simplify_eq. exists (v :: vs1), vs2. split_and!; [done|by constructor|done].
Qed.

(** No complete line of a log is skipped.  A start that succeeds on lines
    [raws], each ended by a newline, and an unterminated [tail] has parsed a
    record out of every one of the lines, in order; beyond them there is at
    most one more record, that of the tail.  (So a damaged complete line, even
    the last, makes the start fail.) *)
Theorem load_lines_keeps_every_line `{JsonCodec T} name raws tail (vs : list T) b :
  Forall (λ raw, nl ∉ raw) raws → nl ∉ tail →
  load_lines name 0 (lines_of (terminated raws ++ tail)) = Ok (vs, b) →
  ∃ vs1 vs2, vs = vs1 ++ vs2 ∧ Forall2 line_holds raws vs1 ∧ length vs2 ≤ 1.
Proof.
  intros Hr Ht. rewrite lines_of_spec by done. apply load_lines_accepts.
Qed.
