(* ===== verification/Store.v ===== *)
(** * Store: operation records and request idempotency

    Models [crates/agent-remote-server/src/store.rs] above the file level of
    [Jsonl.v]: [OperationStore] with its tables, the write-ahead protocol of
    filesystem mutations, the request table that makes replays idempotent, and
    history.  Startup recovery is in [Recovery.v], pruning in [Prune.v].

    The store's tables are the [memory] of [World.v]; its files are the state
    files [operations.jsonl], [requests.jsonl], [op-counter] and
    [blobs/<op>.before]. *)

From S2P Require Import Prelude Text Protocol World Fs Hash Workspace Jsonl.

(** The order a [HashMap] is iterated in is not specified. *)
Class HashIter := { hash_iter {A} : gmap string A → list (string * A) }.
Class HashIterLaws `{HashIter} := {
  hash_iter_perm {A} (m : gmap string A) : hash_iter m ≡ₚ map_to_list m }.

(** ** Data *)

Module RecoveryAction.
Inductive RecoveryAction :=
| Dropped (operation_id : string)
| Synthesized (operation_id : string)
| Conflict (operation_id reason : string)
| ClearedStuck (request_id : string)
| StuckExecMarkedError (request_id : string).
End RecoveryAction.
Abbreviation RecoveryAction := RecoveryAction.RecoveryAction.

Module RecoveryOutcome.
Inductive RecoveryOutcome := NoOp | Committed | Conflict (reason : string).
End RecoveryOutcome.
Abbreviation RecoveryOutcome := RecoveryOutcome.RecoveryOutcome.

Module RequestLogLine.
Record RequestLogLine := Mk {
  request_id : string;
  status : RequestStatus;
  result_done : option ServerMessage;
  result_error : option ProtocolError;
  op : option string }.
#[global] Instance eq_dec : EqDecision RequestLogLine.
Proof. solve_decision. Defined.
End RequestLogLine.
Abbreviation RequestLogLine := RequestLogLine.RequestLogLine.

Module PruneStats.
Record PruneStats := Mk {
  removed_operations : N; removed_requests : N; retained_operations : N }.
End PruneStats.
Abbreviation PruneStats := PruneStats.PruneStats.

Definition operations_path : string := "operations.jsonl".
Definition requests_path : string := "requests.jsonl".
Definition counter_path : string := "op-counter".
Definition blobs_dir : string := "blobs".
Definition blob_path (op_id suffix : string) : string :=
  blobs_dir +:+ "/" +:+ op_id +:+ "." +:+ suffix.

(** ** Loading the tables *)

(** The message of [ParseIntError]. *)
Fixpoint parse_error_from (acc : N) (s : string) : string :=
  match s with
  | EmptyString => ""
  | String c s' =>
      match digit_of c with
      | None => "invalid digit found in string"
      | Some d => if (acc * 10 + d <=? u64_max)%N then parse_error_from (acc * 10 + d) s'
                  else "number too large to fit in target type"
      end
  end.
Definition parse_error (s : string) : string :=
  match s with
  | EmptyString => "cannot parse integer from empty string"
  | String "+"%char (String _ _ as s') => parse_error_from 0 s'
  | _ => parse_error_from 0 s
  end.

(** The id a record of the log pins down: [op-<n>]. *)
Definition op_number (r : AnyOperationRecord) : option N :=
  strip_prefix (AnyOperationRecord.operation_id r) "op-" ≫= parse_u64.

Definition max_op_id (start : N) (rs : list AnyOperationRecord) : N :=
  foldl (λ acc r, N.max acc (default 0%N (op_number r))) start rs.

(** [by_id]: the last record of each id. *)
Definition index_records (rs : list AnyOperationRecord) : gmap string AnyOperationRecord :=
  foldl (λ m r, <[AnyOperationRecord.operation_id r := r]> m) ∅ rs.

(** The [BTreeMap]'s values, in the order of the keys. *)
Definition btree_values {A} (m : gmap string A) : list A :=
  (merge_sort (λ a b : string * A, String.le a.1 b.1) (map_to_list m)).*2.

Definition records_of_log (rs : list AnyOperationRecord) : list AnyOperationRecord :=
  sort_by_key AnyOperationRecord.timestamp_ms (btree_values (index_records rs)).

Definition entry_of_line (l : RequestLogLine) : RequestEntry :=
  RequestEntry.Mk (RequestLogLine.status l)
    (match RequestLogLine.result_done l, RequestLogLine.result_error l with
     | Some m, None => Some (StoredResult.Done m)
     | None, Some e => Some (StoredResult.Error e)
     | _, _ => None
     end)
    (RequestLogLine.op l).

Definition requests_of_log (ls : list RequestLogLine) : gmap string RequestEntry :=
  foldl (λ m l, <[RequestLogLine.request_id l := entry_of_line l]> m) ∅ ls.

Definition line_of_entry (id : string) (e : RequestEntry) : RequestLogLine :=
  let '(result_done, result_error) :=
    match RequestEntry.result e with
    | Some (StoredResult.Done m) => (Some m, None)
    | Some (StoredResult.Error err) => (None, Some err)
    | None => (None, None)
    end in
  RequestLogLine.Mk id (RequestEntry.status e) result_done result_error (RequestEntry.op e).

Definition record_request_id (r : AnyOperationRecord) : option string :=
  match r with
  | AnyOperationRecord.Fs r => Some (FsOperationRecord.request_id r)
  | AnyOperationRecord.Exec r => Some (ExecOperationRecord.request_id r)
  | AnyOperationRecord.Transfer r => Some (TransferOperationRecord.request_id r)
  | AnyOperationRecord.Prepared r => Some (PreparedRecord.request_id r)
  | AnyOperationRecord.Aborted _ => None
  end.

(** ** Looking records up *)

Definition has_id (operation_id : string) (r : AnyOperationRecord) : bool :=
  bool_decide (AnyOperationRecord.operation_id r = operation_id).

Definition find_record (m : memory) (operation_id : string) : option AnyOperationRecord :=
  find_first (λ r, has_id operation_id r && AnyOperationRecord.is_committed r) (records m).

Definition find_committed_by_request_id (m : memory) (request_id : string)
    : option AnyOperationRecord :=
  find_first (λ r,
    if negb (AnyOperationRecord.is_committed r) then false
    else match r with
         | AnyOperationRecord.Fs f => bool_decide (FsOperationRecord.request_id f = request_id)
         | AnyOperationRecord.Exec e => bool_decide (ExecOperationRecord.request_id e = request_id)
         | AnyOperationRecord.Transfer t =>
             bool_decide (TransferOperationRecord.request_id t = request_id)
         | _ => false
         end) (records m).

Definition lookup_request (m : memory) (request_id : string) : option RequestEntry :=
  requests m !! request_id.

(** [reconstruct_result].  The source does not call it on the two kinds of
    uncommitted records ([unreachable!]): [None] there. *)
Definition reconstruct_fs (fs : FsOperationRecord) : ServerMessage :=
  let body :=
    match FsOperationRecord.kind fs with
    | OperationKind.Undo =>
        let restored_hash :=
          if decide (FsOperationRecord.after_hash fs = FILE_DELETED_SENTINEL) then None
          else Some (FsOperationRecord.after_hash fs) in
        ResultBody.Undo (UndoResult.Mk (FsOperationRecord.operation_id fs) restored_hash
                           (FsOperationRecord.after_hash fs))
    | _ =>
        ResultBody.Mutation (MutationResult.Mk (FsOperationRecord.operation_id fs)
          (FsOperationRecord.before_hash fs) (FsOperationRecord.after_hash fs))
    end in
  ServerMessage.Result (FsOperationRecord.request_id fs) body.

Definition reconstruct_exec (e : ExecOperationRecord) : ServerMessage :=
  let rid := ExecOperationRecord.request_id e in
  match ExecOperationRecord.disposition e with
  | ExecDisposition.Rejected =>
      ServerMessage.Error rid (ProtocolError.new
        (default ExecFailed (ExecOperationRecord.error_code e))
        (default "exec was rejected at time of crash; retry with a new request_id"
           (ExecOperationRecord.error e)))
  | ExecDisposition.Completed | ExecDisposition.TimedOut =>
      match ExecOperationRecord.termination e with
      | Some termination =>
          ServerMessage.Result rid (ResultBody.Exec
            (ExecResult.Mk (ExecOperationRecord.operation_id e) termination
               (ExecOperationRecord.duration_ms e) (ExecOperationRecord.drain_timed_out e)
               (ExecOperationRecord.stdout e) (ExecOperationRecord.stderr e)))
      | None =>
          ServerMessage.Error rid (ProtocolError.new IoError
            "corrupt exec record: completed operation has no termination")
      end
  end.

Definition reconstruct_transfer (t : TransferOperationRecord) : ServerMessage :=
  ServerMessage.Result (TransferOperationRecord.request_id t) (ResultBody.Transfer
    (TransferResult.Mk (TransferOperationRecord.operation_id t)
       (TransferOperationRecord.direction t) (TransferOperationRecord.path t)
       (TransferOperationRecord.size t) (TransferOperationRecord.sha256 t)
       (TransferOperationRecord.duration_ms t))).

Definition reconstruct_result (r : AnyOperationRecord) : option ServerMessage :=
  match r with
  | AnyOperationRecord.Fs fs => Some (reconstruct_fs fs)
  | AnyOperationRecord.Exec e => Some (reconstruct_exec e)
  | AnyOperationRecord.Transfer t => Some (reconstruct_transfer t)
  | AnyOperationRecord.Prepared _ | AnyOperationRecord.Aborted _ => None
  end.

(** [history]: the newest [limit] committed records, output previews
    stripped. *)
Definition strip_output (o : ExecOutput) : ExecOutput :=
  ExecOutput.Mk "" "" (ExecOutput.total_bytes o) (ExecOutput.total_bytes o).

Definition strip_previews (r : AnyOperationRecord) : AnyOperationRecord :=
  match r with
  | AnyOperationRecord.Exec e =>
      AnyOperationRecord.Exec (ExecOperationRecord.Mk
        (ExecOperationRecord.operation_id e) (ExecOperationRecord.request_id e)
        (ExecOperationRecord.argv e) (ExecOperationRecord.cwd e)
        (ExecOperationRecord.profile e) (ExecOperationRecord.timeout_ms e)
        (ExecOperationRecord.disposition e) (ExecOperationRecord.termination e)
        (ExecOperationRecord.drain_timed_out e) (ExecOperationRecord.duration_ms e)
        (ExecOperationRecord.timestamp_ms e) (ExecOperationRecord.error e)
        (ExecOperationRecord.error_code e)
        (strip_output (ExecOperationRecord.stdout e))
        (strip_output (ExecOperationRecord.stderr e)))
  | _ => r
  end.

Definition history (m : memory) (limit : option N) : list AnyOperationRecord :=
  let committed := List.filter AnyOperationRecord.is_committed (records m) in
  let tail :=
    match limit with
    | Some n => if (n <? lenN committed)%N
                then drop (N.to_nat (lenN committed - n)) committed else committed
    | None => committed
    end in
  strip_previews <$> tail.

Definition status_for_request (m : memory) (request_id : string) : RequestStatusResult :=
  match lookup_request m request_id with
  | None => RequestStatusResult.Mk request_id RequestStatus.Unknown None
  | Some entry =>
      RequestStatusResult.Mk request_id (RequestEntry.status entry)
        (match RequestEntry.result entry with
         | Some (StoredResult.Error e) => Some e
         | _ => None
         end)
  end.

(** ** The store's operations *)

Section store.
Context `{Env} `{JsonCodec AnyOperationRecord} `{JsonCodec RequestLogLine}.

Definition append_any_record (r : AnyOperationRecord) : M ProtocolError unit :=
  append_record operations_path "op log" r.
Definition append_request_line (l : RequestLogLine) : M ProtocolError unit :=
  append_record requests_path "request log" l.

(** The [op-counter] part of [OperationStore::new]. *)
Definition load_counter : M ProtocolError N :=
  r ← attempt (sd_read counter_path);
  match r with
  | Ok bs =>
      match from_utf8 bs with
      | None => raise (io_to_protocol
                  (io.MkError ErrorKind.Other "stream did not contain valid UTF-8"))
      | Some _ =>
          let s := string_of_list_byte (trim bs) in
          match parse_u64 s with
          | Some n => mret (N.max 0 n)
          | None => raise (ProtocolError.new IoError
                      ("corrupt op-counter file " +:+ debug_name counter_path +:+ ": "
                         +:+ parse_error s))
          end
      end
  | Err e => if decide (io.kind e = ErrorKind.NotFound) then mret 0%N
             else raise (io_to_protocol e)
  end.

(** [OperationStore::new] once it has the lock: the counter, the two logs. *)
Definition OperationStore_load : M ProtocolError unit :=
  counter ← load_counter;
  rs ← load_log operations_path;
  ls ← load_log requests_path;
  put_mem (λ _, MkMemory (max_op_id counter rs) (records_of_log rs)
                  (requests_of_log ls) ∅ 0).

(** [OperationStore::new]: the directories, the lock ([DirLock.v] has what
    goes on in that call), and the loading. *)
Definition OperationStore_new : M ProtocolError unit :=
  map_raise io_to_protocol (sys None (λ w, Ok (tt, w))) ;;   (* create_dir_all(log_dir) *)
  map_raise io_to_protocol (sys None (λ w, Ok (tt, w))) ;;   (* create_dir_all(blobs_dir) *)
  map_raise io_to_protocol (sys None (λ w, Ok (tt, w))) ;;   (* acquire_dir_lock *)
  OperationStore_load.

(** [next_operation_id]; [u64] arithmetic wraps. *)
Definition next_operation_id {E} : M E string :=
  put_mem (λ m, set_next_id (u64_add (next_id m) 1) m) ;;
  m ← get_mem;
  mret ("op-" +:+ pretty (next_id m)).

(** ** The request table *)

Definition insert_request {E} (request_id : string) (e : RequestEntry) : M E unit :=
  put_mem (λ m, set_requests (<[request_id := e]> (requests m)) m).

Definition claimed (op : string) : RequestEntry :=
  RequestEntry.Mk RequestStatus.InProgress None (Some op).

Definition claim_request (request_id op : string) : M ProtocolError (option RequestEntry) :=
  m ← get_mem;
  match requests m !! request_id with
  | Some entry => mret (Some entry)
  | None =>
      append_request_line
        (RequestLogLine.Mk request_id RequestStatus.InProgress None None (Some op)) ;;
      m' ← get_mem;
      match requests m' !! request_id with
      | Some entry => mret (Some entry)
      | None => insert_request request_id (claimed op) ;; mret None
      end
  end.

Definition remember_result (request_id : string) (msg : ServerMessage)
    : M ProtocolError unit :=
  append_request_line
    (RequestLogLine.Mk request_id RequestStatus.Done (Some msg) None None) ;;
  insert_request request_id
    (RequestEntry.Mk RequestStatus.Done (Some (StoredResult.Done msg)) None).

Definition remember_error (request_id : string) (err : ProtocolError)
    : M ProtocolError unit :=
  append_request_line
    (RequestLogLine.Mk request_id RequestStatus.Error None (Some err) None) ;;
  insert_request request_id
    (RequestEntry.Mk RequestStatus.Error (Some (StoredResult.Error err)) None).

(** ** The write-ahead protocol *)

Definition put_record {E} (r : AnyOperationRecord) : M E unit :=
  put_mem (λ m, set_records
    (replace_or_push (has_id (AnyOperationRecord.operation_id r)) r (records m)) m).
Definition push_record {E} (r : AnyOperationRecord) : M E unit :=
  put_mem (λ m, set_records (records m ++ [r]) m).

Definition prepare_fs_record (request_id : string) (kind : OperationKind) (path : string)
    (before_hash : option string) (expected_after_hash : string)
    (before_blob : option bytes) : M ProtocolError string :=
  op_id ← next_operation_id;
  (match before_blob with
   | Some blob =>
       map_raise (io_context "blob write failed") (sd_write (blob_path op_id "before") blob) ;;
       map_raise (io_context "blob fsync failed") (sd_sync (blob_path op_id "before"))
   | None => mret tt
   end) ;;
  now ← now_ms;
  append_any_record (AnyOperationRecord.Prepared
    (PreparedRecord.Mk op_id request_id kind path before_hash expected_after_hash now)) ;;
  mret op_id.

Definition commit_fs_record (operation_id request_id : string) (kind : OperationKind)
    (path : string) (before_hash : option string) (after_hash : string)
    : M ProtocolError FsOperationRecord :=
  now ← now_ms;
  let record :=
    FsOperationRecord.Mk operation_id request_id kind path before_hash after_hash now in
  append_any_record (AnyOperationRecord.Fs record) ;;
  put_record (AnyOperationRecord.Fs record) ;;
  mret record.

Definition append_exec_record (record : ExecOperationRecord) : M ProtocolError unit :=
  append_any_record (AnyOperationRecord.Exec record) ;;
  push_record (AnyOperationRecord.Exec record).

Definition append_transfer_record (record : TransferOperationRecord)
    : M ProtocolError unit :=
  append_any_record (AnyOperationRecord.Transfer record) ;;
  push_record (AnyOperationRecord.Transfer record).

(** [load_before_blob]: [fs::read(..).ok()]. *)
Definition load_before_blob {E} (operation_id : string) : M E (option bytes) :=
  r ← attempt (sd_read (blob_path operation_id "before")); mret (ok r).
End store.
