(* ===== verification/StoreSpec.v ===== *)
(** * StoreSpec: what the store's operations do to the logs

    For each operation of [Store.v], from a world whose logs are sound: how
    the logs, the tables and the file trees are left when it returns, when it
    fails, and when the process dies in it.  The crash and undo theorems are
    proved from these lemmas alone. *)

From S2P Require Import Prelude Text Protocol World Fs Hash Workspace Jsonl Store.

Section specs.
Context `{Env} `{JsonCodecLaws AnyOperationRecord} `{JsonCodecLaws RequestLogLine}.

(** Both logs are sound and hold these records. *)
Definition logs (w : world) (rs : list AnyOperationRecord) (ls : list RequestLogLine) : Prop :=
  content operations_path w = lines rs ∧ content requests_path w = lines ls.

(** The operation log, cut somewhere in the append of [r]. *)
Definition torn_ops (w : world) (rs : list AnyOperationRecord) (r : AnyOperationRecord)
    (ls : list RequestLogLine) : Prop :=
  (∃ k, content operations_path w = lines rs ++ take k (line r)) ∧
  content requests_path w = lines ls.

(** The request log, cut somewhere in the append of [l]. *)
Definition torn_reqs (w : world) (rs : list AnyOperationRecord) (ls : list RequestLogLine)
    (l : RequestLogLine) : Prop :=
  content operations_path w = lines rs ∧
  ∃ k, content requests_path w = lines ls ++ take k (line l).

Lemma blob_path_not_log id suffix name :
  name ∈ [operations_path; requests_path; counter_path] → blob_path id suffix ≠ name.
Proof.
  intros Hin Heq. apply (f_equal (String.get 0)) in Heq.
  rewrite !elem_of_cons, elem_of_nil in Hin. by destruct Hin as [->|[->|[->|[]]]].
Qed.

Lemma blob_path_inj id id' suffix : blob_path id suffix = blob_path id' suffix → id = id'.
Proof.
  unfold blob_path. intros Heq.
  apply (f_equal (λ s, strip_prefix s (blobs_dir +:+ "/"))) in Heq.
  rewrite <- !(append_assoc blobs_dir "/"), !strip_prefix_append in Heq. injection Heq as Heq.
  by apply append_inj_r in Heq.
Qed.

Lemma content_only_sd name name' w w' :
  only_sd name w w' → name' ≠ name → content name' w' = content name' w.
Proof. intros (_ & _ & Hs) Hn. unfold content. by rewrite Hs. Qed.

(** ** Appends *)

Lemma append_any_record_wp (r : AnyOperationRecord) w rs ls Φ :
  logs w rs ls →
  (∀ w', only_sd operations_path w w' → logs w' (rs ++ [r]) ls → Φ (Returned tt) w') →
  (∀ o w', faulty o → only_sd operations_path w w' → torn_ops w' rs r ls → Φ o w') →
  wp (append_any_record r) w Φ.
Proof.
  intros [Ho Hr] HR HF. apply (append_record_wp _ _ rs); [done|..].
  - intros w' Hw Hc. apply HR; [done|]. split; [done|].
    by rewrite (content_only_sd _ _ _ _ Hw).
  - intros o w' k Hf Hw Hc. apply HF; [done..|]. split; [by exists k|].
    by rewrite (content_only_sd _ _ _ _ Hw).
Qed.

Lemma append_request_line_wp (l : RequestLogLine) w rs ls Φ :
  logs w rs ls →
  (∀ w', only_sd requests_path w w' → logs w' rs (ls ++ [l]) → Φ (Returned tt) w') →
  (∀ o w', faulty o → only_sd requests_path w w' → torn_reqs w' rs ls l → Φ o w') →
  wp (append_request_line l) w Φ.
Proof.
  intros [Ho Hr] HR HF. apply (append_record_wp _ _ ls); [done|..].
  - intros w' Hw Hc. apply HR; [done|]. split; [|done].
    by rewrite (content_only_sd _ _ _ _ Hw).
  - intros o w' k Hf Hw Hc. apply HF; [done..|]. split; [|by exists k].
    by rewrite (content_only_sd _ _ _ _ Hw).
Qed.

(** ** The request table *)

(** Only the state file [name] and, by [f], the tables differ. *)
Definition changed (name : string) (f : memory → memory) (w w' : world) : Prop :=
  w_fs w' = w_fs w ∧ w_mem w' = f (w_mem w) ∧
  ∀ n, n ≠ name → w_sd w' !! n = w_sd w !! n.

Definition put_request (rid : string) (e : RequestEntry) (m : memory) : memory :=
  set_requests (<[rid := e]> (requests m)) m.

Definition claim_line (rid op : string) : RequestLogLine :=
  RequestLogLine.Mk rid RequestStatus.InProgress None None (Some op).
Definition done_line (rid : string) (msg : ServerMessage) : RequestLogLine :=
  RequestLogLine.Mk rid RequestStatus.Done (Some msg) None None.
Definition error_line (rid : string) (e : ProtocolError) : RequestLogLine :=
  RequestLogLine.Mk rid RequestStatus.Error None (Some e) None.

Definition done_entry (msg : ServerMessage) : RequestEntry :=
  RequestEntry.Mk RequestStatus.Done (Some (StoredResult.Done msg)) None.
Definition error_entry (e : ProtocolError) : RequestEntry :=
  RequestEntry.Mk RequestStatus.Error (Some (StoredResult.Error e)) None.

Lemma claim_request_wp rid op w rs ls Φ :
  logs w rs ls → requests (w_mem w) !! rid = None →
  (∀ w', changed requests_path (put_request rid (claimed op)) w w' →
     logs w' rs (ls ++ [claim_line rid op]) → Φ (Returned None) w') →
  (∀ o w', faulty o → only_sd requests_path w w' → torn_reqs w' rs ls (claim_line rid op) →
     Φ o w') →
  wp (claim_request rid op) w Φ.
Proof.
  intros Hl Hn HR HF. unfold claim_request. apply wp_bind, wp_get_mem. rewrite Hn.
  apply wp_bind, (append_request_line_wp _ _ rs ls); [done|..].
  - intros w' (Hf & Hm & Hs) Hl'. apply wp_bind, wp_get_mem. rewrite Hm, Hn.
    unfold insert_request. apply wp_bind, wp_put_mem, wp_ret, HR; [|done].
    split_and!; [done|by cbn; rewrite Hm|done].
  - intros [a|e|] w' Ho Hw Ht; [done|by apply HF..].
Qed.

Lemma claim_request_seen_wp rid op e w (Φ : outcome ProtocolError _ → world → Prop) :
  requests (w_mem w) !! rid = Some e → Φ (Returned (Some e)) w →
  wp (claim_request rid op) w Φ.
Proof. intros He HΦ. unfold claim_request. apply wp_bind, wp_get_mem. by rewrite He. Qed.

Lemma remember_wp (l : RequestLogLine) rid e w rs ls Φ :
  logs w rs ls →
  (∀ w', changed requests_path (put_request rid e) w w' → logs w' rs (ls ++ [l]) →
     Φ (Returned tt) w') →
  (∀ o w', faulty o → only_sd requests_path w w' → torn_reqs w' rs ls l → Φ o w') →
  wp (append_request_line l ;; insert_request rid e) w Φ.
Proof.
  intros Hl HR HF. apply wp_bind, (append_request_line_wp _ _ rs ls); [done|..].
  - intros w' (Hf & Hm & Hs) Hl'. apply wp_put_mem, HR; [|done].
    split_and!; [done|by cbn; rewrite Hm|done].
  - intros [a|err|] w' Ho Hw Ht; [done|by apply HF..].
Qed.

Lemma remember_result_wp rid msg w rs ls Φ :
  logs w rs ls →
  (∀ w', changed requests_path (put_request rid (done_entry msg)) w w' →
     logs w' rs (ls ++ [done_line rid msg]) → Φ (Returned tt) w') →
  (∀ o w', faulty o → only_sd requests_path w w' → torn_reqs w' rs ls (done_line rid msg) →
     Φ o w') →
  wp (remember_result rid msg) w Φ.
Proof. apply remember_wp. Qed.

Lemma remember_error_wp rid err w rs ls Φ :
  logs w rs ls →
  (∀ w', changed requests_path (put_request rid (error_entry err)) w w' →
     logs w' rs (ls ++ [error_line rid err]) → Φ (Returned tt) w') →
  (∀ o w', faulty o → only_sd requests_path w w' → torn_reqs w' rs ls (error_line rid err) →
     Φ o w') →
  wp (remember_error rid err) w Φ.
Proof. apply remember_wp. Qed.

(** ** The write-ahead protocol *)

(** The id the next operation gets. *)
Definition next_op_id (w : world) : string := "op-" +:+ pretty (u64_add (next_id (w_mem w)) 1).

Definition bump_id (m : memory) : memory := set_next_id (u64_add (next_id m) 1) m.

Lemma next_operation_id_wp {E} w (Φ : outcome E string → world → Prop) :
  Φ (Returned (next_op_id w)) (set_mem bump_id w) → wp next_operation_id w Φ.
Proof. done. Qed.

(** Everything but the two logs and the blob of the next operation is as in
    [w]; the id counter has moved. *)
Definition prepared_frame (w w' : world) : Prop :=
  w_fs w' = w_fs w ∧ w_mem w' = bump_id (w_mem w) ∧
  content requests_path w' = content requests_path w ∧
  ∀ n, n ≠ operations_path → n ≠ blob_path (next_op_id w) "before" →
    w_sd w' !! n = w_sd w !! n.

Lemma sd_write_wp name bs w Φ :
  (∀ w', only_sd name w w' → w_sd w' !! name = Some bs → Φ (Returned tt) w') →
  (∀ o w', faulty o → only_sd name w w' → Φ o w') →
  wp (sd_write name bs) w Φ.
Proof.
  intros HR HF. unfold sd_write, append_bytes. wp_go.
  all: first [apply HR; [sd_frame|cbn; by rewrite !lookup_insert_eq]
             |apply HF; [done|sd_frame]].
Qed.

Lemma write_blob_wp id blob w Φ :
  (∀ w', only_sd (blob_path id "before") w w' →
     match blob with
     | Some b => w_sd w' !! blob_path id "before" = Some b
     | None => True
     end → Φ (Returned tt) w') →
  (∀ o w', faulty o → only_sd (blob_path id "before") w w' → Φ o w') →
  wp (match blob with
      | Some blob =>
          map_raise (io_context "blob write failed") (sd_write (blob_path id "before") blob) ;;
          map_raise (io_context "blob fsync failed") (sd_sync (blob_path id "before"))
      | None => mret tt
      end) w Φ.
Proof.
  intros HR HF. destruct blob as [b|]; [|by apply wp_ret, HR].
  apply wp_bind, wp_map_raise, sd_write_wp.
  - intros w' Hw Hb. unfold sd_sync. wp_go; [apply HR; [done|done]|apply HF..]; done.
  - intros [[]|e|] w' Ho Hw; [done|by apply HF..].
Qed.

Lemma prepare_fs_record_wp rid kind path before expected blob w rs ls Φ :
  logs w rs ls →
  (∀ w' now, prepared_frame w w' →
     logs w' (rs ++ [AnyOperationRecord.Prepared
       (PreparedRecord.Mk (next_op_id w) rid kind path before expected now)]) ls →
     match blob with
     | Some b => w_sd w' !! blob_path (next_op_id w) "before" = Some b
     | None => True
     end → Φ (Returned (next_op_id w)) w') →
  (∀ o w', faulty o → prepared_frame w w' →
     (∃ now, torn_ops w' rs (AnyOperationRecord.Prepared
        (PreparedRecord.Mk (next_op_id w) rid kind path before expected now)) ls) → Φ o w') →
  wp (prepare_fs_record rid kind path before expected blob) w Φ.
Proof.
  intros [Ho Hr] HR HF. unfold prepare_fs_record.
  apply wp_bind, next_operation_id_wp, wp_bind, write_blob_wp.
  - intros w1 Hw1 Hb. apply wp_bind, wp_now_ms. intros now.
    assert (logs w1 rs ls) as Hl.
    { split; rewrite (content_only_sd _ _ _ _ Hw1);
        [done|by apply not_eq_sym, blob_path_not_log; set_solver
        |done|by apply not_eq_sym, blob_path_not_log; set_solver]. }
    destruct Hw1 as (Hf1 & Hm1 & Hs1).
    apply wp_bind, (append_any_record_wp _ _ rs ls); [done|..].
    + intros w2 (Hf2 & Hm2 & Hs2) Hl2. apply wp_ret, (HR _ now); [|done|].
      * split_and!; [by rewrite Hf2, Hf1|by rewrite Hm2, Hm1| |].
        { destruct Hl2 as [_ ->]. by rewrite Hr. }
        intros n Hn1 Hn2. by rewrite Hs2, Hs1.
      * destruct blob; [|done]. rewrite Hs2; [done|]. apply blob_path_not_log. set_solver.
    + intros o w2 Hfo (Hf2 & Hm2 & Hs2) Ht.
      assert (prepared_frame w w2) as Hp.
      { split_and!; [by rewrite Hf2, Hf1|by rewrite Hm2, Hm1| |].
        - destruct Ht as [_ ->]. by rewrite Hr.
        - intros n Hn1 Hn2. by rewrite Hs2, Hs1. }
      destruct o as [a|e|]; [done|apply HF; eauto..].
  - intros o w1 Hfo Hw1.
    assert (∀ name, name ∈ [operations_path; requests_path; counter_path] →
      content name w1 = content name w) as Hc.
    { intros name Hn. apply (content_only_sd _ _ _ _ Hw1).
      by apply not_eq_sym, blob_path_not_log. }
    destruct Hw1 as (Hf1 & Hm1 & Hs1).
    assert (∃ now, torn_ops w1 rs (AnyOperationRecord.Prepared
      (PreparedRecord.Mk (next_op_id w) rid kind path before expected now)) ls).
    { exists 0%N. split; [exists 0; rewrite app_nil_r|]; rewrite Hc by set_solver; done. }
    assert (prepared_frame w w1).
    { split_and!; [done|done|by apply Hc; set_solver|]. intros n _ Hn. by rewrite Hs1. }
    destruct o as [a|e|]; [done|by apply HF..].
Qed.

Definition commit_record (id rid : string) kind path before after now : FsOperationRecord :=
  FsOperationRecord.Mk id rid kind path before after now.

Definition put_committed (r : AnyOperationRecord) (m : memory) : memory :=
  set_records (replace_or_push (has_id (AnyOperationRecord.operation_id r)) r (records m)) m.

Lemma commit_fs_record_wp id rid kind path before after w rs ls Φ :
  logs w rs ls →
  (∀ w' now, let r := commit_record id rid kind path before after now in
     changed operations_path (put_committed (AnyOperationRecord.Fs r)) w w' →
     logs w' (rs ++ [AnyOperationRecord.Fs r]) ls → Φ (Returned r) w') →
  (∀ o w' now, faulty o → only_sd operations_path w w' →
     torn_ops w' rs (AnyOperationRecord.Fs (commit_record id rid kind path before after now)) ls →
     Φ o w') →
  wp (commit_fs_record id rid kind path before after) w Φ.
Proof.
  intros Hl HR HF. unfold commit_fs_record. apply wp_bind, wp_now_ms. intros now.
  apply wp_bind, (append_any_record_wp _ _ rs ls); [done|..].
  - intros w' (Hf & Hm & Hs) Hl'. apply wp_bind, wp_put_mem, wp_ret, (HR _ now); [|done].
    split_and!; [done|by cbn; rewrite Hm|done].
  - intros [a|e|] w' Ho Hw Ht; [done|by eapply (HF _ _ now)..].
Qed.
End specs.

(** ** What the store leaves alone *)

(** The trees and the pending uploads are as they were. *)
Definition store_only (w w' : world) : Prop :=
  w_fs w' = w_fs w ∧ uploads (w_mem w') = uploads (w_mem w).

Lemma store_only_refl w : store_only w w.
Proof. done. Qed.
Lemma store_only_trans w1 w2 w3 : store_only w1 w2 → store_only w2 w3 → store_only w1 w3.
Proof. intros [? ?] [? ?]. split; congruence. Qed.

(** However the computation ends, it touched only the store; and it returns,
    unless the environment keeps it from that. *)
Definition touches_store `{Env} {E A} (m : M E A) : Prop :=
  ∀ w, wp m w (λ o w', store_only w w' ∧ (not_returned o → faulty o)).

Section touches.
Context `{Env} {E A B : Type}.

Lemma touches_ret (a : A) : touches_store (E := E) (mret a).
Proof. by intros w. Qed.
Lemma touches_bind (m : M E A) (k : A → M E B) :
  touches_store m → (∀ a, touches_store (k a)) → touches_store (m ≫= k).
Proof.
  intros Hm Hk w. apply wp_bind. eapply wp_mono; [|apply Hm].
  intros [a|e|] w1 [Hw1 Ho]; [|split; [done|by intros _; apply Ho]..].
  eapply wp_mono; [|apply Hk]. intros o w2 [Hw2 Ho2]. split; [by eapply store_only_trans|done].
Qed.
Lemma touches_map_raise {F} (f : E → F) (m : M E A) :
  touches_store m → touches_store (map_raise f m).
Proof.
  intros Hm w. apply wp_map_raise. eapply wp_mono; [|apply Hm].
  intros [] w' [Hw' Ho]; (split; [done|]); by intros ?; apply Ho.
Qed.
Lemma touches_attempt {F} (m : M E A) : touches_store m → touches_store (attempt (F := F) m).
Proof.
  intros Hm w. apply wp_attempt. eapply wp_mono; [|apply Hm].
  intros [] w' [Hw' Ho]; (split; [done|]); try done; by intros ?; apply Ho.
Qed.
Lemma touches_get_mem : touches_store (E := E) get_mem.
Proof. by intros w. Qed.
Lemma touches_put_mem f :
  (∀ m, uploads (f m) = uploads m) → touches_store (E := E) (put_mem f).
Proof. intros Hf w. split; [|done]. split; [done|apply Hf]. Qed.
Lemma touches_now_ms : touches_store (E := E) now_ms.
Proof. by intros w. Qed.
Lemma touches_sys ev (act : world → result io.Error (A * world)) :
  (∀ w, ∃ a w', act w = Ok (a, w') ∧ store_only w w') → touches_store (sys ev act).
Proof.
  intros Hact w. apply wp_sys; [|intros e He|done..].
  - intros a w' Ha. destruct (Hact (tick w)) as (a' & w1 & Ha' & Hw1). rewrite Ha in Ha'.
    injection Ha' as <- <-. by destruct ev.
  - destruct (Hact (tick w)) as (a' & w1 & Ha' & _). congruence.
Qed.
Lemma touches_sys_write ev put bs :
  (∀ bs w, store_only w (put bs w)) → touches_store (sys_write ev put bs).
Proof.
  intros Hput w. apply wp_sys_write; intros; (split; [|done]);
    (eapply store_only_trans; [|apply Hput]); done.
Qed.
End touches.

Section touches_store_ops.
Context `{Env} `{JsonCodec AnyOperationRecord} `{JsonCodec RequestLogLine}.

Lemma touches_append_record {T} `{JsonCodec T} name what (r : T) :
  touches_store (append_record name what r).
Proof.
  unfold append_record, sd_open_append, sd_append, sd_sync.
  repeat first [apply touches_bind; [|intros ?] | apply touches_map_raise].
  - apply touches_sys. intros w0. by eexists _, _.
  - by apply touches_sys_write.
  - apply touches_sys. intros w0. by eexists _, _.
Qed.

Lemma touches_next_operation_id {E} : touches_store (E := E) next_operation_id.
Proof.
  apply touches_bind; [by apply touches_put_mem|intros ?].
  apply touches_bind; [apply touches_get_mem|intros ?]. apply touches_ret.
Qed.
Lemma touches_claim_request rid op : touches_store (claim_request rid op).
Proof.
  apply touches_bind; [apply touches_get_mem|intros m]. case_match; [apply touches_ret|].
  apply touches_bind; [apply touches_append_record|intros _].
  apply touches_bind; [apply touches_get_mem|intros m']. case_match; [apply touches_ret|].
  apply touches_bind; [by apply touches_put_mem|intros _]. apply touches_ret.
Qed.
Lemma touches_remember_result rid msg : touches_store (remember_result rid msg).
Proof.
  apply touches_bind; [apply touches_append_record|intros _]. by apply touches_put_mem.
Qed.
Lemma touches_remember_error rid e : touches_store (remember_error rid e).
Proof.
  apply touches_bind; [apply touches_append_record|intros _]. by apply touches_put_mem.
Qed.
Lemma touches_append_transfer_record r : touches_store (append_transfer_record r).
Proof.
  apply touches_bind; [apply touches_append_record|intros _]. by apply touches_put_mem.
Qed.
End touches_store_ops.
