(* ===== verification/FsOps.v ===== *)
(** * FsOps: reading and changing files

    Models [crates/agent-remote-server/src/fs_ops.rs]: listing, stat, paged
    reads, and the three mutations create, edit and delete, each wrapped in
    the write-ahead protocol of [Store.v]. *)

From S2P Require Import Prelude Text Protocol World Fs Hash Workspace Jsonl Store.

Definition LIST_DEFAULT_LIMIT : N := 1000.
Definition LIST_MAX_LIMIT : N := 1000.
Definition MAX_TEXT_BYTES : N := 4 * 1024 * 1024.
Definition READ_DEFAULT_LIMIT : N := 65536.
Definition READ_MAX_LIMIT : N := 64 * 1024.

(** [str::len] and the bytes of a [String]. *)
Definition str_len (s : string) : N := lenN (as_bytes s).

Definition is_symlink_node (n : node) : bool :=
  match n with Symlink _ => true | _ => false end.
Definition is_file_node (n : node) : bool :=
  match n with File _ _ _ => true | _ => false end.

(** [Metadata::len] and [Metadata::permissions().mode()]. *)
Definition node_len (n : node) : N :=
  match n with
  | File data _ _ => lenN data
  | Dir _ len => len
  | Symlink target => str_len target
  end.
Definition node_mode (n : node) : N :=
  match n with File _ mode _ | Dir mode _ => mode | Symlink _ => 511 end.

(** What a handler makes of [symlink_metadata] failing. *)
Definition not_found_or (path what : string) (e : io.Error) : ProtocolError :=
  if decide (io.kind e = ErrorKind.NotFound)
  then ProtocolError.new NotFound ("not found: " +:+ path)
  else ProtocolError.new IoError (what +:+ " failed: " +:+ io.to_string e).

(** ** Reading *)

(** [nearest_char_boundary_at_or_after]; the loop runs at most to the end of
    the text. *)
Fixpoint boundary_loop (fuel : nat) (s : bytes) (i : nat) : nat :=
  match fuel with
  | O => i
  | S fuel' =>
      if decide (i < length s) then
        if is_char_boundary s i then i else boundary_loop fuel' s (S i)
      else i
  end.
Definition nearest_char_boundary_at_or_after (s : bytes) (target : nat) : nat :=
  let target := Nat.min target (length s) in
  boundary_loop (length s - target) s target.

(** The part of [read] after the file is in memory. *)
Definition read_page `{Sha256} (bs : bytes) (offset limit : option N)
    : result ProtocolError ReadResult :=
  match from_utf8 bs with
  | None => Err (ProtocolError.new InvalidRequest
              "file is not valid UTF-8; binary reads are not supported")
  | Some _ =>
    let full_hash := hash_bytes bs in
    let offset_u64 := default 0%N offset in
    let limit_u64 := default READ_DEFAULT_LIMIT limit in
    if bool_decide (limit_u64 = 0%N) || (READ_MAX_LIMIT <? limit_u64)%N then
      Err (ProtocolError.new InvalidRequest
        ("read limit must be between 1 and " +:+ pretty READ_MAX_LIMIT +:+ " bytes"))
    else if (lenN bs <? offset_u64)%N then
      Err (ProtocolError.new InvalidRequest
        ("offset " +:+ pretty offset_u64 +:+ " is past end of file (" +:+ pretty (lenN bs)
           +:+ " bytes)"))
    else
      let start := N.to_nat offset_u64 in
      if negb (is_char_boundary bs start) then
        Err (ProtocolError.new InvalidRequest
          ("offset " +:+ pretty start +:+ " is not on a UTF-8 character boundary"))
      else
        let end_ := match checked_add offset_u64 limit_u64 with
                    | Some e => Nat.min (N.to_nat e) (length bs)
                    | None => length bs
                    end in
        let end' := if decide (length bs ≤ end_) then length bs
                    else nearest_char_boundary_at_or_after bs end_ in
        let truncated := bool_decide (end' < length bs) in
        let content := string_of_list_byte (take (end' - start) (drop start bs)) in
        Ok (ReadResult.Mk content (Some full_hash) truncated
              (if truncated then Some (N.of_nat end') else None))
  end.

Section reading.
Context `{Env} `{Sha256}.

Definition file_kind (p : path) : M ProtocolError ListKind :=
  r ← attempt (fs_symlink_metadata p);
  mret match r with
       | Err _ => ListKind.File
       | Ok n => if is_symlink_node n then ListKind.Symlink
                 else if is_dir_node (Some n) then ListKind.Dir else ListKind.File
       end.

Definition list_entry (abs : path) (name : string) : M ProtocolError ListEntry :=
  m ← attempt (fs_symlink_metadata (abs ++ [name]));
  kind ← file_kind (abs ++ [name]);
  mret (ListEntry.Mk name kind (node_len <$> ok m)).

(** The page of the sorted entries. *)
Definition list_page (entries : list ListEntry) (offset limit : N) : ListResult :=
  let sorted := merge_sort (λ a b, String.le (ListEntry.name a) (ListEntry.name b)) entries in
  let end_ := N.min (saturating_add offset limit) (lenN sorted) in
  let page := if (lenN sorted <=? offset)%N then []
              else take (N.to_nat (end_ - offset)) (drop (N.to_nat offset) sorted) in
  ListResult.Mk page (if (end_ <? lenN sorted)%N then Some end_ else None).

Definition fs_read_dir (p : path) : M io.Error (list string) :=
  sys None (λ w,
    q ← canonicalize (w_fs w) p;
    if is_dir_node (w_fs w !! q) then Ok ((dir_entries (w_fs w) q).*1, w) else Err enotdir).

Definition list_ (ws : Workspace) (path : string) (offset limit : option N)
    : M ProtocolError ResultBody :=
  let offset := default 0%N offset in
  let limit := default LIST_DEFAULT_LIMIT limit in
  if bool_decide (limit = 0%N) || (LIST_MAX_LIMIT <? limit)%N then
    raise (ProtocolError.new InvalidRequest
      ("list limit must be between 1 and " +:+ pretty LIST_MAX_LIMIT +:+ " entries"))
  else
    abs ← ws_resolve ws path;
    meta ← map_raise (not_found_or path "list") (fs_symlink_metadata abs);
    if negb (is_dir_node (Some meta)) then
      raise (ProtocolError.new NotADirectory ("not a directory: " +:+ path))
    else
      names ← map_raise (io_context "read_dir failed") (fs_read_dir abs);
      entries ← collect names (list_entry abs);
      let visible := retain (λ e, bool_decide (ListEntry.name e ≠ ".agent-remote")) entries in
      mret (ResultBody.List (list_page visible offset limit)).

Definition entry_for (client_path : string) (abs : path) (meta : node)
    : M ProtocolError FileEntry :=
  let kind := if is_symlink_node meta then ListKind.Symlink
              else if is_dir_node (Some meta) then ListKind.Dir else ListKind.File in
  let mode := node_mode meta in
  hash ← (if is_file_node meta
          then r ← attempt (hash_file abs); mret (ok r ≫= id)
          else mret None);
  mret (FileEntry.Mk client_path kind (node_len meta) hash
    (Some (FileMode.Mk (bool_decide (N.land mode 256 ≠ 0%N))
                       (bool_decide (N.land mode 128 ≠ 0%N))
                       (bool_decide (N.land mode 73 ≠ 0%N))))).

Definition stat (ws : Workspace) (path : string) : M ProtocolError ResultBody :=
  abs ← ws_resolve ws path;
  meta ← map_raise (not_found_or path "stat") (fs_symlink_metadata abs);
  entry ← entry_for path abs meta;
  mret (ResultBody.Stat entry).

Definition read (ws : Workspace) (path : string) (offset limit : option N)
    : M ProtocolError ResultBody :=
  abs ← ws_resolve ws path;
  meta ← map_raise (not_found_or path "read") (fs_symlink_metadata abs);
  if is_dir_node (Some meta) then
    raise (ProtocolError.new IsADirectory ("is a directory: " +:+ path))
  else
    bs ← map_raise (io_context "read failed") (fs_read abs);
    page ← lift (read_page bs offset limit);
    mret (ResultBody.Read page).
End reading.

(** ** Changing *)

Section mutations.
Context `{Env} `{Tempfile} `{Sha256}
        `{JsonCodec AnyOperationRecord} `{JsonCodec RequestLogLine}.

(** [check_base_hash]. *)
Definition check_base_hash (abs : path) (base_hash : option string)
    : M ProtocolError (option string) :=
  current ← map_raise ProtocolError.from_io (hash_file abs);
  match base_hash with
  | Some expected =>
      match current with
      | Some actual =>
          if decide (actual = expected) then mret current
          else raise (ProtocolError.with_hashes
                 (ProtocolError.new StaleFile "file changed since base_hash") expected actual)
      | None =>
          raise (ProtocolError.with_hashes
            (ProtocolError.new StaleFile "file does not exist but base_hash was given")
            expected FILE_DELETED_SENTINEL)
      end
  | None => mret current
  end.

(** [abs.parent()]. *)
Definition parent_dir (abs : path) : M ProtocolError path :=
  match abs with
  | [] => raise (ProtocolError.new InvalidRequest "path has no parent")
  | _ => mret (removelast abs)
  end.

(** [if let Ok(orig_meta) = metadata(abs) { set_permissions(tmp, mode)? }]. *)
Definition copy_mode (tmp abs : path) : M ProtocolError unit :=
  orig_meta ← attempt (fs_metadata abs);
  match orig_meta with
  | Ok n => map_raise (io_context "chmod temp failed") (fs_set_permissions tmp (node_mode n))
  | Err _ => mret tt
  end.

(** [atomic_write_bytes]. *)
Definition atomic_write_bytes (abs : path) (content : bytes)
    : M ProtocolError (option string * string) :=
  parent ← parent_dir abs;
  map_raise (io_context "mkdir failed") (fs_create_dir_all parent) ;;
  old_hash ← map_raise ProtocolError.from_io (hash_file abs);
  let new_hash := hash_bytes content in
  tmp ← map_raise (io_context "temp file create failed") (named_temp_file parent);
  until_persisted tmp (
    map_raise (io_context "temp write failed") (fs_write tmp content) ;;
    copy_mode tmp abs ;;
    map_raise (io_context "atomic persist failed") (fs_rename tmp abs)) ;;
  map_raise (io_context "fsync after write failed") (fsync_file_or_dir abs) ;;
  mret (old_hash, new_hash).

Definition already_exists (client_path : string) : ProtocolError :=
  ProtocolError.new AlreadyExists
    ("already exists: " +:+ client_path +:+ "; modify existing files with edit").

(** [atomic_create_bytes]. *)
Definition atomic_create_bytes (abs : path) (content : bytes) (client_path : string)
    : M ProtocolError unit :=
  parent ← parent_dir abs;
  map_raise (io_context "mkdir failed") (fs_create_dir_all parent) ;;
  tmp ← map_raise (io_context "temp file create failed") (named_temp_file parent);
  with_temp tmp (
    map_raise (io_context "temp write failed") (fs_write tmp content) ;;
    map_raise (io_context "chmod temp failed") (fs_set_permissions tmp 420) ;;
    map_raise (λ e, if decide (io.kind e = ErrorKind.AlreadyExists)
                    then already_exists client_path
                    else io_context "link into place failed" e)
      (fs_hard_link tmp abs) ;;
    map_raise (io_context "fsync after create failed") (fsync_file_or_dir abs)).

Definition create (ws : Workspace) (request_id path content : string)
    : M ProtocolError ResultBody :=
  if (MAX_TEXT_BYTES <? str_len content)%N then
    raise (ProtocolError.new InvalidRequest
      ("content exceeds " +:+ pretty MAX_TEXT_BYTES
         +:+ " bytes; use upload_file for large files"))
  else
    abs ← ws_resolve ws path;
    meta ← attempt (fs_symlink_metadata abs);
    match meta with
    | Ok _ => raise (already_exists path)
    | Err e =>
      if decide (io.kind e = ErrorKind.NotFound) then
        let new_hash := hash_bytes (as_bytes content) in
        op_id ← prepare_fs_record request_id OperationKind.Create path None new_hash None;
        atomic_create_bytes abs (as_bytes content) path ;;
        commit_fs_record op_id request_id OperationKind.Create path None new_hash ;;
        mret (ResultBody.Mutation (MutationResult.Mk op_id None new_hash))
      else raise (ProtocolError.from_io e)
    end.

(** The checks and the replacement of [edit], once the file is in memory:
    the new content, or the refusal. *)
Definition edit_text (path : string) (original old_text new_text : bytes) (replace_all : bool)
    : result ProtocolError bytes :=
  if (MAX_TEXT_BYTES <? lenN original)%N then
    Err (ProtocolError.new InvalidRequest
      ("file exceeds " +:+ pretty MAX_TEXT_BYTES
         +:+ " bytes; edit does not support files this large"))
  else if negb (utf8_valid original) then
    Err (ProtocolError.new InvalidRequest
      "file is not valid UTF-8; editing binary files is unsupported")
  else
    let matches := count_matches original old_text in
    if bool_decide (matches = 0) then
      Err (ProtocolError.new NoMatch
        ("old_text not found in " +:+ path
           +:+ "; re-read the file and copy the current text exactly"))
    else if bool_decide (1 < matches) && negb replace_all then
      Err (ProtocolError.new AmbiguousMatch
        ("old_text occurs " +:+ pretty matches +:+ " times in " +:+ path
           +:+ "; extend it with surrounding context to make it unique, or pass replace_all=true"))
    else
      let new_content := if replace_all then replace original old_text new_text
                         else replacen original old_text new_text 1 in
      if (MAX_TEXT_BYTES <? lenN new_content)%N then
        Err (ProtocolError.new InvalidRequest
          ("resulting file would exceed " +:+ pretty MAX_TEXT_BYTES +:+ " bytes"))
      else Ok new_content.

(** The checks of [edit] on its arguments. *)
Definition edit_args (old_text new_text : string) : result ProtocolError unit :=
  if decide (old_text = "") then
    Err (ProtocolError.new InvalidRequest "old_text must not be empty")
  else if decide (old_text = new_text) then
    Err (ProtocolError.new InvalidRequest
      "old_text and new_text are identical; nothing to change")
  else if (MAX_TEXT_BYTES <? str_len old_text)%N || (MAX_TEXT_BYTES <? str_len new_text)%N then
    Err (ProtocolError.new InvalidRequest
      ("old_text/new_text exceed " +:+ pretty MAX_TEXT_BYTES +:+ " bytes"))
  else Ok tt.

Definition edit (ws : Workspace) (request_id path base_hash old_text new_text : string)
    (replace_all : bool) : M ProtocolError ResultBody :=
  lift (edit_args old_text new_text) ;;
  abs ← ws_resolve ws path;
  there ← fs_exists abs;
  if negb there then
    raise (ProtocolError.new NotFound
      ("not found: " +:+ path +:+ "; new files are created with create, not edit"))
  else
    current ← check_base_hash abs (Some base_hash);
    original ← map_raise (io_context "read failed") (fs_read abs);
    new_content ←
      lift (edit_text path original (as_bytes old_text) (as_bytes new_text) replace_all);
    let new_hash := hash_bytes new_content in
    op_id ← prepare_fs_record request_id OperationKind.Edit path current new_hash
              (Some original);
    atomic_write_bytes abs new_content ;;
    commit_fs_record op_id request_id OperationKind.Edit path current new_hash ;;
    mret (ResultBody.Mutation (MutationResult.Mk op_id current new_hash)).

Definition delete_ (ws : Workspace) (request_id path : string)
    : M ProtocolError ResultBody :=
  abs ← ws_resolve ws path;
  d ← fs_is_dir abs;
  if d : bool then raise (ProtocolError.new IsADirectory ("not a file: " +:+ path))
  else
    before_blob ← attempt (fs_read abs);
    before_hash ← map_raise ProtocolError.from_io (hash_file abs);
    match before_hash with
    | None => raise (ProtocolError.new NotFound ("not found: " +:+ path))
    | Some _ =>
        op_id ← prepare_fs_record request_id OperationKind.Delete path before_hash
                  FILE_DELETED_SENTINEL (ok before_blob);
        map_raise (io_context "remove failed") (fs_remove_file abs) ;;
        (match abs with
         | [] => mret tt
         | _ => map_raise (io_context "fsync after delete") (fsync_dir (removelast abs))
         end) ;;
        commit_fs_record op_id request_id OperationKind.Delete path before_hash
          FILE_DELETED_SENTINEL ;;
        mret (ResultBody.Mutation
          (MutationResult.Mk op_id before_hash FILE_DELETED_SENTINEL))
    end.
End mutations.

(** ** The text of an edit *)

Definition too_large (bs : bytes) : Prop := (MAX_TEXT_BYTES < lenN bs)%N.

Definition disjoint_occurrences (s pat : bytes) : Prop :=
  ∃ pre mid post, s = pre ++ pat ++ mid ++ pat ++ post.

(** C21: the text an edit installs, and every refusal.  On success the file was
    valid UTF-8 with at least one occurrence of the old text, and the new
    content is valid, within the limit and different: with [replace_all] it is
    the file with every leftmost occurrence replaced; without, there were no
    two disjoint occurrences, and exactly the leftmost one is replaced, the
    text around it kept.  [NoMatch] means that the old text occurs nowhere,
    [AmbiguousMatch] that it occurs at two disjoint places and [replace_all]
    was not given, and anything else that a limit or the encoding is
    violated. *)
Theorem edit_text_spec path original old_text new_text replace_all :
  old_text ≠ [] → old_text ≠ new_text →
  utf8_valid old_text = true → utf8_valid new_text = true →
  match edit_text path original old_text new_text replace_all with
  | Ok content =>
      utf8_valid original = true ∧ occurs original old_text ∧
      utf8_valid content = true ∧ content ≠ original ∧ ¬ too_large content ∧
      (if replace_all : bool then
         ∃ n, 0 < n ∧ replaced old_text new_text original content n
       else
         ¬ disjoint_occurrences original old_text ∧
         ∃ pre post, leftmost original old_text pre ∧
           original = pre ++ old_text ++ post ∧ content = pre ++ new_text ++ post)
  | Err e =>
      match ProtocolError.code e with
      | NoMatch => ¬ occurs original old_text
      | AmbiguousMatch => replace_all = false ∧ disjoint_occurrences original old_text
      | c => c = InvalidRequest ∧
             (too_large original ∨ utf8_valid original = false ∨
              too_large (if replace_all then replace original old_text new_text
                         else replacen original old_text new_text 1))
      end
  end.
Proof.
  intros Hold Hne Hvo Hvn. unfold edit_text, too_large.
  destruct (N.ltb_spec MAX_TEXT_BYTES (lenN original)) as [|Hlo]; [by split; [|left]|].
  destruct (utf8_valid original) eqn:Hv; cbn [negb]; [|by split; [|right; left]].
  case_bool_decide as Hz; [by apply count_matches_zero|].
  assert (occurs original old_text) as Ho by (apply count_matches_pos; [done|lia]).
  destruct (bool_decide _ && _) eqn:Ha.
  { apply andb_true_iff in Ha as [Hc%bool_decide_eq_true Hr%negb_true_iff].
    split; [done|]. by apply count_matches_two. }
  set (content := if replace_all then _ else _).
  destruct (N.ltb_spec MAX_TEXT_BYTES (lenN content)) as [|Hlc]; [by split; [|do 2 right]|].
  destruct (replace_changes original old_text new_text Hold Hne Ho) as [Hc1 Hc2].
  split_and!; [done|done| | |lia|].
  - subst content. destruct replace_all; [by apply replace_valid|by apply replacen_1_valid].
  - subst content. by destruct replace_all.
  - destruct replace_all.
    + exists (count_matches original old_text). split; [lia|by apply replace_replaced].
    + rewrite andb_true_r in Ha. apply bool_decide_eq_false in Ha. split.
      { unfold disjoint_occurrences. rewrite <- count_matches_two by done. lia. }
      destruct (match_leftmost original old_text Hold Ho) as (pre & post & Heq & Hl & _ & Hr).
      exists pre, post. split_and!; [done..|]. apply Hr.
Qed.

(** ** Pages of a file *)

Lemma boundary_loop_spec fuel s i :
  i ≤ length s → length s - i ≤ fuel →
  let j := boundary_loop fuel s i in
  i ≤ j ∧ j ≤ length s ∧ is_char_boundary s j = true ∧
  (∀ k, i ≤ k → k < j → is_char_boundary s k = false).
Proof.
  revert i. induction fuel as [|fuel IH]; intros i Hi Hf; cbn.
  - assert (i = length s) as -> by lia. split_and!; [lia|lia|apply is_char_boundary_end|lia].
  - case_decide as Hlt.
    + destruct (is_char_boundary s i) eqn:Hb.
      * split_and!; [lia|lia|done|lia].
      * destruct (IH (S i)) as (H1 & H2 & H3 & H4); [lia..|]. split_and!; [lia|lia|done|].
        intros k Hk1 Hk2. destruct (decide (k = i)) as [->|]; [done|]. apply H4; lia.
    + assert (i = length s) as -> by lia. split_and!; [lia|lia|apply is_char_boundary_end|lia].
Qed.

(** The end of the page that starts at [start]: the first character boundary
    at or after [start + limit]. *)
Definition page_end (s : bytes) (start limit e : nat) : Prop :=
  Nat.min (start + limit) (length s) ≤ e ∧ e ≤ length s ∧ is_char_boundary s e = true ∧
  ∀ k, start + limit ≤ k → k < e → is_char_boundary s k = false.

Lemma page_end_near s start limit e :
  utf8_valid s = true → page_end s start limit e → e ≤ start + limit + 3.
Proof.
  intros Hv (_ & He & _ & Hno).
  destruct (decide (start + limit ≤ length s)) as [Hl|]; [|lia].
  destruct (boundary_near s (start + limit) Hv Hl) as (j & Hj1 & Hj2 & Hj3 & Hb).
  destruct (decide (j < e)) as [Hlt|]; [|lia]. rewrite (Hno j) in Hb by lia. done.
Qed.

(** What [read_page] computes as the end of the page. *)
Lemma read_page_end bs offset limit :
  (lenN bs <= u64_max)%N → (offset <= lenN bs)%N →
  let end_ := match checked_add offset limit with
              | Some e => Nat.min (N.to_nat e) (length bs)
              | None => length bs
              end in
  page_end bs (N.to_nat offset) (N.to_nat limit)
    (if decide (length bs ≤ end_) then length bs
     else nearest_char_boundary_at_or_after bs end_).
Proof.
  intros Hlen Hoff end_. unfold lenN in *.
  assert (end_ = Nat.min (N.to_nat offset + N.to_nat limit) (length bs)) as Hend.
  { subst end_. unfold checked_add. destruct (N.leb_spec (offset + limit) u64_max); lia. }
  rewrite Hend. case_decide as Hd.
  - split_and!; [lia|lia|apply is_char_boundary_end|]. intros k Hk1 Hk2. lia.
  - unfold nearest_char_boundary_at_or_after.
    destruct (boundary_loop_spec (length bs - Nat.min (Nat.min (N.to_nat offset + N.to_nat limit)
      (length bs)) (length bs)) bs (Nat.min (Nat.min (N.to_nat offset + N.to_nat limit)
      (length bs)) (length bs))) as (H1 & H2 & H3 & H4); [lia..|].
    split_and!; [lia|lia|done|]. intros k Hk1 Hk2. apply H4; lia.
Qed.

(** A page of a valid text between two boundaries is a valid text. *)
Lemma page_valid s i j :
  utf8_valid s = true → is_char_boundary s i = true → is_char_boundary s j = true → i ≤ j →
  utf8_valid (take (j - i) (drop i s)) = true.
Proof.
  intros Hv Hi Hj Hle. rewrite <- skipn_firstn_comm.
  destruct (boundary_split s j Hv Hj) as [Ht _].
  destruct (decide (i = j)) as [->|Hne]; [by rewrite skipn_firstn_comm, Nat.sub_diag|].
  destruct (decide (length s < j)) as [Hlt|Hge].
  { unfold is_char_boundary in Hj. destruct j; [lia|]. rewrite lookup_ge_None_2 in Hj by lia.
    apply bool_decide_eq_true in Hj. lia. }
  apply boundary_split; [done|]. unfold is_char_boundary in *. destruct i; [done|].
  rewrite lookup_take_lt by lia. destruct (s !! S i) eqn:Hl; [done|].
  apply lookup_ge_None in Hl. lia.
Qed.

(** One page, by its end. *)
Lemma read_page_pages `{Sha256} bs offset limit :
  (lenN bs <= u64_max)%N →
  let start := default 0%N offset in
  let lim := default READ_DEFAULT_LIMIT limit in
  match read_page bs offset limit with
  | Ok r =>
      utf8_valid bs = true ∧ (1 <= lim <= READ_MAX_LIMIT)%N ∧ (start <= lenN bs)%N ∧
      ∃ e, page_end bs (N.to_nat start) (N.to_nat lim) e ∧
        e ≤ N.to_nat start + N.to_nat lim + 3 ∧
        as_bytes (ReadResult.content r) = take (e - N.to_nat start) (drop (N.to_nat start) bs) ∧
        utf8_valid (as_bytes (ReadResult.content r)) = true ∧
        ReadResult.hash r = Some (hash_bytes bs) ∧
        ReadResult.truncated r = bool_decide (e < length bs) ∧
        ReadResult.next_offset r = (if decide (e < length bs) then Some (N.of_nat e) else None) ∧
        ((start < lenN bs)%N → N.to_nat start < e)
  | Err e =>
      ProtocolError.code e = InvalidRequest ∧
      (utf8_valid bs = false ∨ lim = 0%N ∨ (READ_MAX_LIMIT < lim)%N ∨
       (lenN bs < start)%N ∨ is_char_boundary bs (N.to_nat start) = false)
  end.
Proof.
  intros Hlen start lim. unfold read_page, from_utf8. fold start lim.
  destruct (utf8_valid bs) eqn:Hv; [|by split; [|left]].
  case_bool_decide as Hz; [by split; [|right; left]|]. cbn [orb].
  destruct (N.ltb_spec READ_MAX_LIMIT lim) as [|Hm]; [by split; [|do 2 right; left]|].
  destruct (N.ltb_spec (lenN bs) start) as [|Hs]; [by split; [|do 3 right; left]|].
  destruct (is_char_boundary bs (N.to_nat start)) eqn:Hb; cbn [negb];
    [|by split; [|do 4 right]].
  pose proof (read_page_end bs start lim Hlen Hs) as He. cbv zeta in He.
  set (e := if decide _ then _ else _) in *.
  cbn [ReadResult.content ReadResult.hash ReadResult.truncated ReadResult.next_offset].
  rewrite as_bytes_of_bytes.
  split_and!; [done|lia|done|done|]. exists e.
  pose proof (page_end_near _ _ _ _ Hv He) as Hn. pose proof He as (H1 & H2 & H3 & H4).
  unfold lenN in *.
  split_and!; [done|done|done| |done|done|by case_bool_decide; case_decide|lia].
  apply page_valid; [done|done|done|lia].
Qed.

(** C38: a page of a file.  It starts at the offset asked for and ends at the
    first character boundary at or after [offset + limit] (so at most three
    bytes past it); its content is valid UTF-8 and comes with the hash of the
    whole file; it says whether more follows and where the next page starts,
    and unless the offset was the end of the file it makes progress.  The
    refusals: a file that is not UTF-8, a limit of 0 or above 64 KiB, an
    offset past the end or inside a character. *)
Theorem read_page_spec `{Sha256} bs offset limit :
  (lenN bs <= u64_max)%N →
  let start := default 0%N offset in
  let lim := default READ_DEFAULT_LIMIT limit in
  match read_page bs offset limit with
  | Ok r =>
      utf8_valid bs = true ∧ (1 <= lim <= READ_MAX_LIMIT)%N ∧ (start <= lenN bs)%N ∧
      ∃ e, page_end bs (N.to_nat start) (N.to_nat lim) e ∧
        e ≤ N.to_nat start + N.to_nat lim + 3 ∧
        as_bytes (ReadResult.content r) = take (e - N.to_nat start) (drop (N.to_nat start) bs) ∧
        utf8_valid (as_bytes (ReadResult.content r)) = true ∧
        ReadResult.hash r = Some (hash_bytes bs) ∧
        ReadResult.truncated r = bool_decide (e < length bs) ∧
        ReadResult.next_offset r = (if decide (e < length bs) then Some (N.of_nat e) else None) ∧
        ((start < lenN bs)%N → N.to_nat start < e)
  | Err e =>
      ProtocolError.code e = InvalidRequest ∧
      (utf8_valid bs = false ∨ lim = 0%N ∨ (READ_MAX_LIMIT < lim)%N ∨
       (lenN bs < start)%N ∨ is_char_boundary bs (N.to_nat start) = false)
  end.
Proof. apply read_page_pages. Qed.

(** A client following [next_offset] from page to page: the pages' text. *)
Fixpoint read_all `{Sha256} (fuel : nat) (bs : bytes) (offset limit : N) : option bytes :=
  match fuel with
  | O => None
  | S fuel' =>
      match read_page bs (Some offset) (Some limit) with
      | Err _ => None
      | Ok r =>
          match ReadResult.next_offset r with
          | Some next => app (as_bytes (ReadResult.content r)) <$> read_all fuel' bs next limit
          | None => Some (as_bytes (ReadResult.content r))
          end
      end
  end.

Lemma read_all_from `{Sha256} fuel bs offset limit :
  (lenN bs <= u64_max)%N → utf8_valid bs = true → (1 <= limit <= READ_MAX_LIMIT)%N →
  (offset <= lenN bs)%N → is_char_boundary bs (N.to_nat offset) = true →
  length bs - N.to_nat offset < fuel →
  read_all fuel bs offset limit = Some (drop (N.to_nat offset) bs).
Proof.
  intros Hlen Hv Hlim. revert offset. induction fuel as [|fuel IH]; intros offset Ho Hb Hf; [lia|].
  cbn [read_all]. pose proof (read_page_pages bs (Some offset) (Some limit) Hlen) as Hr.
  cbv zeta in Hr. cbn [default] in Hr. unfold default, id in Hr. unfold lenN in *.
  destruct (read_page bs (Some offset) (Some limit)) as [r|e].
  2: { destruct Hr as (_ & [?|[?|[?|[?|?]]]]); [congruence|lia|lia|lia|congruence]. }
  destruct Hr as (_ & _ & _ & e & He & _ & Hc & _ & _ & _ & Hn & Hp).
  destruct He as (H1 & H2 & H3 & H4). rewrite Hc, Hn. case_decide as Hlt.
  - rewrite IH; rewrite ?Nat2N.id; [|lia|done|lia].
    cbn. f_equal. replace (drop e bs) with (drop (e - N.to_nat offset) (drop (N.to_nat offset) bs)).
    + by rewrite take_drop.
    + rewrite drop_drop. f_equal. lia.
  - f_equal. apply take_ge. rewrite length_drop. lia.
Qed.

(** C39: paging is lossless and ends.  Whatever limit it uses, a client that
    starts at offset 0 and follows [next_offset] reads the whole file back,
    in at most one page per byte and one more. *)
Theorem read_all_whole `{Sha256} bs limit :
  (lenN bs <= u64_max)%N → utf8_valid bs = true → (1 <= limit <= READ_MAX_LIMIT)%N →
  read_all (S (length bs)) bs 0 limit = Some bs.
Proof. intros. apply read_all_from; [done..|lia|done|simpl; lia]. Qed.

(** ** Pages of a directory *)

Fixpoint list_all (fuel : nat) (entries : list ListEntry) (offset limit : N)
    : option (list ListEntry) :=
  match fuel with
  | O => None
  | S fuel' =>
      let r := list_page entries offset limit in
      match ListResult.next_offset r with
      | Some next => app (ListResult.entries r) <$> list_all fuel' entries next limit
      | None => Some (ListResult.entries r)
      end
  end.

Definition sorted_entries (entries : list ListEntry) : list ListEntry :=
  merge_sort (λ a b, String.le (ListEntry.name a) (ListEntry.name b)) entries.

Lemma list_all_from fuel entries offset limit :
  (lenN entries <= u64_max)%N → (1 <= limit)%N → (offset <= lenN entries)%N →
  length entries - N.to_nat offset < fuel →
  list_all fuel entries offset limit = Some (drop (N.to_nat offset) (sorted_entries entries)).
Proof.
  assert (length (sorted_entries entries) = length entries) as Hsort.
  { apply Permutation_length, merge_sort_Permutation. }
  unfold lenN. intros Hlen Hlim. revert offset.
  induction fuel as [|fuel IH]; intros offset Ho Hf; [lia|].
  cbn [list_all]. unfold list_page. fold (sorted_entries entries).
  cbn [ListResult.entries ListResult.next_offset]. unfold lenN, saturating_add. rewrite Hsort.
  set (e := N.min _ _). assert (e = N.min (offset + limit) (N.of_nat (length entries))) as He by lia.
  destruct (N.leb_spec (N.of_nat (length entries)) offset) as [Hge|Hlt].
  - destruct (N.ltb_spec e (N.of_nat (length entries))); [lia|].
    by rewrite drop_ge by lia.
  - destruct (N.ltb_spec e (N.of_nat (length entries))).
    + rewrite IH by lia. cbn. f_equal.
      replace (drop (N.to_nat e) (sorted_entries entries)) with
        (drop (N.to_nat (e - offset)) (drop (N.to_nat offset) (sorted_entries entries))).
      * by rewrite take_drop.
      * rewrite drop_drop. f_equal. lia.
    + f_equal. apply take_ge. rewrite length_drop. lia.
Qed.

(** A directory listing in pages.  Whatever the limit, following
    [next_offset] from 0 gives every entry exactly once, sorted by name; no
    page is longer than the limit. *)
Theorem list_all_whole entries limit :
  (lenN entries <= u64_max)%N → (1 <= limit)%N →
  (∃ es, list_all (S (length entries)) entries 0 limit = Some es ∧ es ≡ₚ entries ∧
     StronglySorted (λ a b, String.le (ListEntry.name a) (ListEntry.name b)) es) ∧
  ∀ offset, length (ListResult.entries (list_page entries offset limit)) ≤ N.to_nat limit.
Proof.
  intros Hlen Hlim. split.
  - exists (sorted_entries entries). split_and!.
    + rewrite list_all_from by (done || lia). by rewrite drop_0.
    + apply merge_sort_Permutation.
    + apply StronglySorted_merge_sort.
      * intros a b c. apply (transitivity (R := String.le)).
      * intros a b. apply (total String.le).
  - intros offset. unfold list_page. cbn [ListResult.entries].
    destruct (_ <=? _)%N; [simpl; lia|]. rewrite length_take. unfold saturating_add. lia.
Qed.
