(* ===== verification/FsOpsSpec.v ===== *)
(** * FsOpsSpec: what the mutations do, in any environment

    Specifications of create, edit and delete of [FsOps.v]: the logs and the
    trees they leave when they return, when they refuse, and when a call of
    theirs fails or the process dies.  They show the write-ahead discipline:
    at every point where a run can stop, the file is as it was or as it was
    to become, and the logs say enough to tell which. *)

From S2P Require Import Prelude Text Protocol World Fs Hash FsSpec Workspace Jsonl Store.
From S2P Require Import StoreSpec FsOps.

(** A real path to a file, split at its name. *)
Lemma real_file_split t abs data mode mtime :
  real t abs → t !! abs = Some (File data mode mtime) →
  ∃ p s, abs = p ++ [s] ∧ real t p ∧ is_dir_node (t !! p) = true.
Proof.
  intros Hr Hl. destruct Hr as [Hd|p s n Hr Hd Hn Hl' Hs]; [by rewrite Hl in Hd|].
  by exists p, s.
Qed.

Lemma removelast_snoc (p : path) s : removelast (p ++ [s]) = p.
Proof. apply removelast_last. Qed.

Lemma parent_dir_snoc (p : path) s : parent_dir (p ++ [s]) = mret p.
Proof.
  unfold parent_dir. destruct (p ++ [s]) eqn:Hps; [by destruct p|].
  by rewrite <- Hps, removelast_snoc.
Qed.

(** What [edit] decides before it changes anything, as a function of the tree:
    the file, its content and the new content, or the refusal. *)
Definition edit_plan `{Sha256} (t : tree) (ws : Workspace)
    (path base_hash old_text new_text : string) (replace_all : bool)
    : result ProtocolError (World.path * bytes * bytes) :=
  _ ← edit_args old_text new_text;
  abs ← resolve t ws path;
  match metadata t abs with
  | Err _ =>
      Err (ProtocolError.new NotFound
        ("not found: " +:+ path +:+ "; new files are created with create, not edit"))
  | Ok (File original _ _) =>
      if decide (hash_bytes original = base_hash) then
        content ← edit_text path original (as_bytes old_text) (as_bytes new_text) replace_all;
        Ok (abs, original, content)
      else Err (ProtocolError.with_hashes
             (ProtocolError.new StaleFile "file changed since base_hash")
             base_hash (hash_bytes original))
  | Ok _ =>
      Err (ProtocolError.with_hashes
        (ProtocolError.new StaleFile "file does not exist but base_hash was given")
        base_hash FILE_DELETED_SENTINEL)
  end.

Section specs.
Context `{Env} `{TempfileLaws} `{Sha256Laws}
        `{JsonCodecLaws AnyOperationRecord} `{JsonCodecLaws RequestLogLine}.

Lemma copy_mode_sets_mode t p tn s data mode0 mode mtime :
  real t p → is_dir_node (t !! p) = true → name_ok tn → t !! (p ++ [tn]) = None → s ≠ tn →
  real t (p ++ [s]) → t !! (p ++ [s]) = Some (File data mode mtime) →
  sets_mode t p tn (copy_mode (p ++ [tn]) (p ++ [s])) mode0 mode.
Proof.
  intros Hp Hd Hn Hfree Hs Hr Hl w data' mtime' Ψ Hw HR HF. unfold copy_mode.
  assert (metadata (w_fs w) (p ++ [s]) = Ok (File data mode mtime)) as Hm.
  { rewrite Hw. apply metadata_real.
    - apply real_insert_file; [done|by rewrite Hfree|]. by intros [_ ?]%app_inj_tail.
    - unfold with_temp_file. rewrite lookup_insert_ne; [done|]. by intros [_ ?]%app_inj_tail. }
  apply wp_bind, wp_attempt, fs_metadata_wp. rewrite Hm. split_and!.
  - intros n w1 [= <-] Hw1. apply wp_map_raise, fs_change_wp; cbv beta;
      rewrite (proj1 Hw1), Hw, ?temp_chmod by done.
    + intros t' w2 [= <-] Hw2. apply (HR _ mode); [fs_eq|done].
    + done.
    + intros text w2 Hf Hw2. apply HF; [done|fs_eq].
    + intros w2 Hf Hw2. apply HF; [done|fs_eq].
  - done.
  - intros text w1 Hf Hw1. apply wp_ret, (HR _ mode0); [fs_eq|done].
  - intros w1 Hf Hw1. apply HF; [done|fs_eq].
Qed.

(** [atomic_write_bytes] on an existing file: the new content under the old
    mode, or the old file (and perhaps a temporary one beside it). *)
Lemma atomic_write_bytes_wp abs content data mode mtime w Φ :
  real (w_fs w) abs → w_fs w !! abs = Some (File data mode mtime) →
  (∀ w' t' mode', installed (w_fs w) abs content mode' t' → (¬ fails → mode' = mode) →
     fs_step w w' t' → Φ (Returned (Some (hash_bytes data), hash_bytes content)) w') →
  (∀ o w' t', faulty o →
     beside (w_fs w) abs t' ∨
     (∃ m, installed (w_fs w) abs content m t' ∧ (¬ fails → m = mode)) →
     fs_step w w' t' → Φ o w') →
  wp (atomic_write_bytes abs content) w Φ.
Proof.
  intros Hr Hl HR HF. set (t := w_fs w) in *.
  destruct (real_file_split t abs _ _ _ Hr Hl) as (p & s & -> & Hp & Hd).
  assert (beside t (p ++ [s]) t) as Hb0 by by left.
  unfold atomic_write_bytes. rewrite parent_dir_snoc.
  apply wp_bind, wp_ret, wp_bind, wp_map_raise, create_dir_all_existing_wp; [done|done| |].
  2: { intros [[]|e|] w1 Ho Hw1; [done|..]; (eapply HF; [done|by left|exact Hw1]). }
  intros w1 Hw1. apply wp_bind, wp_map_raise, hash_file_wp; rewrite (proj1 Hw1);
    fold t; rewrite ?(hash_of_real t _ _ _ _ Hr Hl).
  2: done.
  2: { intros [a|e|] w2 Ho Hw2; [done|..]; (eapply HF; [done|by left|fs_eq]). }
  intros h w2 [= <-] Hw2.
  apply wp_bind, wp_map_raise, tempfile_in_wp; rewrite (proj1 Hw2); fold t; [done|done| |].
  2: { intros [a|e|] w3 Ho Hw3; [done|..]; (eapply HF; [done|by left|fs_eq]). }
  intros tn w3 mtime3 Htn _ Hfree Hw3.
  assert (s ≠ tn) as Hs by (intros ->; congruence).
  assert (name_ok s) as Hsok.
  { apply real_names, Forall_app in Hr as [_ Hr]. by inversion Hr. }
  assert (is_dir_node (t !! (p ++ [s])) = false) as Hnd by by rewrite Hl.
  apply wp_bind, (until_persisted_wp t p tn s Hp Hd Htn Hfree Hs Hnd _ _ _ mode _ _ 384 mtime3).
  - by eapply copy_mode_sets_mode.
  - by rewrite (proj1 Hw3).
  - intros w4 t' mode' Hi Hm Hw4.
    assert (is_ok (metadata (w_fs w4) (p ++ [s])) = true) as Hmeta.
    { rewrite (proj1 Hw4). destruct Hi as [mt ->]. erewrite metadata_real; [done| |].
      - by apply real_insert_file_self.
      - by rewrite lookup_insert_eq. }
    apply wp_bind, wp_map_raise, fsync_wp; [done| |].
    + intros w5 Hw5. apply wp_ret, (HR _ t' mode'); [done|done|fs_eq].
    + intros [[]|e|] w5 Ho Hw5; [done|..];
        (eapply (HF _ _ t'); [done|right; by eexists|fs_eq]).
  - intros [[]|e|] w4 t' Ho Hb Hw4; [done|..];
      (eapply (HF _ _ t'); [done|by left|fs_eq]).
Qed.

(** ** Preparing, changing, committing

    [wal] says how a mutation wrapped in the write-ahead protocol can end:
    cut in the append of the prepared record, with nothing changed; stopped
    during the change ([mid]), the prepared record being in the log; cut in
    the append of the committed record, the change being complete
    ([done]); or returned, with both records in the log, the table updated,
    and the before-content stored.  [raises] is whether the change can also
    fail on its own account. *)

Section wal.
Context (w : world) (rs : list AnyOperationRecord) (ls : list RequestLogLine).
Context (rid : string) (kind : OperationKind) (path : string).
Context (before : option string) (after : string) (blob : option bytes).
Context (raises : Prop) (mid done_ : tree → Prop) (body : string → ResultBody).

Definition prepared_rec (now : N) : AnyOperationRecord :=
  AnyOperationRecord.Prepared
    (PreparedRecord.Mk (next_op_id w) rid kind path before after now).
Definition committed_rec (now : N) : AnyOperationRecord :=
  AnyOperationRecord.Fs (commit_record (next_op_id w) rid kind path before after now).

Definition blob_kept (w' : world) : Prop :=
  match blob with
  | Some b => w_sd w' !! blob_path (next_op_id w) "before" = Some b
  | None => True
  end.

(** Other state files are left alone. *)
Definition others_kept (w' : world) : Prop :=
  ∀ n, n ≠ operations_path → n ≠ blob_path (next_op_id w) "before" →
    w_sd w' !! n = w_sd w !! n.

Definition wal (Φ : outcome ProtocolError ResultBody → world → Prop) : Prop :=
  (∀ o w' now, faulty o → w_fs w' = w_fs w → w_mem w' = bump_id (w_mem w) →
     torn_ops w' rs (prepared_rec now) ls → others_kept w' → Φ o w') ∧
  (∀ o w' now, stopped raises o → mid (w_fs w') → w_mem w' = bump_id (w_mem w) →
     logs w' (rs ++ [prepared_rec now]) ls → others_kept w' → Φ o w') ∧
  (∀ o w' now now', faulty o → done_ (w_fs w') → w_mem w' = bump_id (w_mem w) →
     torn_ops w' (rs ++ [prepared_rec now]) (committed_rec now') ls → others_kept w' →
     Φ o w') ∧
  (∀ w' now now', done_ (w_fs w') →
     w_mem w' = put_committed (committed_rec now') (bump_id (w_mem w)) →
     logs w' (rs ++ [prepared_rec now; committed_rec now']) ls → blob_kept w' →
     others_kept w' → Φ (Returned (body (next_op_id w))) w').

(** What the change itself must do, from the tree of [w]. *)
Definition changes {A} (m : M ProtocolError A) : Prop :=
  ∀ w1 (Ψ : outcome ProtocolError A → world → Prop),
    w_fs w1 = w_fs w → blob_kept w1 → others_kept w1 →
    (∀ a w2, done_ (w_fs w2) → w_sd w2 = w_sd w1 → w_mem w2 = w_mem w1 →
       Ψ (Returned a) w2) →
    (∀ o w2, stopped raises o → mid (w_fs w2) → w_sd w2 = w_sd w1 →
       w_mem w2 = w_mem w1 → Ψ o w2) →
    wp m w1 Ψ.

Lemma logs_same_sd w1 w2 rs' ls' :
  w_sd w2 = w_sd w1 → logs w1 rs' ls' → logs w2 rs' ls'.
Proof. unfold logs, content. by intros ->. Qed.

(** [k] is the rest of the handler, however its steps are nested. *)
Lemma wal_wp {A} (m : M ProtocolError A) (k : string → M ProtocolError ResultBody) Φ :
  logs w rs ls → changes m → wal Φ →
  (∀ op_id w' Ψ,
     wp (m ;; commit_fs_record op_id rid kind path before after ;; mret (body op_id)) w' Ψ →
     wp (k op_id) w' Ψ) →
  wp (prepare_fs_record rid kind path before after blob ≫= k) w Φ.
Proof.
  intros Hl Hm (Hprep & Hmid & Hcomm & Hdone) Hk.
  apply wp_bind, (prepare_fs_record_wp _ _ _ _ _ _ _ rs ls); [done|..].
  2: { intros o w1 Ho (Hf & Hmem & Hc & Hs) [now Ht].
       destruct o as [a|e|]; [done|by apply (Hprep _ _ now)..]. }
  intros w1 now (Hf & Hmem & Hc & Hs) Hl1 Hb. apply Hk.
  apply wp_bind, Hm; [done|done|done| |].
  2: { intros o w2 Ho Ht Hsd Hm2.
       assert (others_kept w2) by (intros n Hn1 Hn2; by rewrite Hsd, Hs).
       destruct o as [a|e|]; [done|..];
         (apply (Hmid _ _ now); [done|done|congruence|by eapply logs_same_sd|done]). }
  intros a w2 Ht Hsd Hm2.
  assert (others_kept w2) as Ho2 by (intros n Hn1 Hn2; by rewrite Hsd, Hs).
  apply wp_bind, (commit_fs_record_wp _ _ _ _ _ _ _ (rs ++ [prepared_rec now]) ls);
    [by eapply logs_same_sd|..].
  - intros w3 now' r (Hf3 & Hm3 & Hs3) Hl3. apply wp_ret, (Hdone _ now now').
    + by rewrite Hf3.
    + by rewrite Hm3, Hm2, Hmem.
    + by rewrite <- (assoc_L (++)) in Hl3.
    + unfold blob_kept in *. destruct blob; [|done].
      rewrite Hs3 by (apply blob_path_not_log; set_solver). by rewrite Hsd.
    + intros n Hn1 Hn2. by rewrite Hs3, Ho2.
  - intros o w3 now' Ho (Hf3 & Hm3 & Hs3) Ht3.
    assert (others_kept w3) by (intros n Hn1 Hn2; by rewrite Hs3, Ho2).
    destruct o as [r|e|]; [done|..];
      (apply (Hcomm _ _ now now'); [done|by rewrite Hf3|congruence|done|done]).
Qed.
End wal.

(** ** [edit] *)

Lemma hash_of_metadata t abs n :
  metadata t abs = Ok n →
  hash_of t abs = Ok (match n with File data _ _ => Some (hash_bytes data) | _ => None end).
Proof. unfold hash_of. intros ->. by destruct n. Qed.

Lemma check_base_hash_wp abs base n w Φ :
  metadata (w_fs w) abs = Ok n →
  (∀ original m mt w', n = File original m mt → hash_bytes original = base →
     fs_step w w' (w_fs w) → Φ (Returned (Some base)) w') →
  (∀ e w', fails ∨ Err e = (match n with
     | File original _ _ =>
         if decide (hash_bytes original = base) then Ok (Some base)
         else Err (ProtocolError.with_hashes
           (ProtocolError.new StaleFile "file changed since base_hash")
           base (hash_bytes original))
     | _ => Err (ProtocolError.with_hashes
              (ProtocolError.new StaleFile "file does not exist but base_hash was given")
              base FILE_DELETED_SENTINEL)
     end) → fs_step w w' (w_fs w) → Φ (Raised e) w') →
  (∀ w', dies → fs_step w w' (w_fs w) → Φ Killed w') →
  wp (check_base_hash abs (Some base)) w Φ.
Proof.
  intros Hm HR HE HK. unfold check_base_hash.
  apply wp_bind, wp_map_raise, hash_file_wp; rewrite ?(hash_of_metadata _ _ _ Hm).
  - intros h w' [= <-] Hw'. destruct n as [original m mt| |].
    + case_decide as Hb.
      * subst base. by eapply wp_ret, HR.
      * apply wp_raise, HE; [by right|done].
    + apply wp_raise, HE; [by right|done].
    + apply wp_raise, HE; [by right|done].
  - done.
  - intros [a|e|] w' Ho Hw'; [done|apply HE; [by left|done]|by apply HK].
Qed.

Definition mutation (old_hash : option string) (new_hash : string) (op_id : string)
    : ResultBody := ResultBody.Mutation (MutationResult.Mk op_id old_hash new_hash).

Lemma edit_wp ws rid path base old new all w rs ls Φ :
  tree_wf (w_fs w) → ws_canonical (w_fs w) ws → logs w rs ls →
  (∀ e w', fails ∨ edit_plan (w_fs w) ws path base old new all = Err e →
     fs_step w w' (w_fs w) → Φ (Raised e) w') →
  (∀ w', dies → fs_step w w' (w_fs w) → Φ Killed w') →
  (∀ abs original mode mtime content w1,
     edit_plan (w_fs w) ws path base old new all = Ok (abs, original, content) →
     real (w_fs w) abs → w_fs w !! abs = Some (File original mode mtime) →
     resolve (w_fs w) ws path = Ok abs →
     fs_step w w1 (w_fs w) →
     wal w1 rs ls rid OperationKind.Edit path (Some base) (hash_bytes content) (Some original)
       False
       (λ t', beside (w_fs w) abs t' ∨
          ∃ m, installed (w_fs w) abs content m t' ∧ (¬ fails → m = mode))
       (λ t', ∃ m, installed (w_fs w) abs content m t' ∧ (¬ fails → m = mode))
       (mutation (Some base) (hash_bytes content)) Φ) →
  wp (edit ws rid path base old new all) w Φ.
Proof.
  intros Hwf Hws Hl HE HK HW. unfold edit, edit_plan in *.
  apply wp_bind, wp_lift; [intros [] Ha|intros e Ha]; rewrite Ha in *;
    [|by apply HE; [by right|]].
  unfold ws_resolve. apply wp_bind, wp_bind, wp_get_fs, wp_lift; [intros abs Hr|intros e Hr];
    rewrite Hr in *; [|by apply HE; [by right|]].
  cbn [mbind result_bind] in HE, HW.
  apply wp_bind, fs_exists_wp; [|done]. intros there w1 Hw1 Hthere.
  destruct (metadata (w_fs w) abs) as [n|err] eqn:Hm.
  2: { assert (there = false) as ->.
       { unfold exists_ in Hthere. rewrite Hm in Hthere. naive_solver. }
       apply wp_raise, HE; [by right|done]. }
  destruct there; cbn [negb].
  2: { unfold exists_ in Hthere. rewrite Hm in Hthere. destruct Hthere as [?|[Hf _]]; [done|].
       apply wp_raise, HE; [by left|done]. }
  assert (metadata (w_fs w1) abs = Ok n) as Hm1 by by rewrite (proj1 Hw1).
  apply wp_bind, (check_base_hash_wp _ _ n); [done|..].
  2: { intros e w2 He Hw2. apply HE; [|fs_eq]. destruct He as [|He]; [by left|right].
       destruct n as [original m mt| |]; [|congruence|congruence].
       destruct (decide (hash_bytes original = base)); [done|congruence]. }
  2: { intros w2 Hd Hw2. apply HK; [done|fs_eq]. }
  intros original m mt w2 -> Hb Hw2. rewrite decide_True in HE, HW by done.
  assert (tree_read (w_fs w2) abs = Ok original) as Hread.
  { rewrite (proj1 Hw2). by eapply tree_read_metadata. }
  apply wp_bind, wp_map_raise, fs_read_wp. rewrite Hread. split_and!.
  - intros bs w3 [= <-] Hw3. apply wp_bind, wp_lift.
    2: { intros e He. apply HE; [right; by rewrite He|fs_eq]. }
    intros content Hc. rewrite Hc in HW.
    destruct (resolved_metadata _ _ _ _ _ Hwf Hws Hr Hm) as [Hreal Hlook].
    assert (fs_step w w3 (w_fs w)) as Hw by fs_eq.
    apply (wal_wp w3 rs ls _ _ _ _ _ _ False
      (λ t', beside (w_fs w) abs t' ∨
         ∃ m', installed (w_fs w) abs content m' t' ∧ (¬ fails → m' = m))
      (λ t', ∃ m', installed (w_fs w) abs content m' t' ∧ (¬ fails → m' = m))
      (mutation (Some base) (hash_bytes content)) (atomic_write_bytes abs content)).
    + by eapply logs_same_sd; [apply Hw|].
    + intros w4 Ψ Hw4 _ _ HR4 HF4.
      assert (w_fs w4 = w_fs w) as Hfs4 by (rewrite Hw4; apply Hw).
      apply (atomic_write_bytes_wp _ _ original m mt); rewrite ?Hfs4; [done|done|..].
      * intros w5 t' m' Hi Hmm Hw5. apply HR4; [|apply Hw5..].
        exists m'. rewrite (proj1 Hw5). done.
      * intros o w5 t' Ho Ht Hw5. apply HF4; [by apply faulty_stopped| |apply Hw5..].
        by rewrite (proj1 Hw5).
    + by apply (HW abs original m mt).
    + done.
  - done.
  - intros text w3 Hf Hw3. apply HE; [by left|fs_eq].
  - intros w3 Hd Hw3. apply HK; [done|fs_eq].
Qed.

(** ** [delete] *)

Lemma tree_remove_file t abs data mode mtime :
  real t abs → t !! abs = Some (File data mode mtime) → tree_remove t abs = Ok (delete abs t).
Proof. intros Hr Hl. unfold tree_remove. rewrite entry_loc_self by done. cbn. by rewrite Hl. Qed.

(** Removing a file and syncing its directory. *)
Lemma remove_file_wp (f1 f2 : io.Error → ProtocolError) p s data mode mtime w
    (Φ : outcome ProtocolError unit → world → Prop) :
  real (w_fs w) (p ++ [s]) → w_fs w !! (p ++ [s]) = Some (File data mode mtime) →
  (∀ w', fs_step w w' (delete (p ++ [s]) (w_fs w)) → Φ (Returned tt) w') →
  (∀ o w', faulty o → fs_step w w' (w_fs w) ∨ fs_step w w' (delete (p ++ [s]) (w_fs w)) →
     Φ o w') →
  wp (map_raise f1 (fs_remove_file (p ++ [s])) ;;
      match p ++ [s] with
      | [] => mret tt
      | _ :: _ => map_raise f2 (fsync_dir (removelast (p ++ [s])))
      end) w Φ.
Proof.
  intros Hr Hl HR HF. apply wp_bind, wp_map_raise, fs_change_wp; cbv beta;
    rewrite ?(tree_remove_file _ _ _ _ _ Hr Hl).
  - intros t' w1 [= <-] Hw1. destruct (p ++ [s]) as [|x l] eqn:Hps; [by destruct p|].
    rewrite <- Hps in *. clear x l Hps. rewrite removelast_snoc.
    apply wp_map_raise, fsync_wp.
    + rewrite (proj1 Hw1). destruct (real_parent_dir _ _ _ Hr) as [Hp Hd].
      destruct (real_lookup _ _ Hp) as (n & Hn & _).
      assert (p ≠ p ++ [s]) by apply snoc_ne.
      erewrite metadata_real; [done| |by rewrite lookup_delete_ne by done; exact Hn].
      apply real_delete_file; [done|by rewrite Hl|done].
    + intros w2 Hw2. apply HR. fs_eq.
    + intros [[]|e|] w2 Ho Hw2; [done|..]; (apply HF; [done|right; fs_eq]).
  - done.
  - intros text w1 Hf Hw1. apply HF; [done|by left].
  - intros w1 Hf Hw1. apply HF; [done|by left].
Qed.

(** [delete] of a file that is there. *)
Lemma delete_wp ws rid path w rs ls abs data mode mtime Φ :
  tree_wf (w_fs w) → ws_canonical (w_fs w) ws → logs w rs ls →
  resolve (w_fs w) ws path = Ok abs → metadata (w_fs w) abs = Ok (File data mode mtime) →
  (∀ e w', fails → fs_step w w' (w_fs w) → Φ (Raised e) w') →
  (∀ w', dies → fs_step w w' (w_fs w) → Φ Killed w') →
  (∀ w1 blob, fs_step w w1 (w_fs w) → (¬ fails → blob = Some data) →
     wal w1 rs ls rid OperationKind.Delete path (Some (hash_bytes data)) FILE_DELETED_SENTINEL
       blob False
       (λ t', t' = w_fs w ∨ t' = delete abs (w_fs w)) (λ t', t' = delete abs (w_fs w))
       (mutation (Some (hash_bytes data)) FILE_DELETED_SENTINEL) Φ) →
  wp (delete_ ws rid path) w Φ.
Proof.
  intros Hwf Hws Hl Hr Hm HE HK HW.
  destruct (resolved_metadata _ _ _ _ _ Hwf Hws Hr Hm) as [Hreal Hlook].
  destruct (real_file_split _ _ _ _ _ Hreal Hlook) as (p & s & Habs & _ & _).
  unfold delete_, ws_resolve. apply wp_bind, wp_bind, wp_get_fs, wp_lift; rewrite Hr; [|done].
  intros ? [= <-]. apply wp_bind, fs_is_dir_wp.
  2: { intros w1 Hd Hw1. by apply HK. }
  intros b w1 Hw1 Hb.
  assert (b = false) as ->.
  { destruct Hb as [->|[_ ->]]; [|done]. unfold is_dir. by rewrite Hm. }
  assert (tree_read (w_fs w1) abs = Ok data) as Hread.
  { rewrite (proj1 Hw1). by eapply tree_read_metadata. }
  apply wp_bind, wp_attempt.
  apply (wp_mono _ _ (λ o w2, match o with
    | Killed => dies ∧ fs_step w w2 (w_fs w)
    | Returned d => d = data ∧ fs_step w w2 (w_fs w)
    | Raised _ => fails ∧ fs_step w w2 (w_fs w) end)).
  2: { apply fs_read_wp. rewrite Hread. split_and!.
       - intros d w2 [= <-] Hw2. split; [done|fs_eq].
       - done.
       - intros text w2 Hf Hw2. split; [done|fs_eq].
       - intros w2 Hd Hw2. split; [done|fs_eq]. }
  assert (∀ (blob : result io.Error bytes) w2, fs_step w w2 (w_fs w) → (¬ fails → ok blob = Some data) →
    wp (before_hash ← map_raise ProtocolError.from_io (hash_file abs);
        match before_hash with
        | Some _ =>
            op_id ← prepare_fs_record rid OperationKind.Delete path before_hash
                      FILE_DELETED_SENTINEL (ok blob);
            map_raise (io_context "remove failed") (fs_remove_file abs) ;;
            match abs with
            | [] => mret tt
            | _ :: _ => map_raise (io_context "fsync after delete") (fsync_dir (removelast abs))
            end ;;
            commit_fs_record op_id rid OperationKind.Delete path before_hash
              FILE_DELETED_SENTINEL ;;
            mret (ResultBody.Mutation
              (MutationResult.Mk op_id before_hash FILE_DELETED_SENTINEL))
        | None => raise (ProtocolError.new NotFound ("not found: " +:+ path))
        end) w2 Φ) as Hrest.
  { intros blob w2 Hw2 Hblob.
    assert (hash_of (w_fs w2) abs = Ok (Some (hash_bytes data))) as Hh.
    { rewrite (proj1 Hw2). by rewrite (hash_of_metadata _ _ _ Hm). }
    apply wp_bind, wp_map_raise, hash_file_wp; rewrite ?Hh; [|done|].
    2: { intros [a|e|] w3 Ho Hw3; [done|apply HE; [done|fs_eq]|apply HK; [done|fs_eq]]. }
    intros h w3 [= <-] Hw3. assert (fs_step w w3 (w_fs w)) as Hw by fs_eq.
    eapply (wal_wp w3 rs ls _ _ _ _ _ _ False
      (λ t', t' = w_fs w ∨ t' = delete abs (w_fs w)) (λ t', t' = delete abs (w_fs w))
      (mutation (Some (hash_bytes data)) FILE_DELETED_SENTINEL)
      (map_raise (io_context "remove failed") (fs_remove_file abs) ;;
       match abs with
       | [] => mret tt
       | _ :: _ => map_raise (io_context "fsync after delete") (fsync_dir (removelast abs))
       end)).
    - by eapply logs_same_sd; [apply Hw|].
    - intros w4 Ψ Hw4 _ _ HR4 HF4.
      assert (w_fs w4 = w_fs w) as Hfs4 by (rewrite Hw4; apply Hw).
      subst abs. apply (remove_file_wp (io_context "remove failed")
        (io_context "fsync after delete") p s data mode mtime); rewrite ?Hfs4; [done|done|..].
      + intros w5 Hw5. apply HR4; apply Hw5.
      + intros o w5 Ho Hw5. apply HF4; [by apply faulty_stopped|..];
          destruct Hw5 as [Hw5|Hw5]; try apply Hw5; [left; apply Hw5|right; apply Hw5].
    - by apply HW.
    - intros op_id w' Ψ Hk. by apply wp_bind_assoc. }
  intros [d|e|] w2 Ho.
  - destruct Ho as [-> Hw2]. by apply Hrest.
  - destruct Ho as [Hf Hw2]. by apply Hrest.
  - destruct Ho. by apply HK.
Qed.

(** ** [create] *)

(** [t'] is [t] with the new file [p]/[s]; the temporary file it was linked
    from may have been left behind. *)
Definition created (t : tree) (p : World.path) (s : string) (content : bytes) (clean : Prop)
    (t' : tree) : Prop :=
  ∃ mtime, t' = <[p ++ [s] := File content 420 mtime]> t ∨
    (¬ clean ∧ ∃ tn data mode, s ≠ tn ∧ name_ok tn ∧ t !! (p ++ [tn]) = None ∧
       t' = with_temp_file (<[p ++ [s] := File content 420 mtime]> t) p tn data mode mtime).

Section create_file.
Context (t : tree) (p : World.path) (s : string) (content : bytes).
Context (Hp : real t p) (Hd : is_dir_node (t !! p) = true) (Hs : name_ok s).
Context (Hfree : t !! (p ++ [s]) = None).

Abbreviation file mtime := (File content 420 mtime).

Lemma created_real mtime : real (<[p ++ [s] := file mtime]> t) (p ++ [s]).
Proof. apply real_insert_file_self; [done..|]. by rewrite Hfree. Qed.

Lemma created_dir mtime :
  real (<[p ++ [s] := file mtime]> t) p ∧
  is_dir_node (<[p ++ [s] := file mtime]> t !! p) = true.
Proof.
  split; [apply real_insert_file; [done|by rewrite Hfree|apply snoc_ne]|].
  by rewrite lookup_insert_ne by (apply not_eq_sym, snoc_ne).
Qed.

(** The linked file, seen past the temporary one. *)
Lemma linked_swap tn mtime :
  s ≠ tn → <[p ++ [s] := file mtime]> (with_temp_file t p tn content 420 mtime)
    = with_temp_file (<[p ++ [s] := file mtime]> t) p tn content 420 mtime.
Proof. intros Hn. apply insert_insert_ne. intros [_ ?]%app_inj_tail. done. Qed.

(** The body run with the temporary file in hand. *)
Lemma create_body_wp tn client_path w mode0 mtime0 Φ :
  name_ok tn → t !! (p ++ [tn]) = None → s ≠ tn →
  w_fs w = with_temp_file t p tn [] mode0 mtime0 →
  (∀ w' mtime, fs_step w w'
     (with_temp_file (<[p ++ [s] := file mtime]> t) p tn content 420 mtime) →
     Φ (Returned tt) w') →
  (∀ o w' data mode mtime, faulty o →
     fs_step w w' (with_temp_file t p tn data mode mtime) ∨
     fs_step w w' (with_temp_file (<[p ++ [s] := file mtime]> t) p tn content 420 mtime) →
     Φ o w') →
  wp (map_raise (io_context "temp write failed") (fs_write (p ++ [tn]) content) ;;
      map_raise (io_context "chmod temp failed") (fs_set_permissions (p ++ [tn]) 420) ;;
      map_raise (λ e, if decide (io.kind e = ErrorKind.AlreadyExists)
                      then already_exists client_path
                      else io_context "link into place failed" e)
        (fs_hard_link (p ++ [tn]) (p ++ [s])) ;;
      map_raise (io_context "fsync after create failed") (fsync_file_or_dir (p ++ [s])))
    w Φ.
Proof.
  intros Hn Hfree' Hne Hw HR HF. unfold fs_write.
  apply wp_bind, wp_map_raise, wp_sys_write; cbn [w_fs emit set_fs tick].
  2,3: intros k; intros; eapply (HF _ _ (take k content)); [done|left];
       split_and!; [cbn; rewrite Hw; by apply temp_write|done|done].
  set (mtime := env_clock _). set (w1 := emit _ _).
  assert (fs_step w w1 (with_temp_file t p tn content mode0 mtime)) as Hw1.
  { split_and!; [cbn; rewrite Hw; by apply temp_write|done|done]. }
  clearbody w1. apply wp_bind, wp_map_raise, fs_change_wp; cbv beta;
    rewrite (proj1 Hw1), ?temp_chmod by done.
  2: done.
  2,3: intros; eapply (HF _ _ content mode0 mtime); [done|left; fs_eq].
  intros t2 w2 [= <-] Hw2.
  apply wp_bind, wp_map_raise, fs_change_wp; cbv beta;
    rewrite (proj1 Hw2), ?temp_link by done.
  2: done.
  2: { intros text w3 Hf Hw3. eapply (HF _ _ content 420%N mtime); [|left; fs_eq].
       by case_decide. }
  2: { intros; eapply (HF _ _ content 420%N mtime); [done|left; fs_eq]. }
  intros t3 w3 [= <-] Hw3. rewrite linked_swap in Hw3 by done.
  apply wp_map_raise, fsync_wp.
  - rewrite (proj1 Hw3). erewrite metadata_real; [done| |].
    + apply real_insert_file; [apply created_real| |].
      * rewrite lookup_insert_ne; [by rewrite Hfree'|]. by intros [_ ?]%app_inj_tail.
      * by intros [_ ?]%app_inj_tail.
    + unfold with_temp_file. rewrite lookup_insert_ne; [apply lookup_insert_eq|].
      by intros [_ ?]%app_inj_tail.
  - intros w4 Hw4. apply (HR _ mtime). fs_eq.
  - intros [[]|e|] w4 Ho Hw4; [done|..];
      (eapply (HF _ _ content 420%N mtime); [done|right; fs_eq]).
Qed.

Context (Hnt : strip_prefix s ".tmp" = None).

(** [atomic_create_bytes] in a directory that is there. *)
Lemma atomic_create_bytes_wp client_path w Φ :
  w_fs w = t →
  (∀ w' t', created t p s content (¬ fails) t' → fs_step w w' t' → Φ (Returned tt) w') →
  (∀ o w' t', faulty o → beside t (p ++ [s]) t' ∨ created t p s content False t' →
     fs_step w w' t' → Φ o w') →
  wp (atomic_create_bytes (p ++ [s]) content client_path) w Φ.
Proof.
  intros Hw HR HF. unfold atomic_create_bytes. rewrite parent_dir_snoc.
  apply wp_bind, wp_ret, wp_bind, wp_map_raise, create_dir_all_existing_wp;
    rewrite ?Hw; [done|done| |].
  2: { intros [[]|e|] w1 Ho Hw1; [done|..];
         (eapply HF; [done|by left; left|fs_eq]). }
  intros w1 Hw1. assert (fs_step w w1 t) as Hw1' by fs_eq. clear Hw1. rename Hw1' into Hw1.
  apply wp_bind, wp_map_raise, tempfile_in_wp; rewrite ?(proj1 Hw1); [done|done| |].
  2: { intros [a|e|] w2 Ho Hw2; [done|..]; (eapply HF; [done|by left; left|fs_eq]). }
  intros tn w2 mtime Hn (m & _ & Hm) Hfree' Hw2.
  assert (s ≠ tn) as Hne.
  { intros ->. by rewrite Hm, strip_prefix_append in Hnt. }
  assert (∀ mtime', is_dir_node ((<[p ++ [s] := File content 420 mtime']> t) !! (p ++ [tn]))
    = false ∧ <[p ++ [s] := File content 420 mtime']> t !! (p ++ [tn]) = None) as Hfree2.
  { intros mtime'. rewrite lookup_insert_ne; [by rewrite Hfree'|].
    by intros [_ ?]%app_inj_tail. }
  assert (∀ data mode mt, beside t (p ++ [s]) (with_temp_file t p tn data mode mt)) as Hb.
  { intros data mode mt. right. by exists p, s, tn, data, mode, mt. }
  unfold with_temp. apply wp_bind, wp_attempt.
  eapply create_body_wp; [done|done|done|exact (proj1 Hw2)|..].
  - intros w3 mt Hw3. destruct (created_dir mt) as [Hp' Hd'].
    apply wp_bind, (drop_temp_wp _ p tn Hp' Hd' Hn (proj2 (Hfree2 mt)) _ content 420 mt);
      [apply Hw3|..].
    + intros w4 Hw4. change (Φ (Returned tt) w4). apply (HR _ (<[p ++ [s] := File content 420 mt]> t)); [|fs_eq].
      exists mt. by left.
    + intros w4 Hf Hw4. change (Φ (Returned tt) w4). apply (HR _ (w_fs w3)); [|fs_eq].
      rewrite (proj1 Hw3). exists mt. right. split; [tauto|]. by exists tn, content, 420%N.
    + intros w4 Hf Hw4. apply (HF _ _ (w_fs w3)); [done| |fs_eq].
      rewrite (proj1 Hw3). right. exists mt. right. split; [tauto|]. by exists tn, content, 420%N.
  - intros o w3 data mode mt Ho Hw3.
    assert (∃ t', fs_step w w3 t' ∧
      (beside t (p ++ [s]) t' ∨ created t p s content False t')) as (t' & Hw03 & Ht').
    { exists (w_fs w3). split; [destruct Hw3; fs_eq|].
      destruct Hw3 as [Hw3|Hw3]; rewrite (proj1 Hw3); [left; apply Hb|right]. exists mt. right. split; [tauto|]. by exists tn, content, 420%N. }
    destruct o as [a|e|]; [done| |by apply (HF _ _ t')].
    destruct Hw3 as [Hw3|Hw3]; apply wp_bind.
    + apply (drop_temp_wp t p tn Hp Hd Hn Hfree' _ data mode mt); [apply Hw3|..].
      * intros w4 Hw4. change (Φ (Raised e) w4). apply (HF _ _ t); [done|left; by left|fs_eq].
      * intros w4 _ Hw4. change (Φ (Raised e) w4). apply (HF _ _ t'); [done|exact Ht'|fs_eq].
      * intros w4 Hd4 Hw4. apply (HF _ _ t'); [done|exact Ht'|fs_eq].
    + destruct (created_dir mt) as [Hp' Hd'].
      apply (drop_temp_wp _ p tn Hp' Hd' Hn (proj2 (Hfree2 mt)) _ content 420 mt);
        [apply Hw3|..].
      * intros w4 Hw4. change (Φ (Raised e) w4). eapply HF; [done|right; exists mt; by left|fs_eq].
      * intros w4 _ Hw4. change (Φ (Raised e) w4). apply (HF _ _ t'); [done|exact Ht'|fs_eq].
      * intros w4 Hd4 Hw4. apply (HF _ _ t'); [done|exact Ht'|fs_eq].
Qed.
End create_file.

Lemma create_wp ws rid path content w rs ls p s Φ :
  logs w rs ls → (str_len content <= MAX_TEXT_BYTES)%N →
  resolve (w_fs w) ws path = Ok (p ++ [s]) → real (w_fs w) p →
  is_dir_node (w_fs w !! p) = true → name_ok s → w_fs w !! (p ++ [s]) = None →
  strip_prefix s ".tmp" = None →
  (∀ e w', fails → fs_step w w' (w_fs w) → Φ (Raised e) w') →
  (∀ w', dies → fs_step w w' (w_fs w) → Φ Killed w') →
  (∀ w1, fs_step w w1 (w_fs w) →
     wal w1 rs ls rid OperationKind.Create path None (hash_bytes (as_bytes content)) None False
       (λ t', beside (w_fs w) (p ++ [s]) t' ∨ created (w_fs w) p s (as_bytes content) False t')
       (created (w_fs w) p s (as_bytes content) (¬ fails))
       (mutation None (hash_bytes (as_bytes content))) Φ) →
  wp (create ws rid path content) w Φ.
Proof.
  intros Hl Hlen Hr Hp Hd Hs Hfree Hnt HE HK HW. unfold create.
  destruct (N.ltb_spec MAX_TEXT_BYTES (str_len content)); [lia|].
  unfold ws_resolve. apply wp_bind, wp_bind, wp_get_fs, wp_lift; rewrite Hr; [|done].
  intros ? [= <-].
  assert (symlink_metadata (w_fs w) (p ++ [s]) = Err enoent) as Hm.
  { unfold symlink_metadata. rewrite entry_loc_real by done. cbn. by rewrite Hfree. }
  apply wp_bind, wp_attempt, fs_symlink_metadata_wp. rewrite Hm. split_and!.
  - done.
  - intros e w1 [= <-] Hw1. rewrite decide_True by done.
    eapply (wal_wp w1 rs ls _ _ _ _ _ _ False _ _
      (mutation None (hash_bytes (as_bytes content)))
      (atomic_create_bytes (p ++ [s]) (as_bytes content) path)).
    + by eapply logs_same_sd; [apply Hw1|].
    + intros w2 Ψ Hw2 _ _ HR2 HF2.
      apply (atomic_create_bytes_wp (w_fs w) p s (as_bytes content) Hp Hd Hs Hfree Hnt).
      * rewrite Hw2. apply Hw1.
      * intros w3 t' Ht' Hw3. apply HR2; [|apply Hw3..].
        rewrite (proj1 Hw3). exact Ht'.
      * intros o w3 t' Ho Ht' Hw3. apply HF2; [by apply faulty_stopped| |apply Hw3..].
        rewrite (proj1 Hw3). exact Ht'.
    + by apply HW.
    + done.
  - intros text w1 Hf Hw1. rewrite decide_False by done. by apply wp_raise, HE.
  - intros w1 Hd1 Hw1. by apply HK.
Qed.
End specs.
