(* ===== verification/Undo.v ===== *)
(** * Undo: taking an operation back

    Models [crates/agent-remote-server/src/undo.rs]. *)

From S2P Require Import Prelude Text Protocol World Fs Hash Workspace Jsonl Store FsOps.

Section undo.
Context `{Env} `{Tempfile} `{Sha256}
        `{JsonCodec AnyOperationRecord} `{JsonCodec RequestLogLine}.

Definition conflict (expected actual : string) : ProtocolError :=
  ProtocolError.with_hashes
    (ProtocolError.new UndoConflict
       "file changed since target operation; refusing to overwrite") expected actual.

Definition blob_missing : ProtocolError :=
  ProtocolError.new UndoConflict "before-content blob missing; cannot restore".

(** [store.load_before_blob(..).ok_or_else(..)?]. *)
Definition before_bytes (target : FsOperationRecord) : M ProtocolError bytes :=
  blob ← load_before_blob (FsOperationRecord.operation_id target);
  lift (ok_or blob blob_missing).

(** The [match (&target.before_hash, &current)]: the undo's own before
    hash, expected hash and before blob. *)
Definition undo_plan (abs : path) (target : FsOperationRecord) (current : option string)
    : M ProtocolError (option string * string * option bytes) :=
  match FsOperationRecord.before_hash target, current with
  | None, Some actual =>
      if decide (actual = FsOperationRecord.after_hash target) then
        before_blob ← attempt (fs_read abs);
        mret (Some actual, FILE_DELETED_SENTINEL, ok before_blob)
      else raise (conflict (FsOperationRecord.after_hash target) actual)
  | Some _, Some actual =>
      if decide (actual = FsOperationRecord.after_hash target) then
        before ← before_bytes target;
        let restored_hash := hash_bytes before in
        current_blob ← attempt (fs_read abs);
        mret (Some actual, restored_hash, ok current_blob)
      else raise (conflict (FsOperationRecord.after_hash target) actual)
  | Some _, None =>
      if decide (FsOperationRecord.after_hash target = FILE_DELETED_SENTINEL) then
        before ← before_bytes target;
        mret (None, hash_bytes before, None)
      else raise (ProtocolError.new UndoConflict
             ("file no longer exists: " +:+ FsOperationRecord.path target))
  | None, None => raise (ProtocolError.new UndoConflict
                    ("file no longer exists: " +:+ FsOperationRecord.path target))
  end.

(** The mutation: remove a created file, restore a changed one. *)
Definition undo_apply (abs : path) (target : FsOperationRecord) : M ProtocolError unit :=
  match FsOperationRecord.before_hash target with
  | None =>
      map_raise (io_context "remove failed") (fs_remove_file abs) ;;
      match abs with
      | [] => mret tt
      | _ => map_raise (io_context "fsync after remove") (fsync_dir (removelast abs))
      end
  | Some _ =>
      before ← before_bytes target;
      parent ← parent_dir abs;
      tmp ← map_raise (io_context "temp file create") (named_temp_file parent);
      until_persisted tmp (
        map_raise (io_context "temp write failed") (fs_write tmp before) ;;
        orig_meta ← attempt (fs_metadata abs);
        (match orig_meta with
         | Ok n => _ ← attempt (fs_set_permissions tmp (node_mode n)); mret tt
         | Err _ => mret tt
         end) ;;
        map_raise (io_context "atomic persist failed") (fs_rename tmp abs)) ;;
      map_raise (io_context "fsync after undo persist") (fsync_file_or_dir abs)
  end.

Definition undo (ws : Workspace) (request_id : string) (target : FsOperationRecord)
    : M ProtocolError ResultBody :=
  if decide (FsOperationRecord.kind target = OperationKind.Undo) then
    raise (ProtocolError.new InvalidRequest "cannot undo an undo operation")
  else
    abs ← ws_resolve ws (FsOperationRecord.path target);
    current ← map_raise (io_context "hash failed") (hash_file abs);
    '(undo_before_hash, undo_expected_after, undo_blob) ← undo_plan abs target current;
    undo_op_id ← prepare_fs_record request_id OperationKind.Undo
      (FsOperationRecord.path target) undo_before_hash undo_expected_after undo_blob;
    undo_apply abs target ;;
    commit_fs_record undo_op_id request_id OperationKind.Undo
      (FsOperationRecord.path target) undo_before_hash undo_expected_after ;;
    mret (ResultBody.Undo (UndoResult.Mk undo_op_id
      (FsOperationRecord.before_hash target) undo_expected_after)).
End undo.
