(* ===== verification/UndoSpec.v ===== *)
(** * UndoSpec: what undo does

    Specifications of [Undo.v] in any environment, for each kind of operation
    it takes back. *)

From S2P Require Import Prelude Text Protocol World Fs Hash FsSpec Workspace Jsonl Store.
From S2P Require Import StoreSpec FsOps FsOpsSpec Undo.

Section specs.
Context `{Env} `{TempfileLaws} `{Sha256Laws}
        `{JsonCodecLaws AnyOperationRecord} `{JsonCodecLaws RequestLogLine}.

Lemma until_persisted_ext {E A} tmp (m m' : M E A) w :
  (∀ w, m w = m' w) → until_persisted tmp m w = until_persisted tmp m' w.
Proof. intros Hm. unfold until_persisted, mbind, M_bind, attempt. by rewrite Hm. Qed.

(** The stored before-content, or the refusal when it cannot be read. *)
Lemma before_bytes_wp target b w Φ :
  w_sd w !! blob_path (FsOperationRecord.operation_id target) "before" = Some b →
  (∀ w', fs_step w w' (w_fs w) → Φ (Returned b) w') →
  (∀ o w', faulty o → fs_step w w' (w_fs w) → Φ o w') →
  wp (before_bytes target) w Φ.
Proof.
  intros Hb HR HF. unfold before_bytes, load_before_blob, sd_read.
  apply wp_bind, wp_bind, wp_attempt, wp_sys.
  - intros b' w' Ha. cbn in Ha. rewrite Hb in Ha. cbn in Ha. simplify_eq.
    apply wp_ret, wp_lift; [|done]. intros ? [= <-]. by apply HR.
  - intros e Ha. cbn in Ha. by rewrite Hb in Ha.
  - intros text Hf. apply wp_ret, wp_lift; [done|]. intros e _. by apply HF.
  - intros Hf. by apply HF.
Qed.

(** The mode of the file that is there, if one is; failures are ignored. *)
Definition try_copy_mode (tmp abs : path) : M ProtocolError unit :=
  orig_meta ← attempt (fs_metadata abs);
  match orig_meta with
  | Ok n => _ ← attempt (fs_set_permissions tmp (node_mode n)); mret tt
  | Err _ => mret tt
  end.

Lemma try_copy_mode_there t p tn s data mode0 mode mtime :
  real t p → is_dir_node (t !! p) = true → name_ok tn → t !! (p ++ [tn]) = None → s ≠ tn →
  real t (p ++ [s]) → t !! (p ++ [s]) = Some (File data mode mtime) →
  sets_mode t p tn (try_copy_mode (p ++ [tn]) (p ++ [s])) mode0 mode.
Proof.
  intros Hp Hd Hn Hfree Hs Hr Hl w data' mtime' Ψ Hw HR HF. unfold try_copy_mode.
  assert (metadata (w_fs w) (p ++ [s]) = Ok (File data mode mtime)) as Hm.
  { rewrite Hw. apply metadata_real.
    - apply real_insert_file; [done|by rewrite Hfree|]. by intros [_ ?]%app_inj_tail.
    - unfold with_temp_file. rewrite lookup_insert_ne; [done|]. by intros [_ ?]%app_inj_tail. }
  apply wp_bind, wp_attempt, fs_metadata_wp. rewrite Hm. split_and!.
  - intros n w1 [= <-] Hw1. apply wp_bind, wp_attempt, fs_change_wp; cbv beta;
      rewrite (proj1 Hw1), Hw, ?temp_chmod by done.
    + intros t' w2 [= <-] Hw2. apply wp_ret, (HR _ mode); [fs_eq|done].
    + done.
    + intros text w2 Hf Hw2. apply wp_ret, (HR _ mode0); [fs_eq|done].
    + intros w2 Hf Hw2. apply HF; [done|fs_eq].
  - done.
  - intros text w1 Hf Hw1. apply wp_ret, (HR _ mode0); [fs_eq|done].
  - intros w1 Hf Hw1. apply HF; [done|fs_eq].
Qed.

Lemma try_copy_mode_missing t p tn s mode0 :
  real t p → is_dir_node (t !! p) = true → name_ok tn → t !! (p ++ [tn]) = None → s ≠ tn →
  name_ok s → t !! (p ++ [s]) = None →
  sets_mode t p tn (try_copy_mode (p ++ [tn]) (p ++ [s])) mode0 mode0.
Proof.
  intros Hp Hd Hn Hfree Hs Hsok Hl w data' mtime' Ψ Hw HR HF. unfold try_copy_mode.
  assert (metadata (w_fs w) (p ++ [s]) = Err enoent) as Hm.
  { rewrite Hw. destruct (temp_dir t p tn Hp Hd Hfree data' mode0 mtime') as [Hp' Hd'].
    unfold metadata, canonicalize. rewrite (walk_real_app _ _ [] p [s]) by done. cbn [app].
    assert (with_temp_file t p tn data' mode0 mtime' !! (p ++ [s]) = None) as Hl'.
    { unfold with_temp_file. rewrite lookup_insert_ne; [done|]. by intros [_ ?]%app_inj_tail. }
    assert (walk (with_temp_file t p tn data' mode0 mtime') max_symlinks p [s] = Err enoent)
      as -> by by walk_known.
    done. }
  apply wp_bind, wp_attempt, fs_metadata_wp. rewrite Hm. split_and!.
  - done.
  - intros e w1 _ Hw1. apply wp_ret, (HR _ mode0); [fs_eq|done].
  - intros text w1 Hf Hw1. apply wp_ret, (HR _ mode0); [fs_eq|done].
  - intros w1 Hf Hw1. apply HF; [done|fs_eq].
Qed.

Lemma try_copy_mode_body tmp abs before w :
  until_persisted tmp (
    map_raise (io_context "temp write failed") (fs_write tmp before) ;;
    orig_meta ← attempt (fs_metadata abs);
    match orig_meta with
    | Ok n => _ ← attempt (fs_set_permissions tmp (node_mode n)); mret tt
    | Err _ => mret tt
    end ;;
    map_raise (io_context "atomic persist failed") (fs_rename tmp abs)) w =
  until_persisted tmp (
    map_raise (io_context "temp write failed") (fs_write tmp before) ;;
    try_copy_mode tmp abs ;;
    map_raise (io_context "atomic persist failed") (fs_rename tmp abs)) w.
Proof.
  apply until_persisted_ext. intros w1. apply bind_ext. intros a w2. symmetry.
  apply (bind_assoc (attempt (fs_metadata abs))).
Qed.

(** Writing [b] over [p]/[s], whether it is there (and has mode [mode]) or
    not ([mode] being the 0600 of temporary files). *)
Lemma restore_wp target b t p s mode w Φ :
  w_fs w = t →
  real t p → is_dir_node (t !! p) = true → name_ok s →
  (t !! (p ++ [s]) = None ∧ mode = 384%N ∧ strip_prefix s ".tmp" = None ∨
   (∃ data mtime, t !! (p ++ [s]) = Some (File data mode mtime))) →
  FsOperationRecord.before_hash target ≠ None →
  w_sd w !! blob_path (FsOperationRecord.operation_id target) "before" = Some b →
  (∀ w' t' mode', installed t (p ++ [s]) b mode' t' → (¬ fails → mode' = mode) →
     fs_step w w' t' → Φ (Returned tt) w') →
  (∀ o w' t', faulty o →
     beside t (p ++ [s]) t' ∨ (∃ m, installed t (p ++ [s]) b m t' ∧ (¬ fails → m = mode)) →
     fs_step w w' t' → Φ o w') →
  wp (undo_apply (p ++ [s]) target) w Φ.
Proof.
  intros Hw Hp Hd Hs Hthere Hbefore Hb HR HF. unfold undo_apply.
  destruct (FsOperationRecord.before_hash target); [|done].
  assert (beside t (p ++ [s]) t) as Hb0 by by left.
  assert (is_dir_node (t !! (p ++ [s])) = false) as Hnd.
  { by destruct Hthere as [(-> & _)|(? & ? & ->)]. }
  rewrite parent_dir_snoc.
  apply wp_bind, (before_bytes_wp _ b); [done|..].
  2: { intros [a|e|] w1 Ho Hw1; [done|..]; (apply (HF _ _ t); [done|by left|fs_eq]). }
  intros w1 Hw1. apply wp_bind, wp_ret, wp_bind, wp_map_raise, tempfile_in_wp;
    rewrite (proj1 Hw1), Hw; [done|done| |].
  2: { intros [a|e|] w2 Ho Hw2; [done|..]; (apply (HF _ _ t); [done|by left|fs_eq]). }
  intros tn w2 mtime Hn (m & _ & Hm) Hfree Hw2.
  assert (s ≠ tn) as Hne.
  { intros ->. destruct Hthere as [(_ & _ & Hnt)|(? & ? & Hl)]; [|congruence].
    by rewrite Hm, strip_prefix_append in Hnt. }
  assert (sets_mode t p tn (try_copy_mode (p ++ [tn]) (p ++ [s])) 384 mode) as Hmode.
  { destruct Hthere as [(Hl & -> & _)|(data & mt & Hl)].
    - by apply try_copy_mode_missing.
    - eapply try_copy_mode_there; try done. by econstructor. }
  apply wp_bind. unfold wp. rewrite try_copy_mode_body.
  apply (until_persisted_wp t p tn s Hp Hd Hn Hfree Hne Hnd _ _ _ mode _ _ 384 mtime).
  - exact Hmode.
  - exact (proj1 Hw2).
  - intros w3 t' mode' Hi Hmm Hw3.
    assert (is_ok (metadata (w_fs w3) (p ++ [s])) = true) as Hmeta.
    { rewrite (proj1 Hw3). destruct Hi as [mt ->]. erewrite metadata_real; [done| |].
      - by apply real_insert_file_self.
      - by rewrite lookup_insert_eq. }
    apply wp_map_raise, fsync_wp; [done| |].
    + intros w4 Hw4. apply (HR _ t' mode'); [done|done|fs_eq].
    + intros [[]|e|] w4 Ho Hw4; [done|..];
        (apply (HF _ _ t'); [done|right; by exists mode'|fs_eq]).
  - intros [[]|e|] w3 t' Ho Hbt Hw3; [done|..]; (apply (HF _ _ t'); [done|by left|fs_eq]).
Qed.

(** ** [undo], given what its plan and its change do *)

Definition undone (target : FsOperationRecord) (after : string) (op_id : string) : ResultBody :=
  ResultBody.Undo (UndoResult.Mk op_id (FsOperationRecord.before_hash target) after).

Section undo_steps.
Context (w : world) (abs : World.path) (target : FsOperationRecord).
Context (current before : option string) (after : string) (blob : option bytes).
Context (mid done_ : tree → Prop).

Abbreviation target_blob := (blob_path (FsOperationRecord.operation_id target) "before").

Definition plans : Prop :=
  ∀ w1 (Ψ : outcome ProtocolError (option string * string * option bytes) → world → Prop),
    fs_step w w1 (w_fs w) →
    (∀ w2 blob', fs_step w w2 (w_fs w) → (¬ fails → blob' = blob) →
       Ψ (Returned (before, after, blob')) w2) →
    (∀ o w2, faulty o → fs_step w w2 (w_fs w) → Ψ o w2) →
    wp (undo_plan abs target current) w1 Ψ.

Definition applies : Prop :=
  ∀ w1 (Ψ : outcome ProtocolError unit → world → Prop),
    w_fs w1 = w_fs w → w_sd w1 !! target_blob = w_sd w !! target_blob →
    (∀ w2 t', done_ t' → fs_step w1 w2 t' → Ψ (Returned tt) w2) →
    (∀ o w2 t', faulty o → mid t' → fs_step w1 w2 t' → Ψ o w2) →
    wp (undo_apply abs target) w1 Ψ.

Lemma undo_wp ws rid rs ls Φ :
  logs w rs ls → FsOperationRecord.kind target ≠ OperationKind.Undo →
  FsOperationRecord.operation_id target ≠ next_op_id w →
  resolve (w_fs w) ws (FsOperationRecord.path target) = Ok abs →
  hash_of (w_fs w) abs = Ok current →
  plans → applies →
  (∀ e w', fails → fs_step w w' (w_fs w) → Φ (Raised e) w') →
  (∀ w', dies → fs_step w w' (w_fs w) → Φ Killed w') →
  (∀ w1 blob', fs_step w w1 (w_fs w) → (¬ fails → blob' = blob) →
     wal w1 rs ls rid OperationKind.Undo (FsOperationRecord.path target) before after blob'
       False mid done_ (undone target after) Φ) →
  wp (undo ws rid target) w Φ.
Proof.
  intros Hl Hk Hid Hr Hh Hplan Happly HE HK HW.
  assert (∀ (o : outcome ProtocolError ResultBody) w', faulty o → fs_step w w' (w_fs w) → Φ o w')
    as HF by (intros [a|e|] w' Ho Hw'; [done|by apply HE|by apply HK]).
  unfold undo. rewrite decide_False by done. unfold ws_resolve.
  apply wp_bind, wp_bind, wp_get_fs, wp_lift; rewrite Hr; [|done]. intros ? [= <-].
  apply wp_bind, wp_map_raise, hash_file_wp; rewrite ?Hh; [|done|].
  2: { intros [a|e|] w1 Ho Hw1; [done|by apply HE|by apply HK]. }
  intros h w1 [= <-] Hw1. apply wp_bind, Hplan; [done|..].
  2: { intros [a|e|] w2 Ho Hw2; [done|by apply HE|by apply HK]. }
  intros w2 blob' Hw2 Hblob.
  eapply (wal_wp w2 rs ls _ _ _ _ _ _ False mid done_ (undone target after)
    (undo_apply abs target)).
  - by eapply logs_same_sd; [apply Hw2|].
  - intros w3 Ψ Hw3 _ Hkeep HR3 HF3.
    assert (next_op_id w2 = next_op_id w) as Hsame.
    { unfold next_op_id. destruct Hw2 as (_ & _ & ->). done. }
    apply Happly.
    + rewrite Hw3. apply Hw2.
    + rewrite Hkeep; [by destruct Hw2 as (_ & -> & _)|apply blob_path_not_log; set_solver|].
      rewrite Hsame. by intros ?%blob_path_inj.
    + intros w4 t' Ht Hw4. apply HR3; [|apply Hw4..]. by rewrite (proj1 Hw4).
    + intros o w4 t' Ho Ht Hw4. apply HF3; [by apply faulty_stopped| |apply Hw4..].
      by rewrite (proj1 Hw4).
  - by apply HW.
  - done.
Qed.
End undo_steps.

(** ** The three plans *)

Lemma fs_read_attempt_wp {E} abs data mode mtime w (Φ : outcome E (result io.Error bytes) → world → Prop) :
  metadata (w_fs w) abs = Ok (File data mode mtime) →
  (∀ r w', fs_step w w' (w_fs w) → (¬ fails → ok r = Some data) → Φ (Returned r) w') →
  (∀ w', dies → fs_step w w' (w_fs w) → Φ Killed w') →
  wp (attempt (fs_read abs)) w Φ.
Proof.
  intros Hm HR HK. apply wp_attempt, fs_read_wp.
  rewrite (tree_read_metadata _ _ _ _ _ Hm). split_and!.
  - intros d w' [= <-] Hw'. by apply HR.
  - done.
  - intros text w' Hf Hw'. apply HR; [done|]. by intros [].
  - intros w' Hf Hw'. by apply HK.
Qed.

(** A file that was created: it is removed. *)
Lemma undo_create_plan w abs target data mode mtime :
  metadata (w_fs w) abs = Ok (File data mode mtime) →
  FsOperationRecord.before_hash target = None →
  FsOperationRecord.after_hash target = hash_bytes data →
  plans w abs target (Some (hash_bytes data)) (Some (hash_bytes data)) FILE_DELETED_SENTINEL
    (Some data).
Proof.
  intros Hm Hb Ha w1 Ψ Hw1 HR HF. unfold undo_plan. rewrite Hb, Ha, decide_True by done.
  apply wp_bind, (fs_read_attempt_wp _ data mode mtime).
  - by rewrite (proj1 Hw1).
  - intros r w2 Hw2 Hr. apply wp_ret, HR; [fs_eq|done].
  - intros w2 Hd Hw2. apply HF; [done|fs_eq].
Qed.

(** A file that was edited: its before-content comes back. *)
Lemma undo_edit_plan w abs target data mode mtime b :
  metadata (w_fs w) abs = Ok (File data mode mtime) →
  FsOperationRecord.before_hash target ≠ None →
  FsOperationRecord.after_hash target = hash_bytes data →
  w_sd w !! blob_path (FsOperationRecord.operation_id target) "before" = Some b →
  plans w abs target (Some (hash_bytes data)) (Some (hash_bytes data)) (hash_bytes b) (Some data).
Proof.
  intros Hm Hb Ha Hblob w1 Ψ Hw1 HR HF. unfold undo_plan.
  destruct (FsOperationRecord.before_hash target); [|done]. rewrite Ha, decide_True by done.
  apply wp_bind, (before_bytes_wp _ b).
  { by destruct Hw1 as (_ & -> & _). }
  2: { intros [a|e|] w2 Ho Hw2; [done|..]; (apply HF; [done|fs_eq]). }
  intros w2 Hw2. apply wp_bind, (fs_read_attempt_wp _ data mode mtime).
  - by rewrite (proj1 Hw2), (proj1 Hw1).
  - intros r w3 Hw3 Hr. apply wp_ret, HR; [fs_eq|done].
  - intros w3 Hd Hw3. apply HF; [done|fs_eq].
Qed.

(** A file that was deleted, and is still missing: likewise. *)
Lemma undo_delete_plan w abs target b :
  FsOperationRecord.before_hash target ≠ None →
  FsOperationRecord.after_hash target = FILE_DELETED_SENTINEL →
  w_sd w !! blob_path (FsOperationRecord.operation_id target) "before" = Some b →
  plans w abs target None None (hash_bytes b) None.
Proof.
  intros Hb Ha Hblob w1 Ψ Hw1 HR HF. unfold undo_plan.
  destruct (FsOperationRecord.before_hash target); [|done]. rewrite Ha, decide_True by done.
  apply wp_bind, (before_bytes_wp _ b).
  { by destruct Hw1 as (_ & -> & _). }
  2: { intros [a|e|] w2 Ho Hw2; [done|..]; (apply HF; [done|fs_eq]). }
  intros w2 Hw2. apply wp_ret, HR; [fs_eq|done].
Qed.

(** ** The two changes *)

Lemma undo_remove_applies w p s target data mode mtime :
  real (w_fs w) (p ++ [s]) → w_fs w !! (p ++ [s]) = Some (File data mode mtime) →
  FsOperationRecord.before_hash target = None →
  applies w (p ++ [s]) target
    (λ t', t' = w_fs w ∨ t' = delete (p ++ [s]) (w_fs w))
    (λ t', t' = delete (p ++ [s]) (w_fs w)).
Proof.
  intros Hr Hl Hb w1 Ψ Hw1 _ HR HF. unfold undo_apply. rewrite Hb.
  apply (remove_file_wp (io_context "remove failed") (io_context "fsync after remove")
    p s data mode mtime); rewrite ?Hw1; [done|done|..].
  - intros w2 Hw2. by eapply HR.
  - intros o w2 Ho [Hw2|Hw2]; (eapply HF; [done| |exact Hw2]); auto.
Qed.

Lemma undo_restore_applies w p s target b mode :
  let t := w_fs w in
  real t p → is_dir_node (t !! p) = true → name_ok s →
  (t !! (p ++ [s]) = None ∧ mode = 384%N ∧ strip_prefix s ".tmp" = None ∨
   (∃ data mtime, t !! (p ++ [s]) = Some (File data mode mtime))) →
  FsOperationRecord.before_hash target ≠ None →
  w_sd w !! blob_path (FsOperationRecord.operation_id target) "before" = Some b →
  applies w (p ++ [s]) target
    (λ t', beside t (p ++ [s]) t' ∨ ∃ m, installed t (p ++ [s]) b m t' ∧ (¬ fails → m = mode))
    (λ t', ∃ m, installed t (p ++ [s]) b m t' ∧ (¬ fails → m = mode)).
Proof.
  intros t Hp Hd Hs Hthere Hbefore Hb w1 Ψ Hw1 Hsd HR HF.
  apply (restore_wp target b t p s mode); try done; [congruence|..].
  intros w2 t' m Hi Hm Hw2. eapply HR; [|exact Hw2]. by exists m.
Qed.
End specs.
