(* ===== verification/Prune.v ===== *)
(** * Prune: keeping the newest operations

    Models [OperationStore::prune] of
    [crates/agent-remote-server/src/store.rs]. *)

From S2P Require Import Prelude Text Protocol World Fs Hash Workspace Jsonl Store.

Section prune.
Context `{Env} `{HashIter} `{JsonCodec AnyOperationRecord} `{JsonCodec RequestLogLine}.

(** The ids of the requests a list of records refers to. *)
Definition retained_ids (rs : list AnyOperationRecord) : list string :=
  omap record_request_id rs.

(** [requests.retain]: in-flight entries and those a kept record names. *)
Definition retain_requests (rs : list AnyOperationRecord) (reqs : gmap string RequestEntry)
    : gmap string RequestEntry :=
  filter (λ '(id, e), RequestEntry.status e = RequestStatus.InProgress
                      ∨ id ∈ retained_ids rs) reqs.

(** [remove_file(blob)], for which a missing file is fine. *)
Definition remove_blob (id suffix : string) : M ProtocolError unit :=
  r ← attempt (sd_remove (blob_path id suffix));
  match r with
  | Ok _ => mret tt
  | Err e =>
      if decide (io.kind e = ErrorKind.NotFound) then mret tt
      else raise (io_context ("remove blob " +:+ debug_name (blob_path id suffix)) e)
  end.

Definition remove_blobs (r : AnyOperationRecord) : M ProtocolError unit :=
  for_each ["before"; "stdout"; "stderr"] (remove_blob (AnyOperationRecord.operation_id r)).

Definition request_lines (reqs : gmap string RequestEntry) : list RequestLogLine :=
  (λ '(id, e), line_of_entry id e) <$> hash_iter reqs.

Definition prune (keep : N) : M ProtocolError PruneStats :=
  m ← get_mem;
  let removed_operations := saturating_sub (lenN (records m)) keep in
  let dropped := take (N.to_nat removed_operations) (records m) in
  let kept := drop (N.to_nat removed_operations) (records m) in
  let reqs := retain_requests kept (requests m) in
  let removed_requests := (N.of_nat (size (requests m)) - N.of_nat (size reqs))%N in
  put_mem (λ m, set_requests reqs (set_records kept m)) ;;
  map_raise io_to_protocol (sd_write counter_path (as_bytes (pretty (next_id m)) ++ [nl])) ;;
  map_raise io_to_protocol (sd_sync counter_path) ;;
  rewrite_jsonl operations_path kept ;;
  rewrite_jsonl requests_path (request_lines reqs) ;;
  for_each dropped remove_blobs ;;
  map_raise io_to_protocol (sd_sync blobs_dir) ;;
  mret (PruneStats.Mk removed_operations removed_requests (lenN kept)).
End prune.
