(* ===== verification/Transfer.v ===== *)
(** * Transfer: uploads, downloads, staging files

    Models [crates/agent-remote-server/src/transfer.rs]: the prepare / commit
    / abort life of an upload, the sweep of abandoned staging files, and the
    two raw data-plane modes. *)

From S2P Require Import Prelude Text Protocol World Fs Hash Workspace Jsonl Store FsOps.

Definition TRANSFER_BUF_SIZE : N := 64 * 1024.
Definition STAGING_PREFIX : string := ".agent-remote-upload.".
Definition STAGING_SUFFIX : string := ".part".
(** In nanoseconds: 24 hours. *)
Definition STALE_STAGING_MAX_AGE : N := 24 * 60 * 60 * 1000000000.

(** ** Transfer ids *)

Definition transfer_id_of (ts n : N) : string :=
  "xfer-" +:+ to_hex 16 ts +:+ "-" +:+ to_hex 4 n.

(** ** Names of staging files *)

Definition string_starts_with (s pre : string) : bool :=
  match strip_prefix s pre with Some _ => true | None => false end.
Definition string_ends_with (s suf : string) : bool :=
  ends_with (list_ascii_of_string s) (list_ascii_of_string suf).

Definition is_staging_name (name : string) : bool :=
  string_starts_with name STAGING_PREFIX && string_ends_with name STAGING_SUFFIX.

Definition unknown_transfer (transfer_id : string) : ProtocolError :=
  ProtocolError.new OperationNotFound ("unknown transfer id: " +:+ transfer_id).

Section transfer.
Context `{Env} `{HashIter} `{Tempfile}
        `{JsonCodec AnyOperationRecord} `{JsonCodec RequestLogLine}.

(** [COUNTER.fetch_add(1)] and the clock. *)
Definition new_transfer_id {E} : M E string :=
  m ← get_mem;
  put_mem (set_transfer_counter (u64_add (transfer_counter m) 1)) ;;
  ts ← now_ns;
  mret (transfer_id_of (as_u64 ts) (transfer_counter m)).

(** [in_flight_staging]. *)
Definition in_flight_staging (reg : gmap string PendingUpload) : list path :=
  PendingUpload.staging ∘ snd <$> hash_iter reg.

(** ** Sweeping *)

(** One entry of a swept directory: 1 if it was removed. *)
Definition sweep_entry {E} (dir : path) (in_flight : list path) (max_age : N) (name : string)
    : M E nat :=
  if negb (is_staging_name name) then mret 0
  else
    let p := dir ++ [name] in
    if bool_decide (p ∈ in_flight) then mret 0
    else
      meta ← attempt (fs_symlink_metadata p);
      match meta with
      | Ok (File _ _ mtime) =>
          now ← now_ns;
          if (mtime <=? now)%N && (max_age <=? now - mtime)%N then
            r ← attempt (fs_remove_file p); mret (if is_ok r then 1 else 0)
          else mret 0
      | _ => mret 0
      end.

Definition sum_nat (l : list nat) : nat := foldr Nat.add 0 l.

(** [sweep_stale_staging_dir]. *)
Definition sweep_stale_staging_dir {E} (dir : path) (in_flight : list path) (max_age : N)
    : M E nat :=
  entries ← attempt (fs_read_dir dir);
  match entries with
  | Err _ => mret 0
  | Ok names => removed ← collect names (sweep_entry dir in_flight max_age);
                mret (sum_nat removed)
  end.

(** [sweep_stale_staging_tree]; every round goes one directory down. *)
Fixpoint sweep_tree {E} (fuel : nat) (dir : path) (in_flight : list path) (max_age : N)
    : M E nat :=
  match fuel with
  | O => mret 0
  | S fuel' =>
      removed ← sweep_stale_staging_dir dir in_flight max_age;
      entries ← attempt (fs_read_dir dir);
      match entries with
      | Err _ => mret removed
      | Ok names =>
          below ← collect names (λ name,
            ft ← attempt (fs_symlink_metadata (dir ++ [name]));
            match ft with
            | Ok (Dir _ _) => sweep_tree fuel' (dir ++ [name]) in_flight max_age
            | _ => mret 0
            end);
          mret (removed + sum_nat below)
      end
  end.

(** No directory is deeper than the tree has entries. *)
Definition sweep_stale_staging_tree {E} (root : path) (in_flight : list path) (max_age : N)
    : M E nat :=
  t ← get_fs; sweep_tree (S (size t)) root in_flight max_age.

(** ** Uploads *)

(** The checks of [upload_prepare] on the target and its directory. *)
Definition check_upload_target (abs parent : World.path) (path : string) (overwrite : bool)
    : M ProtocolError unit :=
  pm ← attempt (fs_metadata parent);
  (match pm with
   | Ok n =>
       if is_dir_node (Some n) then mret tt
       else raise (ProtocolError.new NotADirectory
              ("parent of " +:+ path +:+ " is not a directory"))
   | Err e =>
       if decide (io.kind e = ErrorKind.NotFound) then
         raise (ProtocolError.new NotFound
           ("parent directory of " +:+ path +:+ " does not exist; create it first"))
       else raise (ProtocolError.from_io e)
   end) ;;
  tm ← attempt (fs_symlink_metadata abs);
  match tm with
  | Ok n =>
      if is_dir_node (Some n) then
        raise (ProtocolError.new IsADirectory ("is a directory: " +:+ path))
      else if negb (is_file_node n) then
        raise (ProtocolError.new NotAFile
          ("target exists and is not a regular file: " +:+ path))
      else if negb overwrite then
        raise (ProtocolError.new InvalidRequest
          ("target already exists: " +:+ path +:+ "; pass overwrite=true to replace it"))
      else mret tt
  | Err e =>
      if decide (io.kind e = ErrorKind.NotFound) then mret tt
      else raise (ProtocolError.from_io e)
  end.

(** Its second half: sweep, create the staging file, register. *)
Definition stage_upload (abs parent : World.path) (path : string) (overwrite : bool)
    : M ProtocolError ResultBody :=
  file_name ← lift (ok_or (last abs) (ProtocolError.new InvalidRequest "path has no file name"));
  m ← get_mem;
  sweep_stale_staging_dir parent (in_flight_staging (uploads m)) STALE_STAGING_MAX_AGE ;;
  staging ← map_raise (io_context "create staging file")
    (tempfile_in parent (STAGING_PREFIX +:+ file_name +:+ ".") STAGING_SUFFIX);
  transfer_id ← new_transfer_id;
  put_mem (λ m, set_uploads
    (<[transfer_id := PendingUpload.Mk staging abs path overwrite]> (uploads m)) m) ;;
  mret (ResultBody.UploadPrepare
    (UploadPrepareResult.Mk transfer_id ("/" +:+ join_slash staging))).

Definition upload_prepare (ws : Workspace) (path : string) (overwrite : bool)
    : M ProtocolError ResultBody :=
  abs ← ws_resolve ws path;
  parent ← parent_dir abs;
  check_upload_target abs parent path overwrite ;;
  stage_upload abs parent path overwrite.

(** The installation step of [upload_commit]. *)
Definition install_upload (entry : PendingUpload) : M ProtocolError unit :=
  if PendingUpload.overwrite entry then
    map_raise (io_context "rename failed")
      (fs_rename (PendingUpload.staging entry) (PendingUpload.target entry))
  else
    map_raise (λ e, if decide (io.kind e = ErrorKind.AlreadyExists)
        then ProtocolError.new InvalidRequest
               ("target was created while the upload ran: " +:+ PendingUpload.logical_path entry
                  +:+ "; pass overwrite=true to replace it")
        else io_context "link into place failed" e)
      (fs_hard_link (PendingUpload.staging entry) (PendingUpload.target entry)) ;;
    map_raise (io_context "remove staging failed")
      (fs_remove_file (PendingUpload.staging entry)).

Definition upload_commit (request_id transfer_id : string) (size : N) (sha256 : string)
    (duration_ms : N) : M ProtocolError ResultBody :=
  m ← get_mem;
  entry ← lift (ok_or (uploads m !! transfer_id) (unknown_transfer transfer_id));
  meta ← map_raise (io_context "staging file unreadable")
           (fs_metadata (PendingUpload.staging entry));
  if negb (is_file_node meta) then
    raise (ProtocolError.new NotAFile "staging path is not a regular file")
  else if negb (bool_decide (node_len meta = size)) then
    raise (ProtocolError.new InvalidRequest
      ("staging file has " +:+ pretty (node_len meta) +:+ " bytes but client declared "
         +:+ pretty size))
  else
    install_upload entry ;;
    map_raise (io_context "fsync target") (fsync_file_or_dir (PendingUpload.target entry)) ;;
    operation_id ← next_operation_id;
    now ← now_ms;
    append_transfer_record (TransferOperationRecord.Mk operation_id request_id
      TransferDirection.Upload (PendingUpload.logical_path entry) size sha256 duration_ms now) ;;
    put_mem (λ m, set_uploads (delete transfer_id (uploads m)) m) ;;
    mret (ResultBody.Transfer (TransferResult.Mk operation_id TransferDirection.Upload
      (PendingUpload.logical_path entry) size sha256 duration_ms)).

Definition upload_abort (transfer_id : string) : M ProtocolError ResultBody :=
  m ← get_mem;
  entry ← lift (ok_or (uploads m !! transfer_id) (unknown_transfer transfer_id));
  put_mem (λ m, set_uploads (delete transfer_id (uploads m)) m) ;;
  r ← attempt (fs_remove_file (PendingUpload.staging entry));
  (match r with
   | Ok _ => mret tt
   | Err e => if decide (io.kind e = ErrorKind.NotFound) then mret tt
              else raise (io_context "remove staging failed" e)
   end) ;;
  mret (ResultBody.UploadAbort transfer_id).

Definition download_record (ws : Workspace) (request_id path : string) (size : N)
    (sha256 : string) (duration_ms : N) : M ProtocolError ResultBody :=
  ws_resolve ws path ;;
  operation_id ← next_operation_id;
  now ← now_ms;
  append_transfer_record (TransferOperationRecord.Mk operation_id request_id
    TransferDirection.Download path size sha256 duration_ms now) ;;
  mret (ResultBody.Transfer (TransferResult.Mk operation_id TransferDirection.Download
    path size sha256 duration_ms)).
End transfer.

(** ** The raw data plane *)

Module ReceiveMetadata.
Record ReceiveMetadata := Mk { size : N; sha256 : string }.
End ReceiveMetadata.
Module SendHeader.
Record SendHeader := Mk { size : N }.
End SendHeader.
Module SendTrailer.
Record SendTrailer := Mk { sha256 : string }.
End SendTrailer.

Section receiving.
Context `{Env} `{Sha256}.

(** The reading loop of [run_transfer_receive]: standard input arrives as
    reads of at most [TRANSFER_BUF_SIZE] bytes; an empty read, or the end
    of the list, is its end.  Returns what was read. *)
Fixpoint receive_loop (staging : path) (reads : list (result io.Error bytes)) (received : bytes)
    : M string bytes :=
  match reads with
  | [] | Ok [] :: _ => mret received
  | Ok chunk :: reads' =>
      map_raise io.to_string (fs_append staging chunk) ;;
      receive_loop staging reads' (received ++ chunk)
  | Err e :: _ => raise (io.to_string e)
  end.

(** [run_transfer_receive]. *)
Definition run_transfer_receive (staging : path) (reads : list (result io.Error bytes))
    (expect_size : N) : M string ReceiveMetadata.ReceiveMetadata :=
  map_raise (λ e, "open staging file " +:+ debug_name ("/" +:+ join_slash staging) +:+ ": "
                    +:+ io.to_string e) (fs_open_truncate staging) ;;
  received ← receive_loop staging reads [];
  if negb (bool_decide (lenN received = expect_size)) then
    raise ("received " +:+ pretty (lenN received) +:+ " bytes but caller declared "
             +:+ pretty expect_size)
  else
    map_raise io.to_string (fs_sync staging) ;;
    mret (ReceiveMetadata.Mk (lenN received) (hash_bytes received)).
End receiving.

Section data_plane.
Context `{Sha256}.

(** The sending loop of [run_transfer_send]: [content] is what the open file
    holds from the current position on. *)
Fixpoint send_loop (fuel : nat) (path : string) (remaining : N) (content sent : bytes)
    : result string bytes :=
  match fuel with
  | O => Ok sent
  | S fuel' =>
      if bool_decide (remaining = 0%N) then Ok sent
      else
        let want := N.to_nat (N.min remaining TRANSFER_BUF_SIZE) in
        let chunk := take want content in
        if bool_decide (chunk = []) then Err ("file shrank during send: " +:+ path)
        else send_loop fuel' path (remaining - lenN chunk) (drop (length chunk) content)
               (sent ++ chunk)
  end.

(** The stream [run_transfer_send] writes for an open file: header, bytes, trailer.  A loop
    round sends at least one byte, so [size] rounds are enough. *)
Definition send_file (path : string) (size : N) (content : bytes)
    : result string (SendHeader.SendHeader * bytes * SendTrailer.SendTrailer) :=
  sent ← send_loop (S (N.to_nat size)) path size content [];
  Ok (SendHeader.Mk size, sent, SendTrailer.Mk (hash_bytes sent)).

(** The bytes on its standard output. *)
Definition send_output `{JsonCodec SendHeader.SendHeader} `{JsonCodec SendTrailer.SendTrailer}
    (s : SendHeader.SendHeader * bytes * SendTrailer.SendTrailer) : bytes :=
  let '(header, sent, trailer) := s in
  json header ++ [nl] ++ sent ++ json trailer ++ [nl].
End data_plane.

(** [state_dir_under] ([lib.rs]): where the state of a workspace root lives. *)
Definition path_text (p : path) : string := "/" +:+ join_slash p.

Definition state_dir_under `{Sha256} (t : tree) (base root : path) : result string path :=
  canonical ← map_err (λ e, "cannot canonicalize workspace root " +:+ debug_name (path_text root)
                              +:+ ": " +:+ io.to_string e) (canonicalize t root);
  let hash12 := String.substring 0 12 (sha256_hex (as_bytes (path_text canonical))) in
  let name := default "root" (last canonical) in
  Ok (base ++ ["state"; name +:+ "-" +:+ hash12]).

(** [run_transfer_send]: the path is checked against the workspace boundary
    again, then the file is streamed. *)
Definition run_transfer_send `{Env} `{Sha256} (root state_base : path) (path : string)
    : M string (SendHeader.SendHeader * bytes * SendTrailer.SendTrailer) :=
  t ← get_fs;
  state_dir ← lift (state_dir_under t state_base root);
  ws ← map_raise io.to_string (Workspace_new root (state_dir ++ ["scratch"]));
  abs ← map_raise ProtocolError.display (ws_resolve ws path);
  meta ← map_raise (λ e, "cannot stat " +:+ path +:+ ": " +:+ io.to_string e)
           (fs_symlink_metadata abs);
  if negb (is_file_node meta) then raise ("not a regular file: " +:+ path)
  else
    content ← map_raise io.to_string (fs_read abs);
    lift (send_file path (node_len meta) content).
