(* ===== verification/TransferSpec.v ===== *)
(** * TransferSpec: what the server's half of a transfer does

    Specifications of [Transfer.v] in any environment: the two raw data-plane
    modes, the sweep of abandoned staging files, and the preparation, commit
    and abort of an upload. *)

From S2P Require Import Prelude Text Protocol World Fs Hash FsSpec Workspace Jsonl Store StoreSpec.
From S2P Require Import FsOps Transfer.

(** The bytes a list of reads yields before its end. *)
Fixpoint flat (coming : list (result io.Error bytes)) : bytes :=
  match coming with
  | [] | Ok [] :: _ | Err _ :: _ => []
  | Ok chunk :: coming' => chunk ++ flat coming'
  end.

(** ** Sending *)

Lemma send_loop_all `{Sha256} fuel path content sent :
  length content < fuel →
  send_loop fuel path (lenN content) content sent = Ok (sent ++ content).
Proof.
  revert content sent. induction fuel as [|fuel IH]; [lia|]. intros content sent Hf. cbn [send_loop].
  case_bool_decide as Hz.
  - destruct content; [by rewrite app_nil_r|]. unfold lenN in Hz. simpl length in Hz. lia.
  - set (want := N.to_nat (N.min (lenN content) TRANSFER_BUF_SIZE)).
    assert (0 < want ≤ length content) as [Hw Hle] by (unfold want, TRANSFER_BUF_SIZE, lenN in *; lia).
    assert (length (take want content) = want) as Hlen by (rewrite length_take; lia).
    rewrite bool_decide_false by (intros Heq; rewrite Heq in Hlen; simpl in Hlen; lia).
    rewrite Hlen. replace (lenN content - lenN (take want content))%N with (lenN (drop want content)).
    2: { unfold lenN. rewrite Hlen, length_drop. lia. }
    rewrite IH by (rewrite length_drop; lia). by rewrite <- (assoc_L (++)), take_drop.
Qed.

Lemma send_file_all `{Sha256} path content :
  send_file path (lenN content) content
  = Ok (SendHeader.Mk (lenN content), content, SendTrailer.Mk (hash_bytes content)).
Proof. unfold send_file. rewrite send_loop_all; [done|]. unfold lenN. lia. Qed.

(** What [symlink_metadata] shows as a file, [metadata] shows as that file. *)
Lemma symlink_metadata_file t p data mode mtime :
  tree_wf t → symlink_metadata t p = Ok (File data mode mtime) →
  metadata t p = Ok (File data mode mtime).
Proof.
  intros [Hroot Hwf] Hm. unfold symlink_metadata, entry_loc in Hm.
  destruct (last p) as [s|] eqn:Hl.
  - apply last_removelast in Hl. destruct (canonicalize t (removelast p)) as [d|e] eqn:Hc; [|done].
    cbn in Hm. destruct (is_dir_node (t !! d)) eqn:Hd; [|done]. cbn in Hm.
    destruct (t !! (d ++ [s])) as [n|] eqn:Hn; [|done]. injection Hm as ->.
    destruct (Hwf _ _ _ Hn) as [_ Hs]. unfold metadata, canonicalize in *. rewrite Hl.
    destruct (walk_app _ _ _ _ _ Hc) as (links' & _ & Hw). rewrite Hw.
    assert (walk t links' d [s] = Ok (d ++ [s])) as ->; [|cbn; by rewrite Hn].
    walk_known. by rewrite walk_nil.
  - cbn in Hm. by destruct (t !! []) as [[]|].
Qed.

Section sending.
Context `{Env} `{Sha256}.

(** The raw sender streams the file the path resolves to, whole. *)
Lemma run_transfer_send_wp root base path w :
  wp (run_transfer_send root base path) w (λ o w', match o with
    | Returned out => tree_wf (w_fs w') → ∃ ws abs data,
        resolve (w_fs w') ws path = Ok abs ∧ tree_read (w_fs w') abs = Ok data ∧
        out = (SendHeader.Mk (lenN data), data, SendTrailer.Mk (hash_bytes data))
    | _ => True
    end).
Proof.
  unfold run_transfer_send. apply wp_bind, wp_get_fs, wp_bind, wp_lift; [intros sd _|done].
  apply wp_bind, wp_map_raise, wp_any; [intros ws w1 _|done..].
  unfold ws_resolve. apply wp_bind, wp_map_raise, wp_bind, wp_get_fs, wp_lift; [intros abs Habs|done].
  apply wp_bind, wp_map_raise, fs_symlink_metadata_wp. split_and!; [|done..].
  intros n w2 Hn Hw2. destruct n as [data mode mtime| |]; cbn [is_file_node negb]; [|done..].
  apply wp_bind, wp_map_raise, fs_read_wp. rewrite (proj1 Hw2). split_and!; [|done..].
  intros content w3 Hc Hw3. apply wp_lift; [intros out Ho|done]. intros Hwf.
  assert (w_fs w3 = w_fs w1) as Heq by by rewrite (proj1 Hw3), (proj1 Hw2).
  rewrite Heq in *. apply symlink_metadata_file in Hn; [|done].
  unfold tree_read in Hc. rewrite Hn in Hc. cbn in Hc. assert (content = data) as -> by congruence.
  change (send_file path (lenN data) data = Ok out) in Ho. rewrite send_file_all in Ho. injection Ho as <-.
  exists ws, abs, data. split_and!; [done| |done]. unfold tree_read. by rewrite Hn.
Qed.
End sending.

(** ** Receiving *)

Section receiving.
Context `{Env} `{Sha256} (t : tree) (p : path) (tn : string).
Context (Hp : real t p) (Hd : is_dir_node (t !! p) = true).
Context (Hn : name_ok tn) (Hfree : t !! (p ++ [tn]) = None).

Lemma receive_loop_wp reads received w data mode mt Φ :
  w_fs w = with_temp_file t p tn data mode mt →
  (∀ w' mt', fs_step w w' (with_temp_file t p tn (data ++ flat reads) mode mt') →
     Φ (Returned (received ++ flat reads)) w') →
  (∀ o w' data' mt', stopped (∃ e, Err e ∈ reads) o →
     fs_step w w' (with_temp_file t p tn data' mode mt') → Φ o w') →
  wp (receive_loop (p ++ [tn]) reads received) w Φ.
Proof.
  revert received w data mt. induction reads as [|[[|b chunk]|e] reads IH];
    intros received w data mt Hw HR HF; cbn [receive_loop flat] in *.
  1,2: apply wp_ret; rewrite <- (app_nil_r received); apply (HR w mt); by rewrite app_nil_r.
  - apply wp_bind, wp_map_raise. eapply append_temp_wp; [done..| |].
    + intros w1 mt1 Hw1. eapply IH; [apply Hw1|..].
      * intros w2 mt2 Hw2. rewrite <- (assoc_L (++)). apply (HR w2 mt2).
        rewrite <- (assoc_L (++)) in Hw2. by eapply fs_step_trans.
      * intros o w2 data2 mt2 Ho Hw2. eapply (HF _ _ data2 mt2); [|by eapply fs_step_trans].
        destruct o; [done| |done]. destruct Ho as [?|[e' ?]]; [by left|right; exists e'; set_solver].
    + intros o w1 data1 mt1 Ho Hw1. destruct o as [|e|]; [done|..]; (eapply (HF _ _ data1 mt1); [|done]);
        [by left|done].
  - apply wp_raise. eapply (HF _ _ data mt); [|done]. right. exists e. set_solver.
Qed.

(** A receiver that returns has put what it read, and nothing else, into the
    staging file, and says how much it was and its hash. *)
Lemma run_transfer_receive_wp reads expect_size w data mode mt Φ :
  w_fs w = with_temp_file t p tn data mode mt →
  (∀ w' mt', lenN (flat reads) = expect_size →
     fs_step w w' (with_temp_file t p tn (flat reads) mode mt') →
     Φ (Returned (ReceiveMetadata.Mk expect_size (hash_bytes (flat reads)))) w') →
  (∀ o w' data' mt', stopped (lenN (flat reads) ≠ expect_size ∨ ∃ e, Err e ∈ reads) o →
     fs_step w w' (with_temp_file t p tn data' mode mt') → Φ o w') →
  wp (run_transfer_receive (p ++ [tn]) reads expect_size) w Φ.
Proof.
  intros Hw HR HF. unfold run_transfer_receive.
  apply wp_bind, wp_map_raise. eapply truncate_temp_wp; [done..| |].
  2: { intros o w1 Ho Hw1. rewrite Hw in Hw1. destruct o as [|e|]; [done|..];
         (eapply (HF _ _ data mt); [|done]); [by left|done]. }
  intros w1 mt1 Hw1. apply wp_bind. eapply receive_loop_wp; [apply Hw1|..].
  2: { intros o w2 data2 mt2 Ho Hw2. destruct o as [|e|]; [done|..];
         (eapply (HF _ _ data2 mt2); [|by eapply fs_step_trans]); [cbn in *; tauto|done]. }
  intros w2 mt2 Hw2. cbn [app] in *.
  assert (fs_step w w2 (with_temp_file t p tn (flat reads) mode mt2)) as Hw02
    by by eapply fs_step_trans.
  case_bool_decide as Hsize; cbn [negb]; [|apply wp_raise, (HF _ _ (flat reads) mt2); [by right; left|done]].
  apply wp_bind, wp_map_raise. unfold fs_sync. apply wp_sys; [|done|..].
  - intros [] w3 [= <-]. rewrite Hsize. apply wp_ret, (HR _ mt2); [done|]. fs_eq.
  - intros text Hf. apply (HF _ _ (flat reads) mt2); [by left|fs_eq].
  - intros Hf. apply (HF _ _ (flat reads) mt2); [done|fs_eq].
Qed.
End receiving.

(** ** Sweeping *)

Section sweeping.
Context `{Env} (in_flight : list path) (max_age : N).

(** A regular file with the name of a staging file, registered for no pending
    upload, and old by some reading of the clock. *)
Definition abandoned (t : tree) (q : path) : Prop :=
  ∃ d name data mode mtime k, q = d ++ [name] ∧ is_staging_name name = true ∧
    q ∉ in_flight ∧ t !! q = Some (File data mode mtime) ∧ (mtime + max_age <= env_clock k)%N.

(** Reading a directory changes nothing. *)
Lemma fs_read_dir_wp d w Φ :
  (∀ names w', fs_step w w' (w_fs w) → Φ (Returned names) w') →
  (∀ e w', fs_step w w' (w_fs w) → Φ (Raised e) w') →
  (∀ w', dies → fs_step w w' (w_fs w) → Φ Killed w') →
  wp (fs_read_dir d) w Φ.
Proof.
  intros HR HE HK. unfold fs_read_dir. apply wp_sys; [|intros; by apply HE..|intros; by apply HK].
  intros names w1 Ha. apply result_bind_Ok in Ha as (q & _ & Ha).
  destruct (is_dir_node _); [|done]. assert (w1 = tick w) as -> by congruence. by apply HR.
Qed.

(** Nothing but abandoned staging files is gone, and nothing is new. *)
Definition swept (t t' : tree) : Prop :=
  ∀ q, t' !! q = t !! q ∨ t' !! q = None ∧ abandoned t q.

Definition sweeps (w w' : world) : Prop :=
  swept (w_fs w) (w_fs w') ∧ w_sd w' = w_sd w ∧ w_mem w' = w_mem w.

Lemma swept_refl t : swept t t.
Proof. by left. Qed.

Lemma swept_trans t1 t2 t3 : swept t1 t2 → swept t2 t3 → swept t1 t3.
Proof.
  intros H12 H23 q. destruct (H12 q) as [Heq|[Hn Ha]]; destruct (H23 q) as [Heq'|[Hn' Ha']].
  - left. congruence.
  - right. split; [done|]. destruct Ha' as (d & name & data & mode & mtime & k & ? & ? & ? & Hl & ?).
    exists d, name, data, mode, mtime, k. by rewrite Heq in Hl.
  - right. split; [congruence|done].
  - by right.
Qed.

Lemma sweeps_refl w : sweeps w w.
Proof. split; [apply swept_refl|done]. Qed.

Lemma sweeps_trans w1 w2 w3 : sweeps w1 w2 → sweeps w2 w3 → sweeps w1 w3.
Proof. intros (? & ? & ?) (? & ? & ?). split; [by eapply swept_trans|split; congruence]. Qed.

Lemma fs_step_sweeps w w' : fs_step w w' (w_fs w) → sweeps w w'.
Proof. intros (Hf & ? & ?). split; [rewrite Hf; apply swept_refl|done]. Qed.

(** Directories stay, and so do the ways to them. *)
Lemma swept_keeps t t' q n :
  swept t t' → t !! q = Some n → (∀ data mode mtime, n ≠ File data mode mtime) → t' !! q = Some n.
Proof.
  intros Hs Hl Hn. destruct (Hs q) as [->|[_ (?&?&data&mode&mtime&?&_&_&_&Hl'&_)]]; [done|].
  rewrite Hl in Hl'. injection Hl' as ->. by destruct (Hn data mode mtime).
Qed.

Lemma swept_dir t t' q : swept t t' → is_dir_node (t !! q) = true → is_dir_node (t' !! q) = true.
Proof.
  intros Hs Hd. destruct (t !! q) as [[|mode len|]|] eqn:Hl; try done.
  by rewrite (swept_keeps _ _ _ _ Hs Hl).
Qed.

Lemma swept_real t t' d : swept t t' → real t d → is_dir_node (t !! d) = true → real t' d.
Proof.
  intros Hs Hr. induction Hr as [Hd|d s n Hr IH Hd Hn Hl Hsym]; intros Hdir.
  - constructor. by eapply swept_dir.
  - econstructor; [by apply IH|by eapply swept_dir|done| |done].
    eapply swept_keeps; [done..|]. intros data mode mtime ->. by rewrite Hl in Hdir.
Qed.

Lemma swept_wf t t' : swept t t' → tree_wf t → tree_wf t'.
Proof.
  intros Hs [Hroot Hwf]. split; [by eapply swept_dir|]. intros d s n Hl.
  destruct (Hs (d ++ [s])) as [Heq|[Hn _]]; [|congruence]. rewrite Heq in Hl.
  destruct (Hwf _ _ _ Hl). split; [by eapply swept_dir|done].
Qed.

Lemma sweep_entry_wp {E} d name w (Φ : outcome E nat → world → Prop) :
  real (w_fs w) d → is_dir_node (w_fs w !! d) = true →
  (∀ n w', sweeps w w' → Φ (Returned n) w') → (∀ w', dies → sweeps w w' → Φ Killed w') →
  wp (sweep_entry d in_flight max_age name) w Φ.
Proof.
  intros Hr Hd HR HK. unfold sweep_entry.
  destruct (is_staging_name name) eqn:Hname; cbn [negb]; [|apply wp_ret, HR, sweeps_refl].
  case_bool_decide as Hin; [apply wp_ret, HR, sweeps_refl|].
  apply wp_bind, wp_attempt, fs_symlink_metadata_wp. unfold symlink_metadata.
  rewrite entry_loc_real by done. cbn [mbind result_bind]. split_and!.
  2,3: intros; by apply wp_ret, HR, fs_step_sweeps.
  2: intros; by apply HK, fs_step_sweeps.
  intros n w1 Hn Hw1. destruct (w_fs w !! (d ++ [name])) as [n'|] eqn:Hl; [|done].
  injection Hn as ->. destruct n as [data mode mtime| |]; [|by apply wp_ret, HR, fs_step_sweeps..].
  apply wp_bind, wp_now_ns. destruct (_ && _) eqn:Hage; [|by apply wp_ret, HR, fs_step_sweeps].
  apply andb_true_iff in Hage as [Hm%N.leb_le Ha%N.leb_le].
  apply wp_bind, wp_attempt, fs_change_wp; cbv beta; rewrite (proj1 Hw1).
  2,3: intros; apply wp_ret, HR, fs_step_sweeps; fs_eq.
  2: intros; apply HK, fs_step_sweeps; [done|fs_eq].
  intros t' w2 Ht Hw2. apply wp_ret, HR. unfold tree_remove in Ht.
  rewrite entry_loc_real in Ht by done. cbn in Ht. rewrite Hl in Ht. injection Ht as <-.
  split; [|split; fs_eq]. rewrite (proj1 Hw2). intros q.
  destruct (decide (q = d ++ [name])) as [->|Hne]; [right|left; by rewrite lookup_delete_ne].
  split; [apply lookup_delete_eq|]. exists d, name, data, mode, mtime, (w_step w1).
  split_and!; try done. lia.
Qed.

Lemma sweep_dir_wp {E} d w (Φ : outcome E nat → world → Prop) :
  real (w_fs w) d → is_dir_node (w_fs w !! d) = true →
  (∀ n w', sweeps w w' → Φ (Returned n) w') → (∀ w', dies → sweeps w w' → Φ Killed w') →
  wp (sweep_stale_staging_dir d in_flight max_age) w Φ.
Proof.
  intros Hr Hd HR HK. unfold sweep_stale_staging_dir. apply wp_bind, wp_attempt, fs_read_dir_wp.
  2: intros; apply wp_ret, HR; by apply fs_step_sweeps.
  2: intros; by apply HK, fs_step_sweeps.
  intros names w1 Hw1%fs_step_sweeps. apply wp_bind, (collect_wp (λ _ _ w', sweeps w w')); [|done|].
  - intros _ name _ _ w2 _ Hw2. apply sweep_entry_wp.
    + eapply swept_real; [apply Hw2|done..].
    + eapply swept_dir; [apply Hw2|done].
    + intros n w3 Hw3. by eapply sweeps_trans.
    + intros w3 Hk Hw3. apply HK; [done|]. by eapply sweeps_trans.
  - intros ns w2 Hw2. by apply wp_ret, HR.
Qed.

Lemma sweep_tree_wp {E} fuel d w (Φ : outcome E nat → world → Prop) :
  tree_wf (w_fs w) → real (w_fs w) d → is_dir_node (w_fs w !! d) = true →
  (∀ n w', sweeps w w' → Φ (Returned n) w') → (∀ w', dies → sweeps w w' → Φ Killed w') →
  wp (sweep_tree fuel d in_flight max_age) w Φ.
Proof.
  revert d w Φ. induction fuel as [|fuel IH]; intros d w Φ Hwf Hr Hd HR HK; cbn [sweep_tree].
  { apply wp_ret, HR, sweeps_refl. }
  apply wp_bind, sweep_dir_wp; [done..| |done].
  intros n w1 Hw1. apply wp_bind, wp_attempt, fs_read_dir_wp.
  2: intros; apply wp_ret, HR; eapply sweeps_trans; [done|by apply fs_step_sweeps].
  2: intros; apply HK; [done|eapply sweeps_trans; [done|by apply fs_step_sweeps]].
  intros names w2 Hw2%fs_step_sweeps. assert (sweeps w w2) as Hw02 by by eapply sweeps_trans.
  apply wp_bind, (collect_wp (λ _ _ w', sweeps w w')); [|done|].
  2: { intros ns w3 Hw3. by apply wp_ret, HR. }
  intros _ name _ _ w3 _ Hw3. apply wp_bind, wp_attempt, fs_symlink_metadata_wp.
  assert (real (w_fs w3) d) as Hr3 by (eapply swept_real; [apply Hw3|done..]).
  assert (is_dir_node (w_fs w3 !! d) = true) as Hd3 by (eapply swept_dir; [apply Hw3|done]).
  assert (tree_wf (w_fs w3)) as Hwf3 by (eapply swept_wf; [apply Hw3|done]).
  unfold symlink_metadata. rewrite entry_loc_real by done. cbn [mbind result_bind]. split_and!.
  2,3: intros; apply wp_ret; eapply sweeps_trans; [done|by apply fs_step_sweeps].
  2: intros; apply HK; [done|eapply sweeps_trans; [done|by apply fs_step_sweeps]].
  intros nd w4 Hn Hw4. assert (sweeps w w4) as Hw04
    by (eapply sweeps_trans; [done|by apply fs_step_sweeps]).
  destruct nd as [|mode len|]; [by apply wp_ret| |by apply wp_ret].
  destruct (w_fs w3 !! (d ++ [name])) as [nd'|] eqn:Hl; [|done]. injection Hn as ->.
  apply IH; rewrite ?(proj1 Hw4); [done| |by rewrite Hl|..].
  - econstructor; [done..| |done|done]. by destruct (proj2 Hwf3 _ _ _ Hl).
  - intros n' w5 Hw5. by eapply sweeps_trans.
  - intros w5 Hk Hw5. apply HK; [done|]. by eapply sweeps_trans.
Qed.
End sweeping.

(** C33: the sweep takes abandoned staging files only.  Whatever fails in it
    and wherever the process dies, a sweep of a directory tree has removed
    nothing but regular files that carry the name of a staging file, belong to
    no pending upload and are old enough, and changed nothing else. *)
Theorem sweep_removes_only_abandoned `{Env} {E} root in_flight max_age w :
  tree_wf (w_fs w) → real (w_fs w) root → is_dir_node (w_fs w !! root) = true →
  let '(o, w') := sweep_stale_staging_tree (E:=E) root in_flight max_age w in
  swept in_flight max_age (w_fs w) (w_fs w') ∧ w_sd w' = w_sd w ∧ w_mem w' = w_mem w ∧
  ∀ e, o ≠ Raised e.
Proof.
  intros Hwf Hr Hd. apply (wp_let _ _ (λ o w', swept _ _ _ (w_fs w') ∧ _ ∧ _ ∧ ∀ e, o ≠ Raised e)).
  unfold sweep_stale_staging_tree. apply wp_bind, wp_get_fs, sweep_tree_wp; [done..| |].
  - intros n w' (? & ? & ?). by split_and!.
  - intros w' _ (? & ? & ?). by split_and!.
Qed.
