(* ===== verification/Recovery.v ===== *)
(** * Recovery: what a restart makes of a crash

    Models [OperationStore::recover] of
    [crates/agent-remote-server/src/store.rs] and the helpers it uses:
    prepared markers are resolved against the files they speak of, and
    requests that were in progress get their result back, an error, or are
    forgotten. *)

From S2P Require Import Prelude Text Protocol World Fs Hash Workspace Jsonl Store.

Section recover.
Context `{Env} `{Sha256} `{HashIter}
        `{JsonCodec AnyOperationRecord} `{JsonCodec RequestLogLine}.

Definition is_prepared (r : AnyOperationRecord) : bool :=
  match r with AnyOperationRecord.Prepared _ => true | _ => false end.

(** [drop_prepared]. *)
Definition drop_prepared (operation_id : string) : M ProtocolError unit :=
  put_mem (λ m, set_records
    (retain (λ r, negb (has_id operation_id r && is_prepared r)) (records m)) m) ;;
  now ← now_ms;
  append_any_record (AnyOperationRecord.Aborted (AbortedRecord.Mk operation_id now)).

Definition record_of_prepared (p : PreparedRecord) (now : N) : FsOperationRecord :=
  FsOperationRecord.Mk (PreparedRecord.operation_id p) (PreparedRecord.request_id p)
    (PreparedRecord.kind p) (PreparedRecord.path p) (PreparedRecord.before_hash p)
    (PreparedRecord.expected_after_hash p) now.

(** [synthesize_commit]. *)
Definition synthesize_commit (p : PreparedRecord) : M ProtocolError unit :=
  now ← now_ms;
  let record := record_of_prepared p now in
  append_any_record (AnyOperationRecord.Fs record) ;;
  put_record (AnyOperationRecord.Fs record) ;;
  remember_result (PreparedRecord.request_id p) (reconstruct_fs record).

Definition conflict_error (operation_id reason : string) : ProtocolError :=
  ProtocolError.new UndoConflict
    ("startup recovery could not reconcile operation " +:+ operation_id +:+ ": " +:+ reason).

(** [resolve_prepared_as_conflict_with]. *)
Definition resolve_prepared_as_conflict_with (p : PreparedRecord) (reason : string)
    : M ProtocolError unit :=
  drop_prepared (PreparedRecord.operation_id p) ;;
  remember_error (PreparedRecord.request_id p)
    (conflict_error (PreparedRecord.operation_id p) reason).

Definition resolve_prepared_as_conflict (p : PreparedRecord) : M ProtocolError unit :=
  resolve_prepared_as_conflict_with p "recovery conflict".

(** [{current:?}] of an [Option<String>] holding a hash. *)
Definition debug_option (o : option string) : string :=
  match o with
  | Some s => "Some(" +:+ debug_name s +:+ ")"
  | None => "None"
  end.

(** The [match (&p.before_hash, &current)]. *)
Definition recovery_outcome (p : PreparedRecord) (current : option string)
    : RecoveryOutcome :=
  let mismatch := RecoveryOutcome.Conflict ("file hash " +:+ debug_option current
                    +:+ " matches neither before nor expected-after") in
  match PreparedRecord.before_hash p, current with
  | Some b, Some c =>
      if decide (b = c) then RecoveryOutcome.NoOp
      else if decide (c = PreparedRecord.expected_after_hash p)
           then RecoveryOutcome.Committed else mismatch
  | None, None => RecoveryOutcome.NoOp
  | Some _, None =>
      if decide (PreparedRecord.expected_after_hash p = FILE_DELETED_SENTINEL)
      then RecoveryOutcome.Committed
      else RecoveryOutcome.Conflict "file expected to exist after mutation but is absent"
  | None, Some c =>
      if decide (c = PreparedRecord.expected_after_hash p)
      then RecoveryOutcome.Committed else mismatch
  end.

(** One round of the loop over the prepared markers. *)
Definition recover_prepared (ws : Workspace) (p : PreparedRecord)
    : M ProtocolError RecoveryAction :=
  let id := PreparedRecord.operation_id p in
  t ← get_fs;
  match resolve t ws (PreparedRecord.path p) with
  | Err _ =>
      resolve_prepared_as_conflict p ;;
      mret (RecoveryAction.Conflict id "path no longer resolvable")
  | Ok abs =>
      current ← map_raise ProtocolError.from_io (hash_file abs);
      match recovery_outcome p current with
      | RecoveryOutcome.NoOp => drop_prepared id ;; mret (RecoveryAction.Dropped id)
      | RecoveryOutcome.Committed =>
          synthesize_commit p ;; mret (RecoveryAction.Synthesized id)
      | RecoveryOutcome.Conflict reason =>
          resolve_prepared_as_conflict_with p reason ;;
          mret (RecoveryAction.Conflict id reason)
      end
  end.

Definition prepareds (rs : list AnyOperationRecord) : list PreparedRecord :=
  omap (λ r, match r with AnyOperationRecord.Prepared p => Some p | _ => None end) rs.

Definition is_stuck (e : RequestEntry) : bool :=
  bool_decide (RequestEntry.status e = RequestStatus.InProgress)
  && bool_decide (RequestEntry.result e = None).

Definition stuck_requests (reqs : gmap string RequestEntry) : list (string * option string) :=
  omap (λ '(k, v), if is_stuck v then Some (k, RequestEntry.op v) else None)
    (hash_iter reqs).

Definition stuck_exec_error : ProtocolError :=
  ProtocolError.new ExecFailed
    "exec in progress at time of crash; retry with a new request_id".
Definition stuck_unknown_error : ProtocolError :=
  ProtocolError.new InvalidRequest
    "request was in progress at time of crash and request type is unknown; retry with a new request_id".

(** One round of the loop over the stuck requests. *)
Definition recover_stuck (stuck : string * option string) : M ProtocolError RecoveryAction :=
  let '(rid, op) := stuck in
  m ← get_mem;
  match find_committed_by_request_id m rid with
  | Some committed =>
      (match reconstruct_result committed with
       | Some msg => remember_result rid msg
       | None => mret tt   (* unreachable: only committed records are found *)
       end) ;;
      mret (RecoveryAction.Synthesized (AnyOperationRecord.operation_id committed))
  | None =>
      if decide (op = Some "exec") then
        remember_error rid stuck_exec_error ;;
        mret (RecoveryAction.StuckExecMarkedError rid)
      else if decide (op = None) then
        remember_error rid stuck_unknown_error ;;
        mret (RecoveryAction.StuckExecMarkedError rid)
      else
        put_mem (λ m, set_requests (delete rid (requests m)) m) ;;
        mret (RecoveryAction.ClearedStuck rid)
  end.

Definition recover (ws : Workspace) : M ProtocolError (list RecoveryAction) :=
  m ← get_mem;
  resolved ← collect (prepareds (records m)) (recover_prepared ws);
  m' ← get_mem;
  cleared ← collect (stuck_requests (requests m')) recover_stuck;
  mret (resolved ++ cleared).
End recover.
