(* ===== verification/Crash.v ===== *)
(** * Crash: restarting after a crash, as often as it takes

    Proofs about [Recovery.v].  [in_doubt] describes every state a crash (or
    any number of crashes, also in the recovery itself) can leave one
    mutation in; [restart_wp] shows that a start from such a state either
    gets through and settles the mutation one way or the other, or stops in
    such a state again. *)

From S2P Require Import Prelude Text Protocol World Fs Hash FsSpec Workspace Jsonl Store.
From S2P Require Import StoreSpec FsOpsSpec Recovery.

(** ** The tables a log loads to *)

Lemma index_records_snoc rs r :
  index_records (rs ++ [r]) = <[AnyOperationRecord.operation_id r := r]> (index_records rs).
Proof. unfold index_records. by rewrite foldl_snoc. Qed.

Lemma requests_of_log_snoc ls l :
  requests_of_log (ls ++ [l]) = <[RequestLogLine.request_id l := entry_of_line l]> (requests_of_log ls).
Proof. unfold requests_of_log. by rewrite foldl_snoc. Qed.

Lemma index_records_id rs i r :
  index_records rs !! i = Some r → AnyOperationRecord.operation_id r = i.
Proof.
  induction rs as [|r' rs IH] using rev_ind; [done|].
  rewrite index_records_snoc, lookup_insert_Some. naive_solver.
Qed.

Lemma btree_values_perm {A} (m : gmap string A) : btree_values m ≡ₚ (map_to_list m).*2.
Proof. unfold btree_values. by rewrite merge_sort_Permutation. Qed.

Lemma records_of_log_perm rs : records_of_log rs ≡ₚ (map_to_list (index_records rs)).*2.
Proof. unfold records_of_log. by rewrite sort_by_key_perm, btree_values_perm. Qed.

Lemma elem_of_records_of_log rs r :
  r ∈ records_of_log rs ↔ index_records rs !! AnyOperationRecord.operation_id r = Some r.
Proof.
  rewrite records_of_log_perm, list_elem_of_fmap. split.
  - intros ([i r'] & -> & Hin%elem_of_map_to_list). cbn.
    by rewrite (index_records_id _ _ _ Hin).
  - intros Hl. exists (AnyOperationRecord.operation_id r, r).
    split; [done|]. by apply elem_of_map_to_list.
Qed.

Definition committed_for (rid : string) (r : AnyOperationRecord) : bool :=
  AnyOperationRecord.is_committed r && bool_decide (record_request_id r = Some rid).

Lemma find_committed_spec m rid :
  find_committed_by_request_id m rid = find_first (committed_for rid) (records m).
Proof.
  apply find_first_ext. intros r. unfold committed_for.
  destruct r; cbn; try done; apply bool_decide_ext; naive_solver.
Qed.

(** ** What a start reads from the disk *)

(** The log loads to the records [rs]: it is sound, or its last append was
    cut. *)
Definition loadable `{JsonCodec T} (name : string) (rs : list T) (w : world) : Prop :=
  content name w = lines rs ∨
  ∃ rs0 (r : T) k, content name w = lines rs0 ++ take k (line r) ∧ rs = recovered rs0 r k.

Section loadable.
Context `{Env} {T : Type} `{JsonCodecLaws T}.

Lemma loadable_torn name (rs : list T) r k w :
  content name w = lines rs ++ take k (line r) →
  loadable name rs w ∨ loadable name (rs ++ [r]) w.
Proof.
  intros Hc. destruct (torn_cases rs r k) as [[_ Hr]|[(_ & _ & _ & Hr)|[[_ Hr]|[_ Hr]]]].
  1,2: left. 3,4: right.
  all: right; exists rs, r, k; by rewrite Hr.
Qed.

Lemma load_log_loadable_wp name (rs : list T) w Φ :
  loadable name rs w →
  (∀ w', only_sd name w w' → content name w' = lines rs → Φ (Returned rs) w') →
  (∀ o w', faulty o → only_sd name w w' → loadable name rs w' → Φ o w') →
  wp (load_log name) w Φ.
Proof.
  intros Hl HR HF.
  assert (rs = [] ∧ content name w = [] ∨
    ∃ rs0 r k, content name w = lines rs0 ++ take k (line r) ∧ rs = recovered rs0 r k)
    as [[-> Hc]|(rs0 & r & k & Hc & ->)].
  { destruct Hl as [Hc|?]; [|by right].
    destruct rs as [|r rs _] using rev_ind; [by left|right].
    exists rs, r, (length (line r)). rewrite firstn_all, <- lines_snoc. split; [done|].
    unfold recovered, line. rewrite length_app. by rewrite decide_True by lia. }
  - unfold load_log. apply wp_bind, wp_map_raise, read_lines_wp.
    2: { intros o w' Ho Hw Hs. assert (loadable (T := T) name [] w').
         { left. unfold content in *. by rewrite Hs. }
         destruct o as [a|e|]; [done|by apply HF..]. }
    intros w' Hw Hs. rewrite Hc. cbn. apply wp_bind_Ok, wp_bind.
    unfold append_missing_newline. apply wp_ret, wp_ret, HR; [done|].
    unfold content in *. by rewrite Hs.
  - apply (load_log_wp _ rs0 r k); [done|by apply HR|].
    intros o w' Ho Hw Hc'. apply HF; [done..|].
    destruct Hc' as [Hc'|Hc']; [|by left]. right. exists rs0, r, k. by rewrite Hc'.
Qed.
End loadable.

(** ** Loops of recovery over tables with one entry to look at *)

Lemma prepareds_nil rs :
  (∀ i p, index_records rs !! i ≠ Some (AnyOperationRecord.Prepared p)) →
  prepareds (records_of_log rs) = [].
Proof.
  intros Hno. apply omap_nil_forall. intros r Hr%elem_of_records_of_log.
  destruct r; try done. by apply Hno in Hr.
Qed.

Lemma prepareds_one rs p :
  index_records rs !! PreparedRecord.operation_id p = Some (AnyOperationRecord.Prepared p) →
  (∀ i p', i ≠ PreparedRecord.operation_id p →
     index_records rs !! i ≠ Some (AnyOperationRecord.Prepared p')) →
  prepareds (records_of_log rs) = [p].
Proof.
  intros Hp Hno. apply Permutation_singleton_r. unfold prepareds.
  rewrite records_of_log_perm, <- (insert_delete_id _ _ _ Hp).
  rewrite map_to_list_insert by apply lookup_delete_eq. cbn.
  rewrite omap_nil_forall; [done|].
  intros r ([i r'] & -> & Hin%elem_of_map_to_list)%list_elem_of_fmap. cbn.
  apply lookup_delete_Some in Hin as [Hne Hin]. destruct r'; try done.
  by apply Hno in Hin.
Qed.

Section stuck.
Context `{HashIterLaws}.

Lemma stuck_requests_nil (reqs : gmap string RequestEntry) :
  (∀ k e, reqs !! k = Some e → is_stuck e = false) → stuck_requests reqs = [].
Proof.
  intros Hno. apply omap_nil_forall. intros [k e] Hin.
  rewrite hash_iter_perm in Hin. apply elem_of_map_to_list in Hin.
  by rewrite (Hno k e).
Qed.

Lemma stuck_requests_one (reqs : gmap string RequestEntry) rid e :
  reqs !! rid = Some e → is_stuck e = true →
  (∀ k e', k ≠ rid → reqs !! k = Some e' → is_stuck e' = false) →
  stuck_requests reqs = [(rid, RequestEntry.op e)].
Proof.
  intros Hr Hs Hno. apply Permutation_singleton_r. unfold stuck_requests.
  rewrite hash_iter_perm, <- (insert_delete_id _ _ _ Hr).
  rewrite map_to_list_insert by apply lookup_delete_eq. cbn. rewrite Hs.
  rewrite omap_nil_forall; [done|].
  intros [k e'] Hin%elem_of_map_to_list.
  apply lookup_delete_Some in Hin as [Hne Hin]. by rewrite (Hno k e').
Qed.
End stuck.

(** The id counter on disk: absent, or the line [prune] writes. *)
Definition counter_holds (n : N) (w : world) : Prop :=
  (w_sd w !! counter_path = None ∧ n = 0%N) ∨
  (w_sd w !! counter_path = Some (as_bytes (pretty n) ++ [nl]) ∧ (n <= u64_max)%N).

Section restart.
Context `{Env} `{Sha256Laws} `{HashIterLaws}
        `{JsonCodecLaws AnyOperationRecord} `{JsonCodecLaws RequestLogLine}.

Definition loads (w : world) (rs : list AnyOperationRecord) (ls : list RequestLogLine) : Prop :=
  loadable operations_path rs w ∧ loadable requests_path ls w.

Lemma logs_loads w rs ls : logs w rs ls → loads w rs ls.
Proof. intros [Ho Hr]. split; by left. Qed.

(** The appends keep a log loadable, to one of two lists. *)
Lemma torn_ops_loads w rs r ls : torn_ops w rs r ls → loads w rs ls ∨ loads w (rs ++ [r]) ls.
Proof.
  intros [[k Hk] Hr]. destruct (loadable_torn _ _ _ _ _ Hk) as [?|?]; [left|right];
    (split; [done|by left]).
Qed.
Lemma torn_reqs_loads w rs ls l : torn_reqs w rs ls l → loads w rs ls ∨ loads w rs (ls ++ [l]).
Proof.
  intros [Ho [k Hk]]. destruct (loadable_torn _ _ _ _ _ Hk) as [?|?]; [left|right];
    (split; [by left|done]).
Qed.

Lemma load_counter_wp n w Φ :
  counter_holds n w →
  (∀ w', only_sd counter_path w w' → w_sd w' = w_sd w → Φ (Returned n) w') →
  (∀ o w', faulty o → only_sd counter_path w w' → w_sd w' = w_sd w → Φ o w') →
  wp load_counter w Φ.
Proof.
  intros Hc HR HF. unfold load_counter, sd_read. apply wp_bind, wp_attempt, wp_sys.
  - intros bs w' Ha. cbn in Ha. destruct Hc as [[Hc _]|[Hc Hn]]; rewrite Hc in Ha; [done|].
    simplify_eq/=. destruct (pretty_digits n) as [Hne Hd].
    unfold from_utf8. rewrite digits_utf8 by done.
    rewrite trim_digits_line by done.
    replace (string_of_list_byte (as_bytes (pretty n))) with (pretty n)
      by (symmetry; apply string_of_list_byte_of_string).
    rewrite parse_u64_pretty by done. rewrite N.max_0_l. by apply wp_ret, HR.
  - intros e Ha. cbn in Ha. destruct Hc as [[Hc ->]|[Hc _]]; rewrite Hc in Ha; [|done].
    simplify_eq/=. by apply wp_ret, HR.
  - intros text Hf. rewrite decide_False by done. by apply wp_raise, HF.
  - intros Hf. by apply HF.
Qed.

(** Reading one log leaves what the other loads to. *)
Lemma loadable_only_sd {T} `{JsonCodec T} name name' (rs : list T) w w' :
  only_sd name w w' → name' ≠ name → loadable name' rs w → loadable name' rs w'.
Proof.
  intros Hw Hn Hl. unfold loadable. by rewrite (content_only_sd _ _ _ _ Hw).
Qed.

(** [OperationStore::new], from logs that load. *)
Lemma OperationStore_new_wp n w rs ls Φ :
  loads w rs ls → counter_holds n w →
  (∀ w', logs w' rs ls → w_fs w' = w_fs w → counter_holds n w' →
     w_mem w' = MkMemory (max_op_id n rs) (records_of_log rs) (requests_of_log ls) ∅ 0 →
     Φ (Returned tt) w') →
  (∀ o w', faulty o → loads w' rs ls → w_fs w' = w_fs w → counter_holds n w' → Φ o w') →
  wp OperationStore_new w Φ.
Proof.
  intros Hl Hc HR HF. unfold OperationStore_new, OperationStore_load.
  do 3 (apply wp_bind, wp_map_raise, wp_sys;
    [intros [] ? [= <-]|done|intros ? ?; by apply HF|intros ?; by apply HF]).
  apply wp_bind, (load_counter_wp n); [done|..].
  2: { intros o w1 Ho (Hf1 & _) Hs1.
       assert (loads w1 rs ls ∧ counter_holds n w1) as [??].
       { unfold loads, loadable, content, counter_holds in *. by rewrite Hs1. }
       destruct o as [a|e|]; [done|by apply HF..]. }
  intros w1 (Hf1 & _) Hs1. cbn [w_fs tick] in Hf1.
  assert (loads w1 rs ls ∧ counter_holds n w1) as [[Ho1 Hr1] Hc1].
  { unfold loads, loadable, content, counter_holds in *. by rewrite Hs1. }
  apply wp_bind, (load_log_loadable_wp _ rs); [done|..].
  2: { intros o w2 Ho Hw2 Hl2. assert (loads w2 rs ls).
       { split; [done|]. by apply (loadable_only_sd _ _ _ _ _ Hw2). }
       destruct Hw2 as (Hf2 & _ & Hs2).
       assert (counter_holds n w2) by (unfold counter_holds in *; by rewrite Hs2).
       destruct o as [a|e|]; [done|apply HF; try done; congruence..]. }
  intros w2 Hw2 Ho2. pose proof (loadable_only_sd _ requests_path _ _ _ Hw2 ltac:(done) Hr1) as Hr2.
  destruct Hw2 as (Hf2 & _ & Hs2).
  assert (counter_holds n w2) as Hc2 by (unfold counter_holds in *; by rewrite Hs2).
  apply wp_bind, (load_log_loadable_wp _ ls); [done|..].
  2: { intros o w3 Ho Hw3 Hl3. assert (loads w3 rs ls).
       { split; [|done]. apply (loadable_only_sd _ _ _ _ _ Hw3); [done|by left]. }
       destruct Hw3 as (Hf3 & _ & Hs3).
       assert (counter_holds n w3) by (unfold counter_holds in *; by rewrite Hs3).
       destruct o as [a|e|]; [done|apply HF; try done; congruence..]. }
  intros w3 Hw3 Hr3. pose proof (content_only_sd _ operations_path _ _ Hw3 ltac:(done)) as Ho3.
  destruct Hw3 as (Hf3 & _ & Hs3). apply wp_put_mem, HR.
  - split; [|done]. unfold content in *. cbn. by rewrite Ho3.
  - cbn. congruence.
  - unfold counter_holds in *. cbn. by rewrite Hs3.
  - done.
Qed.
End restart.

(** ** One mutation, settled or in doubt *)

(** What the path boundary and the content hash show of the path a marker
    speaks of. *)
Definition sees `{Sha256} (t : tree) (ws : Workspace) (path : string) (h : option string) : Prop :=
  ∃ abs, resolve t ws path = Ok abs ∧ hash_of t abs = Ok h.

(** The hash the file has once the mutation took effect. *)
Definition after_state (p : PreparedRecord) : option string :=
  if decide (PreparedRecord.expected_after_hash p = FILE_DELETED_SENTINEL) then None
  else Some (PreparedRecord.expected_after_hash p).

(** The answer of the mutation. *)
Definition answer_of (p : PreparedRecord) : ServerMessage :=
  reconstruct_fs (record_of_prepared p 0).

Lemma reconstruct_answer p now : reconstruct_fs (record_of_prepared p now) = answer_of p.
Proof. done. Qed.

Section doubt.
Context `{Sha256} `{JsonCodec AnyOperationRecord} `{JsonCodec RequestLogLine}.
Context (ws : Workspace) (prep : PreparedRecord) (op : string).
Context (told tnew : tree → Prop).

Abbreviation rid := (PreparedRecord.request_id prep).
Abbreviation id := (PreparedRecord.operation_id prep).

(** The marker can be told from its file. *)
Definition decidable_marker : Prop :=
  (∀ t, told t → sees t ws (PreparedRecord.path prep) (PreparedRecord.before_hash prep)) ∧
  (∀ t, tnew t → sees t ws (PreparedRecord.path prep) (after_state prep)) ∧
  PreparedRecord.before_hash prep ≠ after_state prep.

Definition no_prepared (I : gmap string AnyOperationRecord) : Prop :=
  ∀ i p, I !! i ≠ Some (AnyOperationRecord.Prepared p).

Definition none_committed (I : gmap string AnyOperationRecord) : Prop :=
  ∀ i r, I !! i = Some r → committed_for rid r = false.

Definition others_calm (Q : gmap string RequestEntry) : Prop :=
  ∀ k e, k ≠ rid → Q !! k = Some e → is_stuck e = false.

(** Nothing of the mutation is there; its request was never claimed or is
    still claimed. *)
Definition settled_old (I : gmap string AnyOperationRecord) (Q : gmap string RequestEntry)
    (t : tree) : Prop :=
  no_prepared I ∧ none_committed I ∧ told t ∧
  (Q !! rid = None ∨ Q !! rid = Some (claimed op)).

(** The marker is there and the mutation may or may not have happened. *)
Definition doubtful (I : gmap string AnyOperationRecord) (Q : gmap string RequestEntry)
    (t : tree) : Prop :=
  I !! id = Some (AnyOperationRecord.Prepared prep) ∧
  (∀ i p, i ≠ id → I !! i ≠ Some (AnyOperationRecord.Prepared p)) ∧
  none_committed I ∧ Q !! rid = Some (claimed op) ∧ (told t ∨ tnew t).

(** The mutation happened and its record is there; its request is still
    claimed or has its answer. *)
Definition settled_new (I : gmap string AnyOperationRecord) (Q : gmap string RequestEntry)
    (t : tree) : Prop :=
  no_prepared I ∧
  (∃ now, I !! id = Some (AnyOperationRecord.Fs (record_of_prepared prep now))) ∧
  (∀ i r, I !! i = Some r → committed_for rid r = true → i = id) ∧
  tnew t ∧
  (Q !! rid = Some (claimed op) ∨ Q !! rid = Some (done_entry (answer_of prep))).

Definition in_doubt_tables I Q t : Prop :=
  others_calm Q ∧ (settled_old I Q t ∨ doubtful I Q t ∨ settled_new I Q t).

(** The disk after a crash at any point of the mutation, or of any number
    of recoveries from it. *)
Definition in_doubt (n : N) (w : world) : Prop :=
  ∃ rs ls, loadable operations_path rs w ∧ loadable requests_path ls w ∧ counter_holds n w ∧
    in_doubt_tables (index_records rs) (requests_of_log ls) (w_fs w).

(** After a recovery: the mutation is undone or done, on disk, in the logs
    and in the tables, and its request can be retried or has its answer. *)
Definition settled (w : world) : Prop :=
  (told (w_fs w) ∧ requests (w_mem w) !! rid = None ∧
   find_committed_by_request_id (w_mem w) rid = None) ∨
  (tnew (w_fs w) ∧
   requests (w_mem w) !! rid = Some (done_entry (answer_of prep)) ∧
   ∃ now, find_record (w_mem w) id =
     Some (AnyOperationRecord.Fs (record_of_prepared prep now))).
End doubt.

Lemma recovery_outcome_old p :
  recovery_outcome p (PreparedRecord.before_hash p) = RecoveryOutcome.NoOp.
Proof. unfold recovery_outcome. destruct (PreparedRecord.before_hash p); by rewrite ?decide_True. Qed.

Lemma recovery_outcome_new p :
  PreparedRecord.before_hash p ≠ after_state p →
  recovery_outcome p (after_state p) = RecoveryOutcome.Committed.
Proof.
  unfold recovery_outcome, after_state.
  destruct (decide (PreparedRecord.expected_after_hash p = FILE_DELETED_SENTINEL)) as [He|He];
    destruct (PreparedRecord.before_hash p) as [b|]; intros Hne; try done.
  - by rewrite decide_False by congruence; rewrite ?decide_True.
  - by rewrite decide_True.
Qed.

Lemma counter_holds_same n w w' :
  w_sd w' !! counter_path = w_sd w !! counter_path → counter_holds n w → counter_holds n w'.
Proof. unfold counter_holds. by intros ->. Qed.

Section recovery.
Context `{Env} `{Sha256Laws} `{HashIterLaws}
        `{JsonCodecLaws AnyOperationRecord} `{JsonCodecLaws RequestLogLine}.

Definition aborted_rec (id : string) (now : N) : AnyOperationRecord :=
  AnyOperationRecord.Aborted (AbortedRecord.Mk id now).

Definition drop_marker (id : string) (m : memory) : memory :=
  set_records (retain (λ r, negb (has_id id r && is_prepared r)) (records m)) m.

Lemma drop_prepared_wp id w rs ls Φ :
  logs w rs ls →
  (∀ w' now, changed operations_path (drop_marker id) w w' →
     logs w' (rs ++ [aborted_rec id now]) ls → Φ (Returned tt) w') →
  (∀ o w' now, faulty o → changed operations_path (drop_marker id) w w' →
     torn_ops w' rs (aborted_rec id now) ls → Φ o w') →
  wp (drop_prepared id) w Φ.
Proof.
  intros Hl HR HF. unfold drop_prepared.
  apply wp_bind, wp_put_mem, wp_bind, wp_now_ms. intros now.
  apply (append_any_record_wp _ _ rs ls); [done|..].
  - intros w' (Hf & Hm & Hs) Hl'. apply (HR _ now); [|done]. by split_and!.
  - intros o w' Ho (Hf & Hm & Hs) Ht. apply (HF _ _ now); [done| |done]. by split_and!.
Qed.

Context (ws : Workspace) (prep : PreparedRecord) (op : string).
Context (told tnew : tree → Prop).
Context (Hdec : decidable_marker ws prep told tnew).
Context (Hexec : op ≠ "exec").

Abbreviation rid := (PreparedRecord.request_id prep).
Abbreviation id := (PreparedRecord.operation_id prep).
Abbreviation doubt := (in_doubt prep op told tnew).

(** The tables in memory, before the stuck requests are looked at. *)
Definition calm_but_rid (m : memory) : Prop :=
  others_calm prep (requests m).

(** ** The stuck request *)

Lemma settle_old_wp n w rs ls Φ :
  logs w rs ls → counter_holds n w →
  others_calm prep (requests_of_log ls) → calm_but_rid (w_mem w) →
  settled_old prep op told (index_records rs) (requests_of_log ls) (w_fs w) →
  find_committed_by_request_id (w_mem w) rid = None →
  requests (w_mem w) !! rid = None ∨ requests (w_mem w) !! rid = Some (claimed op) →
  (∀ acts w', settled prep told tnew w' → doubt n w' → w_fs w' = w_fs w →
     Φ (Returned acts) w') →
  wp (collect (stuck_requests (requests (w_mem w))) recover_stuck) w Φ.
Proof.
  intros Hl Hc Hcalm Hcm Hold Hno Hq HR.
  assert (∀ w', w_fs w' = w_fs w → w_sd w' = w_sd w → doubt n w') as Hdoubt.
  { intros w' Hf Hs. destruct (logs_loads _ _ _ Hl) as [Ho Hr].
    exists rs, ls. split_and!.
    - unfold loadable, content in *. by rewrite Hs.
    - unfold loadable, content in *. by rewrite Hs.
    - by apply (counter_holds_same _ w); [rewrite Hs|].
    - rewrite Hf. split; [done|by left]. }
  destruct Hq as [Hq'|Hq']; cycle 1.
  - rewrite (stuck_requests_one _ rid (claimed op)) by done. cbn [collect].
    apply wp_bind. unfold recover_stuck. cbn [RequestEntry.op claimed].
    apply wp_bind, wp_get_mem. rewrite Hno.
    rewrite decide_False by congruence. rewrite decide_False by done.
    apply wp_bind, wp_put_mem, wp_ret, wp_bind, wp_ret, wp_ret, HR; [|by apply Hdoubt|done].
    left. split_and!; [apply Hold|apply lookup_delete_eq|done].
  - rewrite stuck_requests_nil.
    { apply wp_ret, HR; [|by apply Hdoubt|done]. left. split_and!; [apply Hold|done|done]. }
    intros k e Hk. destruct (decide (k = rid)) as [->|Hne]; [|by eapply Hcm].
    by rewrite Hq' in Hk.
Qed.

Lemma settle_new_wp n w rs ls now Φ :
  logs w rs ls → counter_holds n w →
  others_calm prep (requests_of_log ls) → calm_but_rid (w_mem w) →
  settled_new prep op tnew (index_records rs) (requests_of_log ls) (w_fs w) →
  find_committed_by_request_id (w_mem w) rid
    = Some (AnyOperationRecord.Fs (record_of_prepared prep now)) →
  find_record (w_mem w) id = Some (AnyOperationRecord.Fs (record_of_prepared prep now)) →
  (requests (w_mem w) !! rid = Some (claimed op) ∨
   requests (w_mem w) !! rid = Some (done_entry (answer_of prep))) →
  (∀ acts w', settled prep told tnew w' → doubt n w' → w_fs w' = w_fs w →
     Φ (Returned acts) w') →
  (∀ o w', faulty o → doubt n w' → w_fs w' = w_fs w → Φ o w') →
  wp (collect (stuck_requests (requests (w_mem w))) recover_stuck) w Φ.
Proof.
  intros Hl Hc Hcalm Hcm Hnew Hfound Hrec Hq HR HF.
  assert (∀ w' ls', loads w' rs ls' → w_fs w' = w_fs w →
    w_sd w' !! counter_path = w_sd w !! counter_path →
    ls' = ls ∨ ls' = ls ++ [done_line rid (answer_of prep)] → doubt n w') as Hdoubt.
  { intros w' ls' [Ho Hr] Hf Hs Hls. exists rs, ls'. split_and!; [done|done| |].
    - by apply (counter_holds_same _ w).
    - rewrite Hf. destruct Hls as [-> | ->]; [split; [done|by do 2 right]|].
      rewrite requests_of_log_snoc. cbn. split.
      + intros k e Hne. rewrite lookup_insert_ne by done. by apply Hcalm.
      + do 2 right. destruct Hnew as (Hn1 & Hn2 & Hn3 & Hn4 & _). split_and!; [done..|].
        right. by rewrite lookup_insert_eq. }
  destruct Hq as [Hq|Hq].
  - rewrite (stuck_requests_one _ rid (claimed op)) by done. cbn [collect].
    apply wp_bind. unfold recover_stuck. apply wp_bind, wp_get_mem. rewrite Hfound.
    cbn [reconstruct_result]. rewrite reconstruct_answer.
    apply wp_bind, (remember_result_wp _ _ _ rs ls); [done|..].
    + intros w' (Hf & Hm & Hs) Hl'. apply wp_ret, wp_bind, wp_ret, wp_ret, HR; [| |done].
      * right. split_and!; [by rewrite Hf; apply Hnew| |].
        -- rewrite Hm. apply lookup_insert_eq.
        -- exists now. by rewrite Hm.
      * eapply Hdoubt; [by apply logs_loads|done|by apply Hs|by right].
    + intros o w' Ho (Hf & Hm & Hs) Ht.
      assert (doubt n w').
      { apply torn_reqs_loads in Ht as [Ht|Ht]; (eapply Hdoubt; [done|done|by apply Hs|auto]). }
      destruct o as [a|e|]; [done|by apply HF..].
  - rewrite stuck_requests_nil.
    { apply wp_ret, HR; [right; split_and!; [apply Hnew|done|by exists now]| |done].
      eapply Hdoubt; [by apply logs_loads|done|done|by left]. }
    intros k e Hk. destruct (decide (k = rid)) as [->|Hne]; [|by eapply Hcm].
    rewrite Hq in Hk. by simplify_eq.
Qed.

(** ** The marker *)

(** The mutation is settled in the logs and in the tables; the stuck request
    is what is left to look at. *)
Definition ready (n : N) (w : world) : Prop :=
  ∃ rs ls, logs w rs ls ∧ counter_holds n w ∧ others_calm prep (requests_of_log ls) ∧
    requests (w_mem w) = requests_of_log ls ∧
    ((settled_old prep op told (index_records rs) (requests_of_log ls) (w_fs w) ∧
      find_committed_by_request_id (w_mem w) rid = None) ∨
     (settled_new prep op tnew (index_records rs) (requests_of_log ls) (w_fs w) ∧
      ∃ now, let r := AnyOperationRecord.Fs (record_of_prepared prep now) in
        find_committed_by_request_id (w_mem w) rid = Some r ∧
        find_record (w_mem w) id = Some r)).

Lemma settle_wp n w Φ :
  ready n w →
  (∀ acts w', settled prep told tnew w' → doubt n w' → w_fs w' = w_fs w →
     Φ (Returned acts) w') →
  (∀ o w', faulty o → doubt n w' → w_fs w' = w_fs w → Φ o w') →
  wp (collect (stuck_requests (requests (w_mem w))) recover_stuck) w Φ.
Proof.
  intros (rs & ls & Hl & Hc & Hcalm & Hreq & Hcase) HR HF.
  assert (calm_but_rid (w_mem w)) by (unfold calm_but_rid; by rewrite Hreq).
  destruct Hcase as [[Hold Hno]|(Hnew & now & Hfc & Hfr)].
  - eapply settle_old_wp; try done. rewrite Hreq. apply Hold.
  - eapply settle_new_wp; try done. rewrite Hreq. apply Hnew.
Qed.

Lemma committed_for_record now :
  committed_for rid (AnyOperationRecord.Fs (record_of_prepared prep now)) = true.
Proof. unfold committed_for. cbn. by apply bool_decide_eq_true. Qed.

Lemma record_of_prepared_found now :
  has_id id (AnyOperationRecord.Fs (record_of_prepared prep now))
    && AnyOperationRecord.is_committed (AnyOperationRecord.Fs (record_of_prepared prep now))
  = true.
Proof. apply andb_true_iff. by split; [apply bool_decide_eq_true|]. Qed.

Lemma not_committed_log rs r :
  none_committed prep (index_records rs) → r ∈ records_of_log rs →
  committed_for rid r = false.
Proof. intros Hno Hin%elem_of_records_of_log. by eapply Hno. Qed.

(** What the log says is what the tables made of it say. *)
Lemma loaded_ready n w rs ls :
  logs w rs ls → counter_holds n w → others_calm prep (requests_of_log ls) →
  records (w_mem w) = records_of_log rs → requests (w_mem w) = requests_of_log ls →
  settled_old prep op told (index_records rs) (requests_of_log ls) (w_fs w) ∨
  settled_new prep op tnew (index_records rs) (requests_of_log ls) (w_fs w) →
  ready n w.
Proof.
  intros Hl Hc Hcalm Hrec Hreq Hcase. exists rs, ls. split_and!; [done..|].
  destruct Hcase as [Hold|Hnew]; [left|right]; (split; [done|]).
  - rewrite find_committed_spec, Hrec. apply find_first_None.
    intros r Hr. eapply not_committed_log; [apply Hold|done].
  - destruct Hnew as (_ & [now Hnow] & Huniq & _). exists now.
    pose proof (index_records_id _ _ _ Hnow) as Hid.
    assert (AnyOperationRecord.Fs (record_of_prepared prep now) ∈ records_of_log rs) as Hin.
    { apply elem_of_records_of_log. by rewrite Hid. }
    rewrite find_committed_spec. unfold find_record. rewrite Hrec. split.
    + apply find_first_unique; [done|apply committed_for_record|].
      intros r Hr%elem_of_records_of_log Hcr. rewrite (Huniq _ _ Hr Hcr) in Hr. congruence.
    + apply find_first_unique; [done|by apply record_of_prepared_found|].
      intros r Hr%elem_of_records_of_log [Hh%bool_decide_eq_true _]%andb_true_iff.
      rewrite Hh in Hr. congruence.
Qed.

(** Appending [Aborted] turns the doubt into the old state. *)
Lemma aborted_settles rs ls now t :
  told t → doubtful prep op told tnew (index_records rs) (requests_of_log ls) t →
  settled_old prep op told (index_records (rs ++ [aborted_rec id now])) (requests_of_log ls) t.
Proof.
  intros Ht (Hp & Hothers & Hno & Hq & _). rewrite index_records_snoc. cbn. split_and!; [| |done|auto].
  - intros i p. destruct (decide (i = id)) as [->|Hne];
      [by rewrite lookup_insert_eq|rewrite lookup_insert_ne by done; by apply Hothers].
  - intros i r. destruct (decide (i = id)) as [->|Hne];
      [rewrite lookup_insert_eq; by intros [= <-]|rewrite lookup_insert_ne by done; apply Hno].
Qed.

(** Appending the commit turns it into the new one. *)
Lemma commit_settles rs Q now t :
  tnew t → doubtful prep op told tnew (index_records rs) Q t →
  ∀ Q', Q' !! rid = Q !! rid ∨ Q' !! rid = Some (done_entry (answer_of prep)) →
  settled_new prep op tnew
    (index_records (rs ++ [AnyOperationRecord.Fs (record_of_prepared prep now)])) Q' t.
Proof.
  intros Ht (Hp & Hothers & Hno & Hq & _) Q' HQ.
  rewrite index_records_snoc. cbn. split_and!; [| | |done|].
  - intros i p. destruct (decide (i = id)) as [->|Hne];
      [by rewrite lookup_insert_eq|rewrite lookup_insert_ne by done; by apply Hothers].
  - exists now. by rewrite lookup_insert_eq.
  - intros i r. destruct (decide (i = id)) as [->|Hne]; [done|].
    rewrite lookup_insert_ne by done. intros Hr Hcr. by rewrite (Hno _ _ Hr) in Hcr.
  - destruct HQ as [-> | ->]; auto.
Qed.

Lemma doubt_intro n w rs ls :
  loads w rs ls → counter_holds n w → others_calm prep (requests_of_log ls) →
  settled_old prep op told (index_records rs) (requests_of_log ls) (w_fs w) ∨
  doubtful prep op told tnew (index_records rs) (requests_of_log ls) (w_fs w) ∨
  settled_new prep op tnew (index_records rs) (requests_of_log ls) (w_fs w) →
  doubt n w.
Proof. intros [Ho Hr] Hc Hcalm Hcase. by exists rs, ls. Qed.

Lemma doubtful_told_wp n w rs ls Φ :
  logs w rs ls → counter_holds n w → others_calm prep (requests_of_log ls) →
  records (w_mem w) = records_of_log rs → requests (w_mem w) = requests_of_log ls →
  doubtful prep op told tnew (index_records rs) (requests_of_log ls) (w_fs w) →
  told (w_fs w) →
  (∀ w', ready n w' → w_fs w' = w_fs w → Φ (Returned tt) w') →
  (∀ o w', faulty o → doubt n w' → w_fs w' = w_fs w → Φ o w') →
  wp (drop_prepared id) w Φ.
Proof.
  intros Hl Hc Hcalm Hrec Hreq Hd Ht HR HF.
  apply (drop_prepared_wp _ _ rs ls); [done|..].
  - intros w' now (Hf & Hm & Hs) Hl'. apply HR; [|done].
    assert (settled_old prep op told (index_records (rs ++ [aborted_rec id now]))
      (requests_of_log ls) (w_fs w')) as Hold.
    { rewrite Hf. by apply aborted_settles. }
    exists (rs ++ [aborted_rec id now]), ls. split_and!; [done| |done|by rewrite Hm|left; split; [done|]].
    + apply (counter_holds_same _ w); [by apply Hs|done].
    + rewrite find_committed_spec, Hm. apply find_first_None. cbn. rewrite Hrec.
      intros r [_ Hr]%elem_of_retain. eapply not_committed_log; [apply Hd|done].
  - intros o w' now Ho (Hf & Hm & Hs) Ht'. apply HF; [done| |done].
    assert (counter_holds n w') as Hc' by (apply (counter_holds_same _ w); [by apply Hs|done]).
    apply torn_ops_loads in Ht' as [Ht'|Ht']; (eapply doubt_intro; [done..|]); rewrite Hf.
    + by right; left.
    + left. by apply aborted_settles.
Qed.

Lemma doubtful_new_wp n w rs ls Φ :
  logs w rs ls → counter_holds n w → others_calm prep (requests_of_log ls) →
  records (w_mem w) = records_of_log rs → requests (w_mem w) = requests_of_log ls →
  doubtful prep op told tnew (index_records rs) (requests_of_log ls) (w_fs w) →
  tnew (w_fs w) →
  (∀ w', ready n w' → w_fs w' = w_fs w → Φ (Returned tt) w') →
  (∀ o w', faulty o → doubt n w' → w_fs w' = w_fs w → Φ o w') →
  wp (synthesize_commit prep) w Φ.
Proof.
  intros Hl Hc Hcalm Hrec Hreq Hd Ht HR HF. unfold synthesize_commit.
  apply wp_bind, wp_now_ms. intros now.
  set (r := AnyOperationRecord.Fs (record_of_prepared prep now)).
  assert (∀ Q' t, tnew t →
    Q' !! rid = requests_of_log ls !! rid ∨ Q' !! rid = Some (done_entry (answer_of prep)) →
    settled_new prep op tnew (index_records (rs ++ [r])) Q' t) as Hnew.
  { intros Q' t Ht'. apply commit_settles; [done|].
    destruct Hd as (?&?&?&?&?). split_and!; auto. }
  apply wp_bind, (append_any_record_wp _ _ rs ls); [done|..].
  2: { intros o w1 Ho (Hf1 & Hm1 & Hs1) Ht1.
       assert (counter_holds n w1) as Hc1 by (apply (counter_holds_same _ w); [by apply Hs1|done]).
       assert (doubt n w1).
       { apply torn_ops_loads in Ht1 as [Ht1|Ht1]; (eapply doubt_intro; [done..|]); rewrite Hf1.
         - by right; left.
         - right; right. apply Hnew; auto. }
       destruct o as [a|e|]; [done|by apply HF..]. }
  intros w1 (Hf1 & Hm1 & Hs1) Hl1.
  assert (counter_holds n w1) as Hc1 by (apply (counter_holds_same _ w); [by apply Hs1|done]).
  apply wp_bind, wp_put_mem. rewrite reconstruct_answer.
  apply (remember_result_wp _ _ _ (rs ++ [r]) ls); [done|..].
  - intros w2 (Hf2 & Hm2 & Hs2) Hl2. apply HR; [|by rewrite Hf2; cbn].
    exists (rs ++ [r]), (ls ++ [done_line rid (answer_of prep)]).
    assert (requests_of_log (ls ++ [done_line rid (answer_of prep)]) =
      <[rid := done_entry (answer_of prep)]> (requests_of_log ls)) as HQ
      by apply requests_of_log_snoc.
    split_and!; [done| | | |right; split].
    + apply (counter_holds_same _ w1); [by apply Hs2|done].
    + rewrite HQ. intros k e Hne. rewrite lookup_insert_ne by done. by apply Hcalm.
    + rewrite HQ, Hm2. cbn. by rewrite Hm1, Hreq.
    + rewrite HQ, Hf2. cbn. rewrite Hf1. apply Hnew; [done|right; apply lookup_insert_eq].
    + exists now. fold r. rewrite find_committed_spec. unfold find_record. rewrite Hm2. cbn.
      rewrite Hm1, Hrec. split.
      * apply find_first_unique; [|apply committed_for_record|].
        { apply elem_of_replaced. by apply bool_decide_eq_true. }
        intros y [Hy| ->]%elem_of_replace_or_push Hcy; [|done].
        rewrite (not_committed_log rs) in Hcy; [done|apply Hd|done].
      * apply find_first_replace_or_push; [apply record_of_prepared_found|].
        by intros x [Hx _]%andb_true_iff.
  - intros o w2 Ho (Hf2 & Hm2 & Hs2) Ht2. apply HF; [done| |by rewrite Hf2; cbn].
    assert (counter_holds n w2) as Hc2 by (apply (counter_holds_same _ w1); [by rewrite Hs2|done]).
    apply torn_reqs_loads in Ht2 as [Ht2|Ht2]; (eapply doubt_intro; [done|done| |]);
      rewrite ?Hf2; cbn; rewrite ?Hf1, ?requests_of_log_snoc; cbn.
    + done.
    + right; right. apply Hnew; auto.
    + intros k e Hne. rewrite lookup_insert_ne by done. by apply Hcalm.
    + right; right. apply Hnew; [done|right; apply lookup_insert_eq].
Qed.

(** ** The restart *)

Lemma recover_marker_wp n w rs ls Φ :
  logs w rs ls → counter_holds n w → others_calm prep (requests_of_log ls) →
  records (w_mem w) = records_of_log rs → requests (w_mem w) = requests_of_log ls →
  doubtful prep op told tnew (index_records rs) (requests_of_log ls) (w_fs w) →
  (∀ a w', ready n w' → w_fs w' = w_fs w → Φ (Returned a) w') →
  (∀ o w', faulty o → doubt n w' → w_fs w' = w_fs w → Φ o w') →
  wp (recover_prepared ws prep) w Φ.
Proof.
  intros Hl Hc Hcalm Hrec Hreq Hd HR HF. destruct Hdec as (Hold & Hnew & Hne).
  assert (told (w_fs w) ∨ tnew (w_fs w)) as Hcase by apply Hd.
  assert (∃ abs h, resolve (w_fs w) ws (PreparedRecord.path prep) = Ok abs ∧
    hash_of (w_fs w) abs = Ok h ∧
    ((told (w_fs w) ∧ h = PreparedRecord.before_hash prep) ∨
     (tnew (w_fs w) ∧ h = after_state prep))) as (abs & h & Hr & Hh & Hside).
  { destruct Hcase as [Ht|Ht]; [destruct (Hold _ Ht) as (abs&?&?)
                               |destruct (Hnew _ Ht) as (abs&?&?)]; eauto 10. }
  unfold recover_prepared. apply wp_bind, wp_get_fs. rewrite Hr.
  apply wp_bind, wp_map_raise, hash_file_wp; rewrite ?Hh; [|done|].
  2: { intros o w1 Ho (Hf1 & Hs1 & Hm1).
       assert (doubt n w1).
       { eapply doubt_intro; [by eapply logs_loads, logs_same_sd| |done|].
         - by eapply counter_holds_same; [by rewrite Hs1|].
         - rewrite Hf1. by right; left. }
       destruct o as [a|e|]; [done|by apply HF..]. }
  intros h' w1 [= <-] (Hf1 & Hs1 & Hm1).
  assert (logs w1 rs ls) as Hl1 by by eapply logs_same_sd.
  assert (counter_holds n w1) as Hc1 by by eapply counter_holds_same; [by rewrite Hs1|].
  destruct Hside as [[Ht ->]|[Ht ->]].
  - rewrite recovery_outcome_old. apply wp_bind.
    apply (doubtful_told_wp n _ rs ls); rewrite ?Hf1, ?Hm1; [done..| |].
    + intros w2 Hrd Hf2. by apply wp_ret, HR.
    + intros o w2 Ho Hdb Hf2. destruct o; [done|by apply HF..].
  - rewrite recovery_outcome_new by done. apply wp_bind.
    apply (doubtful_new_wp n _ rs ls); rewrite ?Hf1, ?Hm1; [done..| |].
    + intros w2 Hrd Hf2. by apply wp_ret, HR.
    + intros o w2 Ho Hdb Hf2. destruct o; [done|by apply HF..].
Qed.

Lemma recover_wp n w rs ls Φ :
  logs w rs ls → counter_holds n w →
  records (w_mem w) = records_of_log rs → requests (w_mem w) = requests_of_log ls →
  in_doubt_tables prep op told tnew (index_records rs) (requests_of_log ls) (w_fs w) →
  (∀ acts w', settled prep told tnew w' → doubt n w' → w_fs w' = w_fs w →
     Φ (Returned acts) w') →
  (∀ o w', faulty o → doubt n w' → w_fs w' = w_fs w → Φ o w') →
  wp (recover ws) w Φ.
Proof.
  intros Hl Hc Hrec Hreq [Hcalm Hcase] HR HF.
  unfold recover. apply wp_bind, wp_get_mem. rewrite Hrec.
  assert (∀ resolved w1, ready n w1 → w_fs w1 = w_fs w →
    wp (m' ← get_mem; cleared ← collect (stuck_requests (requests m')) recover_stuck;
        mret (resolved ++ cleared)) w1 Φ) as Hrest.
  { intros resolved w1 Hrd Hf1. apply wp_bind, wp_get_mem, wp_bind, (settle_wp n); [done|..].
    - intros acts w2 Hs Hd Hf2. apply wp_ret, HR; [done|done|congruence].
    - intros o w2 Ho Hd Hf2. destruct o; [done|apply HF; [done|done|congruence]..]. }
  assert (settled_old prep op told (index_records rs) (requests_of_log ls) (w_fs w) ∨
    settled_new prep op tnew (index_records rs) (requests_of_log ls) (w_fs w) ∨
    doubtful prep op told tnew (index_records rs) (requests_of_log ls) (w_fs w))
    as [Hs|[Hs|Hd]] by tauto.
  1,2: rewrite prepareds_nil by apply Hs; apply wp_bind, wp_ret, Hrest; [|done];
    by apply (loaded_ready _ _ rs ls); auto.
  rewrite (prepareds_one rs prep) by apply Hd. cbn [collect].
  apply wp_bind, wp_bind, (recover_marker_wp n _ rs ls); [done..| |].
  - intros a w1 Hrd Hf1. apply wp_bind, wp_ret, wp_ret. by apply Hrest.
  - intros o w1 Ho Hdb Hf1. destruct o; [done|by apply HF..].
Qed.

Lemma restart_wp n w Φ :
  doubt n w →
  (∀ acts w', settled prep told tnew w' → doubt n w' → w_fs w' = w_fs w →
     Φ (Returned acts) w') →
  (∀ o w', faulty o → doubt n w' → w_fs w' = w_fs w → Φ o w') →
  wp (OperationStore_new ;; recover ws) w Φ.
Proof.
  intros (rs & ls & Ho & Hr & Hc & Htab) HR HF.
  apply wp_bind, (OperationStore_new_wp n w rs ls); [done|done|..].
  - intros w1 Hl1 Hf1 Hc1 Hm1. apply (recover_wp n _ rs ls); rewrite ?Hm1, ?Hf1; try done.
  - intros o w1 Ho1 Hl1 Hf1 Hc1. assert (doubt n w1).
    { destruct Htab as [Hcalm Hcase]. eapply doubt_intro; [done..|].
      rewrite Hf1. destruct Hcase as [?|[?|?]]; auto. }
    destruct o; [done|by apply HF..].
Qed.
End recovery.
