(* ===== verification/PruneSpec.v ===== *)
(** * PruneSpec: what pruning keeps

    Specifications and properties of [Prune.v], in any environment: what is
    kept and dropped, what a run that stops half way leaves behind, and what a
    start reads back. *)

From S2P Require Import Prelude Text Protocol World Fs Hash Workspace Jsonl Store StoreSpec.
From S2P Require Import Prune Recovery Crash.

Section prune.
Context `{Env} `{HashIter} `{JsonCodec AnyOperationRecord} `{JsonCodec RequestLogLine}.

(** ** The split of the records *)

(** The newest [keep] records, and the others. *)
Definition newest (keep : N) (rs : list AnyOperationRecord) : list AnyOperationRecord :=
  drop (length rs - N.to_nat keep) rs.
Definition older (keep : N) (rs : list AnyOperationRecord) : list AnyOperationRecord :=
  take (length rs - N.to_nat keep) rs.

Lemma saturating_length keep (rs : list AnyOperationRecord) :
  N.to_nat (saturating_sub (lenN rs) keep) = length rs - N.to_nat keep.
Proof. unfold saturating_sub, lenN. lia. Qed.

(** The blobs of a record. *)
Definition blob_of (r : AnyOperationRecord) (name : string) : Prop :=
  ∃ suffix, suffix ∈ ["before"; "stdout"; "stderr"] ∧
    name = blob_path (AnyOperationRecord.operation_id r) suffix.

(** The tables after a prune. *)
Definition pruned (keep : N) (m : memory) : memory :=
  set_requests (retain_requests (newest keep (records m)) (requests m))
    (set_records (newest keep (records m)) m).

(** The state files a prune does not touch. *)
Definition spared (keep : N) (m : memory) (name : string) : Prop :=
  name ∉ [counter_path; operations_path; requests_path] ∧
  ∀ r, r ∈ older keep (records m) → ¬ blob_of r name.

(** ** Removing the blobs *)

(** [w'] is [w] without some files of which [P] holds. *)
Definition only_removed (P : string → Prop) (w w' : world) : Prop :=
  w_fs w' = w_fs w ∧ w_mem w' = w_mem w ∧
  ∀ name, w_sd w' !! name = w_sd w !! name ∨ (P name ∧ w_sd w' !! name = None).

Lemma only_removed_refl P w : only_removed P w w.
Proof. split_and!; auto. Qed.

Lemma only_removed_trans P w1 w2 w3 :
  only_removed P w1 w2 → only_removed P w2 w3 → only_removed P w1 w3.
Proof.
  intros (Hf1 & Hm1 & Hs1) (Hf2 & Hm2 & Hs2). split_and!; [congruence..|].
  intros name. destruct (Hs2 name) as [->|]; [apply Hs1|auto].
Qed.

Lemma only_removed_mono (P Q : string → Prop) w w' :
  (∀ name, P name → Q name) → only_removed P w w' → only_removed Q w w'.
Proof.
  intros HPQ (Hf & Hm & Hs). split_and!; [done..|]. intros name. destruct (Hs name); naive_solver.
Qed.

Lemma remove_blob_wp id suffix w Φ :
  (∀ w', only_removed (λ name, name = blob_path id suffix) w w' →
     w_sd w' !! blob_path id suffix = None → Φ (Returned tt) w') →
  (∀ o w', faulty o → only_removed (λ name, name = blob_path id suffix) w w' → Φ o w') →
  wp (remove_blob id suffix) w Φ.
Proof.
  intros HR HF. unfold remove_blob, sd_remove. apply wp_bind, wp_attempt, wp_sys.
  - intros [] w' Ha. apply result_bind_Ok in Ha as (b & Hb & ?). simplify_eq/=.
    apply wp_ret, HR; cbn; [|by rewrite lookup_delete_eq].
    split_and!; [done..|]. intros name. cbn.
    destruct (decide (name = blob_path id suffix)) as [->|];
      [right; by rewrite lookup_delete_eq|left; by rewrite lookup_delete_ne].
  - intros e Ha. cbn in Ha. destruct (w_sd w !! blob_path id suffix) eqn:Hb; [done|].
    simplify_eq/=.
    apply wp_ret, HR; [split_and!; auto|done].
  - intros text Hf. apply wp_raise, HF; [done|]. split_and!; auto.
  - intros Hf. apply HF; [done|]. split_and!; auto.
Qed.

Lemma remove_blobs_wp r w Φ :
  (∀ w', only_removed (blob_of r) w w' →
     (∀ name, blob_of r name → w_sd w' !! name = None) → Φ (Returned tt) w') →
  (∀ o w', faulty o → only_removed (blob_of r) w w' → Φ o w') →
  wp (remove_blobs r) w Φ.
Proof.
  intros HR HF. set (id := AnyOperationRecord.operation_id r).
  apply (for_each_wp (λ done_ w', only_removed (blob_of r) w w' ∧
    ∀ suffix, suffix ∈ done_ → w_sd w' !! blob_path id suffix = None)).
  - intros l1 x l2 w1 Hl [Hw1 Hgone].
    assert (∀ name, name = blob_path id x → blob_of r name) as Hblob.
    { intros name ->. exists x. rewrite Hl. set_solver. }
    apply remove_blob_wp.
    + intros w2 Hw2 Hx. split.
      { exact (only_removed_trans _ _ _ _ Hw1 (only_removed_mono _ _ _ _ Hblob Hw2)). }
      intros suffix [Hs|Hs%list_elem_of_singleton]%elem_of_app; [|by subst].
      destruct Hw2 as (_ & _ & Hs2). destruct (Hs2 (blob_path id suffix)) as [->|[_ ?]]; auto.
    + intros o w2 Ho Hw2. destruct o as [a|e|]; [done|..];
        (apply HF; [done|]; exact (only_removed_trans _ _ _ _ Hw1 (only_removed_mono _ _ _ _ Hblob Hw2))).
  - split; [apply only_removed_refl|]. set_solver.
  - intros w' [Hw' Hgone]. apply HR; [done|]. intros name (suffix & Hs & ->). by apply Hgone.
Qed.

Lemma remove_all_blobs_wp rs w Φ :
  (∀ w', only_removed (λ name, ∃ r, r ∈ rs ∧ blob_of r name) w w' →
     (∀ r name, r ∈ rs → blob_of r name → w_sd w' !! name = None) → Φ (Returned tt) w') →
  (∀ o w', faulty o → only_removed (λ name, ∃ r, r ∈ rs ∧ blob_of r name) w w' → Φ o w') →
  wp (for_each rs remove_blobs) w Φ.
Proof.
  intros HR HF. set (P name := ∃ r, r ∈ rs ∧ blob_of r name).
  apply (for_each_wp (λ done_ w', only_removed P w w' ∧
    ∀ r name, r ∈ done_ → blob_of r name → w_sd w' !! name = None)).
  - intros l1 x l2 w1 Hl [Hw1 Hgone].
    assert (∀ name, blob_of x name → P name) as Hblob.
    { intros name Hn. exists x. split; [rewrite Hl; set_solver|done]. }
    apply remove_blobs_wp.
    + intros w2 Hw2 Hx. split.
      { exact (only_removed_trans _ _ _ _ Hw1 (only_removed_mono _ _ _ _ Hblob Hw2)). }
      intros r name [Hr| ->%list_elem_of_singleton]%elem_of_app Hn; [|by apply Hx].
      destruct Hw2 as (_ & _ & Hs2). destruct (Hs2 name) as [->|[_ ?]]; [by eapply Hgone|done].
    + intros o w2 Ho Hw2. destruct o as [a|e|]; [done|..];
        (apply HF; [done|]; exact (only_removed_trans _ _ _ _ Hw1 (only_removed_mono _ _ _ _ Hblob Hw2))).
  - split; [apply only_removed_refl|]. set_solver.
  - intros w' [Hw' Hgone]. by apply HR.
Qed.

(** ** The whole pruning *)

(** The workspace, the tables and every spared state file, after a prune
    that ended in any way. *)
Definition prune_frame (keep : N) (w w' : world) : Prop :=
  w_fs w' = w_fs w ∧ w_mem w' = pruned keep (w_mem w) ∧
  ∀ name, spared keep (w_mem w) name → w_sd w' !! name = w_sd w !! name.

(** The logs name exactly what is kept, and the counter file the next id. *)
Definition prune_logs (keep : N) (w w' : world) : Prop :=
  content operations_path w' = lines (newest keep (records (w_mem w))) ∧
  content requests_path w' =
    lines (request_lines (requests (pruned keep (w_mem w)))) ∧
  w_sd w' !! counter_path = Some (as_bytes (pretty (next_id (w_mem w))) ++ [nl]).

(** No blob of a dropped record is left. *)
Definition prune_blobs_gone (keep : N) (w w' : world) : Prop :=
  ∀ r name, r ∈ older keep (records (w_mem w)) → blob_of r name → w_sd w' !! name = None.

(** Where a prune can stop: before the operation log is replaced no blob is
    touched; afterwards the log names the kept records only. *)
Definition prune_stopped (keep : N) (w w' : world) : Prop :=
  (∀ name, name ≠ counter_path → content name w' = content name w) ∨
  content operations_path w' = lines (newest keep (records (w_mem w))) ∧
  (content requests_path w' = content requests_path w ∨
   content requests_path w' = lines (request_lines (requests (pruned keep (w_mem w))))).

Lemma spared_frame keep w w1 w2 name :
  prune_frame keep w w1 → only_sd name w1 w2 →
  name ∈ [counter_path; operations_path; requests_path] → prune_frame keep w w2.
Proof.
  intros (Hf & Hm & Hs) (Hf' & Hm' & Hs') Hn. split_and!; [congruence..|].
  intros n Hsp. rewrite Hs'; [by apply Hs|]. intros ->. by destruct Hsp.
Qed.

Lemma removed_frame keep w w1 w2 :
  prune_frame keep w w1 →
  only_removed (λ name, ∃ r, r ∈ older keep (records (w_mem w)) ∧ blob_of r name) w1 w2 →
  prune_frame keep w w2.
Proof.
  intros (Hf & Hm & Hs) (Hf' & Hm' & Hs'). split_and!; [congruence..|].
  intros n Hsp. destruct (Hs' n) as [->|[(r & Hr & Hb) _]]; [by apply Hs|].
  destruct Hsp as [_ Hsp]. by destruct (Hsp r Hr).
Qed.

Lemma removed_keeps (P : string → Prop) w1 w2 name :
  only_removed P w1 w2 → ¬ P name → w_sd w2 !! name = w_sd w1 !! name.
Proof. intros (_ & _ & Hs) Hn. by destruct (Hs name) as [?|[? _]]. Qed.

Lemma older_blob_not_log keep m name :
  name ∈ [operations_path; requests_path; counter_path] →
  ¬ ∃ r, r ∈ older keep (records m) ∧ blob_of r name.
Proof.
  intros Hn (r & _ & suffix & _ & ->).
  exact (blob_path_not_log (AnyOperationRecord.operation_id r) suffix _ Hn eq_refl).
Qed.

Lemma sync_wp name w (Φ : outcome ProtocolError unit → world → Prop) :
  (∀ w', w_fs w' = w_fs w → w_mem w' = w_mem w → w_sd w' = w_sd w → Φ (Returned tt) w') →
  (∀ o w', faulty o → w_fs w' = w_fs w → w_mem w' = w_mem w → w_sd w' = w_sd w → Φ o w') →
  wp (map_raise io_to_protocol (sd_sync name)) w Φ.
Proof. intros HR HF. unfold sd_sync. wp_go; [apply HR|apply HF..]; done. Qed.

(** The last steps: the blobs and their directory. *)
Lemma prune_blobs_wp {A} keep w w1 (stats : A) Φ :
  prune_frame keep w w1 → prune_logs keep w w1 →
  (∀ w', prune_frame keep w w' → prune_logs keep w w' → prune_blobs_gone keep w w' →
     Φ (Returned stats) w') →
  (∀ o w', faulty o → prune_frame keep w w' → prune_stopped keep w w' → Φ o w') →
  wp (for_each (older keep (records (w_mem w))) remove_blobs ;;
      map_raise io_to_protocol (sd_sync blobs_dir) ;; mret stats) w1 Φ.
Proof.
  intros Hfr Hl HR HF. set (P name := ∃ r, r ∈ older keep (records (w_mem w)) ∧ blob_of r name).
  assert (∀ w', only_removed P w1 w' → prune_logs keep w w') as Hlogs.
  { intros w' Hw'. unfold prune_logs, content in *.
    assert (∀ name, name ∈ [operations_path; requests_path; counter_path] →
      w_sd w' !! name = w_sd w1 !! name) as Hkeep.
    { intros name Hn. eapply removed_keeps; [exact Hw'|]. by apply older_blob_not_log. }
    by rewrite !Hkeep by set_solver. }
  assert (∀ w', prune_logs keep w w' → prune_stopped keep w w') as Hst.
  { intros w' (Ho & Hr & _). right. auto. }
  apply wp_bind, remove_all_blobs_wp.
  - intros w2 Hw2 Hgone. apply wp_bind, sync_wp.
    + intros w3 Hf Hm Hs. apply wp_ret, HR.
      * destruct (removed_frame _ _ _ _ Hfr Hw2) as (?&?&?). split_and!; [congruence..|].
        intros n. rewrite Hs. auto.
      * generalize (Hlogs _ Hw2). unfold prune_logs, content. by rewrite Hs.
      * intros r name. rewrite Hs. apply Hgone.
    + intros o w3 Ho Hf Hm Hs.
      assert (prune_frame keep w w3) as Hfr3.
      { destruct (removed_frame _ _ _ _ Hfr Hw2) as (?&?&?). split_and!; [congruence..|].
        intros n. rewrite Hs. auto. }
      assert (prune_logs keep w w3) as Hl3.
      { generalize (Hlogs _ Hw2). unfold prune_logs, content. by rewrite Hs. }
      destruct o as [a|e|]; [done|apply HF; auto..].
  - intros o w2 Ho Hw2. destruct o as [a|e|]; [done|..];
      (apply HF; [done|exact (removed_frame _ _ _ _ Hfr Hw2)|auto]).
Qed.

Definition prune_stats (keep : N) (m : memory) : PruneStats :=
  PruneStats.Mk (saturating_sub (lenN (records m)) keep)
    (N.of_nat (size (requests m)) - N.of_nat (size (requests (pruned keep m))))
    (lenN (newest keep (records m))).

Lemma prune_wp keep w Φ :
  (∀ w', prune_frame keep w w' → prune_logs keep w w' → prune_blobs_gone keep w w' →
     Φ (Returned (prune_stats keep (w_mem w))) w') →
  (∀ o w', faulty o → prune_frame keep w w' → prune_stopped keep w w' → Φ o w') →
  wp (prune keep) w Φ.
Proof.
  intros HR HF. unfold prune. apply wp_bind, wp_get_mem. rewrite saturating_length.
  change (drop _ (records (w_mem w))) with (newest keep (records (w_mem w))).
  change (take _ (records (w_mem w))) with (older keep (records (w_mem w))).
  apply wp_bind, wp_put_mem.
  match goal with |- wp _ ?w0 _ => assert (prune_frame keep w w0) as Hfr0 by done end.
  assert (∀ w', only_sd counter_path (set_mem (λ _, pruned keep (w_mem w)) w) w' →
    prune_frame keep w w' ∧ ∀ name, name ≠ counter_path → content name w' = content name w) as Hc.
  { intros w' Hw'. split; [by eapply spared_frame; [exact Hfr0|exact Hw'|set_solver]|].
    intros name Hn. by rewrite (content_only_sd _ _ _ _ Hw'). }
  apply wp_bind, wp_map_raise, sd_write_wp.
  2: { intros [a|e|] w1 Ho Hw1; [done|..]; destruct (Hc _ Hw1); (apply HF; [done|done|by left]). }
  intros w1 Hw1 Hcnt. destruct (Hc _ Hw1) as [Hfr1 Hold1].
  apply wp_bind, sync_wp.
  2: { intros o w2 Ho Hf Hm Hs.
       destruct (Hc w2) as [??]; [by etrans; [exact Hw1|split_and!; [..|intros; rewrite Hs]]|].
       destruct o as [a|e|]; [done|..]; (apply HF; [done|done|by left]). }
  intros w2 Hf2 Hm2 Hs2.
  destruct (Hc w2) as [Hfr2 Hold2]; [by etrans; [exact Hw1|split_and!; [..|intros; rewrite Hs2]]|].
  rewrite <- Hs2 in Hcnt. apply wp_bind, rewrite_jsonl_wp.
  2: { intros o w3 Ho Hw3 Hor. assert (prune_frame keep w w3) as Hfr3
         by (eapply spared_frame; [exact Hfr2|exact Hw3|set_solver]).
       assert (prune_stopped keep w w3) as Hst.
       { destruct Hor as [Hor|Hor]; [left|right].
         - intros name Hn. rewrite <- Hold2 by done. destruct (decide (name = operations_path)) as [->|];
             [done|by apply (content_only_sd _ _ _ _ Hw3)].
         - split; [done|left]. by rewrite (content_only_sd _ _ _ _ Hw3), Hold2. }
       destruct o as [a|e|]; [done|..]; (apply HF; done). }
  intros w3 Hw3 Hops. assert (prune_frame keep w w3) as Hfr3
    by (eapply spared_frame; [exact Hfr2|exact Hw3|set_solver]).
  assert (content requests_path w3 = content requests_path w) as Hreq3
    by (by rewrite (content_only_sd _ _ _ _ Hw3), Hold2).
  apply wp_bind, rewrite_jsonl_wp.
  2: { intros o w4 Ho Hw4 Hor. assert (prune_frame keep w w4) as Hfr4
         by (eapply spared_frame; [exact Hfr3|exact Hw4|set_solver]).
       assert (prune_stopped keep w w4) as Hst.
       { right. split; [by rewrite (content_only_sd _ _ _ _ Hw4)|].
         destruct Hor as [->|Hor]; [by left|by right]. }
       destruct o as [a|e|]; [done|..]; (apply HF; done). }
  intros w4 Hw4 Hreqs. apply (prune_blobs_wp keep w).
  - eapply spared_frame; [exact Hfr3|exact Hw4|set_solver].
  - split_and!; [by rewrite (content_only_sd _ _ _ _ Hw4)|done|].
    destruct Hw3 as (_ & _ & Hw3), Hw4 as (_ & _ & Hw4). by rewrite Hw4, Hw3.
  - apply HR.
  - apply HF.
Qed.

(** C22: Pruning, however it ends, leaves the workspace alone, drops all but the
    newest [keep] records from the tables with the requests only they named,
    and touches no other state file.  When it returns, the two logs, the
    counter and the blobs are those of what is kept; when it stops half way,
    no before-content has been removed while the log still held its record. *)
Theorem prune_keeps_newest keep w :
  let '(o, w') := prune keep w in
  prune_frame keep w w' ∧
  match o with
  | Returned stats =>
      stats = prune_stats keep (w_mem w) ∧ prune_logs keep w w' ∧ prune_blobs_gone keep w w'
  | _ => prune_stopped keep w w'
  end.
Proof.
  apply (wp_let (prune keep) w (λ o w', prune_frame keep w w' ∧ match o with
    | Returned stats => stats = prune_stats keep (w_mem w) ∧ prune_logs keep w w' ∧
        prune_blobs_gone keep w w' | _ => prune_stopped keep w w' end)), prune_wp; [done|].
  intros [a|e|] w' Ho ??; [done|split; done..].
Qed.

End prune.

(** ** Starting from the pruned logs *)

Section reading_back.
Context `{HashIterLaws}.

Lemma entry_of_line_of_entry id e : entry_of_line (line_of_entry id e) = e.
Proof. destruct e as [st [[m|err]|] op]; done. Qed.

Lemma line_of_entry_id id e : RequestLogLine.request_id (line_of_entry id e) = id.
Proof. unfold line_of_entry. by destruct (RequestEntry.result e) as [[]|]. Qed.

Lemma requests_of_log_lines (l : list (string * RequestEntry)) i e :
  NoDup l.*1 →
  requests_of_log ((λ '(id, e), line_of_entry id e) <$> l) !! i = Some e ↔ (i, e) ∈ l.
Proof.
  induction l as [|[i' e'] l IH] using rev_ind; intros Hnd; [set_solver|].
  rewrite fmap_app in Hnd. rewrite fmap_app. cbn in Hnd |- *.
  apply NoDup_app in Hnd as (Hnd & Hni & _). specialize (IH Hnd).
  rewrite requests_of_log_snoc, line_of_entry_id, entry_of_line_of_entry, elem_of_app,
    list_elem_of_singleton, lookup_insert_Some, IH.
  split; [naive_solver|]. intros [Hin|[= -> ->]]; [|by left]. right. split; [|done].
  intros ->. apply (Hni i); [|set_solver]. apply list_elem_of_fmap. by exists (i, e).
Qed.

(** The rewritten request log reads back as the table. *)
Lemma requests_of_request_lines reqs : requests_of_log (request_lines reqs) = reqs.
Proof.
  apply map_eq. intros i. apply option_eq. intros e. unfold request_lines.
  rewrite requests_of_log_lines; rewrite hash_iter_perm;
    [by rewrite elem_of_map_to_list|apply NoDup_fst_map_to_list].
Qed.

Lemma index_records_perm rs :
  NoDup (AnyOperationRecord.operation_id <$> rs) → (map_to_list (index_records rs)).*2 ≡ₚ rs.
Proof.
  induction rs as [|r rs IH] using rev_ind; intros Hnd; [done|].
  rewrite fmap_app in Hnd. apply NoDup_app in Hnd as (Hnd & Hni & _).
  rewrite index_records_snoc, map_to_list_insert.
  - cbn. rewrite IH by done. by rewrite Permutation_app_comm.
  - apply eq_None_not_Some. intros [r' Hr']. pose proof (index_records_id _ _ _ Hr') as Hid.
    apply (Hni (AnyOperationRecord.operation_id r)); [|set_solver].
    apply list_elem_of_fmap. exists r'. split; [done|]. rewrite <- (IH Hnd).
    apply list_elem_of_fmap. eexists (_, r'). split; [done|]. by apply elem_of_map_to_list.
Qed.

(** A log of distinct ids reads back as its records. *)
Lemma records_of_log_distinct rs :
  NoDup (AnyOperationRecord.operation_id <$> rs) → records_of_log rs ≡ₚ rs.
Proof. intros Hnd. by rewrite records_of_log_perm, index_records_perm. Qed.

Lemma max_op_id_below n rs :
  (∀ r k, r ∈ rs → op_number r = Some k → (k <= n)%N) → max_op_id n rs = n.
Proof.
  unfold max_op_id. revert n. induction rs as [|r rs IH]; intros n Hn; [done|]. cbn [foldl].
  replace (N.max n (default 0%N (op_number r))) with n; [apply IH; set_solver|].
  destruct (op_number r) as [k|] eqn:Hk; cbn; [|lia].
  specialize (Hn r k ltac:(set_solver) Hk). lia.
Qed.
End reading_back.

(** C23: After a prune that returned, a later start reads back exactly what was
    kept: the newest [keep] records, the retained requests, and an id counter
    that hands out no id a second time. *)
Theorem prune_survives_restart `{!Sha256, !Sha256Laws, HashIterLaws,
    JsonCodecLaws AnyOperationRecord, JsonCodecLaws RequestLogLine}
    (now later : Env) keep w stats w1 w2 :
  NoDup (AnyOperationRecord.operation_id <$> records (w_mem w)) →
  (next_id (w_mem w) <= u64_max)%N →
  (∀ r k, r ∈ records (w_mem w) → op_number r = Some k → (k <= next_id (w_mem w))%N) →
  prune (H:=now) keep w = (Returned stats, w1) →
  OperationStore_new (H:=later) w1 = (Returned tt, w2) →
  records (w_mem w2) ≡ₚ newest keep (records (w_mem w)) ∧
  requests (w_mem w2) = requests (pruned keep (w_mem w)) ∧
  next_id (w_mem w2) = next_id (w_mem w) ∧
  w_fs w2 = w_fs w.
Proof.
  intros Hnd Hmax Hids Hp Hs. set (kept := newest keep (records (w_mem w))).
  assert (kept `sublist_of` records (w_mem w)) as Hsub by apply sublist_drop.
  assert (NoDup (AnyOperationRecord.operation_id <$> kept)) as Hndk
    by (eapply sublist_NoDup; [exact Hnd|by apply fmap_sublist]).
  assert (prune_frame keep w w1 ∧ prune_logs keep w w1) as ((Hf1 & _ & _) & Ho & Hr & Hc).
  { eapply (wp_run _ _ (λ o w', o = Returned stats → prune_frame keep w w' ∧ prune_logs keep w w'));
      [exact Hp|apply (prune_wp (H:=now)); [done|]|done].
    intros [a|e|] w' Hfo ?? ?; by simplify_eq/=. }
  apply (wp_run _ _ (λ o w', o = Returned tt → records (w_mem w') ≡ₚ kept ∧
    requests (w_mem w') = requests (pruned keep (w_mem w)) ∧
    next_id (w_mem w') = next_id (w_mem w) ∧ w_fs w' = w_fs w) _ _ Hs); [|done].
  apply (OperationStore_new_wp (H:=later) (next_id (w_mem w)) _ kept
    (request_lines (requests (pruned keep (w_mem w))))).
  - by apply logs_loads.
  - right. done.
  - intros w' _ Hfs _ Hm _. rewrite Hm. cbn [records requests next_id].
    split_and!; [by apply records_of_log_distinct|apply requests_of_request_lines| |congruence].
    apply max_op_id_below. intros r k Hin. apply Hids. by eapply elem_of_sublist.
  - intros [a|e|] w' Hfo ????; by simplify_eq/=.
Qed.

Lemma empty_counter_refused `{Env, JsonCodec AnyOperationRecord, JsonCodec RequestLogLine} w :
  w_sd w !! counter_path = Some [] → wp OperationStore_new w (λ o _, o ≠ Returned tt).
Proof.
  intros Hc. unfold OperationStore_new, OperationStore_load.
  do 3 (apply wp_bind, wp_map_raise, wp_sys; [intros [] ? [= <-]|done..]).
  unfold load_counter, sd_read. apply wp_bind, wp_bind, wp_attempt, wp_sys.
  - intros bs w' Ha. cbn in Ha. rewrite Hc in Ha. by simplify_eq/=.
  - intros e Ha. cbn in Ha. by rewrite Hc in Ha.
  - intros text Hf. by apply wp_raise.
  - done.
Qed.

(** Pruning rewrites the counter file in place: a process killed between its
    truncation and its write leaves an empty counter, and no later start gets
    past it. *)
Theorem interrupted_prune_blocks_start `{!HashIter, !JsonCodec AnyOperationRecord,
    !JsonCodec RequestLogLine} (now : Env) keep w :
  env_fault (Env:=now) (w_step w) = NoFault →
  env_fault (Env:=now) (S (w_step w)) = Kill 0 →
  ∃ w1, prune (H:=now) keep w = (Killed, w1) ∧ w_sd w1 !! counter_path = Some [] ∧
    ∀ later : Env, ∃ o w2, OperationStore_new (H:=later) w1 = (o, w2) ∧ o ≠ Returned tt.
Proof.
  intros Hok Hkill. unfold prune, sd_write, sys, sys_write, map_raise, mbind, M_bind, get_mem, put_mem.
  cbn [w_step set_mem]. rewrite Hok. cbn [w_step tick set_sd set_mem]. rewrite Hkill.
  eexists. split; [reflexivity|]. split; [cbn; by rewrite !lookup_insert_eq|].
  intros later. eexists _, _. split; [apply surjective_pairing|].
  apply (empty_counter_refused (H:=later)). cbn. by rewrite !lookup_insert_eq.
Qed.
