(* ===== verification/Config.v ===== *)
(** * Config: profiles

    Models [crates/agent-remote-server/src/config.rs].  The TOML parser is a
    parameter. *)

From S2P Require Import Prelude Text Protocol Store.

Module Profile.
Record Profile := Mk { shell : list string; setup : string }.
End Profile.
Abbreviation Profile := Profile.Profile.

Module ServerConfig.
Record ServerConfig := Mk {
  profiles : gmap string Profile;
  default_profile : option string }.
(** [#[derive(Default)]]. *)
Definition default : ServerConfig := Mk ∅ None.
End ServerConfig.
Abbreviation ServerConfig := ServerConfig.ServerConfig.

(** [toml::from_str::<ServerConfig>]. *)
Class TomlConfig := { toml_from_str : string → result string ServerConfig }.

Definition default_shell : list string := ["bash"; "-c"].

Definition config_error {A} (what : string) : result ProtocolError A :=
  Err (ProtocolError.new InvalidRequest ("invalid server config: " +:+ what)).

Section config.
Context `{HashIter} `{TomlConfig}.

(** The checks of [load_from_str] on a parsed configuration. *)
Definition check_config (config : ServerConfig) : result ProtocolError ServerConfig :=
  match find_first (λ '(_, profile), bool_decide (Profile.shell profile = []))
          (hash_iter (ServerConfig.profiles config)) with
  | Some (name, _) => config_error ("profile '" +:+ name +:+ "' has an empty shell")
  | None =>
      match ServerConfig.default_profile config with
      | Some name =>
          if decide (ServerConfig.profiles config !! name = None)
          then config_error ("default_profile '" +:+ name +:+ "' is not a declared profile")
          else Ok config
      | None => Ok config
      end
  end.

Definition load_from_str (s : string) : result ProtocolError ServerConfig :=
  if bool_decide (trim (as_bytes s) = []) then Ok ServerConfig.default
  else match toml_from_str s with
       | Err e => config_error e
       | Ok config => check_config config
       end.
End config.

(** [requested.or(self.default_profile)]. *)
Definition option_or {A} (a b : option A) : option A :=
  match a with Some _ => a | None => b end.

Definition profile_for (config : ServerConfig) (requested : option string)
    : result ProtocolError (option Profile) :=
  match option_or requested (ServerConfig.default_profile config) with
  | None => Ok None
  | Some name =>
      match ServerConfig.profiles config !! name with
      | Some p => Ok (Some p)
      | None => Err (ProtocolError.new InvalidRequest ("unknown profile: " +:+ name))
      end
  end.

(** ** What a loaded configuration guarantees *)

Definition valid_config (config : ServerConfig) : Prop :=
  (∀ name p, ServerConfig.profiles config !! name = Some p → Profile.shell p ≠ []) ∧
  (∀ name, ServerConfig.default_profile config = Some name →
     is_Some (ServerConfig.profiles config !! name)).

Lemma check_config_spec `{HashIterLaws} config config' :
  check_config config = Ok config' ↔ config' = config ∧ valid_config config.
Proof.
  unfold check_config, valid_config.
  assert (∀ name p, ServerConfig.profiles config !! name = Some p ↔
            (name, p) ∈ hash_iter (ServerConfig.profiles config)) as Hin.
  { intros name p. by rewrite hash_iter_perm, elem_of_map_to_list. }
  destruct (find_first _ _) as [[name p]|] eqn:Hf.
  - apply find_first_Some in Hf as [Hf Hp]. apply bool_decide_eq_true in Hp.
    split; [done|]. intros (_ & Hs & _). destruct (Hs name p); [by apply Hin|done].
  - rewrite find_first_None in Hf.
    assert (∀ name p, ServerConfig.profiles config !! name = Some p → Profile.shell p ≠ []).
    { intros name p Hp%Hin%Hf. by apply bool_decide_eq_false in Hp. }
    destruct (ServerConfig.default_profile config) as [d|]; [case_decide as Hd|].
    + split; [done|]. intros (_ & _ & Hs). destruct (Hs d eq_refl) as [? Hx]. congruence.
    + split; [|by intros [-> _]]. intros [= <-]. split_and!; [done..|].
      intros ? [= <-]. by apply not_eq_None_Some.
    + split; [|by intros [-> _]]. intros [= <-]. by split_and!.
Qed.

(** Loading a configuration text succeeds exactly when it is blank, or
    parses to a configuration whose profiles all have a shell and whose
    default profile, if it names one, is declared; and from a loaded
    configuration a request that names no profile always gets one to run
    under (the default, or a direct spawn), a request that names one gets
    exactly the declared one, and is refused when there is none. *)
Theorem load_from_str_valid `{HashIterLaws} `{TomlConfig} s config :
  load_from_str s = Ok config →
  valid_config config ∧
  (profile_for config None =
     Ok (ServerConfig.default_profile config ≫= (λ n, ServerConfig.profiles config !! n))) ∧
  (∀ name, profile_for config (Some name) =
     match ServerConfig.profiles config !! name with
     | Some p => Ok (Some p)
     | None => Err (ProtocolError.new InvalidRequest ("unknown profile: " +:+ name))
     end).
Proof.
  intros Hl. assert (valid_config config) as Hv.
  { unfold load_from_str in Hl. case_bool_decide; [by simplify_eq|].
    destruct (toml_from_str s) as [c|]; [|done].
    by apply check_config_spec in Hl as [-> ?]. }
  split_and!; [done| |done]. unfold profile_for. cbn.
  destruct (ServerConfig.default_profile config) as [n|] eqn:Hd; [|done].
  destruct Hv as [_ Hv]. destruct (Hv n Hd) as [p Hp]. cbn. by rewrite Hp.
Qed.
