(* ===== verification/Exec.v ===== *)
(** * Exec: running commands

    Models [crates/agent-remote-server/src/exec.rs]: the checks before a
    command is started, the command line a profile produces, the loops that
    collect its output under a deadline, and the bounded capture of that
    output.  What the started processes do is a parameter ([Processes]): the
    order in which output, exit and timers reach the loops, and the files the
    command leaves behind. *)

From S2P Require Import Prelude Text Protocol World Fs FsSpec Workspace Config.

Definition OUTPUT_PREFIX_LIMIT : nat := N.to_nat (4 * 1024).
Definition OUTPUT_SUFFIX_LIMIT : nat := N.to_nat (12 * 1024).
Definition DEFAULT_TIMEOUT_MS : N := 5 * 60 * 1000.
Definition MAX_TIMEOUT_MS : N := 60 * 60 * 1000.
Definition DRAIN_GRACE_MS : N := 2000.

Module ExecOutcome.
Record ExecOutcome := Mk {
  operation_id : string;
  termination : ExecTermination;
  stdout : ExecOutput;
  stderr : ExecOutput;
  duration_ms : N;
  drain_timed_out : bool }.
End ExecOutcome.
Abbreviation ExecOutcome := ExecOutcome.ExecOutcome.

Module StreamEvent.
Inductive StreamEvent := Stdout (b : bytes) | Stderr (b : bytes).
End StreamEvent.
Abbreviation StreamEvent := StreamEvent.StreamEvent.

(** ** Capturing output *)

Module OutputCapture.
Record OutputCapture := Mk { prefix : bytes; suffix : bytes; total_bytes : N }.
(** [#[derive(Default)]]. *)
Definition default : OutputCapture := Mk [] [] 0.
End OutputCapture.
Abbreviation OutputCapture := OutputCapture.OutputCapture.

(** One byte into the ring of the last [OUTPUT_SUFFIX_LIMIT]. *)
Definition push_back (suffix : bytes) (b : byte) : bytes :=
  (if decide (length suffix = OUTPUT_SUFFIX_LIMIT) then tail suffix else suffix) ++ [b].

(** [OutputCapture::push]. *)
Definition push (c : OutputCapture) (chunk : bytes) : OutputCapture :=
  let total := saturating_add (OutputCapture.total_bytes c) (lenN chunk) in
  let prefix_remaining := OUTPUT_PREFIX_LIMIT - length (OutputCapture.prefix c) in
  let prefix_len := Nat.min prefix_remaining (length chunk) in
  OutputCapture.Mk (OutputCapture.prefix c ++ take prefix_len chunk)
    (foldl push_back (OutputCapture.suffix c) (drop prefix_len chunk)) total.

(** The [while end > 0 && !is_char_boundary(end)] loop. *)
Fixpoint floor_boundary (text : bytes) (i : nat) : nat :=
  match i with
  | O => O
  | S i' => if is_char_boundary text i then i else floor_boundary text i'
  end.

(** [bounded_lossy]. *)
Definition bounded_lossy (bs : bytes) (limit : nat) : bytes :=
  let text := from_utf8_lossy bs in
  if decide (limit < length text) then take (floor_boundary text limit) text else text.

(** [OutputCapture::finish]. *)
Definition finish (c : OutputCapture) : ExecOutput :=
  let kept_bytes :=
    (lenN (OutputCapture.prefix c) + lenN (OutputCapture.suffix c))%N in
  ExecOutput.Mk
    (string_of_list_byte (bounded_lossy (OutputCapture.prefix c) OUTPUT_PREFIX_LIMIT))
    (string_of_list_byte (bounded_lossy (OutputCapture.suffix c) OUTPUT_SUFFIX_LIMIT))
    (OutputCapture.total_bytes c)
    (saturating_sub (OutputCapture.total_bytes c) kept_bytes).

(** [capture]. *)
Definition capture (event : StreamEvent) (captured : OutputCapture * OutputCapture)
    : OutputCapture * OutputCapture :=
  let '(out, err) := captured in
  match event with
  | StreamEvent.Stdout b => (push out b, err)
  | StreamEvent.Stderr b => (out, push err b)
  end.

(** ** The command line *)

Definition quote : ascii := "'".

(** [s.replace('\'', "'\\''")] on the characters. *)
Fixpoint escape_quotes (s : string) : string :=
  match s with
  | EmptyString => ""
  | String c s' => if bool_decide (c = quote) then "'\''" +:+ escape_quotes s'
                   else String c (escape_quotes s')
  end.

Definition shell_quote (s : string) : string :=
  if decide (s = "") then "''" else "'" +:+ escape_quotes s +:+ "'".

Module Command.
Record Command := Mk {
  program : string;
  args : list string;
  current_dir : path;
  env_scratch : path }.   (* AGENT_REMOTE_SCRATCH *)
End Command.
Abbreviation Command := Command.Command.

(** The script a profile's shell is given. *)
Definition profile_script (setup : string) (argv : list string) : string :=
  let quoted := String.concat " " (shell_quote <$> argv) in
  if decide (setup = "") then "exec " +:+ quoted
  else setup +:+ String "010" ("exec " +:+ quoted).

(** The [match resolved_profile].  Indexing [p.shell[0]] panics on an empty
    shell, which no loaded configuration has; [None] stands for it. *)
Definition build_command (resolved_profile : option Profile) (argv0 : string)
    (argv_rest : list string) (dir scratch : path) : option Command :=
  match resolved_profile with
  | None => Some (Command.Mk argv0 argv_rest dir scratch)
  | Some p =>
      match Profile.shell p with
      | [] => None
      | shell0 :: shell_rest =>
          Some (Command.Mk shell0
            (shell_rest ++ [profile_script (Profile.setup p) (argv0 :: argv_rest)]) dir scratch)
      end
  end.

(** ** The processes *)

(** [ExitStatus]: [code()], or else [signal()]. *)
Inductive exit_status := ExitCode (code : Z) | ExitSignal (signal : option Z).

Definition termination_of (status : exit_status) : ExecTermination :=
  match status with
  | ExitCode code => ExecTermination.Exited code
  | ExitSignal signal => ExecTermination.Signaled (default 0%Z signal)
  end.

(** What the [select!] of the collecting loop can see besides its timer, and
    that of the final drain. *)
Inductive exec_event :=
| Received (e : StreamEvent)
| Waited (status : result io.Error exit_status).
Inductive drain_event := Drained (e : StreamEvent) | Closed.

(** One wait in a [select!]: how long it took (in nanoseconds, like all times
    here), what the command did to the files meanwhile, and what ended it;
    [None] is the timer. *)
Record round (E : Type) := MkRound {
  after : N;
  did : tree → tree;
  seen : option E }.
Arguments MkRound {E} _ _ _.
Arguments after {E} _.
Arguments did {E} _.
Arguments seen {E} _.

(** One run of a started command, as the server that started it meets it: how
    long the start took, the rounds of the collecting loop, the time and the
    effects until a killed command is reaped, and the rounds of the drain.  A
    list of rounds that ends means that nothing more happens before the timer
    of that loop fires. *)
Record process_run := ProcessRun {
  run_ready : N;
  run_rounds : list (round exec_event);
  run_reaped : N * (tree → tree);
  run_drain : list (round drain_event) }.

Class Processes := { spawn : Command → nat → result io.Error process_run }.

Definition nanos (ms : N) : N := ms * 1000000.

Definition panic_empty_shell : ProtocolError :=
  ProtocolError.new ExecFailed "index out of bounds: the len is 0 but the index is 0".

Section exec.
Context `{Env} `{Processes}.

(** The server waits, the command runs: its effects on the files happen, and
    the server may die before it goes on. *)
Definition suspend {E : Type} (f : tree → tree) : M E unit := λ w,
  match env_fault (w_step w) with
  | Kill _ => (Killed, set_fs f (tick w))
  | _ => (Returned tt, set_fs f (tick w))
  end.

(** [kill_process_group] and [start_kill]; their results are not looked at. *)
Definition kill_process_group {E : Type} : M E unit := λ w,
  match env_fault (w_step w) with
  | Kill _ => (Killed, tick w)
  | _ => (Returned tt, emit EvKillGroup (tick w))
  end.

(** The collecting loop, at the time [now]: how the command ended, what was
    captured, and the time then. *)
Fixpoint collect_loop (deadline now : N) (rounds : list (round exec_event))
    (captured : OutputCapture * OutputCapture)
    : M ProtocolError (ExecTermination * (OutputCapture * OutputCapture) * N) :=
  if (deadline <=? now)%N then
    kill_process_group ;; mret (ExecTermination.TimedOut, captured, now)
  else
    match rounds with
    | [] => kill_process_group ;; mret (ExecTermination.TimedOut, captured, deadline)
    | r :: rounds' =>
        let now' := (now + after r)%N in
        suspend (did r) ;;
        match seen r with
        | None =>
            kill_process_group ;; mret (ExecTermination.TimedOut, captured, N.max deadline now')
        | Some (Received e) => collect_loop deadline now' rounds' (capture e captured)
        | Some (Waited status) =>
            status ← lift (map_err (λ e, ProtocolError.new ExecFailed
                             ("wait failed: " +:+ io.to_string e)) status);
            mret (termination_of status, captured, now')
        end
    end.

(** The final drain: whether it hit its deadline, the captures, the time. *)
Fixpoint drain_loop {E : Type} (drain_deadline now : N) (rounds : list (round drain_event))
    (captured : OutputCapture * OutputCapture)
    : M E (bool * (OutputCapture * OutputCapture) * N) :=
  match rounds with
  | [] => kill_process_group ;; mret (true, captured, drain_deadline)
  | r :: rounds' =>
      let now' := (now + after r)%N in
      suspend (did r) ;;
      match seen r with
      | None => kill_process_group ;; mret (true, captured, N.max drain_deadline now')
      | Some (Drained e) => drain_loop drain_deadline now' rounds' (capture e captured)
      | Some Closed => mret (false, captured, now')
      end
  end.

(** [exec] up to the spawn: the command, or the refusal. *)
Definition prepare_exec (ws : Workspace) (config : ServerConfig) (cwd profile : option string)
    (argv : list string) (timeout_ms : option N) : M ProtocolError Command :=
  match argv with
  | [] => raise (ProtocolError.new InvalidRequest "argv must not be empty")
  | argv0 :: argv_rest =>
    let timeout_ms := default DEFAULT_TIMEOUT_MS timeout_ms in
    if bool_decide (timeout_ms = 0%N) || (MAX_TIMEOUT_MS <? timeout_ms)%N then
      raise (ProtocolError.new InvalidRequest
        ("timeout_ms must be between 1 and " +:+ pretty MAX_TIMEOUT_MS))
    else
      resolved_profile ← lift (profile_for config profile);
      working_dir ← (match cwd with
                     | Some c => ws_resolve ws c
                     | None => mret (root ws)
                     end);
      d ← fs_is_dir working_dir;
      if negb d then
        raise (ProtocolError.new NotFound
          ("cwd not found: /" +:+ join_slash working_dir))
      else
        match build_command resolved_profile argv0 argv_rest working_dir (scratch_root ws) with
        | Some cmd => mret cmd
        | None => raise panic_empty_shell
        end
  end.

(** [cmd.spawn()]. *)
Definition spawn_command (cmd : Command) : M io.Error process_run :=
  sys (Some (EvSpawn (Command.program cmd :: Command.args cmd) (Command.current_dir cmd)))
    (λ w, run ← spawn cmd (w_step w); Ok (run, w)).

Definition is_timed_out (t : ExecTermination) : bool :=
  match t with ExecTermination.TimedOut => true | _ => false end.

(** [exec] from there on: the two loops, and the outcome. *)
Definition attend (operation_id : string) (timeout_ms : N) (run : process_run)
    : M ProtocolError ExecOutcome :=
  let deadline := (run_ready run + nanos timeout_ms)%N in
  '(termination, captured, now) ← collect_loop deadline (run_ready run) (run_rounds run)
                                    (OutputCapture.default, OutputCapture.default);
  now ← (if is_timed_out termination
         then suspend (run_reaped run).2 ;; mret (now + (run_reaped run).1)%N
         else mret now);
  '(drain_timed_out, captured, now) ← drain_loop (now + nanos DRAIN_GRACE_MS) now (run_drain run) captured;
  let '(out, err) := captured in
  mret (ExecOutcome.Mk operation_id termination (finish out) (finish err)
          (as_u64 (now / 1000000)) drain_timed_out).

Definition exec (ws : Workspace) (config : ServerConfig) (cwd profile : option string)
    (argv : list string) (timeout_ms : option N) (operation_id : string)
    : M ProtocolError ExecOutcome :=
  cmd ← prepare_exec ws config cwd profile argv timeout_ms;
  run ← map_raise (λ e, ProtocolError.new ExecFailed ("spawn failed: " +:+ io.to_string e))
          (spawn_command cmd);
  attend operation_id (default DEFAULT_TIMEOUT_MS timeout_ms) run.
End exec.

(** ** The capture keeps the first and the last bytes *)

(** The last [k] elements of a list. *)
Definition lastn {A} (k : nat) (l : list A) : list A := drop (length l - k) l.

(** The capture of a stream [bs], whatever chunks it came in. *)
Definition captured_bytes (bs : bytes) : OutputCapture :=
  OutputCapture.Mk (take OUTPUT_PREFIX_LIMIT bs)
    (lastn OUTPUT_SUFFIX_LIMIT (drop OUTPUT_PREFIX_LIMIT bs))
    (N.min (lenN bs) u64_max).

Lemma length_lastn {A} k (l : list A) : length (lastn k l) = Nat.min k (length l).
Proof. unfold lastn. rewrite length_drop. lia. Qed.

Lemma tail_drop_S {A} n (l : list A) : tail (drop n l) = drop (S n) l.
Proof. revert l. induction n as [|n IH]; intros [|x l]; cbn; auto. Qed.

Lemma lastn_snoc {A} k (l : list A) x :
  (if decide (length (lastn (S k) l) = S k) then tail (lastn (S k) l) else lastn (S k) l) ++ [x]
  = lastn (S k) (l ++ [x]).
Proof.
  rewrite length_lastn. unfold lastn. rewrite length_app. cbn [length].
  case_decide as Hk.
  - rewrite drop_app_le by lia. f_equal.
    replace (length l + 1 - S k) with (S (length l - S k)) by lia.
    apply tail_drop_S.
  - replace (length l - S k) with 0 by lia. by replace (length l + 1 - S k) with 0 by lia.
Qed.

Lemma push_back_lastn l bs :
  foldl push_back (lastn OUTPUT_SUFFIX_LIMIT l) bs = lastn OUTPUT_SUFFIX_LIMIT (l ++ bs).
Proof.
  revert l. induction bs as [|b bs IH]; intros l; cbn [foldl]; [by rewrite app_nil_r|].
  replace (l ++ b :: bs) with ((l ++ [b]) ++ bs) by by rewrite <- (assoc_L (++)).
  rewrite <- IH. f_equal. unfold push_back.
  assert (∃ k, OUTPUT_SUFFIX_LIMIT = S k) as [k ->].
  { exists (pred OUTPUT_SUFFIX_LIMIT). by vm_compute. }
  apply lastn_snoc.
Qed.

Lemma push_captured bs chunk : push (captured_bytes bs) chunk = captured_bytes (bs ++ chunk).
Proof.
  unfold push, captured_bytes. cbn [OutputCapture.prefix OutputCapture.suffix
    OutputCapture.total_bytes].
  generalize OUTPUT_PREFIX_LIMIT as P. intros P. f_equal.
  - rewrite length_take, take_app. f_equal.
    destruct (decide (P ≤ length bs)).
    + replace (Nat.min _ _) with 0 by lia. by replace (P - length bs) with 0 by lia.
    + rewrite (Nat.min_r P) by lia. destruct (decide (P - length bs ≤ length chunk)).
      * by rewrite Nat.min_l by lia.
      * rewrite Nat.min_r by lia. by rewrite !take_ge by lia.
  - rewrite push_back_lastn. f_equal. rewrite length_take, drop_app. f_equal.
    destruct (decide (P ≤ length bs)).
    + replace (Nat.min _ _) with 0 by lia. by replace (P - length bs) with 0 by lia.
    + rewrite (Nat.min_r P) by lia. destruct (decide (P - length bs ≤ length chunk)).
      * by rewrite Nat.min_l by lia.
      * rewrite Nat.min_r by lia. by rewrite !drop_ge by lia.
  - unfold saturating_add, lenN. rewrite length_app. lia.
Qed.

Lemma captured_nil : captured_bytes [] = OutputCapture.default.
Proof. done. Qed.

(** What the client is told of a stream [bs]. *)
Definition output_of (bs : bytes) : ExecOutput :=
  let first := take OUTPUT_PREFIX_LIMIT bs in
  let rest := lastn OUTPUT_SUFFIX_LIMIT (drop OUTPUT_PREFIX_LIMIT bs) in
  ExecOutput.Mk (string_of_list_byte (bounded_lossy first OUTPUT_PREFIX_LIMIT))
    (string_of_list_byte (bounded_lossy rest OUTPUT_SUFFIX_LIMIT))
    (lenN bs) (lenN bs - N.of_nat (OUTPUT_PREFIX_LIMIT + OUTPUT_SUFFIX_LIMIT))%N.

Lemma finish_captured bs :
  (lenN bs <= u64_max)%N → finish (captured_bytes bs) = output_of bs.
Proof.
  intros Hlen. unfold finish, captured_bytes, output_of.
  cbn [OutputCapture.prefix OutputCapture.suffix OutputCapture.total_bytes].
  rewrite N.min_l by done. f_equal. unfold saturating_sub, lenN.
  rewrite length_take, length_lastn, length_drop. lia.
Qed.

(** ** The loops *)

Definition stdout_of (es : list StreamEvent) : bytes :=
  es ≫= λ e, match e with StreamEvent.Stdout b => b | _ => [] end.
Definition stderr_of (es : list StreamEvent) : bytes :=
  es ≫= λ e, match e with StreamEvent.Stderr b => b | _ => [] end.

Definition captures (es : list StreamEvent) : OutputCapture * OutputCapture :=
  (captured_bytes (stdout_of es), captured_bytes (stderr_of es)).

Lemma capture_captures es e : capture e (captures es) = captures (es ++ [e]).
Proof.
  unfold captures, stdout_of, stderr_of. rewrite !bind_app.
  destruct e; cbn; rewrite !app_nil_r; by rewrite push_captured.
Qed.

(** What rounds bring: their output, their effects on the files, their time. *)
Definition received_of (rs : list (round exec_event)) : list StreamEvent :=
  omap (λ r, match seen r with Some (Received e) => Some e | _ => None end) rs.
Definition drained_of (rs : list (round drain_event)) : list StreamEvent :=
  omap (λ r, match seen r with Some (Drained e) => Some e | _ => None end) rs.
Definition effects {E} (rs : list (round E)) (t : tree) : tree := foldl (λ t r, did r t) t rs.
Definition time_after {E} (now : N) (rs : list (round E)) : N := foldl (λ n r, n + after r)%N now rs.
Definition last_seen {E} (rs : list (round E)) : option E := last rs ≫= seen.

(** All rounds but the last brought output. *)
Definition goes_on {E} (is_output : E → bool) (rs : list (round E)) : Prop :=
  ∀ pre r post, rs = pre ++ r :: post → post ≠ [] → ∃ e, seen r = Some e ∧ is_output e = true.
Definition is_received (e : exec_event) : bool := match e with Received _ => true | _ => false end.
Definition is_drained (e : drain_event) : bool := match e with Drained _ => true | _ => false end.

(** The loop took the rounds [taken], from the time [now] on, and left [rest]:
    it goes on while there is output and time.  It ends with the exit status
    of the command, or at the deadline or later with the timeout -- because the
    deadline had passed, or the timer fired, with nothing else to come. *)
Definition collected (deadline now : N) (taken rest : list (round exec_event))
    (termination : ExecTermination) (now' : N) : Prop :=
  goes_on is_received taken ∧
  (∀ pre r post, taken = pre ++ r :: post → (time_after now pre < deadline)%N) ∧
  match last_seen taken with
  | Some (Waited (Ok status)) => termination = termination_of status ∧ now' = time_after now taken
  | Some (Waited (Err _)) => False
  | _ =>
      termination = ExecTermination.TimedOut ∧ (deadline <= now')%N ∧ (time_after now taken <= now')%N ∧
      ((deadline <= time_after now taken)%N ∨ rest = [] ∨ ∃ r, last taken = Some r ∧ seen r = None)
  end.

(** The drain took [taken], and reached the end of the output, or not. *)
Definition drained_until (deadline now : N) (taken rest : list (round drain_event))
    (timed_out : bool) (now' : N) : Prop :=
  goes_on is_drained taken ∧
  match last_seen taken with
  | Some Closed => timed_out = false ∧ now' = time_after now taken
  | _ =>
      timed_out = true ∧ (deadline <= now')%N ∧
      (rest = [] ∨ ∃ r, last taken = Some r ∧ seen r = None)
  end.

Lemma goes_on_nil {E} (f : E → bool) : goes_on f [].
Proof. by intros [|] ? ?. Qed.
Lemma goes_on_one {E} (f : E → bool) r : goes_on f [r].
Proof. intros [|? [|]] ? post [=]; by subst. Qed.
Lemma goes_on_cons {E} (f : E → bool) r e rs :
  seen r = Some e → f e = true → goes_on f rs → goes_on f (r :: rs).
Proof.
  intros Hr Hf Hrs [|r' pre] r0 post [= -> Heq] Hne; [by exists e|]. by eapply Hrs.
Qed.

Lemma last_seen_cons {E} (r : round E) rs :
  last_seen (r :: rs) = match rs with [] => seen r | _ => last_seen rs end.
Proof. unfold last_seen. rewrite last_cons. destruct rs as [|r' rs]; [done|]. by rewrite last_cons; destruct (last rs). Qed.

(** One more round of output before. *)
Lemma collected_cons deadline now r e taken rest termination now' :
  (now < deadline)%N → seen r = Some (Received e) →
  collected deadline (now + after r) taken rest termination now' →
  collected deadline now (r :: taken) rest termination now'.
Proof.
  intros Hnow Hr (Hgo & Hbefore & Hend). split; [by eapply goes_on_cons|]. split.
  - intros [|r' pre] r0 post [= <- Heq]; [done|]. by eapply Hbefore.
  - rewrite last_seen_cons. destruct taken as [|r' taken]; cbn [last_seen last mbind option_bind] in Hend.
    + rewrite Hr. destruct Hend as (? & ? & ? & Hwhy). split_and!; [done..|].
      destruct Hwhy as [?|[?|(? & [=] & _)]]; auto.
    + destruct (last_seen (r' :: taken)) as [[e'|[st|err]]|]; [|done..|]; naive_solver.
Qed.

Lemma drained_cons deadline now r e taken rest timed_out now' :
  seen r = Some (Drained e) → drained_until deadline (now + after r) taken rest timed_out now' →
  drained_until deadline now (r :: taken) rest timed_out now'.
Proof.
  intros Hr (Hgo & Hend). split; [by eapply goes_on_cons|].
  rewrite last_seen_cons. destruct taken as [|r' taken]; cbn [last_seen last mbind option_bind] in Hend.
  - rewrite Hr. destruct Hend as (? & ? & Hwhy). split_and!; [done..|].
    destruct Hwhy as [?|(? & [=] & _)]; auto.
  - destruct (last_seen (r' :: taken)) as [[e'|]|]; [|done|]; naive_solver.
Qed.

(** Only the files and the trace are not as they were. *)
Definition went (w w' : world) (t : tree) (trace : list event) : Prop :=
  w_fs w' = t ∧ w_trace w' = trace ++ w_trace w ∧ w_sd w' = w_sd w ∧ w_mem w' = w_mem w.

Lemma went_trans w1 w2 w3 t t' tr tr' :
  went w1 w2 t tr → went w2 w3 t' tr' → went w1 w3 t' (tr' ++ tr).
Proof.
  intros (? & Ht & ? & ?) (? & Ht' & ? & ?). split_and!; [done| |congruence..].
  rewrite Ht', Ht. apply (assoc_L (++)).
Qed.

Section loops.
Context `{Env}.

Lemma suspend_wp {E} f w (Φ : outcome E unit → world → Prop) :
  (∀ w', went w w' (f (w_fs w)) [] → Φ (Returned tt) w') →
  (∀ w', went w w' (f (w_fs w)) [] → Φ Killed w') → wp (suspend f) w Φ.
Proof.
  intros HR HK. unfold wp, suspend. destruct (env_fault _); cbn; [by apply HR..|by apply HK].
Qed.

Lemma kill_process_group_wp {E} w (Φ : outcome E unit → world → Prop) :
  (∀ w', went w w' (w_fs w) [EvKillGroup] → Φ (Returned tt) w') →
  (∀ w', went w w' (w_fs w) [] → Φ Killed w') → wp kill_process_group w Φ.
Proof.
  intros HR HK. unfold wp, kill_process_group. destruct (env_fault _); cbn; [by apply HR..|by apply HK].
Qed.

(** A loop kills the command and returns. *)
Lemma kill_then_wp {E A} (a : A) w (Φ : outcome E A → world → Prop) :
  (∀ w', went w w' (w_fs w) [EvKillGroup] → Φ (Returned a) w') →
  (∀ w', went w w' (w_fs w) [] → Φ Killed w') → wp (kill_process_group ;; mret a) w Φ.
Proof. intros HR HK. apply wp_bind, kill_process_group_wp; [|done]. intros w' Hw. by apply wp_ret, HR. Qed.

Definition kills (b : bool) : list event := if b then [EvKillGroup] else [].

(** What the collecting loop does, however it ends. *)
Definition collects (deadline now : N) (rounds : list (round exec_event)) (es : list StreamEvent)
    (w : world) (o : outcome ProtocolError (ExecTermination * (OutputCapture * OutputCapture) * N))
    (w' : world) : Prop :=
  ∃ taken rest, rounds = taken ++ rest ∧
    match o with
    | Returned (termination, captured, now') =>
        captured = captures (es ++ received_of taken) ∧
        collected deadline now taken rest termination now' ∧
        went w w' (effects taken (w_fs w)) (kills (is_timed_out termination))
    | Raised e => ∃ err, e = ProtocolError.new ExecFailed ("wait failed: " +:+ io.to_string err) ∧
        goes_on is_received taken ∧ last_seen taken = Some (Waited (Err err)) ∧
        went w w' (effects taken (w_fs w)) []
    | Killed => went w w' (effects taken (w_fs w)) []
    end.

Lemma collects_cons deadline now r e rounds es w w1 o w2 :
  (now < deadline)%N → seen r = Some (Received e) → went w w1 (did r (w_fs w)) [] →
  collects deadline (now + after r) rounds (es ++ [e]) w1 o w2 →
  collects deadline now (r :: rounds) es w o w2.
Proof.
  intros Hlt Hr Hw1 (taken & rest & -> & Ho). exists (r :: taken), rest. split; [done|].
  assert (∀ tr, went w1 w2 (effects taken (w_fs w1)) tr → went w w2 (effects (r :: taken) (w_fs w)) tr)
    as Hwent.
  { intros tr Hw. rewrite (proj1 Hw1) in Hw. rewrite <- (app_nil_r tr). by eapply went_trans. }
  destruct o as [[[t captured] n]|err|].
  - destruct Ho as (-> & Hc & Hw).
    refine (conj _ (conj (collected_cons _ _ _ _ _ _ _ _ Hlt Hr Hc) (Hwent _ Hw))).
    rewrite <- (assoc_L (++)). unfold received_of. cbn. by rewrite Hr.
  - destruct Ho as (e' & ? & Hgo & Hl & Hw). exists e'.
    refine (conj _ (conj (goes_on_cons _ _ _ _ Hr eq_refl Hgo) (conj _ (Hwent _ Hw)))); [done|].
    rewrite last_seen_cons. by destruct taken.
  - by apply Hwent.
Qed.

(** The loop times out: before a round, or after a last one. *)
Lemma collects_timeout deadline now now' taken rest es w w1 :
  goes_on is_received taken → (∀ r, last taken = Some r → seen r = None) → received_of taken = [] →
  (∀ pre r post, taken = pre ++ r :: post → (time_after now pre < deadline)%N) →
  (deadline <= now')%N → (time_after now taken <= now')%N →
  ((deadline <= time_after now taken)%N ∨ rest = [] ∨ taken ≠ []) →
  went w w1 (effects taken (w_fs w)) [] →
  wp (kill_process_group ;; mret (ExecTermination.TimedOut, captures es, now')) w1
    (collects deadline now (taken ++ rest) es w).
Proof.
  intros Hgo Hlast Hes Hpre Hd Hn Hwhy Hw1. apply kill_then_wp.
  - intros w2 Hw2. exists taken, rest. split; [done|]. rewrite Hes, app_nil_r. refine (conj eq_refl (conj _ _)).
    + split; [done|]. split; [done|]. unfold last_seen. destruct (last taken) as [r|] eqn:Hl; cbn.
      * rewrite (Hlast r eq_refl). refine (conj eq_refl (conj Hd (conj Hn _))). right. right. exists r. split; [done|by apply Hlast].
      * apply last_None in Hl as ->. refine (conj eq_refl (conj Hd (conj Hn _))).
        destruct Hwhy as [?|[?|?]]; [by left|by right; left|done].
    + rewrite (proj1 Hw1) in Hw2. by apply (went_trans _ _ _ _ _ _ _ Hw1 Hw2).
  - intros w2 Hw2. exists taken, rest. split; [done|].
    rewrite (proj1 Hw1) in Hw2. by apply (went_trans _ _ _ _ _ _ _ Hw1 Hw2).
Qed.

Lemma collect_loop_wp deadline now rounds es w :
  wp (collect_loop deadline now rounds (captures es)) w (collects deadline now rounds es w).
Proof.
  assert (∀ w, went w w (w_fs w) []) as Hrefl by done.
  revert now es w. induction rounds as [|r rounds IH]; intros now es w; cbn [collect_loop];
    destruct (N.leb_spec deadline now) as [Hle|Hlt].
  1,2,3: eapply (collects_timeout _ _ _ [] _); [apply goes_on_nil|done|done|by intros []|lia|cbn; lia|auto|done].
  apply wp_bind, suspend_wp.
  2: { intros w1 Hw1. exists [r], rounds. by split. }
  intros w1 Hw1. assert (∀ pre r0 post, [r] = pre ++ r0 :: post → (time_after now pre < deadline)%N) as Hpre.
  { intros [|? []] ? ? [=]; by subst. }
  destruct (seen r) as [[e|[status|err]]|] eqn:Hr.
  - rewrite capture_captures. eapply wp_mono; [|apply IH]. intros o w2. by eapply collects_cons.
  - apply wp_bind_Ok, wp_ret. exists [r], rounds. split; [done|]. unfold received_of. cbn.
    rewrite Hr, app_nil_r. refine (conj eq_refl (conj _ _)); [|by destruct status].
    split; [apply goes_on_one|]. split; [done|]. cbn. by rewrite Hr.
  - apply wp_bind, wp_raise. exists [r], rounds. split; [done|]. exists err.
    refine (conj eq_refl (conj (goes_on_one _ _) (conj _ Hw1))). cbn. by rewrite Hr.
  - eapply (collects_timeout _ _ _ [r] rounds);
      [apply goes_on_one|by intros ? [= <-]|by cbn; rewrite Hr|done|lia|cbn; lia|by right; right|done].
Qed.

(** What the drain does. *)
Definition drains {E} (deadline now : N) (rounds : list (round drain_event)) (es : list StreamEvent)
    (w : world) (o : outcome E (bool * (OutputCapture * OutputCapture) * N)) (w' : world) : Prop :=
  ∃ taken rest, rounds = taken ++ rest ∧
    match o with
    | Returned (timed_out, captured, now') =>
        captured = captures (es ++ drained_of taken) ∧
        drained_until deadline now taken rest timed_out now' ∧
        went w w' (effects taken (w_fs w)) (kills timed_out)
    | Raised _ => False
    | Killed => went w w' (effects taken (w_fs w)) []
    end.

Lemma drain_loop_wp {E} deadline now rounds es w :
  wp (drain_loop (E := E) deadline now rounds (captures es)) w (drains deadline now rounds es w).
Proof.
  revert now es w. induction rounds as [|r rounds IH]; intros now es w; cbn [drain_loop].
  { apply kill_then_wp; intros w1 Hw1; exists [], []; (split; [done|]); [|done].
    rewrite app_nil_r. refine (conj eq_refl (conj _ Hw1)). split; [apply goes_on_nil|]. cbn. auto. }
  apply wp_bind, suspend_wp.
  2: { intros w1 Hw1. exists [r], rounds. by split. }
  intros w1 Hw1. destruct (seen r) as [[e|]|] eqn:Hr.
  - rewrite capture_captures. eapply wp_mono; [|apply IH].
    intros o w2 (taken & rest & -> & Ho). exists (r :: taken), rest. split; [done|].
    assert (∀ tr, went w1 w2 (effects taken (w_fs w1)) tr → went w w2 (effects (r :: taken) (w_fs w)) tr)
      as Hwent.
    { intros tr Hw. rewrite (proj1 Hw1) in Hw. rewrite <- (app_nil_r tr). by eapply went_trans. }
    destruct o as [[[b captured] n]|err|]; [|done|by apply Hwent].
    destruct Ho as (-> & Hc & Hw). refine (conj _ (conj (drained_cons _ _ _ _ _ _ _ _ Hr Hc) (Hwent _ Hw))).
    rewrite <- (assoc_L (++)). unfold drained_of. cbn. by rewrite Hr.
  - apply wp_ret. exists [r], rounds. split; [done|]. unfold drained_of. cbn.
    rewrite Hr, app_nil_r. refine (conj eq_refl (conj _ Hw1)). split; [apply goes_on_one|]. cbn. by rewrite Hr.
  - apply kill_then_wp; intros w2 Hw2; exists [r], rounds; (split; [done|]);
      rewrite (proj1 Hw1) in Hw2; [|by apply (went_trans _ _ _ _ _ _ _ Hw1 Hw2)].
    unfold drained_of. cbn. rewrite Hr, app_nil_r.
    refine (conj eq_refl (conj _ (went_trans _ _ _ _ _ _ _ Hw1 Hw2))).
    split; [apply goes_on_one|]. cbn. rewrite Hr. split_and!; [done|lia|]. right. by exists r.
Qed.
End loops.

(** ** Quoting *)

(** A POSIX shell reading one simple command: blanks separate words, single
    quotes hold everything up to the next one, a backslash takes the next
    character as it is.  Any unquoted character the shell could give another
    meaning is refused. *)
Definition plain_char (c : ascii) : bool :=
  let n := N_of_ascii c in
  ((48 <=? n) && (n <=? 57) || (65 <=? n) && (n <=? 90) || (97 <=? n) && (n <=? 122)
   || (n =? 95) || (n =? 45) || (n =? 46) || (n =? 47))%N.

Inductive lex_state := Between | InWord (w : string) | InQuote (w : string).

Definition word_of (st : lex_state) : string :=
  match st with Between => "" | InWord w | InQuote w => w end.

Definition snoc (w : string) (c : ascii) : string := w +:+ String c "".

Fixpoint sh_words (st : lex_state) (s : string) : option (list string) :=
  match s with
  | EmptyString =>
      match st with Between => Some [] | InWord w => Some [w] | InQuote _ => None end
  | String c s' =>
      match st with
      | InQuote w =>
          if bool_decide (c = quote) then sh_words (InWord w) s'
          else sh_words (InQuote (snoc w c)) s'
      | _ =>
          if bool_decide (c = " "%char) then
            match st with InWord w => cons w <$> sh_words Between s' | _ => sh_words Between s' end
          else if bool_decide (c = quote) then sh_words (InQuote (word_of st)) s'
          else if bool_decide (c = "\"%char) then
            match s' with
            | String d s'' => sh_words (InWord (snoc (word_of st) d)) s''
            | EmptyString => None
            end
          else if plain_char c then sh_words (InWord (snoc (word_of st) c)) s' else None
      end
  end.

Lemma sh_words_quoted w s rest :
  sh_words (InQuote w) (escape_quotes s +:+ String quote rest) = sh_words (InWord (w +:+ s)) rest.
Proof.
  revert w. induction s as [|c s IH]; intros w; [by rewrite append_nil_r|].
  assert (snoc w c +:+ s = w +:+ String c s) as Hs by apply append_assoc.
  cbn [escape_quotes]. case_bool_decide as Hc.
  - subst c. rewrite <- Hs, <- IH. reflexivity.
  - rewrite <- Hs, <- IH. change (String c (escape_quotes s) +:+ String quote rest)
      with (String c (escape_quotes s +:+ String quote rest)).
    cbn [sh_words]. by rewrite bool_decide_false.
Qed.

(** A quoted string is one word: the string itself. *)
Lemma sh_words_shell_quote s rest :
  sh_words Between (shell_quote s +:+ rest) = sh_words (InWord s) rest.
Proof.
  unfold shell_quote. case_decide as Hs; [by subst|].
  transitivity (sh_words (InQuote "") (escape_quotes s +:+ String quote rest)).
  - rewrite !append_assoc. reflexivity.
  - apply (sh_words_quoted "").
Qed.

Lemma sh_words_argv argv :
  sh_words Between (String.concat " " (shell_quote <$> argv)) = Some argv.
Proof.
  induction argv as [|a argv IH]; [done|].
  cbn [fmap list_fmap String.concat]. destruct (shell_quote <$> argv) as [|q qs] eqn:Hq.
  - rewrite <- (append_nil_r (shell_quote a)), sh_words_shell_quote.
    destruct argv; [done|discriminate].
  - rewrite sh_words_shell_quote. cbn [fmap] in IH.
    transitivity (cons a <$> sh_words Between (String.concat " " (q :: qs))); [done|].
    by rewrite IH.
Qed.

Lemma sh_words_exec argv :
  sh_words Between ("exec " +:+ String.concat " " (shell_quote <$> argv))
  = Some ("exec" :: argv).
Proof.
  transitivity (cons "exec" <$> sh_words Between (String.concat " " (shell_quote <$> argv))).
  - reflexivity.
  - by rewrite sh_words_argv.
Qed.

(** ** Properties *)

Lemma floor_boundary_spec text i :
  is_char_boundary text (floor_boundary text i) = true ∧ floor_boundary text i ≤ i.
Proof.
  induction i as [|i [IH1 IH2]]; cbn [floor_boundary]; [done|].
  destruct (is_char_boundary text (S i)) eqn:Hb; [done|]. split; [done|lia].
Qed.

Lemma bounded_lossy_spec bs limit :
  utf8_valid (bounded_lossy bs limit) = true ∧ length (bounded_lossy bs limit) ≤ limit.
Proof.
  unfold bounded_lossy. pose proof (from_utf8_lossy_is_valid bs) as Hv.
  case_decide as Hl; [|split; [done|lia]].
  destruct (floor_boundary_spec (from_utf8_lossy bs) limit) as [Hb Hle].
  split; [by apply boundary_split|]. rewrite length_take. lia.
Qed.

Lemma bounded_lossy_id bs limit :
  utf8_valid bs = true → length bs ≤ limit → bounded_lossy bs limit = bs.
Proof.
  intros Hv Hl. unfold bounded_lossy. rewrite from_utf8_lossy_valid by done.
  by rewrite decide_False by lia.
Qed.

Lemma foldl_push_captured bs chunks :
  foldl push (captured_bytes bs) chunks = captured_bytes (bs ++ concat chunks).
Proof.
  revert bs. induction chunks as [|c chunks IH]; intros bs; cbn [foldl concat].
  - by rewrite app_nil_r.
  - by rewrite push_captured, IH, (assoc_L (++)).
Qed.

(** C37: the capture of a stream does not depend on how it was cut into
    chunks: it is the first 4 KiB and the last 12 KiB of the rest, with the
    exact totals.  Both previews are valid UTF-8 within their limits, and a
    stream of valid text up to 4 KiB is reported in full with nothing
    omitted. *)
Theorem capture_any_chunks chunks :
  (lenN (concat chunks) <= u64_max)%N →
  let bs := concat chunks in
  let out := finish (foldl push OutputCapture.default chunks) in
  out = output_of bs ∧
  ExecOutput.total_bytes out = lenN bs ∧
  (ExecOutput.omitted_bytes out = 0%N ↔
     length bs ≤ OUTPUT_PREFIX_LIMIT + OUTPUT_SUFFIX_LIMIT) ∧
  utf8_valid (as_bytes (ExecOutput.prefix out)) = true ∧
  length (as_bytes (ExecOutput.prefix out)) ≤ OUTPUT_PREFIX_LIMIT ∧
  utf8_valid (as_bytes (ExecOutput.suffix out)) = true ∧
  length (as_bytes (ExecOutput.suffix out)) ≤ OUTPUT_SUFFIX_LIMIT ∧
  (utf8_valid bs = true → length bs ≤ OUTPUT_PREFIX_LIMIT →
     out = ExecOutput.Mk (string_of_list_byte bs) "" (lenN bs) 0).
Proof.
  intros Hlen bs out. subst out. rewrite <- captured_nil, foldl_push_captured.
  cbn [app]. fold bs. rewrite finish_captured by done.
  split; [done|]. unfold output_of. cbn [ExecOutput.total_bytes ExecOutput.omitted_bytes
    ExecOutput.prefix ExecOutput.suffix]. rewrite !as_bytes_of_bytes.
  split_and!; [done| |apply bounded_lossy_spec..|].
  - unfold lenN. generalize (OUTPUT_PREFIX_LIMIT + OUTPUT_SUFFIX_LIMIT). lia.
  - intros Hv Hl. rewrite take_ge, (drop_ge bs) by done.
    rewrite bounded_lossy_id by done. unfold lenN. f_equal. lia.
Qed.

(** The working directory and command line [prepare_exec] settles on. *)
Definition runs_argv (config : ServerConfig) (profile : option string) (argv : list string)
    (cmd : Command) : Prop :=
  match profile_for config profile with
  | Ok None => Command.program cmd :: Command.args cmd = argv
  | Ok (Some p) =>
      ∃ script, Command.program cmd :: Command.args cmd = Profile.shell p ++ [script] ∧
        ∃ line, sh_words Between line = Some ("exec" :: argv) ∧
          script = (if decide (Profile.setup p = "") then line
                    else Profile.setup p +:+ String "010" line)
  | Err _ => False
  end.

(** Where a command is started. *)
Definition started_in (t : tree) (ws : Workspace) (cwd : option string) (cmd : Command) : Prop :=
  is_dir t (Command.current_dir cmd) = true ∧
  Command.env_scratch cmd = scratch_root ws ∧
  match cwd with
  | Some c => resolve t ws c = Ok (Command.current_dir cmd)
  | None => Command.current_dir cmd = root ws
  end.

(** The outcome of a run of which the rounds [taken] and [drained] were
    attended to, and what it leaves: the files as the command left them, and
    in the trace that its group was killed at its timeout, and at the end of
    the drain. *)
Definition outcome_of (id : string) (timeout_ms : N) (run : process_run)
    (taken : list (round exec_event)) (drained : list (round drain_event))
    (t t' : tree) (trace : list event) (out : ExecOutcome) : Prop :=
  let es := received_of taken ++ drained_of drained in
  let timed_out := is_timed_out (ExecOutcome.termination out) in
  let '(reap_time, reap_effect) := if timed_out then run_reaped run else (0%N, λ t, t) in
  ∃ rest rest' now now',
    run_rounds run = taken ++ rest ∧ run_drain run = drained ++ rest' ∧
    collected (run_ready run + nanos timeout_ms) (run_ready run) taken rest
      (ExecOutcome.termination out) now ∧
    drained_until (now + reap_time + nanos DRAIN_GRACE_MS) (now + reap_time) drained rest'
      (ExecOutcome.drain_timed_out out) now' ∧
    ExecOutcome.operation_id out = id ∧
    ExecOutcome.duration_ms out = as_u64 (now' / 1000000) ∧
    ((lenN (stdout_of es) <= u64_max)%N → ExecOutcome.stdout out = output_of (stdout_of es)) ∧
    ((lenN (stderr_of es) <= u64_max)%N → ExecOutcome.stderr out = output_of (stderr_of es)) ∧
    t' = effects drained (reap_effect (effects taken t)) ∧
    trace = kills (ExecOutcome.drain_timed_out out) ++ kills timed_out.

(** What a run has done to the files at some point. *)
Definition partly_run (run : process_run) (t t' : tree) : Prop :=
  ∃ taken rest drained rest' (reaped : bool),
    run_rounds run = taken ++ rest ∧ run_drain run = drained ++ rest' ∧
    t' = effects drained ((if reaped then (run_reaped run).2 else id) (effects taken t)).

Lemma runs_argv_build config profile r argv0 argv_rest dir scratch cmd :
  profile_for config profile = Ok r →
  build_command r argv0 argv_rest dir scratch = Some cmd →
  runs_argv config profile (argv0 :: argv_rest) cmd ∧
  Command.current_dir cmd = dir ∧ Command.env_scratch cmd = scratch.
Proof.
  unfold build_command, runs_argv. intros -> Hb. destruct r as [p|]; [|by simplify_eq/=].
  destruct (Profile.shell p) as [|s0 sr]; simplify_eq/=. split_and!; [|done..].
  eexists. split; [done|].
  exists ("exec " +:+ String.concat " " (shell_quote <$> argv0 :: argv_rest)).
  split; [apply sh_words_exec|]. done.
Qed.

Lemma build_command_valid config profile r argv0 argv_rest dir scratch :
  valid_config config → profile_for config profile = Ok r →
  is_Some (build_command r argv0 argv_rest dir scratch).
Proof.
  intros [Hs _] Hr. unfold build_command. destruct r as [p|]; [|by eexists].
  unfold profile_for in Hr. destruct (option_or _ _) as [n|]; [|done].
  destruct (ServerConfig.profiles config !! n) as [p'|] eqn:Hp; simplify_eq.
  specialize (Hs n p Hp). destruct (Profile.shell p); [done|by eexists].
Qed.

Lemma not_panic e : ProtocolError.code e ≠ ExecFailed → e ≠ panic_empty_shell.
Proof. by intros He ->. Qed.

Lemma spawn_not_panic text :
  ProtocolError.new ExecFailed ("spawn failed: " +:+ text) ≠ panic_empty_shell.
Proof.
  intros Heq. by apply (f_equal (λ e, String.get 0 (ProtocolError.message e))) in Heq.
Qed.

Lemma profile_for_err config profile e :
  profile_for config profile = Err e → ProtocolError.code e ≠ ExecFailed.
Proof. unfold profile_for. intros He. by break He. Qed.

Lemma resolve_err t ws rel e :
  resolve t ws rel = Err e → ProtocolError.code e ≠ ExecFailed.
Proof.
  unfold resolve. case_decide; [by intros [= <-]|].
  destruct (base_and_relative ws rel) as [base relative].
  destruct (is_absolute relative); [by intros [= <-]|].
  destruct (existsb _ _); [by intros [= <-]|].
  destruct (canonicalize_ancestor _ _ _); cbn; [|by intros [= <-]].
  destruct (starts_with _ _); [done|by intros [= <-]].
Qed.

Section exec_properties.
Context `{Env} `{Processes}.

(** Looking whether a directory is there leaves no trace. *)
Lemma fs_is_dir_went {E} p w (Φ : outcome E bool → world → Prop) :
  (∀ b w', went w w' (w_fs w) [] → b = is_dir (w_fs w) p ∨ fails ∧ b = false → Φ (Returned b) w') →
  (∀ w', went w w' (w_fs w) [] → Φ Killed w') →
  wp (fs_is_dir p) w Φ.
Proof.
  intros HR HK. assert (wp (fs_is_dir (E := E) p) w (λ _ w', w_trace w' = w_trace w)) as Ht.
  { unfold fs_is_dir. apply wp_bind, wp_attempt, wp_sys; [|done..].
    intros n w' Ha. apply result_bind_Ok in Ha as (? & _ & ?). by simplify_eq. }
  eapply wp_and; [exact Ht|]. apply fs_is_dir_wp.
  - intros b w' (Hf & Hm & Hs) Hb Htr. by apply HR.
  - intros w' _ (Hf & Hm & Hs) Htr. by apply HK.
Qed.

Lemma prepare_exec_wp ws config cwd profile argv timeout_ms w Φ :
  (∀ cmd w', went w w' (w_fs w) [] →
     argv ≠ [] → (1 <= default DEFAULT_TIMEOUT_MS timeout_ms <= MAX_TIMEOUT_MS)%N →
     runs_argv config profile argv cmd → started_in (w_fs w) ws cwd cmd →
     Φ (Returned cmd) w') →
  (∀ e w', went w w' (w_fs w) [] → (valid_config config → e ≠ panic_empty_shell) →
     Φ (Raised e) w') →
  (∀ w', went w w' (w_fs w) [] → Φ Killed w') →
  wp (prepare_exec ws config cwd profile argv timeout_ms) w Φ.
Proof.
  intros HR HE HK. unfold prepare_exec. destruct argv as [|argv0 argv_rest].
  { by apply wp_raise, HE. }
  destruct (_ || _) eqn:Ht; [by apply wp_raise, HE|].
  apply orb_false_iff in Ht as [Ht1%bool_decide_eq_false Ht2%N.ltb_ge].
  apply wp_bind, wp_lift; [intros r Hr|intros e He].
  2: { apply HE; [done|]. intros _. by apply not_panic, (profile_for_err _ _ _ He). }
  apply wp_bind.
  assert (∀ wd, match cwd with Some c => resolve (w_fs w) ws c = Ok wd
                         | None => wd = root ws end →
    wp (d ← fs_is_dir wd;
        if negb d then
          raise (ProtocolError.new NotFound ("cwd not found: /" +:+ join_slash wd))
        else match build_command r argv0 argv_rest wd (scratch_root ws) with
             | Some cmd => mret cmd
             | None => raise panic_empty_shell
             end) w Φ) as Hrest.
  { intros wd Hwd. apply wp_bind, fs_is_dir_went; [|by intros w' Hw'; apply HK].
    intros b w' Hw' Hb. destruct b; cbn; [|by apply wp_raise, HE].
    assert (is_dir (w_fs w) wd = true) as Hd by (destruct Hb as [<-|[_ ?]]; done).
    destruct (build_command _ _ _ _ _) as [cmd|] eqn:Hbc.
    - destruct (runs_argv_build _ _ _ _ _ _ _ _ Hr Hbc) as (Hruns & Hcd & Hsc).
      apply wp_ret, HR; [done|done| |done|].
      + revert Ht1 Ht2. generalize (default DEFAULT_TIMEOUT_MS timeout_ms). lia.
      + unfold started_in. rewrite Hcd. auto.
    - apply wp_raise, HE; [done|]. intros Hv. exfalso.
      destruct (build_command_valid _ _ _ argv0 argv_rest wd (scratch_root ws) Hv Hr). congruence. }
  destruct cwd as [c|]; [|by apply wp_ret, Hrest].
  unfold ws_resolve. apply wp_bind, wp_get_fs, wp_lift; [by auto|].
  intros e He. apply HE; [done|]. intros _. by apply not_panic, (resolve_err _ _ _ _ He).
Qed.

(** What follows the start of a command. *)
Lemma attend_wp id timeout_ms run w :
  wp (attend id timeout_ms run) w (λ o w', ∃ trace,
    w_sd w' = w_sd w ∧ w_mem w' = w_mem w ∧ w_trace w' = trace ++ w_trace w ∧
    match o with
    | Returned out => ∃ taken drained,
        outcome_of id timeout_ms run taken drained (w_fs w) (w_fs w') trace out
    | Raised e => ∃ taken rest err, run_rounds run = taken ++ rest ∧
        goes_on is_received taken ∧ last_seen taken = Some (Waited (Err err)) ∧
        e = ProtocolError.new ExecFailed ("wait failed: " +:+ io.to_string err) ∧
        w_fs w' = effects taken (w_fs w) ∧ trace = []
    | Killed => partly_run run (w_fs w) (w_fs w')
    end).
Proof.
  unfold attend. change (OutputCapture.default, OutputCapture.default) with (captures []).
  apply wp_bind. eapply wp_mono; [|apply collect_loop_wp]. intros o w1 (taken & rest & Hrun & Ho).
  destruct o as [[[term captured] now]|e|].
  2: { destruct Ho as (err & -> & Hgo & Hl & Hf & Ht & Hs & Hm). exists [].
       split_and!; [done..|]. by exists taken, rest, err. }
  2: { destruct Ho as (Hf & Ht & Hs & Hm). exists []. split_and!; [done..|].
       by exists taken, rest, [], (run_drain run), false. }
  destruct Ho as (-> & Hc & Hw1). apply wp_bind.
  set (reap := if is_timed_out term then run_reaped run else (0%N, λ t : tree, t)).
  assert (∀ Ψ : outcome ProtocolError N → world → Prop,
    (∀ w2, went w w2 (reap.2 (effects taken (w_fs w))) (kills (is_timed_out term)) →
       Ψ (Returned (now + reap.1)%N) w2) →
    (∀ w2, went w w2 (reap.2 (effects taken (w_fs w))) (kills (is_timed_out term)) →
       is_timed_out term = true → Ψ Killed w2) →
    wp (if is_timed_out term then suspend (run_reaped run).2 ;; mret (now + (run_reaped run).1)%N
        else mret now) w1 Ψ) as Hreap.
  { intros Ψ HR HK. subst reap. destruct (is_timed_out term).
    - apply wp_bind, suspend_wp; intros w2 Hw2; rewrite (proj1 Hw1) in Hw2;
        pose proof (went_trans _ _ _ _ _ _ _ Hw1 Hw2) as Hw; [by apply wp_ret, HR|by apply HK].
    - apply wp_ret. rewrite <- (N.add_0_r now) at 1. by apply HR. }
  apply Hreap; clear Hreap.
  2: { intros w2 (Hf & Ht & Hs & Hm) Htime. exists (kills (is_timed_out term)). split_and!; [done..|].
       exists taken, rest, [], (run_drain run), true. split_and!; [done..|]. subst reap.
       by rewrite Htime in Hf. }
  intros w2 Hw2. cbn [app]. apply wp_bind. eapply wp_mono; [|apply drain_loop_wp].
  intros o w3 (drained & rest' & Hrun' & Ho). destruct o as [[[timed_out captured] now']|e|]; [|done|].
  - destruct Ho as (-> & Hd & Hw3). rewrite (proj1 Hw2) in Hw3.
    destruct (went_trans _ _ _ _ _ _ _ Hw2 Hw3) as (Hf & Ht & Hs & Hm).
    apply wp_ret. eexists. split; [exact Hs|]. split; [exact Hm|]. split; [exact Ht|].
    exists taken, drained. unfold outcome_of. cbn [ExecOutcome.termination]. fold reap.
    destruct reap as [reap_time reap_effect]. exists rest, rest', now, now'.
    split_and!; try done; apply finish_captured.
  - rewrite (proj1 Hw2) in Ho. destruct (went_trans _ _ _ _ _ _ _ Hw2 Ho) as (Hf & Ht & Hs & Hm).
    eexists. split; [exact Hs|]. split; [exact Hm|]. split; [exact Ht|].
    exists taken, rest, drained, rest', (is_timed_out term). split_and!; [done..|].
    subst reap. rewrite Hf. by destruct (is_timed_out term).
Qed.

End exec_properties.
