(* ===== verification/Server.v ===== *)
(** * Server: dispatching requests

    Models [crates/agent-remote-server/src/server.rs]: starting up, the
    idempotency claim, the dispatch of every kind of request, and the
    recording of its result.  A handler is a computation that returns the
    message written back to the client. *)

From S2P Require Import Prelude Text Protocol World Fs Hash Workspace Jsonl Store FsOps Undo.
From S2P Require Import Prune Transfer Recovery Config Exec.

Definition HISTORY_DEFAULT_LIMIT : N := 50.
Definition HISTORY_MAX_LIMIT : N := 100.

(** [Server], less what lives in [memory]. *)
Module Server.
Record Server := Mk {
  workspace : Workspace;
  config : ServerConfig;
  history_limit : option N }.
End Server.
Abbreviation Server := Server.Server.

Definition op_kind_str (body : RequestBody) : string :=
  match body with
  | RequestBody.List _ _ _ => "list"
  | RequestBody.Stat _ => "stat"
  | RequestBody.Read _ _ _ => "read"
  | RequestBody.Create _ _ => "create"
  | RequestBody.Edit _ _ _ _ _ => "edit"
  | RequestBody.Exec _ _ _ _ => "exec"
  | RequestBody.Delete _ => "delete"
  | RequestBody.Undo _ => "undo"
  | RequestBody.UploadPrepare _ _ => "upload_prepare"
  | RequestBody.UploadCommit _ _ _ _ => "upload_commit"
  | RequestBody.UploadAbort _ => "upload_abort"
  | RequestBody.DownloadRecord _ _ _ _ => "download_record"
  | RequestBody.History _ => "history"
  | RequestBody.OperationGet _ => "operation_get"
  | RequestBody.RequestStatus _ => "request_status"
  | RequestBody.Gc _ => "gc"
  end.

(** The message for a result. *)
Definition message_of (request_id : string) (r : result ProtocolError ResultBody)
    : ServerMessage :=
  match r with
  | Ok body => ServerMessage.Result request_id body
  | Err e => ServerMessage.Error request_id e
  end.

Section server.
Context `{Env} `{Sha256} `{HashIter} `{Tempfile} `{Processes} `{TomlConfig}
        `{JsonCodec AnyOperationRecord} `{JsonCodec RequestLogLine}.

(** [finish]: record the result, then report it; a result that cannot be
    recorded is reported as the failure to record it. *)
Definition finish_err (request_id : string) (err : ProtocolError)
    : M ProtocolError ServerMessage :=
  r ← attempt (remember_error request_id err);
  match r with
  | Ok _ => mret (ServerMessage.Error request_id err)
  | Err log_err => mret (ServerMessage.Error request_id log_err)
  end.

Definition finish_ (request_id : string) (r : result ProtocolError ResultBody)
    : M ProtocolError ServerMessage :=
  match r with
  | Ok body =>
      let msg := ServerMessage.Result request_id body in
      r ← attempt (remember_result request_id msg);
      match r with
      | Ok _ => mret msg
      | Err log_err => mret (ServerMessage.Error request_id log_err)
      end
  | Err e => finish_err request_id e
  end.

(** Run a handler and [finish] with its [Result]. *)
Definition finishing (request_id : string) (handler : M ProtocolError ResultBody)
    : M ProtocolError ServerMessage :=
  r ← attempt handler; finish_ request_id r.

(** ** [handle_exec] *)

Definition completed_record (request_id : string) (argv : list string)
    (cwd profile : option string) (timeout_ms : option N) (o : ExecOutcome) (now : N)
    : ExecOperationRecord :=
  let timed_out := bool_decide (ExecOutcome.termination o = ExecTermination.TimedOut) in
  ExecOperationRecord.Mk (ExecOutcome.operation_id o) request_id argv cwd profile
    (Some (default DEFAULT_TIMEOUT_MS timeout_ms))
    (if timed_out then ExecDisposition.TimedOut else ExecDisposition.Completed)
    (Some (ExecOutcome.termination o)) (ExecOutcome.drain_timed_out o)
    (ExecOutcome.duration_ms o) now
    (if timed_out then Some ("killed after " +:+ pretty (default DEFAULT_TIMEOUT_MS timeout_ms)
                               +:+ " ms timeout") else None)
    (if timed_out then Some ExecFailed else None)
    (ExecOutcome.stdout o) (ExecOutcome.stderr o).

Definition rejected_record (operation_id request_id : string) (argv : list string)
    (cwd profile : option string) (timeout_ms : option N) (e : ProtocolError) (now : N)
    : ExecOperationRecord :=
  ExecOperationRecord.Mk operation_id request_id argv cwd profile timeout_ms
    ExecDisposition.Rejected None false 0 now
    (Some (ProtocolError.message e)) (Some (ProtocolError.code e))
    ExecOutput.default ExecOutput.default.

Definition exec_result (o : ExecOutcome) : ExecResult :=
  ExecResult.Mk (ExecOutcome.operation_id o) (ExecOutcome.termination o)
    (ExecOutcome.duration_ms o) (ExecOutcome.drain_timed_out o)
    (ExecOutcome.stdout o) (ExecOutcome.stderr o).

Definition handle_exec (srv : Server) (request_id : string) (argv : list string)
    (cwd profile : option string) (timeout_ms : option N) : M ProtocolError ServerMessage :=
  operation_id ← next_operation_id;
  outcome ← attempt (exec (Server.workspace srv) (Server.config srv) cwd profile argv
                       timeout_ms operation_id);
  now ← now_ms;
  match outcome with
  | Ok o =>
      r ← attempt (append_exec_record
            (completed_record request_id argv cwd profile timeout_ms o now));
      match r with
      | Err e =>
          _ ← attempt (remember_error request_id e);
          mret (ServerMessage.Error request_id e)
      | Ok _ =>
          let body := ServerMessage.Result request_id (ResultBody.Exec (exec_result o)) in
          r' ← attempt (remember_result request_id body);
          match r' with
          | Ok _ => mret body
          | Err log_err => mret (ServerMessage.Error request_id log_err)
          end
      end
  | Err e =>
      record_err ← attempt (append_exec_record
        (rejected_record operation_id request_id argv cwd profile timeout_ms e now));
      remember_err ← attempt (remember_error request_id e);
      let report := match remember_err, record_err with
                    | Err e', _ => e'
                    | Ok _, Err e' => e'
                    | Ok _, Ok _ => e
                    end in
      mret (ServerMessage.Error request_id report)
  end.

(** ** The dispatch *)

Definition operation_not_found (operation_id : string) : ProtocolError :=
  ProtocolError.new OperationNotFound ("operation not found: " +:+ operation_id).

Definition handle_undo (ws : Workspace) (request_id operation_id : string)
    : M ProtocolError ResultBody :=
  m ← get_mem;
  match find_record m operation_id with
  | Some (AnyOperationRecord.Fs fs) => undo ws request_id fs
  | Some (AnyOperationRecord.Exec _) =>
      raise (ProtocolError.new InvalidRequest "cannot undo an exec operation")
  | Some (AnyOperationRecord.Transfer _) =>
      raise (ProtocolError.new InvalidRequest "transfer operations do not support undo")
  | Some (AnyOperationRecord.Prepared _ | AnyOperationRecord.Aborted _) | None =>
      raise (operation_not_found operation_id)
  end.

Definition handle_history (limit : option N) : M ProtocolError ResultBody :=
  let limit := default HISTORY_DEFAULT_LIMIT limit in
  if (HISTORY_MAX_LIMIT <? limit)%N then
    raise (ProtocolError.new InvalidRequest
      ("history limit must not exceed " +:+ pretty HISTORY_MAX_LIMIT))
  else m ← get_mem; mret (ResultBody.History (history m (Some limit))).

Definition handle_operation_get (operation_id : string) : M ProtocolError ResultBody :=
  m ← get_mem;
  match find_record m operation_id with
  | Some ((AnyOperationRecord.Fs _ | AnyOperationRecord.Exec _
           | AnyOperationRecord.Transfer _) as record) =>
      mret (ResultBody.Operation (OperationDetails.Mk record))
  | _ => raise (operation_not_found operation_id)
  end.

Definition handle_gc (srv : Server) (keep : option N) : M ProtocolError ResultBody :=
  match option_or keep (Server.history_limit srv) with
  | Some k =>
      s ← prune k;
      m ← get_mem;
      let in_flight := in_flight_staging (uploads m) in
      removed ← sweep_stale_staging_tree (root (Server.workspace srv)) in_flight
                  STALE_STAGING_MAX_AGE;
      removed' ← sweep_stale_staging_tree (scratch_root (Server.workspace srv)) in_flight
                   STALE_STAGING_MAX_AGE;
      mret (ResultBody.Gc (GcResult.Mk (PruneStats.removed_operations s)
        (PruneStats.removed_requests s) (PruneStats.retained_operations s)
        (N.of_nat (removed + removed'))))
  | None => raise (ProtocolError.new InvalidRequest
              "server has no history limit configured; pass keep explicitly")
  end.

(** The [match req.body] after the claim.  The two upload requests are
    answered before it. *)
Definition dispatch (srv : Server) (request_id : string) (body : RequestBody)
    : M ProtocolError ServerMessage :=
  let ws := Server.workspace srv in
  match body with
  | RequestBody.List path offset limit => finishing request_id (list_ ws path offset limit)
  | RequestBody.Stat path => finishing request_id (stat ws path)
  | RequestBody.Read path offset limit => finishing request_id (read ws path offset limit)
  | RequestBody.Create path content => finishing request_id (create ws request_id path content)
  | RequestBody.Edit path base_hash old_text new_text replace_all =>
      finishing request_id (edit ws request_id path base_hash old_text new_text replace_all)
  | RequestBody.Exec argv cwd profile timeout_ms =>
      handle_exec srv request_id argv cwd profile timeout_ms
  | RequestBody.Delete path => finishing request_id (delete_ ws request_id path)
  | RequestBody.UploadPrepare path overwrite =>
      finishing request_id (upload_prepare ws path overwrite)   (* unreachable *)
  | RequestBody.UploadAbort transfer_id =>
      finishing request_id (upload_abort transfer_id)           (* unreachable *)
  | RequestBody.UploadCommit transfer_id size sha256 duration_ms =>
      finishing request_id (upload_commit request_id transfer_id size sha256 duration_ms)
  | RequestBody.DownloadRecord path size sha256 duration_ms =>
      finishing request_id (download_record ws request_id path size sha256 duration_ms)
  | RequestBody.Undo operation_id =>
      finishing request_id (handle_undo ws request_id operation_id)
  | RequestBody.History limit => finishing request_id (handle_history limit)
  | RequestBody.OperationGet operation_id =>
      finishing request_id (handle_operation_get operation_id)
  | RequestBody.RequestStatus target =>
      finishing request_id (m ← get_mem;
        mret (ResultBody.RequestStatus (status_for_request m target)))
  | RequestBody.Gc keep => finishing request_id (handle_gc srv keep)
  end.

(** What an earlier entry of the request table answers. *)
Definition replay (request_id : string) (entry : RequestEntry) : ServerMessage :=
  match RequestEntry.result entry with
  | Some (StoredResult.Done m) => m
  | Some (StoredResult.Error e) => ServerMessage.Error request_id e
  | None => ServerMessage.Error request_id
              (ProtocolError.new InvalidRequest "request already in progress")
  end.

Definition claim_and_dispatch (srv : Server) (request_id : string) (body : RequestBody)
    : M ProtocolError ServerMessage :=
  claim ← attempt (claim_request request_id (op_kind_str body));
  match claim with
  | Ok None => dispatch srv request_id body
  | Ok (Some entry) => mret (replay request_id entry)
  | Err e => mret (ServerMessage.Error request_id e)
  end.

(** [Server::handle]. *)
Definition handle (srv : Server) (req : Request) : M ProtocolError ServerMessage :=
  let request_id := Request.request_id req in
  match Request.body req with
  | RequestBody.UploadPrepare path overwrite =>
      r ← attempt (upload_prepare (Server.workspace srv) path overwrite);
      mret (message_of request_id r)
  | RequestBody.UploadAbort transfer_id =>
      r ← attempt (upload_abort transfer_id);
      mret (message_of request_id r)
  | body => claim_and_dispatch srv request_id body
  end.

(** [Server::new] from the opening of the store on: recovery, pruning, the
    configuration.  Its text is read from outside the modelled trees. *)
Definition Server_start (ws : Workspace) (config_text : option (result io.Error string))
    (history_limit : option N) : M string Server :=
  map_raise (λ e, "startup recovery failed: " +:+ ProtocolError.display e) (recover ws) ;;
  (match history_limit with
   | Some keep =>
       map_raise (λ e, "startup prune failed: " +:+ ProtocolError.display e) (prune keep) ;;
       mret tt
   | None => mret tt
   end) ;;
  config ← lift (match config_text with
    | Some text =>
        s ← map_err (λ e, "read config: " +:+ io.to_string e) text;
        map_err ProtocolError.display (load_from_str s)
    | None => Ok ServerConfig.default
    end);
  mret (Server.Mk ws config history_limit).

(** [Server::new]. *)
Definition Server_new (root_arg state_dir : path) (config_text : option (result io.Error string))
    (history_limit : option N) : M string Server :=
  ws ← map_raise io.to_string (Workspace_new root_arg (state_dir ++ ["scratch"]));
  map_raise ProtocolError.display OperationStore_new ;;
  Server_start ws config_text history_limit.
End server.

(** ** The connection *)

Section connection.
Context `{Env} `{Sha256} `{HashIter} `{Tempfile} `{Processes}
        `{JsonCodec AnyOperationRecord} `{JsonCodec RequestLogLine} `{JsonCodec Request}.

(** One line of input: its answer, if it gets one. *)
Definition serve_line (srv : Server) (l : bytes) : M ProtocolError (option ServerMessage) :=
  let trimmed := trim l in
  if bool_decide (trimmed = []) then mret None
  else match from_json trimmed with
       | Err e => mret (Some (ServerMessage.Error "(parse-error)"
                    (ProtocolError.new InvalidRequest ("invalid request line: " +:+ e))))
       | Ok req => answer ← handle srv req; mret (Some answer)
       end.

(** [Server::run] on the lines of the input, each answered before the next
    is read.  (The source spawns a task per request: [Concurrency.v] has them
    side by side, and [Schedule.v] shows that this is one of their schedules.)
    A line that is not UTF-8 ends the connection. *)
Fixpoint run (srv : Server) (ls : list bytes) : M ProtocolError (list ServerMessage) :=
  match ls with
  | [] => mret []
  | l :: ls' =>
      if negb (utf8_valid l) then
        raise (ProtocolError.new IoError "stream did not contain valid UTF-8")
      else
        answer ← serve_line srv l;
        answers ← run srv ls';
        mret (option_list answer ++ answers)
  end.
End connection.
