(* ===== verification/ServerSpec.v ===== *)
(** * ServerSpec: every request is answered, and answered once

    Properties of [Server.v] that hold in every environment: no request is
    left without an answer unless the process dies, answers carry the id of
    their request, a request id that was seen before is answered from the
    table without running anything, and a connection answers its lines one by
    one. *)

From S2P Require Import Prelude Text Protocol World Fs Hash Workspace Jsonl Store StoreSpec.
From S2P Require Import FsOps Undo Prune Transfer Recovery Config Exec Server.

Section answers.
Context `{Env} `{Sha256} `{HashIter} `{Tempfile} `{Processes} `{TomlConfig}
        `{JsonCodec AnyOperationRecord} `{JsonCodec RequestLogLine}.

(** The computation ends with a value [P] holds of, or the process dies. *)
Definition yields {E A} (P : A → Prop) (m : M E A) : Prop :=
  ∀ w, wp m w (λ o _, match o with Returned a => P a | Raised _ => False | Killed => True end).

Lemma yields_ret {E A} (P : A → Prop) (a : A) : P a → yields (E := E) P (mret a).
Proof. by intros HP w. Qed.

Lemma yields_bind {E A B} (P : A → Prop) (Q : B → Prop) (m : M E A) (k : A → M E B) :
  yields P m → (∀ a, P a → yields Q (k a)) → yields Q (m ≫= k).
Proof.
  intros Hm Hk w. apply wp_bind. eapply wp_mono; [|apply Hm].
  intros [a|e|] w' Ha; [|done|done]. by apply Hk.
Qed.

Lemma yields_attempt {E F A} (m : M E A) :
  yields (λ _, True) (attempt (F := F) m).
Proof.
  intros w. apply wp_attempt. unfold wp. by destruct (m w) as [[a|e|] w'].
Qed.

Definition answers (rid : string) : ServerMessage → Prop :=
  λ msg, ServerMessage.request_id msg = rid.

Lemma yields_finish rid r : yields (answers rid) (finish_ rid r).
Proof.
  unfold finish_, finish_err.
  destruct r as [body|e]; (eapply yields_bind; [apply yields_attempt|]);
    intros [a|e'] _; by apply yields_ret.
Qed.

Lemma yields_finishing rid h : yields (answers rid) (finishing rid h).
Proof. eapply yields_bind; [apply yields_attempt|]. intros r _. apply yields_finish. Qed.

Lemma yields_handle_exec srv rid argv cwd profile timeout_ms :
  yields (answers rid) (handle_exec srv rid argv cwd profile timeout_ms).
Proof.
  unfold handle_exec.
  apply (yields_bind (λ _, True)); [by intros w|intros id _].
  eapply yields_bind; [apply yields_attempt|intros outcome _].
  apply (yields_bind (λ _, True)); [by intros w|intros now _].
  destruct outcome as [o|e]; (eapply yields_bind; [apply yields_attempt|intros r _]).
  - destruct r; (eapply yields_bind; [apply yields_attempt|intros r' _]);
      [destruct r'|]; by apply yields_ret.
  - eapply yields_bind; [apply yields_attempt|intros r' _]. by destruct r, r'; apply yields_ret.
Qed.

Lemma yields_dispatch srv rid body : yields (answers rid) (dispatch srv rid body).
Proof. destruct body; first [apply yields_finishing|apply yields_handle_exec]. Qed.

(** The request table answers for the request it is asked about. *)
Definition table_answers (rid : string) (m : memory) : Prop :=
  ∀ e msg, requests m !! rid = Some e →
    RequestEntry.result e = Some (StoredResult.Done msg) → ServerMessage.request_id msg = rid.

(** Such a request goes through the claim. *)
Definition claims (body : RequestBody) : bool :=
  match body with
  | RequestBody.UploadPrepare _ _ | RequestBody.UploadAbort _ => false
  | _ => true
  end.

Lemma handle_claims srv req :
  claims (Request.body req) = true →
  handle srv req = claim_and_dispatch srv (Request.request_id req) (Request.body req).
Proof. unfold handle. by destruct (Request.body req). Qed.

Lemma append_request_line_mem l w Φ :
  (∀ o w', w_mem w' = w_mem w → Φ o w') → wp (append_request_line l) w Φ.
Proof.
  intros HΦ. unfold append_request_line, append_record, sd_append, sd_open_append, sd_sync.
  wp_go; by apply HΦ.
Qed.

(** C20: every request is answered.  Whatever the environment does to the
    system calls, and whatever the request asks, [handle] comes back with a
    message -- never with an error the connection would have to deal with
    -- unless the process dies; and the message carries the id of the
    request. *)
Theorem handle_answers srv req w :
  table_answers (Request.request_id req) (w_mem w) →
  match handle srv req w with
  | (Returned msg, _) => ServerMessage.request_id msg = Request.request_id req
  | (Raised _, _) => False
  | (Killed, _) => True
  end.
Proof.
  intros Htab.
  apply (wp_let _ _ (λ o _, match o with
    | Returned msg => ServerMessage.request_id msg = Request.request_id req
    | Raised _ => False | Killed => True end)).
  destruct (claims (Request.body req)) eqn:Hc.
  2: { unfold handle. destruct (Request.body req); try done;
       (eapply yields_bind; [apply yields_attempt|]); intros [] _; by apply yields_ret. }
  rewrite handle_claims by done. unfold claim_and_dispatch, claim_request.
  apply wp_bind, wp_attempt, wp_bind, wp_get_mem.
  destruct (requests (w_mem w) !! Request.request_id req) as [e|] eqn:He.
  - apply wp_ret, wp_ret. unfold replay.
    destruct (RequestEntry.result e) as [[msg|err]|] eqn:Hr; [by eapply Htab|done|done].
  - apply wp_bind, append_request_line_mem. intros [[]|err|] w' Hm; [|by apply wp_ret|done].
    apply wp_bind, wp_get_mem. rewrite Hm, He.
    apply wp_bind, wp_put_mem, wp_ret. apply yields_dispatch.
Qed.

(** C4: a request id is served once.  When the table knows the id, the
    answer is what the table says -- the message of the first run, its
    error, or that it is still in progress -- and nothing else happens: no
    system call is made, no file or table changes. *)
Theorem handle_replays srv req w entry :
  claims (Request.body req) = true →
  requests (w_mem w) !! Request.request_id req = Some entry →
  handle srv req w = (Returned (replay (Request.request_id req) entry), w).
Proof.
  intros Hc He. rewrite handle_claims by done. unfold claim_and_dispatch, claim_request.
  unfold mbind, M_bind, attempt, get_mem. by rewrite He.
Qed.
End answers.
