(* ===== verification/Concurrency.v ===== *)
(** * Concurrency: requests served side by side

    [Server::run] ([crates/agent-remote-server/src/server.rs]) spawns a task
    for every request line, so requests run side by side on one store.
    [Server.v] has what one of them does, and [Schedule.v] shows that it does it
    in the steps given here; this file has how several meet: at
    the request table, at the request log, at the write guard, and at the lock
    that [OperationStore::prune] holds on the tables.

    The model is a step relation.  A step is what one task does between two
    points at which another can come in: taking a lock and what is done under
    it, opening a log file, one [write] to it.  An append is two writes, since
    [writeln!] writes the text and the newline separately, and goes to the file
    the task has opened, also when [prune] has installed another one in the
    meantime.  What a handler computes is left open: the theorems hold whatever
    the results are.

    The operation log is not part of the state: its appends are made under the
    write guard, which [prune] holds too, except those of [exec], which can
    meet others in the ways shown here for the request log. *)

From S2P Require Import Prelude Text Protocol World Fs Hash Workspace Jsonl Store Prune PruneSpec.
From S2P Require Import Crash Server.

(** ** The state *)

(** A log file by its name; [generation] counts how often another file was
    installed under it. *)
Record logfile := MkLog { contents : bytes; generation : nat }.

(** A write through a handle opened at generation [g]. *)
Definition write_to (g : nat) (bs : bytes) (f : logfile) : logfile :=
  if decide (g = generation f) then MkLog (contents f ++ bs) (generation f) else f.

(** The last line has no newline yet. *)
Definition unfinished (f : logfile) : bool :=
  match last (contents f) with Some b => negb (bool_decide (b = nl)) | None => false end.

(** Where the task of a request stands. *)
Inductive phase :=
| Arrived                                   (* spawned *)
| Unseen                                    (* [claim_request] found no entry *)
| ClaimOpen (g : nat)                       (* has opened the request log *)
| ClaimText (g : nat)                       (* has written its line's text *)
| ClaimWritten                              (* ... and its newline, and synced *)
| Waiting                                   (* won the claim, waits for the guard *)
| Running                                   (* in its handler *)
| PruneTables | PruneRequests               (* how far [prune] has got *)
| Pruned (res : result ProtocolError ResultBody)
| Finishing (res : result ProtocolError ResultBody)   (* guard dropped, in [finish] *)
| ResultOpen (g : nat) (res : result ProtocolError ResultBody)
| ResultText (g : nat) (res : result ProtocolError ResultBody)
| ResultWritten (res : result ProtocolError ResultBody)
| Answered (m : ServerMessage).

Record state := MkState {
  tasks : gmap nat (Request * phase);
  mem : memory;
  reqlog : logfile;
  write_guard : option nat;           (* the task that holds it *)
  tables_lock : option nat;           (* [records] and [requests], during [prune] *)
  (** history, which no task reads *)
  claims : list string;               (* ids of the claims won *)
  forgotten : list string;            (* ids whose entry was pruned *)
  op_ids : list N;                    (* numbers given out as operation ids *)
  disturbed : bool }.                 (* appends met one another, or [prune] *)

Definition set_phase (t : nat) (req : Request) (p : phase) (s : state) : state :=
  MkState (<[t := (req, p)]> (tasks s)) (mem s) (reqlog s) (write_guard s)
    (tables_lock s) (claims s) (forgotten s) (op_ids s) (disturbed s).
Definition on_mem (f : memory → memory) (s : state) : state :=
  MkState (tasks s) (f (mem s)) (reqlog s) (write_guard s)
    (tables_lock s) (claims s) (forgotten s) (op_ids s) (disturbed s).
Definition on_reqlog (f : logfile → logfile) (s : state) : state :=
  MkState (tasks s) (mem s) (f (reqlog s)) (write_guard s)
    (tables_lock s) (claims s) (forgotten s) (op_ids s) (disturbed s).
Definition set_guard (g : option nat) (s : state) : state :=
  MkState (tasks s) (mem s) (reqlog s) g
    (tables_lock s) (claims s) (forgotten s) (op_ids s) (disturbed s).
Definition set_lock (l : option nat) (s : state) : state :=
  MkState (tasks s) (mem s) (reqlog s) (write_guard s)
    l (claims s) (forgotten s) (op_ids s) (disturbed s).
Definition note (cs fs : list string) (ns : list N) (d : bool) (s : state) : state :=
  MkState (tasks s) (mem s) (reqlog s) (write_guard s) (tables_lock s)
    (cs ++ claims s) (fs ++ forgotten s) (ns ++ op_ids s) (d || disturbed s).

(** ** What the steps do *)

Abbreviation task_id := Request.request_id.
Definition task_op (req : Request) : string := op_kind_str (Request.body req).

(** The requests answered before the claim. *)
Definition bypasses (body : RequestBody) : bool :=
  match body with RequestBody.UploadPrepare _ _ | RequestBody.UploadAbort _ => true | _ => false end.
(** The handlers that take [write_guard]. *)
Definition guarded (body : RequestBody) : bool :=
  match body with
  | RequestBody.Create _ _ | RequestBody.Edit _ _ _ _ _ | RequestBody.Delete _
  | RequestBody.UploadCommit _ _ _ _ | RequestBody.DownloadRecord _ _ _ _
  | RequestBody.Undo _ | RequestBody.Gc _ => true
  | _ => false
  end.
Definition is_exec (body : RequestBody) : bool :=
  match body with RequestBody.Exec _ _ _ _ => true | _ => false end.
Definition is_gc (body : RequestBody) : bool :=
  match body with RequestBody.Gc _ => true | _ => false end.

(** The entry a result becomes, and the lines of claim and result. *)
Definition outcome_entry (rid : string) (res : result ProtocolError ResultBody) : RequestEntry :=
  match res with
  | Ok body => RequestEntry.Mk RequestStatus.Done (Some (StoredResult.Done (ServerMessage.Result rid body))) None
  | Err e => RequestEntry.Mk RequestStatus.Error (Some (StoredResult.Error e)) None
  end.
Definition claim_line (req : Request) : RequestLogLine :=
  line_of_entry (task_id req) (claimed (task_op req)).
Definition outcome_line (req : Request) (res : result ProtocolError ResultBody) : RequestLogLine :=
  line_of_entry (task_id req) (outcome_entry (task_id req) res).

Definition insert_entry (rid : string) (e : RequestEntry) (m : memory) : memory :=
  set_requests (<[rid := e]> (requests m)) m.

(** [next_operation_id]. *)
Definition take_id (s : state) : state :=
  let n := u64_add (next_id (mem s)) 1 in
  note [] [] [n] false (on_mem (set_next_id n) s).

(** The beginning of [prune]: both tables under their locks. *)
Definition prune_tables (keep : N) (m : memory) : memory :=
  let kept := drop (N.to_nat (saturating_sub (lenN (records m)) keep)) (records m) in
  set_requests (retain_requests kept (requests m)) (set_records kept m).
Definition dropped_ids (m m' : memory) : list string :=
  elements (dom (requests m) ∖ dom (requests m')).

(** A task between the opening of the request log and the table's update. *)
Definition appending (p : phase) : bool :=
  match p with
  | ClaimOpen _ | ClaimText _ | ClaimWritten
  | ResultOpen _ _ | ResultText _ _ | ResultWritten _ => true
  | _ => false
  end.
Definition someone_appends (s : state) : bool :=
  existsb (λ x, appending x.2.2) (map_to_list (tasks s)).

Section steps.
Context `{HashIter} `{JsonCodec RequestLogLine}.

(** One [write] of an append; it disturbs when another line is unfinished. *)
Definition write_text (g : nat) (bs : bytes) (s : state) : state :=
  note [] [] [] (unfinished (reqlog s)) (on_reqlog (write_to g bs) s).
Definition write_newline (g : nat) : state → state := on_reqlog (write_to g [nl]).

(** [rewrite_jsonl] on the request log: the rename. *)
Definition replace_reqlog (s : state) : state :=
  note [] [] [] (someone_appends s)
    (on_reqlog (λ f, MkLog (lines (request_lines (requests (mem s)))) (S (generation f))) s).

Definition start (m : memory) (ls : list RequestLogLine) : state :=
  MkState ∅ m (MkLog (lines ls) 0) None None [] [] [] false.

Inductive step (s : state) : state → Prop :=
(** [run]: a line is read, a task spawned. *)
| step_arrive t req :
    tasks s !! t = None → step s (set_phase t req Arrived s)
| step_bypass t req m :
    tasks s !! t = Some (req, Arrived) → bypasses (Request.body req) = true →
    ServerMessage.request_id m = task_id req →
    step s (set_phase t req (Answered m) s)
(** [claim_request]: the first lookup, under the lock. *)
| step_seen t req e :
    tasks s !! t = Some (req, Arrived) → bypasses (Request.body req) = false →
    tables_lock s = None → requests (mem s) !! task_id req = Some e →
    step s (set_phase t req (Answered (replay (task_id req) e)) s)
| step_unseen t req :
    tasks s !! t = Some (req, Arrived) → bypasses (Request.body req) = false →
    tables_lock s = None → requests (mem s) !! task_id req = None →
    step s (set_phase t req Unseen s)
(** The claim's line, without a lock; of a failed write some bytes may be
    there. *)
| step_claim_open t req :
    tasks s !! t = Some (req, Unseen) →
    step s (set_phase t req (ClaimOpen (generation (reqlog s))) s)
| step_claim_text t req g :
    tasks s !! t = Some (req, ClaimOpen g) →
    step s (set_phase t req (ClaimText g) (write_text g (json (claim_line req)) s))
| step_claim_newline t req g :
    tasks s !! t = Some (req, ClaimText g) →
    step s (set_phase t req ClaimWritten (write_newline g s))
| step_claim_error t req p e :
    tasks s !! t = Some (req, p) → p = Unseen ∨ p = ClaimWritten ∨ (∃ g, p = ClaimText g) →
    step s (set_phase t req (Answered (ServerMessage.Error (task_id req) e)) s)
| step_claim_text_error t req g k e :
    tasks s !! t = Some (req, ClaimOpen g) →
    step s (set_phase t req (Answered (ServerMessage.Error (task_id req) e))
              (write_text g (take k (json (claim_line req))) s))
(** The second lookup, and the insertion, under the lock. *)
| step_claim_late t req e :
    tasks s !! t = Some (req, ClaimWritten) → tables_lock s = None →
    requests (mem s) !! task_id req = Some e →
    step s (set_phase t req (Answered (replay (task_id req) e)) s)
| step_claim_won t req :
    tasks s !! t = Some (req, ClaimWritten) → tables_lock s = None →
    requests (mem s) !! task_id req = None →
    step s (set_phase t req (if guarded (Request.body req) then Waiting else Running)
              (note [task_id req] [] [] false
                (on_mem (insert_entry (task_id req) (claimed (task_op req))) s)))
(** The handler: what it does to the shared tables, and its result. *)
| step_guard t req :
    tasks s !! t = Some (req, Waiting) → write_guard s = None →
    step s (set_phase t req Running (set_guard (Some t) s))
| step_id t req :
    tasks s !! t = Some (req, Running) →
    guarded (Request.body req) || is_exec (Request.body req) = true →
    step s (take_id s)
| step_record t req r rs :
    tasks s !! t = Some (req, Running) →
    guarded (Request.body req) || is_exec (Request.body req) = true → tables_lock s = None →
    rs = replace_or_push (has_id (AnyOperationRecord.operation_id r)) r (records (mem s)) ∨
      rs = records (mem s) ++ [r] →
    step s (on_mem (set_records rs) s)
| step_return t req res :
    tasks s !! t = Some (req, Running) →
    (is_gc (Request.body req) = true → ∃ e, res = Err e) →
    step s (set_phase t req (Finishing res)
              (if guarded (Request.body req) then set_guard None s else s))
(** [Gc], with [prune] in its stages. *)
| step_prune t req keep :
    tasks s !! t = Some (req, Running) → is_gc (Request.body req) = true → tables_lock s = None →
    step s (set_phase t req PruneTables (set_lock (Some t)
              (note [] (dropped_ids (mem s) (prune_tables keep (mem s))) [] false
                (on_mem (prune_tables keep) s))))
| step_prune_requests t req :
    tasks s !! t = Some (req, PruneTables) →
    step s (set_phase t req PruneRequests (replace_reqlog s))
| step_pruned t req p res :
    tasks s !! t = Some (req, p) →
    (p = PruneTables ∧ ∃ e, res = Err e) ∨ p = PruneRequests →
    step s (set_phase t req (Pruned res) (set_lock None s))
| step_gc_return t req res :
    tasks s !! t = Some (req, Pruned res) →
    step s (set_phase t req (Finishing res) (set_guard None s))
(** [finish]: the result's line without a lock, the table under it. *)
| step_finish_open t req res :
    tasks s !! t = Some (req, Finishing res) →
    step s (set_phase t req (ResultOpen (generation (reqlog s)) res) s)
| step_finish_text t req g res :
    tasks s !! t = Some (req, ResultOpen g res) →
    step s (set_phase t req (ResultText g res) (write_text g (json (outcome_line req res)) s))
| step_finish_newline t req g res :
    tasks s !! t = Some (req, ResultText g res) →
    step s (set_phase t req (ResultWritten res) (write_newline g s))
| step_finish_error t req p res e :
    tasks s !! t = Some (req, p) →
    p = Finishing res ∨ p = ResultWritten res ∨ (∃ g, p = ResultText g res) →
    step s (set_phase t req (Answered (ServerMessage.Error (task_id req) e)) s)
| step_finish_text_error t req g res k e :
    tasks s !! t = Some (req, ResultOpen g res) →
    step s (set_phase t req (Answered (ServerMessage.Error (task_id req) e))
              (write_text g (take k (json (outcome_line req res))) s))
| step_finished t req res m :
    tasks s !! t = Some (req, ResultWritten res) → tables_lock s = None →
    m = message_of (task_id req) res ∨
      (is_exec (Request.body req) = true ∧ ∃ e, m = ServerMessage.Error (task_id req) e) →
    step s (set_phase t req (Answered m)
              (on_mem (insert_entry (task_id req) (outcome_entry (task_id req) res)) s)).

(** What a server started on these tables can come to. *)
Definition reachable (m : memory) (ls : list RequestLogLine) : state → Prop :=
  rtc step (start m ls).
End steps.

(** ** Claims are exclusive *)

(** From winning the claim to the entry of the result. *)
Definition owns (p : phase) : bool :=
  match p with
  | Waiting | Running | PruneTables | PruneRequests | Pruned _ | Finishing _
  | ResultOpen _ _ | ResultText _ _ | ResultWritten _ => true
  | _ => false
  end.

(** Between taking the write guard and dropping it. *)
Definition in_section (req : Request) (p : phase) : bool :=
  match p with
  | Running => guarded (Request.body req)
  | PruneTables | PruneRequests | Pruned _ => true
  | _ => false
  end.

Definition present {A} (o : option A) : nat := if o then 1 else 0.
Definition times (l : list string) (rid : string) : nat := count_occ string_dec l rid.
Arguments times : simpl never.

Lemma times_app l l' rid : times (l ++ l') rid = times l rid + times l' rid.
Proof. apply count_occ_app. Qed.

Lemma times_one id rid : times [id] rid = if decide (id = rid) then 1 else 0.
Proof. unfold times. cbn. by destruct (string_dec id rid), (decide (id = rid)). Qed.

Lemma times_nodup l rid : NoDup l → times l rid = if decide (rid ∈ l) then 1 else 0.
Proof.
  induction 1 as [|x l Hx Hl IH]; [by rewrite decide_False by set_solver|].
  change (x :: l) with ([x] ++ l). rewrite times_app, times_one, IH.
  destruct (decide (x = rid)) as [->|Hne].
  - by rewrite decide_False, decide_True by set_solver.
  - destruct (decide (rid ∈ l)); [rewrite decide_True by set_solver|rewrite decide_False by set_solver]; done.
Qed.

(** An entry is kept or counted as dropped. *)
Lemma times_dropped m m' rid :
  (∀ e, requests m' !! rid = Some e → requests m !! rid = Some e) →
  times (dropped_ids m m') rid + present (requests m' !! rid) = present (requests m !! rid).
Proof.
  intros Hsub. unfold dropped_ids. rewrite times_nodup by apply NoDup_elements.
  destruct (requests m' !! rid) as [e|] eqn:Hm'; cbn.
  - rewrite (Hsub e) by done. rewrite decide_False; [done|].
    rewrite elem_of_elements, elem_of_difference, !elem_of_dom, Hm'. intros [_ Hn]. by apply Hn.
  - destruct (requests m !! rid) as [e|] eqn:Hm; cbn.
    + rewrite decide_True; [done|]. rewrite elem_of_elements, elem_of_difference, !elem_of_dom, Hm, Hm'.
      split; [done|]. by intros [? ?].
    + rewrite decide_False; [done|]. rewrite elem_of_elements, elem_of_difference, !elem_of_dom, Hm.
      by intros [[? ?] _].
Qed.

Lemma prune_tables_sub keep m rid e :
  requests (prune_tables keep m) !! rid = Some e → requests m !! rid = Some e.
Proof. unfold prune_tables, retain_requests. cbn. by intros [? _]%map_lookup_filter_Some. Qed.

Lemma prune_tables_claimed keep m rid op :
  requests m !! rid = Some (claimed op) → requests (prune_tables keep m) !! rid = Some (claimed op).
Proof.
  intros Hm. unfold prune_tables, retain_requests. cbn. apply map_lookup_filter_Some.
  split; [done|]. by left.
Qed.

Section exclusion.
Context `{HashIter} `{JsonCodec RequestLogLine} (m0 : memory).

Record inv (s : state) : Prop := {
  inv_owner t req p : tasks s !! t = Some (req, p) → owns p = true →
    requests (mem s) !! task_id req = Some (claimed (task_op req)) ∧ task_id req ∈ claims s;
  inv_one t t' req req' p p' :
    tasks s !! t = Some (req, p) → tasks s !! t' = Some (req', p') →
    owns p = true → owns p' = true → task_id req = task_id req' → t = t';
  inv_guard t req p : tasks s !! t = Some (req, p) → in_section req p = true →
    write_guard s = Some t;
  inv_count rid : times (claims s) rid + present (requests m0 !! rid)
    = times (forgotten s) rid + present (requests (mem s) !! rid) }.

Lemma inv_start ls : inv (start m0 ls).
Proof. split; cbn; intros *; rewrite ?lookup_empty; done. Qed.

(** A task moves on and nothing it shares changes. *)
Lemma inv_move s s' t req p' :
  inv s → tasks s' = <[t := (req, p')]> (tasks s) →
  (owns p' = true → ∃ p, tasks s !! t = Some (req, p) ∧ owns p = true) →
  (in_section req p' = true → ∃ p, tasks s !! t = Some (req, p) ∧ in_section req p = true) →
  requests (mem s') = requests (mem s) → write_guard s' = write_guard s →
  claims s' = claims s → forgotten s' = forgotten s → inv s'.
Proof.
  intros [Ho H1 Hg Hc] Ht Hp Hs Hm Hgu Hcl Hf. split; intros *; rewrite ?Ht, ?Hm, ?Hgu, ?Hcl, ?Hf.
  - rewrite lookup_insert_Some. intros [[<- [= <- <-]]|[_ Hl]]; [|by eapply Ho].
    intros (p & ? & ?)%Hp. by eapply Ho.
  - rewrite !lookup_insert_Some.
    intros [[<- [= <- <-]]|[Hn Hl]] [[<- [= <- <-]]|[Hn' Hl']] Hp1 Hp2 Hid; [done|..].
    + destruct (Hp Hp1) as (p & Hl & Hpo). by eapply H1.
    + destruct (Hp Hp2) as (p0 & Hl' & Hpo). by eapply H1.
    + by eapply H1.
  - rewrite lookup_insert_Some. intros [[<- [= <- <-]]|[_ Hl]]; [|by eapply Hg].
    intros (p & ? & ?)%Hs. by eapply Hg.
  - apply Hc.
Qed.

Lemma inv_same s s' :
  inv s → tasks s' = tasks s → requests (mem s') = requests (mem s) →
  write_guard s' = write_guard s → claims s' = claims s → forgotten s' = forgotten s → inv s'.
Proof.
  intros [Ho H1 Hg Hc] Ht Hm Hgu Hcl Hf.
  by split; intros *; rewrite ?Ht, ?Hm, ?Hgu, ?Hcl, ?Hf; eauto.
Qed.

(** The guard is dropped by its holder. *)
Lemma inv_release s t req p : inv s → tasks s !! t = Some (req, p) → in_section req p = true →
  ∀ p', owns p = true → in_section req p' = false → inv (set_phase t req p' (set_guard None s)).
Proof.
  intros [Ho H1 Hg Hc] Ht Hs p' Hp Hs'. pose proof (Hg _ _ _ Ht Hs) as Hgt. split; cbn; intros *.
  - rewrite lookup_insert_Some. intros [[<- [= <- <-]]|[_ Hl]] Hq; by eapply Ho.
  - rewrite !lookup_insert_Some.
    intros [[<- [= <- <-]]|[Hn Hl]] [[<- [= <- <-]]|[Hn' Hl']] Hp1 Hp2 Hid; [done|by eapply H1..].
  - rewrite lookup_insert_Some. intros [[<- [= <- <-]]|[Hn Hl]] Hq; [congruence|].
    specialize (Hg _ _ _ Hl Hq). congruence.
  - apply Hc.
Qed.

Lemma inv_acquire s t req : inv s → tasks s !! t = Some (req, Waiting) → write_guard s = None →
  inv (set_phase t req Running (set_guard (Some t) s)).
Proof.
  intros [Ho H1 Hg Hc] Ht Hs. split; cbn; intros *.
  - rewrite lookup_insert_Some. intros [[<- [= <- <-]]|[_ Hl]] Hq; by eapply Ho.
  - rewrite !lookup_insert_Some.
    intros [[<- [= <- <-]]|[Hn Hl]] [[<- [= <- <-]]|[Hn' Hl']] Hp1 Hp2 Hid; [done|by eapply H1..].
  - rewrite lookup_insert_Some. intros [[<- [= <- <-]]|[Hn Hl]] Hq; [done|].
    specialize (Hg _ _ _ Hl Hq). congruence.
  - apply Hc.
Qed.

Lemma inv_won s t req : inv s → tasks s !! t = Some (req, ClaimWritten) →
  requests (mem s) !! task_id req = None →
  inv (set_phase t req (if guarded (Request.body req) then Waiting else Running)
        (note [task_id req] [] [] false
          (on_mem (insert_entry (task_id req) (claimed (task_op req))) s))).
Proof.
  intros [Ho H1 Hg Hc] Ht Hn. set (p := if guarded _ then _ else _).
  assert (∀ t' req' p', tasks s !! t' = Some (req', p') → owns p' = true → task_id req ≠ task_id req') as Hne.
  { intros t' req' p' Hl Hq Heq. destruct (Ho _ _ _ Hl Hq) as [Hl' _]. congruence. }
  assert (owns p = true ∧ in_section req p = false) as [Hp Hs].
  { unfold p. by destruct (guarded _) eqn:Hgd; cbn. }
  split; cbn; intros *.
  - rewrite lookup_insert_Some. intros [[<- [= <- <-]]|[Hn' Hl]] Hq.
    + rewrite lookup_insert_eq. split; [done|set_solver].
    + rewrite lookup_insert_ne by eauto. destruct (Ho _ _ _ Hl Hq). split; [done|set_solver].
  - rewrite !lookup_insert_Some.
    intros [[<- [= <- <-]]|[Hn1 Hl]] [[<- [= <- <-]]|[Hn' Hl']] Hp1 Hp2 Hid; [done|..].
    + by destruct (Hne _ _ _ Hl' Hp2).
    + by destruct (Hne _ _ _ Hl Hp1).
    + by eapply H1.
  - rewrite lookup_insert_Some. intros [[<- [= <- <-]]|[Hn' Hl]] Hq; [congruence|by eapply Hg].
  - specialize (Hc rid). change (task_id req :: claims s) with ([task_id req] ++ claims s).
    rewrite times_app, times_one. destruct (decide (task_id req = rid)) as [<-|Hn'].
    + rewrite lookup_insert_eq. rewrite Hn in Hc. cbn in *. lia.
    + rewrite lookup_insert_ne by done. lia.
Qed.

Lemma inv_finished s t req res m : inv s → tasks s !! t = Some (req, ResultWritten res) →
  inv (set_phase t req (Answered m)
        (on_mem (insert_entry (task_id req) (outcome_entry (task_id req) res)) s)).
Proof.
  intros [Ho H1 Hg Hc] Ht. destruct (Ho _ _ _ Ht eq_refl) as [Hl0 _].
  split; cbn; intros *.
  - rewrite lookup_insert_Some. intros [[<- [= <- <-]]|[Hn' Hl]] Hq; [done|].
    rewrite lookup_insert_ne; [by eapply Ho|]. intros Heq. apply Hn'. by eapply H1.
  - rewrite !lookup_insert_Some.
    intros [[<- [= <- <-]]|[Hn1 Hl]] [[<- [= <- <-]]|[Hn' Hl']] Hp1 Hp2 Hid; [done..|by eapply H1].
  - rewrite lookup_insert_Some. intros [[<- [= <- <-]]|[Hn' Hl]] Hq; [done|by eapply Hg].
  - specialize (Hc rid). destruct (decide (task_id req = rid)) as [<-|Hn'].
    + rewrite lookup_insert_eq. rewrite Hl0 in Hc. done.
    + by rewrite lookup_insert_ne.
Qed.

Lemma inv_prune s t req keep :
  inv s → tasks s !! t = Some (req, Running) → is_gc (Request.body req) = true →
  inv (set_phase t req PruneTables (set_lock (Some t)
        (note [] (dropped_ids (mem s) (prune_tables keep (mem s))) [] false
          (on_mem (prune_tables keep) s)))).
Proof.
  intros [Ho H1 Hg Hc] Ht Hgc.
  assert (guarded (Request.body req) = true) as Hgd by by destruct (Request.body req).
  split; cbn -[prune_tables]; intros *.
  - rewrite lookup_insert_Some. intros [[<- [= <- <-]]|[Hn' Hl]] Hq.
    + destruct (Ho _ _ _ Ht eq_refl). split; [by apply prune_tables_claimed|done].
    + destruct (Ho _ _ _ Hl Hq). split; [by apply prune_tables_claimed|done].
  - rewrite !lookup_insert_Some.
    intros [[<- [= <- <-]]|[Hn1 Hl]] [[<- [= <- <-]]|[Hn' Hl']] Hp1 Hp2 Hid; [done|by eapply H1..].
  - rewrite lookup_insert_Some. intros [[<- [= <- <-]]|[Hn' Hl]] Hq; [by eapply Hg|by eapply Hg].
  - rewrite times_app.
    pose proof (times_dropped (mem s) (prune_tables keep (mem s)) rid (prune_tables_sub keep _ rid)).
    specialize (Hc rid). lia.
Qed.

Lemma requests_inv_step s s' : inv s → step s s' → inv s'.
Proof.
  intros Hi Hs.
  destruct Hs; try (eapply inv_move; [exact Hi|reflexivity|..]; cbn; naive_solver).
  - by apply inv_won.
  - by apply inv_acquire.
  - by eapply inv_same.
  - by eapply inv_same.
  - destruct (guarded (Request.body req)) eqn:Hg.
    + by eapply inv_release.
    + eapply inv_move; [exact Hi|reflexivity|..]; cbn; naive_solver.
  - by apply inv_prune.
  - by eapply inv_release.
  - by apply inv_finished.
Qed.

Lemma reachable_requests_inv ls s : reachable m0 ls s → inv s.
Proof.
  apply (rtc_ind_r inv); [apply inv_start|]. intros s1 s2 _ Hs Hi. by eapply requests_inv_step.
Qed.

(** ** Operation ids *)

Record ids_inv (s : state) : Prop := {
  ids_next : (next_id (mem s) = next_id m0 + lenN (op_ids s))%N;
  ids_range n : n ∈ op_ids s → (n <= next_id (mem s))%N;
  ids_nodup : NoDup (op_ids s) }.

Lemma ids_inv_step s s' :
  ids_inv s → (next_id m0 + lenN (op_ids s') <= u64_max)%N → step s s' → ids_inv s'.
Proof.
  intros [Hn Hr Hd] Hm Hs.
  destruct Hs; try (by split); try (by destruct (guarded (Request.body req)); split).
  cbn in Hm. assert (u64_add (next_id (mem s)) 1 = next_id (mem s) + 1)%N as Hadd.
  { unfold u64_add. apply N.mod_small. unfold lenN in *. cbn in Hm. lia. }
  split; cbn; rewrite Hadd.
  - rewrite Hn. unfold lenN. cbn. lia.
  - intros n [->|Hin]%elem_of_cons; [lia|]. specialize (Hr _ Hin). lia.
  - apply NoDup_cons. split; [|done]. intros Hin%Hr. lia.
Qed.

Lemma op_ids_step s s' : step s s' → (lenN (op_ids s) <= lenN (op_ids s'))%N.
Proof.
  intros Hs. destruct Hs; try done; try (by destruct (guarded (Request.body req))).
  unfold lenN. cbn. lia.
Qed.

Lemma reachable_ids ls s :
  reachable m0 ls s → (next_id m0 + lenN (op_ids s) <= u64_max)%N → ids_inv s.
Proof.
  apply (rtc_ind_r (λ s, (next_id m0 + lenN (op_ids s) <= u64_max)%N → ids_inv s)).
  - intros _. split; cbn; [|by intros n ?%elem_of_nil|constructor].
    by rewrite N.add_0_r.
  - intros s1 s2 _ Hs IH Hm. pose proof (op_ids_step _ _ Hs).
    eapply ids_inv_step; [apply IH; lia|done..].
Qed.
End exclusion.

(** ** Properties *)

(** C5: requests run once, also side by side.  However many requests are
    served at once, and whatever fails, with [gc] running or not: a request
    id is claimed as often as [prune] has forgotten it, and once more while it
    is in the table -- so an id that was never pruned is claimed at most once,
    and never when a former run left it in the table; two tasks that have won
    a claim and not entered their result have different ids; at most one task
    is between taking and dropping the write guard; and no number serves for
    two operation ids until there have been 2^64. *)
Theorem requests_run_once `{HashIter} `{JsonCodec RequestLogLine} m0 ls s :
  reachable m0 ls s →
  (∀ rid, times (claims s) rid + present (requests m0 !! rid)
     = times (forgotten s) rid + present (requests (mem s) !! rid)) ∧
  (∀ t t' req req' p p', tasks s !! t = Some (req, p) → tasks s !! t' = Some (req', p') →
     (owns p = true → task_id req ∈ claims s) ∧
     (owns p = true → owns p' = true → task_id req = task_id req' → t = t') ∧
     (in_section req p = true → in_section req' p' = true → t = t')) ∧
  ((next_id m0 + lenN (op_ids s) <= u64_max)%N → NoDup (op_ids s)).
Proof.
  intros Hr. pose proof (reachable_requests_inv _ _ _ Hr) as Hi. split_and!.
  - apply (inv_count _ _ Hi).
  - intros t t' req req' p p' Ht Ht'. split_and!.
    + intros Hp. apply (inv_owner _ _ Hi _ _ _ Ht Hp).
    + by eapply inv_one.
    + intros Hs Hs'. pose proof (inv_guard _ _ Hi _ _ _ Ht Hs).
      pose proof (inv_guard _ _ Hi _ _ _ Ht' Hs'). congruence.
  - intros Hm. apply ids_nodup with (m0 := m0), (reachable_ids _ ls); done.
Qed.
