(* ===== verification/ConcurrencyLog.v ===== *)
(** * ConcurrencyLog: what side-by-side requests leave in the request log

    Proofs about [Concurrency.v].  As long as appends to the request log do
    not meet one another, or [prune] replacing it, the log agrees with the
    request table and with what the tasks are doing; and examples of what
    happens when they do meet. *)

From S2P Require Import Prelude Text Protocol World Fs Hash Workspace Jsonl Store Prune PruneSpec.
From S2P Require Import Crash Server Concurrency.

(** ** Phases, seen from the log *)

(** The line whose text is in the log, without its newline. *)
Definition text_line (req : Request) (p : phase) : option RequestLogLine :=
  match p with
  | ClaimText _ => Some (claim_line req)
  | ResultText _ res => Some (outcome_line req res)
  | _ => None
  end.

Definition open_at (p : phase) : option nat :=
  match p with
  | ClaimOpen g | ClaimText g | ResultOpen g _ | ResultText g _ => Some g
  | _ => None
  end.

(** Before the claim is entered in the table. *)
Definition claiming (p : phase) : bool :=
  match p with Unseen | ClaimOpen _ | ClaimText _ | ClaimWritten => true | _ => false end.

(** The log's last word on the request is its claim. *)
Definition working (p : phase) : bool :=
  match p with
  | ClaimWritten => true
  | ResultWritten _ => false
  | _ => owns p
  end.

Definition is_answered (p : phase) : bool := match p with Answered _ => true | _ => false end.

(** No two requests carry the same id. *)
Definition distinct_ids (s : state) : Prop :=
  ∀ t t' req req' p p', tasks s !! t = Some (req, p) → tasks s !! t' = Some (req', p') →
    task_id req = task_id req' → t = t'.

Definition has_result (e : RequestEntry) : bool := if RequestEntry.result e then true else false.

Lemma has_result_outcome rid res : has_result (outcome_entry rid res) = true.
Proof. by destruct res. Qed.

(** ** The invariant *)

Section durable.
Context `{HashIterLaws} `{JsonCodecLaws RequestLogLine} (m0 : memory).

(** No entry with a result depends on this id's last line. *)
Definition unsettled (s : state) (rid : string) : Prop :=
  ∀ e, requests (mem s) !! rid = Some e → has_result e = false.

Record log_inv (s : state) (ls : list RequestLogLine) (tail : bytes) : Prop := {
  log_file : contents (reqlog s) = lines ls ++ tail;
  log_tail : tail = [] ∨ ∃ t req p l k,
    tasks s !! t = Some (req, p) ∧ RequestLogLine.request_id l = task_id req ∧
    tail = take k (json l) ∧
    (text_line req p = Some l ∨ (is_answered p = true ∧ unsettled s (task_id req)));
  log_text t req p l : tasks s !! t = Some (req, p) → text_line req p = Some l → tail = json l;
  log_one t t' req req' p p' : tasks s !! t = Some (req, p) → tasks s !! t' = Some (req', p') →
    is_Some (text_line req p) → is_Some (text_line req' p') → t = t';
  log_open t req p g : tasks s !! t = Some (req, p) → open_at p = Some g → g = generation (reqlog s);
  log_new t req p : tasks s !! t = Some (req, p) → claiming p = true →
    requests (mem s) !! task_id req = None;
  log_working t req p : tasks s !! t = Some (req, p) → working p = true →
    requests_of_log ls !! task_id req = Some (claimed (task_op req));
  log_written t req res : tasks s !! t = Some (req, ResultWritten res) →
    requests_of_log ls !! task_id req = Some (outcome_entry (task_id req) res);
  log_done i e : requests (mem s) !! i = Some e → has_result e = true →
    requests_of_log ls !! i = Some e }.

Lemma log_inv_start ls :
  requests_of_log ls = requests m0 → log_inv (start m0 ls) ls [].
Proof.
  intros Hl. split; cbn; intros *; rewrite ?lookup_empty, ?Hl, ?app_nil_r; try done. by left.
Qed.

Lemma tail_no_nl s ls tail : log_inv s ls tail → nl ∉ tail.
Proof.
  intros Hi. destruct (log_tail _ _ _ Hi) as [->|(t & req & p & l & k & _ & _ & -> & _)]; [set_solver|].
  intros Hin. apply (json_one_line l). rewrite <- (take_drop k (json l)). set_solver.
Qed.

Lemma unfinished_tail s ls tail : log_inv s ls tail → unfinished (reqlog s) = false → tail = [].
Proof.
  intros Hi Hu. pose proof (tail_no_nl _ _ _ Hi) as Hn. revert Hu. unfold unfinished.
  rewrite (log_file _ _ _ Hi). destruct tail as [|b tail _] using rev_ind; [done|].
  rewrite (assoc_L (++)), last_snoc. rewrite bool_decide_false by set_solver. done.
Qed.

(** A step that writes no line: one task moves, or none. *)
Lemma log_move s s' ls tail t req p' :
  log_inv s ls tail → tasks s' = <[t := (req, p')]> (tasks s) →
  reqlog s' = reqlog s → requests (mem s') = requests (mem s) →
  (tasks s !! t = None ∨ ∃ p, tasks s !! t = Some (req, p) ∧ is_answered p = false ∧
     (is_Some (text_line req p) → is_answered p' = true ∧ unsettled s (task_id req))) →
  text_line req p' = None → (∀ g, open_at p' = Some g → g = generation (reqlog s)) →
  (claiming p' = true → requests (mem s) !! task_id req = None) →
  (working p' = true → requests_of_log ls !! task_id req = Some (claimed (task_op req))) →
  (∀ res, p' ≠ ResultWritten res) → log_inv s' ls tail.
Proof.
  intros [Hf Hta Hte Hon Hop Hne Hwo Hwr Hdo] Ht Hr Hm Hold Htx Hg Hc Hw Hnr.
  split; intros *; rewrite ?Hr, ?Hm, ?Ht; try done.
  - destruct Hta as [->|(t0 & req0 & p0 & l & k & Hl0 & Hid & -> & Hp0)]; [by left|right].
    assert (unsettled s' = unsettled s) as Hun by (unfold unsettled; by rewrite Hm).
    rewrite Hun. destruct (decide (t0 = t)) as [->|Hnt].
    + destruct Hold as [?|(p & Hl & Ha & Htp)]; [congruence|].
      rewrite Hl0 in Hl. injection Hl as <- <-. destruct Hp0 as [Hp0|[Hp0 _]]; [|congruence].
      exists t, req0, p', l, k. rewrite lookup_insert_eq. split_and!; [done..|].
      right. apply Htp. by exists l.
    + exists t0, req0, p0, l, k. by rewrite lookup_insert_ne.
  - rewrite lookup_insert_Some. intros [[<- [= <- <-]]|[_ Hl]] Hx; [congruence|by eapply Hte].
  - rewrite !lookup_insert_Some.
    intros [[<- [= <- <-]]|[_ Hl]] [[<- [= <- <-]]|[_ Hl']] [? Hx] [? Hx']; [congruence..|by eapply Hon].
  - rewrite lookup_insert_Some. intros [[<- [= <- <-]]|[_ Hl]] Hx; [by apply Hg|by eapply Hop].
  - rewrite lookup_insert_Some. intros [[<- [= <- <-]]|[_ Hl]] Hx; [by apply Hc|by eapply Hne].
  - rewrite lookup_insert_Some. intros [[<- [= <- <-]]|[_ Hl]] Hx; [by apply Hw|by eapply Hwo].
  - rewrite lookup_insert_Some. intros [[<- [= <- Hx]]|[_ Hl]]; [by destruct (Hnr res)|by eapply Hwr].
  - apply Hdo.
Qed.

Lemma log_same s s' ls tail :
  log_inv s ls tail → tasks s' = tasks s → reqlog s' = reqlog s →
  requests (mem s') = requests (mem s) → log_inv s' ls tail.
Proof.
  intros [Hf Hta Hte Hon Hop Hne Hwo Hwr Hdo] Ht Hr Hm.
  split; intros *; rewrite ?Hr, ?Hm, ?Ht; eauto.
  assert (unsettled s' = unsettled s) as -> by (unfold unsettled; by rewrite Hm). done.
Qed.

Lemma claimed_unsettled s t req p :
  inv m0 s → tasks s !! t = Some (req, p) → owns p = true → unsettled s (task_id req).
Proof.
  intros Hi Ht Hp e He. destruct (inv_owner _ _ Hi _ _ _ Ht Hp) as [Hl _]. by simplify_eq.
Qed.

Lemma new_unsettled s rid : requests (mem s) !! rid = None → unsettled s rid.
Proof. intros Hn e He. congruence. Qed.

(** The text of a line, or a part of it. *)
Lemma log_write s ls tail t req p p' g l k :
  log_inv s ls tail → tasks s !! t = Some (req, p) → open_at p = Some g → text_line req p = None →
  unfinished (reqlog s) = false → RequestLogLine.request_id l = task_id req →
  unsettled s (task_id req) →
  (text_line req p' = Some l ∧ take k (json l) = json l ∨ is_answered p' = true) →
  open_at p' = Some g ∨ is_answered p' = true → (claiming p' = true → claiming p = true) →
  (working p' = true → working p = true) → (∀ res, p' ≠ ResultWritten res) →
  log_inv (set_phase t req p' (write_text g (take k (json l)) s)) ls (take k (json l)).
Proof.
  intros Hi Ht Hg Hx Hu Hid Hun Hp' Hg' Hc Hw Hnr.
  pose proof (unfinished_tail _ _ _ Hi Hu) as ->.
  pose proof (log_open _ _ _ Hi _ _ _ _ Ht Hg) as ->.
  assert (∀ t0 req0 p0, tasks s !! t0 = Some (req0, p0) → text_line req0 p0 = None) as Hnone.
  { intros t0 req0 p0 Hl. destruct (text_line req0 p0) as [l0|] eqn:Hx0; [|done].
    pose proof (log_text _ _ _ Hi _ _ _ _ Hl Hx0) as Hj. symmetry in Hj. by apply json_nonempty in Hj. }
  assert (text_line req p' = None ∨ text_line req p' = Some l ∧ take k (json l) = json l) as Hx'.
  { destruct Hp' as [?|Ha]; [by right|left]. by destruct p'. }
  destruct Hi as [Hf Hta Hte Hon Hop Hne Hwo Hwr Hdo].
  split; cbn; unfold write_to; rewrite ?decide_True by done; cbn; intros *; try done.
  - by rewrite Hf, app_nil_r.
  - right. exists t, req, p', l, k. rewrite lookup_insert_eq. split_and!; [done..|].
    destruct Hp' as [[? _]|?]; [by left|by right].
  - rewrite lookup_insert_Some. intros [[<- [= <- <-]]|[_ Hl]] Hxl.
    + destruct Hx' as [?|[Hl Hk]]; congruence.
    + rewrite (Hnone _ _ _ Hl) in Hxl. done.
  - rewrite !lookup_insert_Some.
    intros [[<- [= <- <-]]|[_ Hl]] [[<- [= <- <-]]|[_ Hl']] [? Hy] [? Hy']; [done|..].
    + rewrite (Hnone _ _ _ Hl') in Hy'. done.
    + rewrite (Hnone _ _ _ Hl) in Hy. done.
    + rewrite (Hnone _ _ _ Hl) in Hy. done.
  - rewrite lookup_insert_Some. intros [[<- [= <- <-]]|[_ Hl]] Hy; [|by eapply Hop].
    destruct Hg' as [Hg'|Ha]; [congruence|by destruct p'].
  - rewrite lookup_insert_Some. intros [[<- [= <- <-]]|[_ Hl]] Hy; [|by eapply Hne].
    eapply Hne; [done|by apply Hc].
  - rewrite lookup_insert_Some. intros [[<- [= <- <-]]|[_ Hl]] Hy; [|by eapply Hwo].
    eapply Hwo; [done|by apply Hw].
  - rewrite lookup_insert_Some. intros [[<- [= <- Hy]]|[_ Hl]]; [by destruct (Hnr res)|by eapply Hwr].
  - apply Hdo.
Qed.

(** The newline of a line: the record is complete. *)
Lemma log_newline s ls t req p p' g l :
  inv m0 s → log_inv s ls (json l) → distinct_ids s → tasks s !! t = Some (req, p) →
  open_at p = Some g → text_line req p = Some l → RequestLogLine.request_id l = task_id req →
  unsettled s (task_id req) → text_line req p' = None → open_at p' = None →
  (claiming p' = true → claiming p = true) →
  (working p' = true → entry_of_line l = claimed (task_op req)) →
  (∀ res, p' = ResultWritten res → entry_of_line l = outcome_entry (task_id req) res) →
  log_inv (set_phase t req p' (write_newline g s)) (ls ++ [l]) [].
Proof.
  intros Hinv Hi Hu Ht Hg Hx Hid Hun Hx' Hg' Hc Hw Hwr'.
  pose proof (log_open _ _ _ Hi _ _ _ _ Ht Hg) as ->.
  destruct Hi as [Hf Hta Hte Hon Hop Hne Hwo Hwr Hdo].
  assert (∀ t0 req0 p0, t ≠ t0 → tasks s !! t0 = Some (req0, p0) →
    text_line req0 p0 = None ∧ RequestLogLine.request_id l ≠ task_id req0) as Hother.
  { intros t0 req0 p0 Hne0 Hl. split.
    - destruct (text_line req0 p0) eqn:Hx0; [|done]. destruct Hne0.
      eapply Hon; [exact Ht|exact Hl|..]; by eexists.
    - rewrite Hid. intros Heq. by apply Hne0, (Hu _ _ _ _ _ _ Ht Hl). }
  split; cbn; unfold write_to; rewrite ?decide_True by done; cbn; intros *; rewrite ?requests_of_log_snoc.
  - rewrite Hf, lines_snoc, app_nil_r. unfold line. by rewrite (assoc_L (++)).
  - by left.
  - rewrite lookup_insert_Some. intros [[<- [= <- <-]]|[Hn Hl]] Hy; [congruence|].
    destruct (Hother _ _ _ Hn Hl). congruence.
  - rewrite !lookup_insert_Some.
    intros [[<- [= <- <-]]|[Hn Hl]] [[<- [= <- <-]]|[Hn' Hl']] [? Hy] [? Hy']; [congruence..|].
    destruct (Hother _ _ _ Hn Hl). congruence.
  - rewrite lookup_insert_Some. intros [[<- [= <- <-]]|[Hn Hl]] Hy; [congruence|by eapply Hop].
  - rewrite lookup_insert_Some. intros [[<- [= <- <-]]|[_ Hl]] Hy; [|by eapply Hne].
    eapply Hne; [done|by apply Hc].
  - rewrite lookup_insert_Some. intros [[<- [= <- <-]]|[Hn Hl]] Hy.
    + rewrite Hid, lookup_insert_eq. by rewrite Hw.
    + rewrite lookup_insert_ne by (by eapply Hother). by eapply Hwo.
  - rewrite lookup_insert_Some. intros [[<- [= <- Hy]]|[Hn Hl]].
    + rewrite Hid, lookup_insert_eq. by erewrite Hwr'.
    + rewrite lookup_insert_ne by (by eapply Hother). by eapply Hwr.
  - intros He Hr. rewrite lookup_insert_ne; [by apply Hdo|]. rewrite Hid. intros <-.
    rewrite (Hun e He) in Hr. done.
Qed.

(** The table's entry of a task [t] that has completed its line. *)
Lemma log_insert s s' ls tail t req p p' e :
  log_inv s ls tail → distinct_ids s → tasks s !! t = Some (req, p) →
  text_line req p = None → is_answered p = false →
  tasks s' = <[t := (req, p')]> (tasks s) → reqlog s' = reqlog s →
  requests (mem s') = <[task_id req := e]> (requests (mem s)) →
  requests_of_log ls !! task_id req = Some e →
  text_line req p' = None → open_at p' = None → claiming p' = false →
  (working p' = true → e = claimed (task_op req)) → (∀ res, p' ≠ ResultWritten res) →
  log_inv s' ls tail.
Proof.
  intros [Hf Hta Hte Hon Hop Hne Hwo Hwr Hdo] Hu Ht Hx Ha Ht' Hr Hm Hlog Hx' Hg' Hc' Hw' Hnr.
  assert (∀ t0 req0 p0, t ≠ t0 → tasks s !! t0 = Some (req0, p0) → task_id req ≠ task_id req0) as Hother.
  { intros t0 req0 p0 Hne0 Hl Heq. by apply Hne0, (Hu _ _ _ _ _ _ Ht Hl). }
  split; intros *; rewrite ?Ht', ?Hr, ?Hm; try done.
  - destruct Hta as [->|(t0 & req0 & p0 & l & k & Hl0 & Hid & -> & Hp0)]; [by left|right].
    destruct (decide (t = t0)) as [->|Hnt].
    { rewrite Hl0 in Ht. injection Ht as -> ->. destruct Hp0 as [?|[? _]]; congruence. }
    exists t0, req0, p0, l, k. rewrite lookup_insert_ne by done. split_and!; [done..|].
    destruct Hp0 as [Hp0|[Hp0 Hun]]; [by left|right]. split; [done|].
    unfold unsettled. rewrite Hm, lookup_insert_ne by (by eapply Hother). exact Hun.
  - rewrite lookup_insert_Some. intros [[<- [= <- <-]]|[_ Hl]] Hy; [congruence|by eapply Hte].
  - rewrite !lookup_insert_Some.
    intros [[<- [= <- <-]]|[_ Hl]] [[<- [= <- <-]]|[_ Hl']] [? Hy] [? Hy']; [congruence..|by eapply Hon].
  - rewrite lookup_insert_Some. intros [[<- [= <- <-]]|[_ Hl]] Hy; [congruence|by eapply Hop].
  - rewrite lookup_insert_Some. intros [[<- [= <- <-]]|[Hn Hl]] Hy; [congruence|].
    rewrite lookup_insert_ne by (by eapply Hother). by eapply Hne.
  - rewrite lookup_insert_Some. intros [[<- [= <- <-]]|[_ Hl]] Hy; [by rewrite <- Hw'|by eapply Hwo].
  - rewrite lookup_insert_Some. intros [[<- [= <- Hy]]|[_ Hl]]; [by destruct (Hnr res)|by eapply Hwr].
  - rewrite lookup_insert_Some. intros [[<- <-]|[_ Hl]] Hy; [done|by apply Hdo].
Qed.

(** Entries leave the table. *)
Lemma log_shrink s s' ls tail t req p' :
  log_inv s ls tail → tasks s !! t = Some (req, Running) →
  tasks s' = <[t := (req, p')]> (tasks s) → reqlog s' = reqlog s →
  (∀ i e, requests (mem s') !! i = Some e → requests (mem s) !! i = Some e) →
  text_line req p' = None → open_at p' = None → claiming p' = false →
  (∀ res, p' ≠ ResultWritten res) → log_inv s' ls tail.
Proof.
  intros [Hf Hta Hte Hon Hop Hne Hwo Hwr Hdo] Ht Ht' Hr Hm Hx' Hg' Hc' Hnr.
  split; intros *; rewrite ?Ht', ?Hr; try done.
  - destruct Hta as [->|(t0 & req0 & p0 & l & k & Hl0 & Hid & -> & Hp0)]; [by left|right].
    destruct (decide (t = t0)) as [->|Hnt].
    { rewrite Hl0 in Ht. injection Ht as -> ->. destruct Hp0 as [?|[? _]]; done. }
    exists t0, req0, p0, l, k. rewrite lookup_insert_ne by done. split_and!; [done..|].
    destruct Hp0 as [Hp0|[Hp0 Hun]]; [by left|right]. split; [done|]. intros e He. eauto.
  - rewrite lookup_insert_Some. intros [[<- [= <- <-]]|[_ Hl]] Hy; [congruence|by eapply Hte].
  - rewrite !lookup_insert_Some.
    intros [[<- [= <- <-]]|[_ Hl]] [[<- [= <- <-]]|[_ Hl']] [? Hy] [? Hy']; [congruence..|by eapply Hon].
  - rewrite lookup_insert_Some. intros [[<- [= <- <-]]|[_ Hl]] Hy; [congruence|by eapply Hop].
  - rewrite lookup_insert_Some. intros [[<- [= <- <-]]|[Hn Hl]] Hy; [congruence|].
    destruct (requests (mem s') !! _) as [e|] eqn:He; [|done]. apply Hm in He.
    rewrite (Hne _ _ _ Hl Hy) in He. done.
  - rewrite lookup_insert_Some. intros [[<- [= <- <-]]|[_ Hl]] Hy; [by eapply (Hwo _ _ _ Ht)|by eapply Hwo].
  - rewrite lookup_insert_Some. intros [[<- [= <- Hy]]|[_ Hl]]; [by destruct (Hnr res)|by eapply Hwr].
  - intros He. apply Hm in He. by apply Hdo.
Qed.

Lemma nobody_appends s t req p :
  someone_appends s = false → tasks s !! t = Some (req, p) → appending p = false.
Proof.
  unfold someone_appends. intros Hn Ht. apply not_true_iff_false. intros Hp.
  apply not_true_iff_false in Hn. apply Hn, existsb_exists. exists (t, (req, p)).
  split; [|done]. by apply list_elem_of_In, elem_of_map_to_list.
Qed.

(** [prune] puts the table in the place of the log. *)
Lemma log_replace s ls tail t req :
  inv m0 s → log_inv s ls tail → tasks s !! t = Some (req, PruneTables) →
  someone_appends s = false →
  log_inv (set_phase t req PruneRequests (replace_reqlog s)) (request_lines (requests (mem s))) [].
Proof.
  intros Hinv [Hf Hta Hte Hon Hop Hne Hwo Hwr Hdo] Ht Hn.
  assert (∀ t0 req0 p0, tasks s !! t0 = Some (req0, p0) → appending p0 = false) as Hna.
  { intros t0 req0 p0. by apply nobody_appends. }
  split; cbn; intros *; rewrite ?requests_of_request_lines, ?lookup_insert_Some; try done.
  - by rewrite app_nil_r.
  - by left.
  - intros [[<- [= <- <-]]|[_ Hl]] Hy; [done|]. apply Hna in Hl. by destruct p.
  - intros [[<- [= <- <-]]|[_ Hl]] [[<- [= <- <-]]|[_ Hl']] [? Hy] [? Hy']; [done..|by eapply Hon].
  - intros [[<- [= <- <-]]|[_ Hl]] Hy; [done|]. apply Hna in Hl. by destruct p.
  - intros [[<- [= <- <-]]|[_ Hl]] Hy; [done|by eapply Hne].
  - intros [[<- [= <- <-]]|[_ Hl]] Hy.
    + by apply (inv_owner _ _ Hinv _ _ _ Ht).
    + pose proof (Hna _ _ _ Hl). apply (inv_owner _ _ Hinv _ _ _ Hl). by destruct p.
  - intros [[_ [=]]|[_ Hl]]. by apply Hna in Hl.
Qed.

Lemma distinct_ids_step s s' : step s s' → distinct_ids s' → distinct_ids s.
Proof.
  intros Hs Hd.
  assert (∀ t req p, tasks s !! t = Some (req, p) → ∃ p', tasks s' !! t = Some (req, p')) as Hk.
  { intros t req p Ht.
    assert (∀ t' req' p', tasks s' = <[t' := (req', p')]> (tasks s) →
      (tasks s !! t' = None ∨ ∃ p, tasks s !! t' = Some (req', p)) →
      ∃ p', tasks s' !! t = Some (req, p')) as Hmove.
    { intros t' req' p' -> Ho. destruct (decide (t' = t)) as [->|Hn].
      - destruct Ho as [?|[p0 ?]]; simplify_eq. exists p'. by rewrite lookup_insert_eq.
      - exists p. by rewrite lookup_insert_ne. }
    destruct Hs; try (eapply Hmove; [reflexivity|eauto]); try (by eexists).
    destruct (guarded _); (eapply Hmove; [reflexivity|eauto]). }
  intros t t' req req' p p' Ht Ht' Hid.
  destruct (Hk _ _ _ Ht) as [q Hq]. destruct (Hk _ _ _ Ht') as [q' Hq']. by eapply Hd.
Qed.

Lemma disturbed_step s s' : step s s' → disturbed s' = false → disturbed s = false.
Proof.
  intros Hs. destruct Hs; cbn; try done; try (by destruct (guarded _)); intros [_ ?]%orb_false_iff; done.
Qed.

(** A task moves on without touching what the log depends on. *)
Ltac moves Ht :=
  eapply log_move; [eassumption|reflexivity|reflexivity|reflexivity
    |right; eexists; split; [exact Ht|]; split; [done|by intros [? ?]]
    |done|try done|try done|try done|done].

(** A task in the middle of a line gives up, or any other stops. *)
Lemma log_stop s ls tail t req p m :
  inv m0 s → log_inv s ls tail → tasks s !! t = Some (req, p) → is_answered p = false →
  log_inv (set_phase t req (Answered m) s) ls tail.
Proof.
  intros Hinv Hi Ht Ha. eapply log_move; [done|reflexivity..| |done|done|done|done|done].
  right. exists p. split_and!; [done..|]. intros Hx. split; [done|].
  destruct (owns p) eqn:Ho; [by eapply claimed_unsettled|].
  apply new_unsettled. eapply (log_new _ _ _ Hi); [done|]. by destruct p; destruct Hx.
Qed.

Lemma log_step s s' ls tail :
  inv m0 s → log_inv s ls tail → step s s' → disturbed s' = false → distinct_ids s →
  ∃ ls' tail', log_inv s' ls' tail'.
Proof.
  intros Hinv Hi Hs Hd Hu. destruct Hs as
    [t req Ht|t req m Ht Hb Hm|t req e Ht Hb Hl He|t req Ht Hb Hl He|t req Ht|t req g Ht|t req g Ht
    |t req p e Ht Hp|t req g k e Ht|t req e Ht Hl He|t req Ht Hl He|t req Ht Hg|t req Ht Hg|t req r Ht Hg Hl
    |t req res Ht Hg|t req keep Ht Hg Hl|t req Ht|t req p res Ht Hp|t req res Ht|t req res Ht|t req g res Ht
    |t req g res Ht|t req p res e Ht Hp|t req g res k e Ht|t req res m Ht Hl Hm].
  - exists ls, tail. eapply log_move; [done|reflexivity..| |done|done|done|done|done]. by left.
  - exists ls, tail. by eapply log_stop.
  - exists ls, tail. by eapply log_stop.
  - exists ls, tail. by moves Ht.
  - exists ls, tail. moves Ht; [by intros g [= <-]|].
    intros _. by apply (log_new _ _ _ Hi _ _ _ Ht).
  - cbn in Hd. apply orb_false_iff in Hd as [Hd _]. eexists ls, _.
    rewrite <- (firstn_all (json (claim_line req))). eapply (log_write _ _ _ _ _ _ _ _ (claim_line req)); try done; try apply line_of_entry_id.
    + apply new_unsettled. by apply (log_new _ _ _ Hi _ _ _ Ht).
    + left. by rewrite !firstn_all.
    + by left.
  - pose proof (log_text _ _ _ Hi _ _ _ _ Ht eq_refl) as ->.
    eexists _, _. eapply (log_newline _ _ _ _ _ _ _ (claim_line req)); try done.
    apply new_unsettled. by apply (log_new _ _ _ Hi _ _ _ Ht).
  - exists ls, tail. eapply log_stop; [done..|]. by destruct Hp as [->|[->|[g ->]]].
  - cbn in Hd. apply orb_false_iff in Hd as [Hd _]. eexists ls, _.
    eapply (log_write _ _ _ _ _ _ _ _ (claim_line req)); try done; try apply line_of_entry_id; try (by right).
    + apply new_unsettled. by apply (log_new _ _ _ Hi _ _ _ Ht).
  - exists ls, tail. by eapply log_stop.
  - exists ls, tail. eapply (log_insert _ _ _ _ _ _ _ _ (claimed (task_op req))); try done.
    + by apply (log_working _ _ _ Hi _ _ _ Ht).
    + by destruct (guarded _).
    + by destruct (guarded _).
    + by destruct (guarded _).
    + by destruct (guarded _).
  - exists ls, tail. moves Ht. intros _. by apply (log_working _ _ _ Hi _ _ _ Ht).
  - exists ls, tail. by eapply log_same.
  - exists ls, tail. by eapply log_same.
  - exists ls, tail. destruct (guarded _); moves Ht; intros _; by apply (log_working _ _ _ Hi _ _ _ Ht).
  - exists ls, tail. eapply log_shrink; try done. intros i e. apply prune_tables_sub.
  - cbn in Hd. apply orb_false_iff in Hd as [Hd _]. eexists _, _. by eapply log_replace.
  - exists ls, tail. destruct Hp as [[-> _]| ->]; moves Ht; intros _; by apply (log_working _ _ _ Hi _ _ _ Ht).
  - exists ls, tail. moves Ht. intros _. by apply (log_working _ _ _ Hi _ _ _ Ht).
  - exists ls, tail. moves Ht; [by intros g [= <-]|].
    intros _. by apply (log_working _ _ _ Hi _ _ _ Ht).
  - cbn in Hd. apply orb_false_iff in Hd as [Hd _]. eexists ls, _.
    rewrite <- (firstn_all (json (outcome_line req res))).
    eapply (log_write _ _ _ _ _ _ _ _ (outcome_line req res)); try done; try apply line_of_entry_id.
    + by eapply claimed_unsettled.
    + left. by rewrite !firstn_all.
    + by left.
  - pose proof (log_text _ _ _ Hi _ _ _ _ Ht eq_refl) as ->.
    eexists _, _. eapply (log_newline _ _ _ _ _ _ _ (outcome_line req res)); try done; try apply line_of_entry_id.
    + by eapply claimed_unsettled.
    + intros res' [= <-]. apply entry_of_line_of_entry.
  - exists ls, tail. eapply log_stop; [done..|]. by destruct Hp as [->|[->|[g ->]]].
  - cbn in Hd. apply orb_false_iff in Hd as [Hd _]. eexists ls, _.
    eapply (log_write _ _ _ _ _ _ _ _ (outcome_line req res)); try done; try apply line_of_entry_id; try (by right).
    + by eapply claimed_unsettled.
  - exists ls, tail. eapply (log_insert _ _ _ _ _ _ _ _ (outcome_entry (task_id req) res)); try done.
    by apply (log_written _ _ _ Hi _ _ _ Ht).
Qed.

Lemma reachable_log ls s :
  requests_of_log ls = requests m0 → reachable m0 ls s → disturbed s = false → distinct_ids s →
  inv m0 s ∧ ∃ ls' tail, log_inv s ls' tail.
Proof.
  intros Hl.
  apply (rtc_ind_r (λ s, disturbed s = false → distinct_ids s → inv m0 s ∧ ∃ ls' tail, log_inv s ls' tail)).
  - intros _ _. split; [apply inv_start|]. eexists _, _. by apply log_inv_start.
  - intros s1 s2 _ Hs IH Hd Hu. pose proof (distinct_ids_step _ _ Hs Hu) as Hu1.
    destruct IH as (Hi & ls1 & tail1 & Hl1); [by eapply disturbed_step|done|].
    split; [by eapply requests_inv_step|]. by eapply log_step.
Qed.

(** What a start reads: the unfinished line counts if its text is whole. *)
Lemma log_loads s ls tail :
  log_inv s ls tail → ∃ ls' b,
    load_lines requests_path 0 (lines_of (contents (reqlog s))) = Ok (ls', b) ∧
    (ls' = ls ∨ ∃ t req p l, ls' = ls ++ [l] ∧ tasks s !! t = Some (req, p) ∧
       RequestLogLine.request_id l = task_id req ∧
       (text_line req p = Some l ∨ (is_answered p = true ∧ unsettled s (task_id req)))).
Proof.
  intros Hi. rewrite (log_file _ _ _ Hi), lines_of_records by (by eapply tail_no_nl).
  destruct (log_tail _ _ _ Hi) as [->|(t & req & p & l & k & Ht & Hid & -> & Hp)].
  { exists ls, false. split; [apply load_lines_complete|by left]. }
  destruct (decide (length (json l) ≤ k)) as [Hk|Hk].
  { rewrite take_ge by done. exists (ls ++ [l]), false.
    split; [apply load_lines_unterminated|]. right. by exists t, req, p, l. }
  destruct k as [|k].
  { exists ls, false. split; [apply load_lines_complete|by left]. }
  exists ls, true. split; [|by left]. apply (load_lines_torn _ l).
  - exists (drop (S k) (json l)). split; [|by rewrite take_drop].
    intros Hd%(f_equal length). rewrite length_drop in Hd. simpl in Hd. lia.
  - destruct (json l); [simpl in *; lia|done].
Qed.

Lemma text_unsettled s ls tail t req p l :
  inv m0 s → log_inv s ls tail → tasks s !! t = Some (req, p) → text_line req p = Some l →
  unsettled s (task_id req).
Proof.
  intros Hinv Hi Ht Hx. destruct (owns p) eqn:Ho; [by eapply claimed_unsettled|].
  apply new_unsettled. eapply (log_new _ _ _ Hi); [done|]. by destruct p.
Qed.
End durable.

(** ** When appends meet *)

(** One step of a concrete run; the side conditions are read off the state. *)
Ltac look := cbn; rewrite ?lookup_insert_eq, ?lookup_insert_ne, ?lookup_empty by done; try done.
Tactic Notation "go" uconstr(s) := eapply rtc_l; [eapply s; look|].

Lemma generation_write g bs f : generation (write_to g bs f) = generation f.
Proof. unfold write_to. by case_decide. Qed.

Lemma contents_write g bs f :
  contents (write_to g bs f) = if Nat.eqb g (generation f) then contents f ++ bs else contents f.
Proof. unfold write_to. case_decide as Hg; by destruct (Nat.eqb_spec g (generation f)). Qed.

Ltac read_log := cbn -[prune_tables]; rewrite ?contents_write, ?generation_write; cbn -[prune_tables].

Section meetings.
Context `{HashIterLaws} `{JsonCodecLaws RequestLogLine}.

(** Two requests without the guard whose claims are written at the same time,
    each of the two writes of the one between those of the other. *)
Lemma two_claims_run (r0 r1 : Request) res0 res1 :
  task_id r0 ≠ task_id r1 →
  bypasses (Request.body r0) = false → bypasses (Request.body r1) = false →
  guarded (Request.body r0) = false → guarded (Request.body r1) = false →
  ∃ s, reachable empty_memory [] s ∧
    tasks s !! 0 = Some (r0, Answered (message_of (task_id r0) res0)) ∧
    tasks s !! 1 = Some (r1, Answered (message_of (task_id r1) res1)) ∧
    contents (reqlog s) = terminated
      [json (claim_line r0) ++ json (claim_line r1); []; json (outcome_line r0 res0);
       json (outcome_line r1 res1)].
Proof.
  intros Hne Hb0 Hb1 Hg0 Hg1.
  eexists. split; [unfold reachable|].
  { go (step_arrive _ 0 r0). go (step_arrive _ 1 r1).
    go (step_unseen _ 0 r0). go (step_unseen _ 1 r1).
    go (step_claim_open _ 0 r0). go (step_claim_open _ 1 r1).
    go (step_claim_text _ 0 r0). go (step_claim_text _ 1 r1).
    go (step_claim_newline _ 0 r0). go (step_claim_newline _ 1 r1).
    go (step_claim_won _ 0 r0). go (step_claim_won _ 1 r1). rewrite Hg0, Hg1.
    go (step_return _ 0 r0 res0). { by destruct (Request.body r0). } rewrite Hg0.
    go (step_return _ 1 r1 res1). { by destruct (Request.body r1). } rewrite Hg1.
    go (step_finish_open _ 0 r0). go (step_finish_text _ 0 r0). go (step_finish_newline _ 0 r0).
    go (step_finished _ 0 r0 res0). { by left. }
    go (step_finish_open _ 1 r1). go (step_finish_text _ 1 r1). go (step_finish_newline _ 1 r1).
    go (step_finished _ 1 r1 res1). { by left. }
    apply rtc_refl. }
  split_and!; [look..|]. read_log. unfold terminated. cbn. by rewrite <- !(assoc_L (++)).
Qed.

(** [gc] replaces the log between the opening and the writing of a claim. *)
Lemma lost_claim_run (rx rg : Request) :
  task_id rx ≠ task_id rg → is_exec (Request.body rx) = true → is_gc (Request.body rg) = true →
  ∃ s m, reachable empty_memory [] s ∧
    tasks s !! 0 = Some (rx, Running) ∧ requests m !! task_id rx = None ∧
    contents (reqlog s) = lines (request_lines (requests m)).
Proof.
  intros Hne Hx Hg.
  assert (bypasses (Request.body rx) = false ∧ guarded (Request.body rx) = false) as [Hbx Hgx]
    by by destruct (Request.body rx).
  assert (bypasses (Request.body rg) = false ∧ guarded (Request.body rg) = true) as [Hbg Hgg]
    by by destruct (Request.body rg).
  set (m := prune_tables 0 (insert_entry (task_id rg) (claimed (task_op rg)) empty_memory)).
  assert (requests m !! task_id rx = None) as Hm.
  { destruct (requests m !! task_id rx) as [e|] eqn:He; [|done].
    apply prune_tables_sub in He. revert He. by look. }
  eexists _, m. split; [unfold reachable|].
  { go (step_arrive _ 0 rx). go (step_arrive _ 1 rg). go (step_unseen _ 0 rx). go (step_unseen _ 1 rg).
    go (step_claim_open _ 0 rx).
    go (step_claim_open _ 1 rg). go (step_claim_text _ 1 rg). go (step_claim_newline _ 1 rg).
    go (step_claim_won _ 1 rg). rewrite Hgg. go (step_guard _ 1 rg).
    go (step_prune _ 1 rg 0). go (step_prune_requests _ 1 rg). go (step_pruned _ 1 rg _ (Ok (ResultBody.Gc (GcResult.Mk 0 0 1 0)))).
    { by right. }
    go (step_claim_text _ 0 rx). go (step_claim_newline _ 0 rx).
    eapply rtc_l; [eapply (step_claim_won _ 0 rx); [by look|done|exact Hm]|]. rewrite Hgx.
    apply rtc_refl. }
  split_and!; [by look|done|]. read_log. done.
Qed.
End meetings.

Lemma undisturbed_log `{HashIterLaws} `{JsonCodecLaws RequestLogLine} m0 ls s :
  requests_of_log ls = requests m0 → reachable m0 ls s → distinct_ids s → disturbed s = false →
  ∃ ls' b, load_lines requests_path 0 (lines_of (contents (reqlog s))) = Ok (ls', b) ∧
    (∀ rid e, requests (mem s) !! rid = Some e → has_result e = true →
       requests_of_log ls' !! rid = Some e) ∧
    (∀ t req p, tasks s !! t = Some (req, p) → working p = true → text_line req p = None →
       requests_of_log ls' !! task_id req = Some (claimed (task_op req))).
Proof.
  intros Hl Hr Hu Hd. destruct (reachable_log _ _ _ Hl Hr Hd Hu) as (Hinv & ls1 & tail & Hi).
  destruct (log_loads _ _ _ Hi) as (ls' & b & Hload & Hls). exists ls', b. split; [done|].
  destruct Hls as [->|(t0 & req0 & p0 & l & -> & Ht0 & Hid & Hp0)].
  { split; [apply (log_done _ _ _ Hi)|]. intros t req p Ht Hp _. by eapply (log_working _ _ _ Hi). }
  rewrite requests_of_log_snoc, Hid. split.
  - intros rid e He Hres. rewrite lookup_insert_ne; [by apply (log_done _ _ _ Hi)|]. intros <-.
    assert (unsettled s (task_id req0)) as Hun.
    { destruct Hp0 as [Hx|[_ Hun]]; [by eapply (text_unsettled m0)|done]. }
    rewrite (Hun e He) in Hres. done.
  - intros t req p Ht Hp Hx. rewrite lookup_insert_ne; [by eapply (log_working _ _ _ Hi)|].
    intros Heq. assert (t0 = t) as -> by by eapply Hu.
    rewrite Ht in Ht0. injection Ht0 as -> ->. destruct Hp0 as [?|[Ha _]]; [congruence|by destruct p0].
Qed.

(** ** Properties *)

(** C6: the log keeps up with the table.  Requests with different ids, served
    side by side with whatever failures, as long as no two appends to the
    request log meet and [prune] replaces it during none: at every moment the
    log on disk loads; it gives every result that is in the table; and it
    shows every request in progress -- from its claim until its result is
    written -- as in progress.  So wherever the process dies, the next start
    knows every result that was reported and every request that was running. *)
Theorem results_are_durable `{HashIterLaws} `{JsonCodecLaws RequestLogLine} m0 ls s :
  requests_of_log ls = requests m0 → reachable m0 ls s → distinct_ids s → disturbed s = false →
  ∃ ls' b, load_lines requests_path 0 (lines_of (contents (reqlog s))) = Ok (ls', b) ∧
    (∀ rid e, requests (mem s) !! rid = Some e → has_result e = true →
       requests_of_log ls' !! rid = Some e) ∧
    (∀ t req p, tasks s !! t = Some (req, p) → working p = true → text_line req p = None →
       requests_of_log ls' !! task_id req = Some (claimed (task_op req))).
Proof. apply undisturbed_log. Qed.

(** C40: two requests at once can make the log unreadable.  Any two requests
    that need no guard -- two listings, say -- can be served side by side, each
    answered with its result, so that their claims are written into each other:
    two texts, then two newlines.  The log then holds a line with two records
    and a blank line, and no start on it succeeds any more. *)
Theorem appends_garble_log `{JsonCodecLaws RequestLogLine} `{HashIter} r0 r1 res0 res1 :
  task_id r0 ≠ task_id r1 →
  bypasses (Request.body r0) = false → bypasses (Request.body r1) = false →
  guarded (Request.body r0) = false → guarded (Request.body r1) = false →
  ∃ s, reachable empty_memory [] s ∧
    tasks s !! 0 = Some (r0, Answered (message_of (task_id r0) res0)) ∧
    tasks s !! 1 = Some (r1, Answered (message_of (task_id r1) res1)) ∧
    ∀ ls b, load_lines requests_path 0 (lines_of (contents (reqlog s))) ≠ Ok (ls, b).
Proof.
  intros Hne Hb0 Hb1 Hg0 Hg1.
  destruct (two_claims_run r0 r1 res0 res1 Hne Hb0 Hb1 Hg0 Hg1) as (s & Hr & Ht0 & Ht1 & Hc).
  exists s. split_and!; [done..|]. intros ls b Hl. rewrite Hc in Hl.
  rewrite <- (app_nil_r (terminated _)), lines_of_spec in Hl; [| |by apply not_elem_of_nil].
  - apply load_lines_accepts in Hl as (vs1 & vs2 & _ & Hall & _).
    apply Forall2_cons_inv_l in Hall as (? & ? & _ & Hall & _).
    apply Forall2_cons_inv_l in Hall as (? & ? & (_ & Hblank & _) & _). by apply Hblank.
  - rewrite !Forall_cons, elem_of_app. split_and!; try apply json_one_line; [|by apply not_elem_of_nil|done].
    intros [Hin|Hin]; by apply json_one_line in Hin.
Qed.

(** [gc] can lose a claim.  While a command is being claimed, [gc] can replace
    the log so that the claim's line goes to the file it removes: the command
    runs, and a start from the log knows nothing of it -- were the process to
    die now, the same request would run the command a second time, instead of
    being answered that it was in progress at the crash. *)
Theorem gc_loses_claim `{HashIterLaws} `{JsonCodecLaws RequestLogLine} rx rg :
  task_id rx ≠ task_id rg → is_exec (Request.body rx) = true → is_gc (Request.body rg) = true →
  ∃ s, reachable empty_memory [] s ∧ tasks s !! 0 = Some (rx, Running) ∧
    ∃ ls, load_lines requests_path 0 (lines_of (contents (reqlog s))) = Ok (ls, false) ∧
      requests_of_log ls !! task_id rx = None.
Proof.
  intros Hne Hx Hg. destruct (lost_claim_run rx rg Hne Hx Hg) as (s & m & Hr & Ht & Hm & Hc).
  exists s. split_and!; [done..|]. exists (request_lines (requests m)).
  rewrite Hc, <- (app_nil_r (lines _)), lines_of_records by by apply not_elem_of_nil.
  split; [apply load_lines_complete|]. by rewrite requests_of_request_lines.
Qed.
