(* ===== verification/Tables.v ===== *)
(** * Tables: what the handlers do to the shared tables

    The handlers of requests work on the workspace; of what requests share --
    the counter of operation ids, the two tables, the request log -- most
    leave everything as it is, and the mutating ones take operation ids and
    enter records, nothing else.  This holds whatever the environment does. *)

From S2P Require Import Prelude Text Protocol World Fs Hash Workspace Jsonl Store FsOps Undo.
From S2P Require Import Prune Transfer Config Exec Server.

(** The tables that requests share. *)
Definition same_tables (m m' : memory) : Prop :=
  next_id m' = next_id m ∧ records m' = records m ∧ requests m' = requests m.

#[export] Instance same_tables_preorder : PreOrder same_tables.
Proof. split; [done|]. unfold same_tables. intros ???. naive_solver congruence. Qed.

(** What a mutating handler does to them between two system calls. *)
Inductive touch (m m' : memory) : Prop :=
| touch_same : same_tables m m' → touch m m'
| touch_id : m' = set_next_id (u64_add (next_id m) 1) m → touch m m'
| touch_record r : m' = set_records
    (replace_or_push (has_id (AnyOperationRecord.operation_id r)) r (records m)) m → touch m m'
| touch_append r : m' = set_records (records m ++ [r]) m → touch m m'.

(** The relations handlers are framed by are preorders: some do not look at
    the uploads, some not at ids and records. *)
Class Sharing (R : memory → memory → Prop) :=
  sharing_same m m' : same_tables m m' → R m m'.
Class Recording (R : memory → memory → Prop) := {
  recording_id m : R m (set_next_id (u64_add (next_id m) 1) m);
  recording_record m r : R m (set_records
    (replace_or_push (has_id (AnyOperationRecord.operation_id r)) r (records m)) m);
  recording_append m r : R m (set_records (records m ++ [r]) m) }.

#[export] Instance same_sharing : Sharing same_tables.
Proof. by intros m m'. Qed.
#[export] Instance touch_sharing : Sharing (rtc touch).
Proof. intros m m' Hm. apply rtc_once. by apply touch_same. Qed.
#[export] Instance touch_recording : Recording (rtc touch).
Proof.
  split; intros; apply rtc_once; [by apply touch_id|by eapply touch_record|by eapply touch_append].
Qed.

(** The request log is as it was, and the tables are related. *)
Definition framed_by (R : memory → memory → Prop) (w w' : world) : Prop :=
  R (w_mem w) (w_mem w') ∧ w_sd w' !! requests_path = w_sd w !! requests_path.

(** However the computation ends. *)
Definition keeps (R : memory → memory → Prop) {E A} (c : M E A) : Prop :=
  ∀ w, wp c w (λ _ w', framed_by R w w').

(** ** The ways computations are built *)

Section building.
Context (R : memory → memory → Prop) `{!PreOrder R} `{Env} {E F A B : Type}.

#[local] Instance framed_by_preorder : PreOrder (framed_by R).
Proof.
  split; [intros w; by split|]. intros w1 w2 w3 [? ?] [? ?]. split; [by etrans|congruence].
Qed.

Lemma keeps_ret (a : A) : keeps R (E := E) (mret a).
Proof. by intros w. Qed.
Lemma keeps_raise (e : E) : keeps R (A := A) (raise e).
Proof. by intros w. Qed.
Lemma keeps_lift (r : result E A) : keeps R (lift r).
Proof. intros w. by apply wp_lift. Qed.
Lemma keeps_get_mem : keeps R (E := E) get_mem.
Proof. by intros w. Qed.
Lemma keeps_get_fs : keeps R (E := E) get_fs.
Proof. by intros w. Qed.
Lemma keeps_now_ns : keeps R (E := E) now_ns.
Proof. by intros w. Qed.
Lemma keeps_now_ms : keeps R (E := E) now_ms.
Proof. by intros w. Qed.
Lemma keeps_put_mem f : (∀ m, R m (f m)) → keeps R (E := E) (put_mem f).
Proof. intros Hf w. split; [apply Hf|done]. Qed.
Lemma keeps_bind (m : M E A) (k : A → M E B) :
  keeps R m → (∀ a, keeps R (k a)) → keeps R (m ≫= k).
Proof.
  intros Hm Hk w. apply wp_bind. eapply wp_mono; [|apply Hm]. intros [a|e|] w1 Hw1; [|done..].
  eapply wp_mono; [|apply Hk]. intros o w2 Hw2. by etrans.
Qed.
Lemma keeps_map_raise (f : E → F) (m : M E A) : keeps R m → keeps R (map_raise f m).
Proof. intros Hm w. apply wp_map_raise. eapply wp_mono; [|apply Hm]. by intros []. Qed.
Lemma keeps_attempt (m : M E A) : keeps R m → keeps R (attempt (F := F) m).
Proof. intros Hm w. apply wp_attempt. eapply wp_mono; [|apply Hm]. by intros []. Qed.
Lemma keeps_sys ev (act : world → result io.Error (A * world)) :
  (∀ w a w', act w = Ok (a, w') → framed_by R w w') → keeps R (sys ev act).
Proof.
  intros Hact w. apply wp_sys; [|done..]. intros a w' Ha. apply Hact in Ha. by destruct ev.
Qed.
Lemma keeps_sys_write ev put bs :
  (∀ bs w, framed_by R w (put bs w)) → keeps R (sys_write ev put bs).
Proof. intros Hput w. apply wp_sys_write; intros; (etrans; [|apply Hput]); done. Qed.
End building.

Section loops.
Context (R : memory → memory → Prop) `{!PreOrder R} {E A : Type}.

Lemma keeps_for_each (l : list A) (f : A → M E unit) :
  (∀ x, keeps R (f x)) → keeps R (for_each l f).
Proof.
  intros Hf. induction l as [|x l IH]; [by apply keeps_ret|].
  cbn [for_each]. by apply keeps_bind.
Qed.

Lemma keeps_collect {B} (l : list A) (f : A → M E B) :
  (∀ x, keeps R (f x)) → keeps R (collect l f).
Proof.
  intros Hf. induction l as [|x l IH]; [by apply keeps_ret|]. cbn [collect].
  apply keeps_bind; [done|done|intros y]. apply keeps_bind; [done|done|]. intros ys. by apply keeps_ret.
Qed.
End loops.

(** ** The calls of the machine *)

Create HintDb frames.

(** A system call that has no hand in tables and request log. *)
Ltac framed :=
  repeat match goal with
  | H : _ ≫= _ = Ok _ |- _ => apply result_bind_Ok in H as (? & ? & H)
  | H : (if ?b then _ else _) = Ok _ |- _ => destruct b eqn:?
  end;
  cbv zeta in *; simplify_eq; split; [refine (PreOrder_Reflexive _)|cbn; by rewrite ?lookup_insert_ne, ?lookup_delete_ne by done].
Ltac keeps_call :=
  first [refine (keeps_sys _ _ _ _); intros ? ? ? ?; framed
        |refine (keeps_sys_write _ _ _ _ _); intros; framed].

(** Walk a computation, down to what the hints know. *)
Ltac keeps_step :=
  lazymatch goal with
  | |- ∀ _, keeps _ _ => intros ?
  | |- keeps ?R (mbind _ _) => apply (keeps_bind R)
  | |- keeps ?R (map_raise _ _) => apply (keeps_map_raise R)
  | |- keeps ?R (attempt _) => apply (keeps_attempt R)
  | |- keeps ?R (mret _) => by apply (keeps_ret R)
  | |- keeps ?R (raise _) => by apply (keeps_raise R)
  | |- keeps ?R (lift _) => by apply (keeps_lift R)
  | |- keeps ?R get_mem => by apply (keeps_get_mem R)
  | |- keeps ?R get_fs => by apply (keeps_get_fs R)
  | |- keeps ?R now_ns => by apply (keeps_now_ns R)
  | |- keeps ?R now_ms => by apply (keeps_now_ms R)
  | |- keeps ?R (for_each _ _) => apply (keeps_for_each R)
  | |- keeps ?R (collect _ _) => apply (keeps_collect R)
  | |- keeps _ (if ?b then _ else _) => destruct b
  | |- keeps _ (match ?x with _ => _ end) => destruct x
  | |- keeps _ _ => solve [eauto with frames typeclass_instances]
  end.
Ltac keeps_go := repeat keeps_step.

Section calls.
Context (R : memory → memory → Prop) `{!PreOrder R} `{Env} `{Tempfile}.

Lemma keeps_fs_symlink_metadata p : keeps R (fs_symlink_metadata p).
Proof. keeps_call. Qed.
Lemma keeps_fs_metadata p : keeps R (fs_metadata p).
Proof. keeps_call. Qed.
Lemma keeps_fs_read p : keeps R (fs_read p).
Proof. keeps_call. Qed.
Lemma keeps_fs_read_dir p : keeps R (fs_read_dir p).
Proof. keeps_call. Qed.
Lemma keeps_fs_change ev f : keeps R (fs_change ev f).
Proof. keeps_call. Qed.
Lemma keeps_fs_write p bs : keeps R (fs_write p bs).
Proof. keeps_call. Qed.
Lemma keeps_fsync_file_or_dir p : keeps R (fsync_file_or_dir p).
Proof. keeps_call. Qed.
Lemma keeps_fsync_dir p : keeps R (fsync_dir p).
Proof. keeps_call. Qed.
Lemma keeps_tempfile_in dir pre suf : keeps R (tempfile_in dir pre suf).
Proof. keeps_call. Qed.
Lemma keeps_sd_read name : keeps R (sd_read name).
Proof. keeps_call. Qed.
Lemma keeps_sd_sync name : keeps R (sd_sync name).
Proof. keeps_call. Qed.
Lemma keeps_sd_open_append name : name ≠ requests_path → keeps R (sd_open_append name).
Proof. intros Hn. keeps_call. Qed.
Lemma keeps_sd_append name bs : name ≠ requests_path → keeps R (sd_append name bs).
Proof. intros Hn. keeps_call. Qed.
Lemma keeps_sd_install name bs : name ≠ requests_path → keeps R (sd_install name bs).
Proof. intros Hn. keeps_call. Qed.
Lemma keeps_sd_remove name : name ≠ requests_path → keeps R (sd_remove name).
Proof. intros Hn. keeps_call. Qed.
Lemma keeps_sd_write name bs : name ≠ requests_path → keeps R (sd_write name bs).
Proof. intros Hn. unfold sd_write. keeps_go; keeps_call. Qed.
Lemma keeps_spawn_command `{Processes} cmd : keeps R (spawn_command cmd).
Proof. keeps_call. Qed.
Lemma keeps_attend id timeout_ms run : keeps R (attend id timeout_ms run).
Proof.
  intros w. eapply wp_mono; [|apply attend_wp]. intros o w' (trace & Hs & Hm & _).
  split; [rewrite Hm; reflexivity|by rewrite Hs].
Qed.
End calls.

#[export] Hint Resolve keeps_fs_symlink_metadata keeps_fs_metadata keeps_fs_read keeps_fs_read_dir
  keeps_fs_change keeps_fs_write keeps_fsync_file_or_dir keeps_fsync_dir keeps_tempfile_in
  keeps_sd_read keeps_sd_sync keeps_sd_open_append keeps_sd_append keeps_sd_install
  keeps_sd_remove keeps_sd_write keeps_spawn_command keeps_attend : frames.

(** ** The handlers that look and move files *)

Section files.
Context (R : memory → memory → Prop) `{!PreOrder R} `{Env} `{Tempfile} `{Sha256}.

Lemma keeps_fs_exists {E} p : keeps R (fs_exists (E := E) p).
Proof. unfold fs_exists. keeps_go. Qed.
Lemma keeps_fs_is_dir {E} p : keeps R (fs_is_dir (E := E) p).
Proof. unfold fs_is_dir. keeps_go. Qed.
Lemma keeps_ws_resolve ws rel : keeps R (ws_resolve ws rel).
Proof. unfold ws_resolve. keeps_go. Qed.
Lemma keeps_hash_file p : keeps R (hash_file p).
Proof. unfold hash_file. keeps_go. Qed.
Lemma keeps_parent_dir p : keeps R (parent_dir p).
Proof. unfold parent_dir. keeps_go. Qed.
#[local] Hint Resolve keeps_fs_exists keeps_fs_is_dir keeps_ws_resolve keeps_hash_file
  keeps_parent_dir : frames.
#[local] Hint Unfold fs_mkdir fs_remove_file fs_rename fs_rename_noreplace fs_hard_link
  fs_set_permissions named_temp_file : frames.

Lemma keeps_create_dir_all p : keeps R (fs_create_dir_all p).
Proof.
  unfold fs_create_dir_all. induction (reverse p) as [|name rp IH]; cbn [create_dir_all_rev];
    keeps_go.
Qed.
Lemma keeps_drop_temp {E} tmp : keeps R (drop_temp (E := E) tmp).
Proof. unfold drop_temp. keeps_go. Qed.
#[local] Hint Resolve keeps_create_dir_all keeps_drop_temp : frames.
Lemma keeps_with_temp {E A} tmp (body : M E A) : keeps R body → keeps R (with_temp tmp body).
Proof. intros Hb. unfold with_temp. keeps_go. Qed.
Lemma keeps_until_persisted {E A} tmp (body : M E A) :
  keeps R body → keeps R (until_persisted tmp body).
Proof. intros Hb. unfold until_persisted. keeps_go. Qed.

Lemma keeps_list ws path offset limit : keeps R (list_ ws path offset limit).
Proof. unfold list_, list_entry, file_kind. keeps_go. Qed.
Lemma keeps_stat ws path : keeps R (stat ws path).
Proof. unfold stat, entry_for. keeps_go. Qed.
Lemma keeps_read ws path offset limit : keeps R (read ws path offset limit).
Proof. unfold read. keeps_go. Qed.
Lemma keeps_atomic_write_bytes abs content : keeps R (atomic_write_bytes abs content).
Proof. unfold atomic_write_bytes, copy_mode. keeps_go. apply keeps_until_persisted. keeps_go. Qed.
Lemma keeps_atomic_create_bytes abs content path : keeps R (atomic_create_bytes abs content path).
Proof. unfold atomic_create_bytes. keeps_go. apply keeps_with_temp. keeps_go. Qed.
End files.

#[export] Hint Resolve keeps_fs_exists keeps_fs_is_dir keeps_ws_resolve keeps_hash_file
  keeps_parent_dir keeps_create_dir_all keeps_drop_temp keeps_list keeps_stat keeps_read
  keeps_atomic_write_bytes keeps_atomic_create_bytes : frames.

Section transfers.
Context (R : memory → memory → Prop) `{!PreOrder R} `{!Sharing R} `{Env} `{HashIter} `{Tempfile}
        `{JsonCodec RequestLogLine}.

Lemma keeps_put_same {E} f : (∀ m, same_tables m (f m)) → keeps R (E := E) (put_mem f).
Proof. intros Hf. apply (keeps_put_mem R). intros m. apply sharing_same, Hf. Qed.

Lemma keeps_new_transfer_id {E} : keeps R (E := E) new_transfer_id.
Proof. unfold new_transfer_id. keeps_go. by apply keeps_put_same. Qed.

Lemma keeps_sweep_dir {E} dir in_flight age :
  keeps R (E := E) (sweep_stale_staging_dir dir in_flight age).
Proof. unfold sweep_stale_staging_dir, sweep_entry, fs_remove_file. keeps_go. Qed.
#[local] Hint Resolve keeps_sweep_dir keeps_new_transfer_id : frames.

Lemma keeps_sweep_tree {E} root in_flight age :
  keeps R (E := E) (sweep_stale_staging_tree root in_flight age).
Proof.
  unfold sweep_stale_staging_tree. keeps_go. generalize (S (size a)) as fuel. intros fuel. revert root.
  induction fuel as [|fuel IH]; intros dir; cbn [sweep_tree]; keeps_go.
Qed.

Lemma keeps_upload_prepare ws path overwrite : keeps R (upload_prepare ws path overwrite).
Proof.
  unfold upload_prepare, check_upload_target, stage_upload. keeps_go. by apply keeps_put_same.
Qed.
Lemma keeps_upload_abort id : keeps R (upload_abort id).
Proof. unfold upload_abort, fs_remove_file. keeps_go. by apply keeps_put_same. Qed.
Lemma keeps_install_upload entry : keeps R (install_upload entry).
Proof. unfold install_upload, fs_rename, fs_hard_link, fs_remove_file. keeps_go. Qed.
End transfers.

#[export] Hint Resolve keeps_sweep_tree keeps_install_upload : frames.

(** ** The handlers that record *)

Section mutations.
Context (R : memory → memory → Prop) `{!PreOrder R} `{!Recording R} `{Env} `{Tempfile} `{Sha256} `{HashIter} `{Processes}
        `{JsonCodec AnyOperationRecord} `{JsonCodec RequestLogLine}.

Lemma keeps_next_operation_id {E} : keeps R (E := E) next_operation_id.
Proof. unfold next_operation_id. keeps_go. apply (keeps_put_mem R), recording_id. Qed.

Lemma keeps_append_any_record r : keeps R (append_any_record r).
Proof. unfold append_any_record, append_record. keeps_go. Qed.

Lemma keeps_put_record {E} r : keeps R (E := E) (put_record r).
Proof. apply (keeps_put_mem R). intros m. apply recording_record. Qed.
Lemma keeps_push_record {E} r : keeps R (E := E) (push_record r).
Proof. apply (keeps_put_mem R). intros m. apply recording_append. Qed.
#[local] Hint Resolve keeps_next_operation_id keeps_append_any_record keeps_put_record
  keeps_push_record : frames.

Lemma keeps_prepare_fs_record rid kind path before after blob :
  keeps R (prepare_fs_record rid kind path before after blob).
Proof. unfold prepare_fs_record. keeps_go. Qed.
Lemma keeps_commit_fs_record id rid kind path before after :
  keeps R (commit_fs_record id rid kind path before after).
Proof. unfold commit_fs_record. keeps_go. Qed.
Lemma keeps_append_exec_record r : keeps R (append_exec_record r).
Proof. unfold append_exec_record. keeps_go. Qed.
Lemma keeps_append_transfer_record r : keeps R (append_transfer_record r).
Proof. unfold append_transfer_record. keeps_go. Qed.
#[local] Hint Resolve keeps_prepare_fs_record keeps_commit_fs_record
  keeps_append_transfer_record : frames.

Lemma keeps_create ws rid path content : keeps R (create ws rid path content).
Proof. unfold create. keeps_go. Qed.
Lemma keeps_edit ws rid path base old new all :
  keeps R (edit ws rid path base old new all).
Proof. unfold edit, check_base_hash. keeps_go. Qed.
Lemma keeps_delete ws rid path : keeps R (delete_ ws rid path).
Proof. unfold delete_, fs_remove_file. keeps_go. Qed.
Lemma keeps_undo ws rid target : keeps R (undo ws rid target).
Proof.
  unfold undo, undo_plan, undo_apply, before_bytes, load_before_blob, fs_remove_file, named_temp_file.
  keeps_go.
  apply (keeps_until_persisted _). unfold fs_set_permissions, fs_rename. keeps_go.
Qed.
Lemma keeps_upload_commit rid id size sha ms :
  (∀ m, R m (set_uploads (delete id (uploads m)) m)) → keeps R (upload_commit rid id size sha ms).
Proof. intros Hd. unfold upload_commit. keeps_go. by apply (keeps_put_mem R). Qed.
Lemma keeps_download_record ws rid path size sha ms :
  keeps R (download_record ws rid path size sha ms).
Proof. unfold download_record. keeps_go. Qed.
Lemma keeps_handle_undo ws rid id : keeps R (handle_undo ws rid id).
Proof. unfold handle_undo. keeps_go. apply keeps_undo. Qed.
Lemma keeps_exec ws config cwd profile argv timeout id :
  keeps R (exec ws config cwd profile argv timeout id).
Proof. unfold exec, prepare_exec. keeps_go. Qed.
End mutations.
