(* ===== verification/Schedule.v ===== *)
(** * Schedule: the handlers of [Server.v] run as the tasks of [Concurrency.v]

    [Server.handle] is one request from its arrival to its answer, call by
    call and in full; the step relation of [Concurrency.v] is what several of
    them do to the tables and the request log they share, with most of the
    handlers left open.  Here the one refines the other: however the
    environment treats its calls, a request handled without interruption is a
    sequence of steps of its task, from a state that shows the same tables and
    the same log to one that does so again.  What is proved of all schedules
    holds of it. *)

From S2P Require Import Prelude Text Protocol World Fs Hash Workspace Jsonl Store Prune PruneSpec.
From S2P Require Import FsOps Undo Transfer Config Exec Server ServerSpec Concurrency ConcurrencyLog Tables.

(** The world, as far as tasks share it. *)
Definition shows (w : world) (s : state) : Prop :=
  same_tables (w_mem w) (mem s) ∧ contents (reqlog s) = content requests_path w.

(** The locks a task holds in its phase. *)
Definition holds_guard (t : nat) (req : Request) (p : phase) : option nat :=
  if in_section req p then Some t else None.
Definition holds_lock (t : nat) (p : phase) : option nat :=
  match p with PruneTables | PruneRequests => Some t | _ => None end.

(** Appending a line to the request log, in any environment. *)
Lemma append_line_wp `{Env} `{JsonCodec RequestLogLine} (l : RequestLogLine) w Φ :
  (∀ w', w_mem w' = w_mem w → content requests_path w' = content requests_path w ++ line l →
     Φ (Returned tt) w') →
  (∀ o w' k, faulty o → w_mem w' = w_mem w →
     content requests_path w' = content requests_path w ++ take k (line l) → Φ o w') →
  wp (append_request_line l) w Φ.
Proof.
  intros HR HF. unfold append_request_line, append_record, sd_open_append, sd_append, sd_sync, append_bytes.
  wp_go.
  - apply HR; [done|]. by sd_content.
  - apply (HF _ _ (length (line l))); [done|done|]. sd_content. by rewrite firstn_all.
  - apply (HF _ _ (length (line l))); [done|done|]. sd_content. by rewrite firstn_all.
  - eapply HF; [done|done|]. by sd_content.
  - eapply HF; [done|done|]. by sd_content.
  - apply (HF _ _ 0); [done|done|]. sd_content. by rewrite app_nil_r.
  - apply (HF _ _ 0); [done|done|]. sd_content. by rewrite app_nil_r.
Qed.

Lemma unfinished_newline g bs f : unfinished (write_to g [nl] (write_to g bs f)) = true → unfinished f = true.
Proof.
  unfold write_to. destruct (decide (g = generation f)) as [Hg|Hg]; cbn [generation];
    [|by destruct (decide _)].
  rewrite decide_True by done. unfold unfinished. cbn [contents]. by rewrite last_snoc, bool_decide_true.
Qed.

Lemma unfinished_lines `{JsonCodec RequestLogLine} (ls : list RequestLogLine) g :
  unfinished (MkLog (lines ls) g) = false.
Proof.
  unfold unfinished. cbn [contents]. destruct ls as [|l ls _] using rev_ind; [done|].
  rewrite lines_snoc. unfold line. rewrite (assoc_L (++)), last_snoc. by rewrite bool_decide_true.
Qed.

Lemma none_appending s :
  (∀ t req p, tasks s !! t = Some (req, p) → appending p = false) → someone_appends s = false.
Proof.
  intros Hall. destruct (someone_appends s) eqn:Hs; [|done].
  apply existsb_exists in Hs as ([t [req p]] & Hin & Hp). apply list_elem_of_In, elem_of_map_to_list in Hin.
  apply Hall in Hin. cbn in Hp. congruence.
Qed.

Section schedule.
Context `{Env} `{HashIter} `{JsonCodec RequestLogLine} (t : nat) (req : Request) (s0 : state).

(** At the start the log is whole, and nobody else is at work on it. *)
Definition calm_start : Prop :=
  disturbed s0 = false ∧ unfinished (reqlog s0) = false ∧
  ∀ t' req' p', t' ≠ t → tasks s0 !! t' = Some (req', p') → appending p' = false.

(** The task has come from [s0] to phase [p], nobody else having moved.  From a
    calm start no two appends have met, and the log is whole, or [torn]. *)
Definition reached (torn : Prop) (p : phase) (w : world) : Prop := ∃ s,
  rtc step s0 s ∧ shows w s ∧ tasks s = <[t := (req, p)]> (tasks s0) ∧
  (write_guard s = holds_guard t req p ∧ tables_lock s = holds_lock t p) ∧
  (calm_start → disturbed s = false ∧ (unfinished (reqlog s) = true → torn)).

(** Only a write that failed leaves a line unfinished, and the task answers. *)
Definition stands (p : phase) : world → Prop := reached (is_answered p = true ∧ fails) p.
(** Where the process may have died. *)
Definition halted (w : world) : Prop := ∃ p, reached True p w.

Lemma reached_mono (T T' : Prop) p w : (T → T') → reached T p w → reached T' p w.
Proof. intros HT (s & Hr & Hw & Ht & Hl & Hc). exists s. split_and!; try done; naive_solver. Qed.
Lemma stands_halted p w : stands p w → halted w.
Proof. intros Hs. exists p. by eapply reached_mono. Qed.
#[local] Hint Resolve stands_halted : core.

(** Moving on by the task's own steps. *)
Lemma stands_move T p p' w w' :
  stands p w → is_answered p = false →
  (∀ s, shows w s → tasks s !! t = Some (req, p) →
     write_guard s = holds_guard t req p → tables_lock s = holds_lock t p →
     ∃ s', rtc step s s' ∧ shows w' s' ∧ tasks s' = <[t := (req, p')]> (tasks s) ∧
       (write_guard s' = holds_guard t req p' ∧ tables_lock s' = holds_lock t p') ∧
       (disturbed s = false → unfinished (reqlog s) = false →
        (∀ t' req' q, t' ≠ t → tasks s !! t' = Some (req', q) → appending q = false) →
        disturbed s' = false ∧ (unfinished (reqlog s') = true → T))) →
  reached T p' w'.
Proof.
  intros (s & Hr & Hw & Ht & [Hg Hl] & Hc) Hp Hmove.
  destruct (Hmove s) as (s' & Hr' & Hw' & Ht' & Hlk & Hc'); [done|by rewrite Ht, lookup_insert_eq|done..|].
  exists s'. split; [by etrans|split; [done|split; [by rewrite Ht', Ht, insert_insert_eq|split; [done|]]]].
  intros Hcalm. destruct (Hc Hcalm) as [Hd Hu]. apply Hc'; [done|..].
  - destruct (unfinished (reqlog s)); [|done]. destruct (Hu eq_refl). congruence.
  - intros t' req' q Hne. rewrite Ht, lookup_insert_ne by done. by apply Hcalm.
Qed.

(** A world that looks the same. *)
Lemma stands_same p w w' :
  stands p w → same_tables (w_mem w) (w_mem w') →
  content requests_path w' = content requests_path w → stands p w'.
Proof.
  intros (s & Hr & [(? & ? & ?) Hc] & Hs) (? & ? & ?) Hc'. exists s. split; [done|]. split; [|done].
  split; [split_and!|]; congruence.
Qed.

Lemma stands_framed p w w' : stands p w → framed_by same_tables w w' → stands p w'.
Proof. intros Hs [Hm Hc]. eapply stands_same; [done|done|]. unfold content. by rewrite Hc. Qed.

(** The final touches to a move: what the new state is. *)
Ltac arrived :=
  refine (conj (conj _ _) (conj _ (conj (conj _ _) _)));
  cbn -[prune_tables]; rewrite ?insert_insert_eq; try done;
  try (by intros Hd Hu _; rewrite ?Hd, ?Hu).

Lemma stands_arrive w :
  tasks s0 !! t = None → write_guard s0 = None → tables_lock s0 = None → shows w s0 →
  stands Arrived w.
Proof.
  intros Ht Hg Hl Hw. eexists. split; [by apply rtc_once, step_arrive|]. arrived; [apply Hw..|].
  intros (Hd & Hu & _). by rewrite Hd, Hu.
Qed.

Lemma stands_bypass w m :
  stands Arrived w → bypasses (Request.body req) = true →
  ServerMessage.request_id m = task_id req → stands (Answered m) w.
Proof.
  intros Hs Hb Hm. eapply stands_move; [done..|]. intros s Hw Ht Hg Hl.
  eexists. split; [by eapply rtc_once, step_bypass|]. arrived; apply Hw.
Qed.

Lemma stands_looked_up w :
  stands Arrived w → bypasses (Request.body req) = false →
  match requests (w_mem w) !! task_id req with
  | Some e => stands (Answered (replay (task_id req) e)) w
  | None => stands Unseen w
  end.
Proof.
  intros Hs Hb. destruct (requests (w_mem w) !! task_id req) as [e|] eqn:He;
    (eapply stands_move; [done..|]); intros s Hw Ht Hg Hl;
    pose proof Hw as [(_ & _ & Hrq) _]; rewrite <- Hrq in He; eexists;
    (split; [by eapply rtc_once; econstructor|]); arrived; apply Hw.
Qed.

(** ** The lines of claim and result *)

Lemma claim_whole w w' :
  stands Unseen w → w_mem w' = w_mem w →
  content requests_path w' = content requests_path w ++ line (claim_line req) →
  stands ClaimWritten w'.
Proof.
  intros Hs Hm Hc. eapply stands_move; [done..|]. intros s [Hw Hx] Ht Hg Hl. eexists. split.
  { go (step_claim_open _ t req). go (step_claim_text _ t req). go (step_claim_newline _ t req).
    apply rtc_refl. }
  arrived; [rewrite Hm; apply Hw| |].
  - read_log. rewrite Nat.eqb_refl, Hc, <- Hx. unfold line. by rewrite (assoc_L (++)).
  - intros Hd Hu _. rewrite Hd, Hu. split; [done|]. intros Hn%unfinished_newline. congruence.
Qed.

Lemma claim_partly w w' k e :
  stands Unseen w → w_mem w' = w_mem w →
  content requests_path w' = content requests_path w ++ take k (line (claim_line req)) →
  reached True (Answered (ServerMessage.Error (task_id req) e)) w'.
Proof.
  intros Hs Hm Hc. destruct (decide (k ≤ length (json (claim_line req)))) as [Hk|Hk].
  - eapply stands_move; [done..|]. intros s [Hw Hx] Ht Hg Hl. eexists. split.
    { go (step_claim_open _ t req). eapply rtc_once, (step_claim_text_error _ t req _ k). by look. }
    arrived; [rewrite Hm; apply Hw|]. read_log. rewrite Nat.eqb_refl, Hc, <- Hx. unfold line.
    by rewrite take_app_le.
  - eapply stands_move; [eapply (claim_whole w w'); [done..|]|done|].
    { rewrite Hc, take_ge; [done|]. unfold line. rewrite length_app. change (length [nl]) with 1. lia. }
    intros s Hw Ht Hg Hl. eexists. split; [eapply rtc_once, step_claim_error; eauto|].
    arrived; apply Hw.
Qed.

Lemma result_whole res w w' :
  stands (Finishing res) w → w_mem w' = w_mem w →
  content requests_path w' = content requests_path w ++ line (outcome_line req res) →
  stands (ResultWritten res) w'.
Proof.
  intros Hs Hm Hc. eapply stands_move; [done..|]. intros s [Hw Hx] Ht Hg Hl. eexists. split.
  { go (step_finish_open _ t req). go (step_finish_text _ t req). go (step_finish_newline _ t req).
    apply rtc_refl. }
  arrived; [rewrite Hm; apply Hw| |].
  - read_log. rewrite Nat.eqb_refl, Hc, <- Hx. unfold line. by rewrite (assoc_L (++)).
  - intros Hd Hu _. rewrite Hd, Hu. split; [done|]. intros Hn%unfinished_newline. congruence.
Qed.

Lemma result_partly res w w' k e :
  stands (Finishing res) w → w_mem w' = w_mem w →
  content requests_path w' = content requests_path w ++ take k (line (outcome_line req res)) →
  reached True (Answered (ServerMessage.Error (task_id req) e)) w'.
Proof.
  intros Hs Hm Hc. destruct (decide (k ≤ length (json (outcome_line req res)))) as [Hk|Hk].
  - eapply stands_move; [done..|]. intros s [Hw Hx] Ht Hg Hl. eexists. split.
    { go (step_finish_open _ t req). eapply rtc_once, (step_finish_text_error _ t req _ res k). by look. }
    arrived; [rewrite Hm; apply Hw|]. read_log. rewrite Nat.eqb_refl, Hc, <- Hx. unfold line.
    by rewrite take_app_le.
  - eapply stands_move; [eapply (result_whole res w w'); [done..|]|done|].
    { rewrite Hc, take_ge; [done|]. unfold line. rewrite length_app. change (length [nl]) with 1. lia. }
    intros s Hw Ht Hg Hl. eexists. split; [eapply rtc_once, step_finish_error; eauto|].
    arrived; apply Hw.
Qed.

(** ** The claim *)

Lemma claim_enters w w' :
  stands ClaimWritten w → requests (w_mem w) !! task_id req = None →
  w_mem w' = insert_entry (task_id req) (claimed (task_op req)) (w_mem w) →
  content requests_path w' = content requests_path w →
  stands (if guarded (Request.body req) then Waiting else Running) w'.
Proof.
  intros Hs Hn Hm Hc. eapply stands_move; [done..|]. intros s [(Hni & Hrs & Hrq) Hx] Ht Hg Hl.
  eexists. split; [eapply rtc_once, step_claim_won; [done|done|by rewrite Hrq]|].
  arrived.
  - rewrite Hm. split_and!; [done|done|]. cbn. by rewrite Hrq.
  - by rewrite Hc.
  - rewrite Hg. unfold holds_guard. destruct (guarded (Request.body req)) eqn:Hgd; cbn; by rewrite ?Hgd.
  - rewrite Hl. by destruct (guarded (Request.body req)).
Qed.

Lemma claim_runs w w' :
  stands ClaimWritten w → requests (w_mem w) !! task_id req = None →
  w_mem w' = insert_entry (task_id req) (claimed (task_op req)) (w_mem w) →
  content requests_path w' = content requests_path w → stands Running w'.
Proof.
  intros Hs Hn Hm Hc. pose proof (claim_enters w w' Hs Hn Hm Hc) as Hs'.
  destruct (guarded (Request.body req)) eqn:Hgd; [|done].
  eapply stands_move; [done..|]. intros s Hw Ht Hg Hl.
  eexists. split; [by eapply rtc_once, step_guard|]. arrived; [apply Hw..|].
  unfold holds_guard. cbn. by rewrite Hgd.
Qed.

(** ** The handler *)

Definition records_ops (body : RequestBody) : bool := guarded body || is_exec body.

Lemma running_touch w m' :
  records_ops (Request.body req) = true → touch (w_mem w) m' →
  stands Running w → stands Running (set_mem (λ _, m') w).
Proof.
  intros Hrec Htouch Hs.
  assert (∀ s, tasks s !! t = Some (req, Running) → tasks s = <[t := (req, Running)]> (tasks s)) as Hid.
  { intros s Ht. by rewrite insert_id. }
  eapply stands_move; [done..|]. intros s [(Hn & Hrs & Hrq) Hx] Ht Hg Hl.
  destruct Htouch as [(Hn' & Hrs' & Hrq')| ->|r ->|r ->].
  - exists s. split; [done|]. arrived; [|by apply Hid]. split_and!; congruence.
  - eexists. split; [by eapply rtc_once, step_id|]. arrived; [|by apply Hid].
    split_and!; [by cbn; rewrite Hn|done..].
  - eexists. split; [eapply rtc_once, step_record; [done..|by left]|]. arrived; [|by apply Hid].
    split_and!; [done|by cbn; rewrite Hrs|done].
  - eexists. split; [eapply rtc_once, step_record; [done..|by right]|]. arrived; [|by apply Hid].
    split_and!; [done|by cbn; rewrite Hrs|done].
Qed.

Lemma running_framed w w' :
  records_ops (Request.body req) = true → framed_by (rtc touch) w w' →
  stands Running w → stands Running w'.
Proof.
  intros Hrec [Hm Hc] Hs.
  assert (∀ m m', rtc touch m m' → stands Running (set_mem (λ _, m) w) →
    stands Running (set_mem (λ _, m') w)) as Hgo.
  { induction 1 as [|m1 m2 m3 H12 _ IH]; [done|]. intros Hs1. apply IH.
    change (set_mem (λ _, m2) w) with (set_mem (λ _, m2) (set_mem (λ _, m1) w)).
    by apply running_touch. }
  eapply stands_same; [apply (Hgo _ _ Hm)| |].
  - by eapply stands_same.
  - done.
  - unfold content. by rewrite Hc.
Qed.

Section computations.

Lemma stands_quiet {E A} (c : M E A) p w Φ :
  keeps same_tables c → stands p w → (∀ o w', stands p w' → Φ o w') → wp c w Φ.
Proof.
  intros Hc Hs HΦ. eapply wp_mono; [|apply Hc]. intros o w' Hw. apply HΦ. by eapply stands_framed.
Qed.

(** A handler brings the task from its start to its result. *)
Definition ends (o : outcome ProtocolError ResultBody) (w : world) : Prop :=
  match o with
  | Returned b => stands (Finishing (Ok b)) w
  | Raised e => stands (Finishing (Err e)) w
  | Killed => halted w
  end.
Definition handles (h : M ProtocolError ResultBody) : Prop :=
  ∀ w, stands Running w → wp h w ends.

Lemma stands_returns res w :
  (is_gc (Request.body req) = true → ∃ e, res = Err e) →
  stands Running w → stands (Finishing res) w.
Proof.
  intros Hgc Hs. eapply stands_move; [done..|]. intros s Hw Ht Hg Hl.
  eexists. split; [by eapply rtc_once, step_return|].
  unfold holds_guard in Hg. cbn in Hg.
  destruct (guarded (Request.body req)); arrived; apply Hw.
Qed.

Lemma ends_running o w :
  is_gc (Request.body req) = false → stands Running w → ends o w.
Proof.
  intros Hgc Hs. destruct o; cbn; [| |by apply (stands_halted Running)];
    (eapply stands_returns; [by rewrite Hgc|exact Hs]).
Qed.

Lemma handles_quiet h :
  is_gc (Request.body req) = false → keeps same_tables h → handles h.
Proof.
  intros Hgc Hh w Hs. eapply stands_quiet; [done..|]. intros o w' Hs'. by apply ends_running.
Qed.

Lemma handles_recording h :
  is_gc (Request.body req) = false → records_ops (Request.body req) = true →
  keeps (rtc touch) h → handles h.
Proof.
  intros Hgc Hrec Hh w Hs. eapply wp_mono; [|apply Hh]. intros o w' Hw.
  apply ends_running; [done|]. by apply (running_framed w).
Qed.

(** [Gc]. *)

Lemma stands_prune keep w :
  is_gc (Request.body req) = true → stands Running w →
  stands PruneTables (set_mem (prune_tables keep) w).
Proof.
  intros Hgc Hs. eapply stands_move; [done..|]. intros s [(Hn & Hrs & Hrq) Hx] Ht Hg Hl.
  eexists. split; [by eapply rtc_once, (step_prune _ t req keep)|]. arrived.
  - unfold prune_tables. split_and!; cbn; by rewrite ?Hn, ?Hrs, ?Hrq.
  - unfold holds_guard in *. cbn in *. by destruct (Request.body req).
Qed.

Lemma stands_replaced w w' :
  stands PruneTables w → w_mem w' = w_mem w →
  content requests_path w' = lines (request_lines (requests (w_mem w))) → stands PruneRequests w'.
Proof.
  intros Hs Hm Hc. eapply stands_move; [done..|]. intros s [(Hn & Hrs & Hrq) Hx] Ht Hg Hl.
  eexists. split; [by eapply rtc_once, step_prune_requests|]. arrived.
  - by rewrite Hm.
  - by rewrite Hc, Hrq.
  - intros Hd Hu Happ. rewrite none_appending, Hd; [by rewrite unfinished_lines|].
    intros t' req' q Ht'. destruct (decide (t' = t)) as [->|]; [|by eapply Happ]. by simplify_eq.
Qed.

Lemma stands_pruned p res w :
  (p = PruneTables ∧ ∃ e, res = Err e) ∨ p = PruneRequests → stands p w → stands (Finishing res) w.
Proof.
  intros Hp Hs. eapply stands_move; [done|by destruct Hp as [[-> _]| ->]|]. intros s Hw Ht Hg Hl. eexists. split.
  { eapply rtc_l; [eapply step_pruned; [exact Ht|exact Hp]|].
    eapply rtc_once, (step_gc_return _ t req res). by look. }
  arrived; apply Hw.
Qed.

(** Where [prune] leaves the task, from the moment the tables are pruned. *)
Definition pruning {A} (o : outcome ProtocolError A) (w : world) : Prop :=
  match o with
  | Returned _ => stands PruneRequests w
  | _ => stands PruneTables w ∨ stands PruneRequests w
  end.

Lemma pruning_bind {A B} (c : M ProtocolError A) (k : A → M ProtocolError B) p w :
  p = PruneTables ∨ p = PruneRequests → keeps same_tables c → stands p w →
  (∀ a w', requests (w_mem w') = requests (w_mem w) → stands p w' → wp (k a) w' pruning) →
  wp (c ≫= k) w pruning.
Proof.
  intros Hp Hc Hs Hk. apply wp_bind. eapply wp_mono; [|apply Hc]. intros o w' Hw.
  assert (stands p w') as Hs' by by eapply stands_framed.
  destruct o as [a|e|]; [apply Hk; [apply Hw|done]|..]; cbn; destruct Hp as [->| ->]; auto.
Qed.

Lemma install_wp reqs w :
  requests (w_mem w) = reqs → stands PruneTables w →
  wp (map_raise (io_context "persist") (sd_install requests_path (lines (request_lines reqs)))) w pruning.
Proof.
  intros Hrq Hs. apply wp_map_raise. unfold sd_install. apply wp_sys; [|intros; by left..].
  intros [] w' [= <-]. apply (stands_replaced w); [done|done|]. sd_content. by rewrite Hrq.
Qed.

Lemma rewrite_requests_wp reqs w :
  requests (w_mem w) = reqs → stands PruneTables w →
  wp (rewrite_jsonl requests_path (request_lines reqs)) w pruning.
Proof.
  intros Hrq Hs. unfold rewrite_jsonl. assert (PruneTables = PruneTables ∨ PruneTables = PruneRequests) as Hp by auto.
  eapply pruning_bind; [exact Hp|keeps_go; keeps_call|done|intros _ w1 Hw1 Hs1].
  eapply pruning_bind; [exact Hp|keeps_go; keeps_call|done|intros _ w2 Hw2 Hs2].
  eapply pruning_bind; [exact Hp|keeps_go|done|intros _ w3 Hw3 Hs3].
  apply wp_bind. eapply wp_mono; [|apply install_wp; [congruence|done]].
  intros [a|e|] w4 Hs4; [|done..]. apply wp_map_raise.
  eapply stands_quiet; [apply (keeps_sd_sync _)|exact Hs4|]. intros []; cbn; auto.
Qed.

Lemma prune_stands `{JsonCodec AnyOperationRecord} keep w :
  is_gc (Request.body req) = true → stands Running w → wp (prune keep) w pruning.
Proof.
  intros Hgc Hs%(stands_prune keep); [|done]. unfold prune.
  apply wp_bind, wp_get_mem, wp_bind, wp_put_mem.
  assert (PruneTables = PruneTables ∨ PruneTables = PruneRequests) as Hp by auto.
  eapply pruning_bind; [exact Hp|keeps_go|exact Hs|intros _ w1 Hw1 Hs1].
  eapply pruning_bind; [exact Hp|keeps_go|done|intros _ w2 Hw2 Hs2].
  eapply pruning_bind; [exact Hp|unfold rewrite_jsonl; keeps_go; keeps_call|done|intros _ w3 Hw3 Hs3].
  apply wp_bind. eapply wp_mono; [|apply rewrite_requests_wp; [by rewrite Hw3, Hw2, Hw1|done]].
  intros [a|e|] w4 Hs4; [|done..].
  assert (PruneRequests = PruneTables ∨ PruneRequests = PruneRequests) as Hq by auto.
  eapply pruning_bind; [exact Hq|unfold remove_blobs, remove_blob; keeps_go|done|intros _ w5 Hw5 Hs5].
  eapply pruning_bind; [exact Hq|keeps_go|done|intros _ w6 Hw6 Hs6]. done.
Qed.

Lemma handles_gc `{Tempfile} `{JsonCodec AnyOperationRecord} srv keep :
  is_gc (Request.body req) = true → handles (handle_gc srv keep).
Proof.
  intros Hgc w Hs. unfold handle_gc. destruct (option_or keep (Server.history_limit srv)) as [k|].
  2: { apply wp_raise. apply stands_returns; eauto. }
  apply wp_bind. eapply wp_mono; [|by apply prune_stands].
  intros [st|e|] w' Hs'.
  - eapply stands_quiet; [|exact Hs'|].
    { keeps_go. }
    intros [] w2 Hs2; cbn; [apply (stands_pruned PruneRequests); auto..|by eapply stands_halted].
  - destruct Hs'; [apply (stands_pruned PruneTables)|apply (stands_pruned PruneRequests)]; eauto.
  - destruct Hs'; by eapply stands_halted.
Qed.

(** ** The result *)

(** What a task may answer for its result. *)
Definition answers_with (res : result ProtocolError ResultBody) (m : ServerMessage) : Prop :=
  m = message_of (task_id req) res ∨
  (is_exec (Request.body req) = true ∧ ∃ e, m = ServerMessage.Error (task_id req) e).

Definition remembered (res : result ProtocolError ResultBody) (o : outcome ProtocolError unit)
    (w : world) : Prop :=
  match o with
  | Returned _ => ∀ m, answers_with res m → stands (Answered m) w
  | Raised _ => ∀ e, stands (Answered (ServerMessage.Error (task_id req) e)) w
  | Killed => halted w
  end.

Lemma remember_stands res w :
  stands (Finishing res) w →
  wp (append_request_line (outcome_line req res) ;;
      insert_request (task_id req) (outcome_entry (task_id req) res)) w (remembered res).
Proof.
  intros Hs. apply wp_bind, append_line_wp.
  - intros w' Hm Hc. apply wp_put_mem. intros m Ha.
    eapply stands_move; [by eapply (result_whole res w w')|done|].
    intros s [(Hn & Hrs & Hrq) Hx] Ht Hg Hl. eexists. split; [by eapply rtc_once, step_finished|].
    arrived. split_and!; [done|done|]. cbn. by rewrite Hrq.
  - intros [a|e|] w' k Ho Hm Hc; [done|..]; cbn.
    + intros e'. by eapply reached_mono; [|eapply result_partly].
    + eexists. by eapply (result_partly _ _ _ _ (ProtocolError.new IoError "")).
Qed.

(** The answer is the task's, or the process died on the way. *)
Definition served (o : outcome ProtocolError ServerMessage) (w : world) : Prop :=
  match o with
  | Returned m => stands (Answered m) w
  | Raised _ => False
  | Killed => halted w
  end.

Lemma finish_stands res w :
  stands (Finishing res) w → wp (finish_ (task_id req) res) w served.
Proof.
  intros Hs%remember_stands. unfold finish_, finish_err. destruct res as [b|e];
    apply wp_bind, wp_attempt; (eapply wp_mono; [|exact Hs]);
    intros [a|e'|] w' Hw; try done; apply wp_ret, Hw; by left.
Qed.

Lemma finishing_stands h w : handles h → stands Running w → wp (finishing (task_id req) h) w served.
Proof.
  intros Hh Hs. apply wp_bind, wp_attempt. eapply wp_mono; [|by apply Hh].
  intros [b|e|] w' Hw; [by apply finish_stands..|done].
Qed.

Lemma recording_bind {A} (c : M ProtocolError A)
    (k : result ProtocolError A → M ProtocolError ServerMessage) w :
  records_ops (Request.body req) = true → keeps (rtc touch) c → stands Running w →
  (∀ r w', stands Running w' → wp (k r) w' served) → wp (attempt c ≫= k) w served.
Proof.
  intros Hrec Hc Hs Hk. apply wp_bind, wp_attempt. eapply wp_mono; [|apply Hc].
  intros o w' Hw. pose proof (running_framed _ _ Hrec Hw Hs) as Hs'.
  destruct o; [by apply Hk..|by eapply stands_halted].
Qed.

Lemma remember_bind res (c : M ProtocolError unit)
    (k : result ProtocolError unit → M ProtocolError ServerMessage) w :
  c = (append_request_line (outcome_line req res) ;;
       insert_request (task_id req) (outcome_entry (task_id req) res)) →
  stands (Finishing res) w →
  (∀ w', (∀ m, answers_with res m → stands (Answered m) w') → wp (k (Ok tt)) w' served) →
  (∀ e' w', (∀ e, stands (Answered (ServerMessage.Error (task_id req) e)) w') →
     wp (k (Err e')) w' served) →
  wp (attempt c ≫= k) w served.
Proof.
  intros -> Hs%remember_stands HO HE. apply wp_bind, wp_attempt. eapply wp_mono; [|exact Hs].
  intros [[]|e|] w' Hw; [by apply HO|by apply HE|done].
Qed.

Lemma handle_exec_stands `{Processes} `{JsonCodec AnyOperationRecord} srv argv cwd profile timeout w :
  is_exec (Request.body req) = true → stands Running w →
  wp (handle_exec srv (task_id req) argv cwd profile timeout) w served.
Proof.
  intros Hx Hs.
  assert (records_ops (Request.body req) = true) as Hrec by (unfold records_ops; by rewrite Hx, orb_true_r).
  assert (∀ res w', stands Running w' → stands (Finishing res) w') as Hret.
  { intros res w' Hw'. apply stands_returns; [|done]. by destruct (Request.body req). }
  assert (∀ e, answers_with (Err e) (ServerMessage.Error (task_id req) e)) as Herr by by left.
  unfold handle_exec, next_operation_id. apply wp_bind, wp_bind, wp_put_mem, wp_bind, wp_get_mem, wp_ret.
  apply (running_touch _ (set_next_id (u64_add (next_id (w_mem w)) 1) (w_mem w))) in Hs; [|done|by apply touch_id].
  apply recording_bind; [done|apply (keeps_exec _)|exact Hs|]. intros outcome w1 Hs1.
  apply wp_bind, wp_now_ms. intros ms.
  destruct outcome as [o|e]; (apply recording_bind; [done|apply (keeps_append_exec_record _)|done|]); intros r w2 Hs2.
  - destruct r as [u|e].
    + eapply (remember_bind (Ok _)); [done|by apply Hret|..].
      * intros w3 Hw3. apply wp_ret, Hw3. by left.
      * intros e' w3 Hw3. apply wp_ret, Hw3.
    + eapply (remember_bind (Err e)); [done|by apply Hret|..].
      * intros w3 Hw3. apply wp_ret, Hw3, Herr.
      * intros e' w3 Hw3. apply wp_ret, Hw3.
  - eapply (remember_bind (Err e)); [done|by apply Hret|..].
    + intros w3 Hw3. apply wp_ret, Hw3. right. eauto.
    + intros e' w3 Hw3. apply wp_ret, Hw3.
Qed.

(** ** The request *)

Lemma dispatch_stands `{Sha256} `{Tempfile} `{Processes} `{JsonCodec AnyOperationRecord} srv w :
  bypasses (Request.body req) = false → stands Running w →
  wp (dispatch srv (task_id req) (Request.body req)) w served.
Proof.
  intros Hb Hs. destruct (Request.body req) eqn:Hbody; try done; cbn [dispatch];
    first [apply handle_exec_stands; [by rewrite Hbody|done]|apply finishing_stands; [|done]];
    first [apply handles_gc; by rewrite Hbody
          |apply handles_quiet; [by rewrite Hbody|];
             first [apply (keeps_list _)|apply (keeps_stat _)|apply (keeps_read _)
                   |unfold handle_history, handle_operation_get; solve [keeps_go]]
          |apply handles_recording; [unfold records_ops; by rewrite Hbody..|]];
    first [apply (keeps_upload_commit _); intros m; by apply rtc_once, touch_same
          |eauto using keeps_create, keeps_edit, keeps_delete, keeps_download_record,
             keeps_handle_undo with typeclass_instances].
Qed.
End computations.
End schedule.

(** ** Properties *)

Section properties.
Context `{Env} `{Sha256} `{HashIter} `{Tempfile} `{Processes}
        `{JsonCodec AnyOperationRecord} `{JsonCodec RequestLogLine}.

Lemma handle_stands srv req w t s0 :
  stands t req s0 Arrived w → wp (handle srv req) w (served t req s0).
Proof.
  intros Hs. destruct (bypasses (Request.body req)) eqn:Hb.
  { unfold handle. destruct (Request.body req) eqn:Hbody; try done; apply wp_bind, wp_attempt;
      (eapply (stands_quiet t req s0); [|exact Hs|]); [apply (keeps_upload_prepare _)| |apply (keeps_upload_abort _)|];
      intros o w' Hs'; destruct o; cbn; try (by eapply stands_halted); (apply stands_bypass; [done|by rewrite Hbody|done]). }
  rewrite handle_claims by by destruct (Request.body req).
  unfold claim_and_dispatch, claim_request. apply wp_bind, wp_attempt, wp_bind, wp_get_mem.
  pose proof (stands_looked_up t req s0 w Hs Hb) as Hs1.
  destruct (requests (w_mem w) !! Request.request_id req) as [e|] eqn:He; [by apply wp_ret, wp_ret|].
  apply wp_bind, append_line_wp.
  - intros w1 Hm Hc. apply wp_bind, wp_get_mem. rewrite Hm, He. apply wp_bind, wp_put_mem, wp_ret.
    apply dispatch_stands; [done|]. eapply (claim_runs t req s0 w1); [by eapply claim_whole|by rewrite Hm|done|done].
  - intros [a|e|] w1 k Ho Hm Hc; [done|..].
    + apply wp_ret. by eapply reached_mono; [|eapply claim_partly].
    + eexists. by eapply (claim_partly _ _ _ _ _ _ (ProtocolError.new IoError "")).
Qed.

(** No request is in progress. *)
Definition idle (s : state) : Prop :=
  write_guard s = None ∧ tables_lock s = None ∧
  ∀ t req p, tasks s !! t = Some (req, p) → is_answered p = true.

Definition calm_log (s : state) : Prop := disturbed s = false ∧ unfinished (reqlog s) = false.

Definition survived {E A} (o : outcome E A) : Prop :=
  match o with Killed => False | _ => True end.

(** A schedule that serves requests with the given ids, and no others. *)
Record serves (ids : list string) (s s' : state) : Prop := {
  serves_steps : rtc step s s';
  serves_old : tasks s ⊆ tasks s';
  serves_new t req p :
    tasks s' !! t = Some (req, p) → tasks s !! t = Some (req, p) ∨ task_id req ∈ ids;
  serves_distinct :
    NoDup ids → (∀ t req p, tasks s !! t = Some (req, p) → task_id req ∉ ids) →
    distinct_ids s → distinct_ids s' }.

Lemma serves_none ids s : serves ids s s.
Proof. split; [done|done|by left|done]. Qed.

Lemma serves_one s s' t req p :
  rtc step s s' → tasks s !! t = None → tasks s' = <[t := (req, p)]> (tasks s) →
  serves [task_id req] s s'.
Proof.
  intros Hr Ht Ht'. split; [done|rewrite Ht'; by apply insert_subseteq|..]; rewrite ?Ht'.
  - intros t1 req1 p1. rewrite lookup_insert_Some. intros [[_ [= <- <-]]|[_ ?]]; [right; set_solver|by left].
  - intros _ Hnew Hd t1 t2 req1 req2 p1 p2. rewrite Ht', !lookup_insert_Some.
    intros [[<- [= <- <-]]|[Hn1 Ha]] [[<- [= <- <-]]|[Hn2 Hb]] Hid; [done|..|by eapply Hd].
    + apply Hnew in Hb. set_solver.
    + apply Hnew in Ha. set_solver.
Qed.

Lemma serves_trans ids ids' s s1 s2 :
  serves ids s s1 → serves ids' s1 s2 → serves (ids ++ ids') s s2.
Proof.
  intros [Hr Ho Hn Hd] [Hr' Ho' Hn' Hd']. split; [by etrans|by etrans|..].
  - intros t req p [Ht| ?]%Hn'; [|set_solver]. apply Hn in Ht as [?|?]; set_solver.
  - intros (Hi & Hdis & Hi')%NoDup_app Hfresh Hds. apply Hd'; [done| |].
    + intros t req p [Ht|Hin]%Hn; [apply Hfresh in Ht; set_solver|by apply Hdis].
    + apply Hd; [done| |done]. intros t req p Ht%Hfresh. set_solver.
Qed.

(** How a schedule leaves the log: where no write fails, calm unless the
    process died. *)
Definition calm_unless {E A} (o : outcome E A) (s s' : state) : Prop :=
  ¬ fails → calm_log s → disturbed s' = false ∧ (survived o → unfinished (reqlog s') = false).

Lemma handle_schedule srv req w s :
  shows w s → idle s →
  wp (handle srv req) w (λ o w', ∃ s', serves [task_id req] s s' ∧ shows w' s' ∧ calm_unless o s s' ∧
    match o with
    | Returned m => idle s' ∧ ∃ t, tasks s' !! t = Some (req, Answered m)
    | Raised _ => False
    | Killed => True
    end).
Proof.
  intros Hw (Hg & Hl & Hall). set (t := fresh (dom (tasks s))).
  assert (tasks s !! t = None) as Ht by (apply not_elem_of_dom, is_fresh).
  assert (calm_log s → calm_start t s) as Hcalm.
  { intros [Hd Hu]. split; [done|split; [done|]]. intros t' req' p' _ Hp%Hall. by destruct p'. }
  eapply wp_mono; [|apply (handle_stands srv req w t s); by apply stands_arrive].
  intros [m|e|] w' Ho; [|done|].
  - destruct Ho as (s' & Hr & Hw' & Ht' & [Hg' Hl'] & Hc). exists s'.
    split; [by eapply serves_one|split; [done|split]].
    { intros Hf Hcl. destruct (Hc (Hcalm Hcl)) as [Hd Hu]. split; [done|]. intros _.
      destruct (unfinished (reqlog s')); [|done]. by destruct Hu. }
    split; [|by exists t; rewrite Ht', lookup_insert_eq]. split; [done|split; [done|]].
    intros t' req' p'. rewrite Ht', lookup_insert_Some. intros [[_ [= _ <-]]|[_ Hp]]; [done|by eapply Hall].
  - destruct Ho as (p & s' & Hr & Hw' & Ht' & _ & Hc). exists s'.
    split; [by eapply serves_one|split; [done|split; [|done]]].
    intros _ Hcl. split; [by apply Hc, Hcalm|done].
Qed.

(** An answer of the connection: a task's, or a line's that is no request. *)
Definition reported (s : state) (m : ServerMessage) : Prop :=
  ServerMessage.request_id m = "(parse-error)" ∨ ∃ t req, tasks s !! t = Some (req, Answered m).

Lemma reported_mono s s' m : tasks s ⊆ tasks s' → reported s m → reported s' m.
Proof. intros Hsub [?|(t & req & Ht)]; [by left|]. right. exists t, req. by eapply lookup_weaken. Qed.

Context `{JsonCodec Request}.

(** The ids of the requests among the lines. *)
Definition line_ids (l : bytes) : list string :=
  match from_json (trim l) with
  | Ok req => if bool_decide (trim l = []) then [] else [task_id req]
  | Err _ => []
  end.
Definition request_ids (ls : list bytes) : list string := ls ≫= line_ids.

(** What lines with requests of these ids come to. *)
Definition connected (ids : list string) {E A} (answers : A → list ServerMessage) (s : state)
    (o : outcome E A) (w' : world) : Prop :=
  ∃ s', serves ids s s' ∧ shows w' s' ∧ calm_unless o s s' ∧
    match o with Returned a => idle s' ∧ Forall (reported s') (answers a) | _ => True end.

Lemma connected_here {E A} ids answers s (o : outcome E A) w :
  shows w s → idle s →
  match o with Returned a => Forall (reported s) (answers a) | _ => True end →
  connected ids answers s o w.
Proof.
  intros Hw Hi Ho. exists s. split; [apply serves_none|split; [done|split; [by intros _ [? ?]|]]].
  by destruct o.
Qed.

Lemma calm_unless_trans {E A B} (o1 : outcome E A) (o : outcome E B) s s1 s2 :
  survived o1 → calm_unless o1 s s1 → calm_unless o s1 s2 → calm_unless o s s2.
Proof.
  intros Hv Hone Hu Hf Hcl. destruct (Hone Hf Hcl) as [Hd Hl]. apply Hu; [done|]. split; [done|by apply Hl].
Qed.

Lemma serve_line_schedule srv l w s :
  shows w s → idle s → wp (serve_line srv l) w (connected (line_ids l) option_list s).
Proof.
  intros Hw Hi. unfold serve_line, line_ids.
  case_bool_decide as Hl; [by apply wp_ret, connected_here|].
  destruct (from_json (trim l)) as [req|e].
  - apply wp_bind. eapply wp_mono; [|by apply handle_schedule].
    intros [m|e|] w' (s' & Hs & Hw' & Hc & Ho); [|done|by exists s']. apply wp_ret.
    destruct Ho as [Hi' [t Ht]]. exists s'.
    split; [done|split; [done|split; [done|split; [done|]]]].
    apply Forall_singleton. right. by eexists _, _.
  - apply wp_ret, connected_here; [done..|]. apply Forall_singleton. by left.
Qed.

Lemma run_schedule srv ls w s :
  shows w s → idle s → wp (run srv ls) w (connected (request_ids ls) id s).
Proof.
  revert w s. induction ls as [|l ls IH]; intros w s Hw Hi; cbn [run].
  { by apply wp_ret, connected_here. }
  destruct (utf8_valid l); cbn [negb]; [|by apply wp_raise, connected_here].
  change (request_ids (l :: ls)) with (line_ids l ++ request_ids ls).
  apply wp_bind. eapply wp_mono; [|by apply serve_line_schedule].
  intros o1 w1 (s1 & Hs1 & Hw1 & Hc1 & Ho1). pose proof (serves_none (request_ids ls) s1) as Hs0.
  destruct o1 as [a|e|]; [|by exists s1; split; [by eapply serves_trans|]..].
  destruct Ho1 as [Hi1 Ha]. apply wp_bind. eapply wp_mono; [|by apply IH].
  intros o w2 (s2 & Hs2 & Hw2 & Hc2 & Ho2). pose proof (serves_trans _ _ _ _ _ Hs1 Hs2) as Hs.
  pose proof (calm_unless_trans (Returned a) o s s1 s2 I Hc1 Hc2) as Hc.
  destruct o as [ms|e|]; [apply wp_ret|..]; exists s2; (split; [done|split; [done|split; [done|]]]); try done.
  destruct Ho2 as [Hi2 Hms]. split; [done|]. apply Forall_app. split; [|done].
  eapply Forall_impl; [exact Ha|]. intros m. apply reported_mono, Hs2.
Qed.

(** The start of a schedule. *)
Lemma shows_start w m0 rls :
  same_tables (w_mem w) m0 → content requests_path w = lines rls → shows w (start m0 rls).
Proof. done. Qed.

Lemma idle_start m0 rls : idle (start m0 rls).
Proof. by split_and!. Qed.

(** C7: Requests in turn are a schedule.  Whatever the environment does, and
    wherever the process dies, a connection that serves its requests one after
    the other, from tables and a log that a start has loaded, does what a
    schedule of the step relation does: tables and log are at every end those of
    a reachable state, and every answer is that of a task.  So what holds of all
    schedules, such as that requests run once, holds of the detailed handlers. *)
Theorem connection_is_a_schedule srv ls w m0 rls :
  same_tables (w_mem w) m0 → content requests_path w = lines rls →
  let '(o, w') := run srv ls w in
  ∃ s, reachable m0 rls s ∧ same_tables (w_mem w') (mem s) ∧
    content requests_path w' = contents (reqlog s) ∧
    match o with Returned ms => idle s ∧ Forall (reported s) ms | _ => True end.
Proof.
  intros Hm Hc.
  apply (wp_let _ _ (λ o w', ∃ s, reachable m0 rls s ∧ same_tables (w_mem w') (mem s) ∧
    content requests_path w' = contents (reqlog s) ∧
    match o with Returned ms => idle s ∧ Forall (reported s) ms | _ => True end)).
  eapply wp_mono; [|apply (run_schedule srv ls w (start m0 rls)); [by apply shows_start|apply idle_start]].
  intros o w' (s & Hs & [Hm' Hc'] & _ & Ho). exists s.
  split; [apply Hs|split; [done|split; [done|]]]. exact Ho.
Qed.
End properties.

(** C8: The log keeps up with every request.  However a connection ends on a
    machine where nothing fails but the process may die in any system call --
    in the middle of a write, too --, its requests having different ids: the
    request log it leaves loads, and gives every result that was in the table
    when the connection ended.  So no request of any kind, its result once
    entered, is run again after a restart. *)
Theorem connection_log_is_durable `{CrashOnly} `{Sha256} `{HashIterLaws} `{Tempfile} `{Processes}
    `{JsonCodec AnyOperationRecord} `{JsonCodecLaws RequestLogLine} `{JsonCodec Request} srv ls w rls :
  content requests_path w = lines rls → requests (w_mem w) = requests_of_log rls →
  NoDup (request_ids ls) →
  let '(o, w') := run srv ls w in
  ∃ rls' b, load_lines requests_path 0 (lines_of (content requests_path w')) = Ok (rls', b) ∧
    ∀ rid e, requests (w_mem w') !! rid = Some e → has_result e = true →
      requests_of_log rls' !! rid = Some e.
Proof.
  intros Hc Hm Hn.
  apply (wp_let _ _ (λ _ w', ∃ rls' b,
    load_lines requests_path 0 (lines_of (content requests_path w')) = Ok (rls', b) ∧
    ∀ rid e, requests (w_mem w') !! rid = Some e → has_result e = true →
      requests_of_log rls' !! rid = Some e)).
  eapply wp_mono; [|apply (run_schedule srv ls w (start (w_mem w) rls));
                    [by apply shows_start|apply idle_start]].
  intros o w' (s & Hs & [(_ & _ & Hrq) Hx] & Hcalm & _).
  destruct (undisturbed_log (w_mem w) rls s) as (rls' & b & Hl & Hres & _); [done|apply Hs|..].
  - eapply (serves_distinct _ _ _ Hs); [done|done|]. by intros ??????.
  - apply Hcalm; [apply crash_only_fails|]. split; [done|apply unfinished_lines].
  - exists rls', b. rewrite <- Hx, <- Hrq. done.
Qed.
