(* ===== verification/Durability.v ===== *)
(** * Durability: a mutation happens once, or not at all

    The write-ahead protocol from the outside.  A request that mutates a file
    is handled by [Server.handle] in an environment in which the process may
    die at any system call; [handle_mutation_wp] says, for any handler that
    follows the protocol ([wal] of [FsOpsSpec.v]), how the run can end:
    answered, with the mutation complete and recorded; or dead, in a state
    the recovery of [Crash.v] settles.  The theorems apply this to the
    handlers and follow the disk through any number of restarts. *)

From S2P Require Import Prelude Text Protocol World Fs Hash FsSpec Workspace Jsonl Store.
From S2P Require Import StoreSpec FsOps FsOpsSpec Undo Prune Transfer Recovery Crash Config.
From S2P Require Import Exec Server.

(** ** The store between two requests *)

Section quiet.
Context `{JsonCodec AnyOperationRecord} `{JsonCodec RequestLogLine}.

(** No mutation is under way and no request without its answer; the logs
    hold [rs] and [ls], and the request table what the log says; the ids of
    the records are behind the counter. *)
Record quiet (n : N) (w : world) (rs : list AnyOperationRecord) (ls : list RequestLogLine)
    : Prop := {
  quiet_logs : logs w rs ls;
  quiet_counter : counter_holds n w;
  quiet_requests : requests (w_mem w) = requests_of_log ls;
  quiet_prepared : no_prepared (index_records rs);
  quiet_stuck k e : requests_of_log ls !! k = Some e → is_stuck e = false;
  quiet_ids r : r ∈ rs → (default 0 (op_number r) <= next_id (w_mem w))%N }.

(** The counter of operation ids has not reached the end of [u64]. *)
Definition ids_left (w : world) : Prop := (next_id (w_mem w) < u64_max)%N.

(** The request was never seen. *)
Definition fresh_request (rid : string) (rs : list AnyOperationRecord)
    (ls : list RequestLogLine) : Prop :=
  requests_of_log ls !! rid = None ∧
  ∀ i r, index_records rs !! i = Some r → committed_for rid r = false.

(** The next operation's id is new. *)
Lemma next_op_number w r :
  ids_left w → AnyOperationRecord.operation_id r = next_op_id w →
  op_number r = Some (next_id (w_mem w) + 1)%N.
Proof.
  unfold ids_left, op_number, next_op_id. intros Hroom ->. rewrite strip_prefix_append.
  cbn [mbind option_bind].
  assert (u64_add (next_id (w_mem w)) 1 = (next_id (w_mem w) + 1)%N) as ->.
  { unfold u64_add. rewrite N.mod_small; lia. }
  by rewrite parse_u64_pretty by lia.
Qed.

Lemma quiet_next_id n w rs ls :
  quiet n w rs ls → ids_left w → index_records rs !! next_op_id w = None.
Proof.
  intros Hq Hroom. apply eq_None_not_Some. intros [r Hr].
  assert (r ∈ rs) as Hin.
  { clear Hq. revert Hr. generalize (next_op_id w) as i.
    induction rs as [|r' rs IH] using rev_ind; [done|]. intros i.
    rewrite index_records_snoc, lookup_insert_Some. set_solver. }
  apply (quiet_ids _ _ _ _ Hq) in Hin. apply index_records_id in Hr.
  rewrite (next_op_number _ _ Hroom Hr) in Hin. cbn in Hin. lia.
Qed.
End quiet.

Section handling.
Context `{CrashOnly} `{TempfileLaws} `{Sha256Laws} `{HashIterLaws}
        `{Processes} `{TomlConfig}
        `{JsonCodecLaws AnyOperationRecord} `{JsonCodecLaws RequestLogLine}.

(** A handler that follows the write-ahead protocol from [w], once its
    checks have passed. *)
Definition follows_wal (h : M ProtocolError ResultBody) (w : world)
    (rs : list AnyOperationRecord) (ls : list RequestLogLine) (rid : string)
    (kind : OperationKind) (path : string) (before : option string) (after : string)
    (blob : option bytes) (mid done_ : tree → Prop) (body : string → ResultBody) : Prop :=
  ∀ Φ : outcome ProtocolError ResultBody → world → Prop,
    (∀ w', dies → fs_step w w' (w_fs w) → Φ Killed w') →
    (∀ w1, fs_step w w1 (w_fs w) →
       wal w1 rs ls rid kind path before after blob False mid done_ body Φ) →
    wp h w Φ.

Section mutation.
Context (n : N) (w : world) (rs : list AnyOperationRecord) (ls : list RequestLogLine).
Context (rid op : string) (kind : OperationKind) (path : string).
Context (before : option string) (after : string) (blob : option bytes).
Context (mid done_ told tnew : tree → Prop) (body : string → ResultBody).
Context (Hquiet : quiet n w rs ls) (Hfresh : fresh_request rid rs ls).
Context (Hroom : ids_left w).
Context (Hop : op ≠ "exec").

Definition marker (now : N) : PreparedRecord :=
  PreparedRecord.Mk (next_op_id w) rid kind path before after now.

Context (Hold : told (w_fs w)) (Hmid : ∀ t, mid t → told t ∨ tnew t).
Context (Hdone : ∀ t, done_ t → tnew t).
Context (Hbody : ∀ now, answer_of (marker now) = ServerMessage.Result rid (body (next_op_id w))).

(** How the request ends when it is answered. *)
Definition answered (msg : ServerMessage) (w' : world) : Prop :=
  msg = ServerMessage.Result rid (body (next_op_id w)) ∧ done_ (w_fs w') ∧
  requests (w_mem w') = <[rid := done_entry msg]> (requests (w_mem w)) ∧
  (∃ now, let r := AnyOperationRecord.Fs (record_of_prepared (marker now) now) in
     find_record (w_mem w') (next_op_id w) = Some r) ∧
  match blob with
  | Some b => w_sd w' !! blob_path (next_op_id w) "before" = Some b
  | None => True
  end ∧
  next_id (w_mem w') = (next_id (w_mem w) + 1)%N ∧
  ∃ rs' ls', quiet n w' rs' ls' ∧
    ∀ rid', rid' ≠ rid → fresh_request rid' rs ls → fresh_request rid' rs' ls'.

Definition ended (o : outcome ProtocolError ServerMessage) (w' : world) : Prop :=
  match o with
  | Returned msg => answered msg w'
  | Raised _ => False
  | Killed => dies ∧ ∃ now, in_doubt (marker now) op told tnew n w'
  end.

Abbreviation doubt now := (in_doubt (marker now) op told tnew n).

(** The states a run passes through, as far as the disk is concerned. *)
Lemma calm_before : others_calm (marker 0) (requests_of_log ls).
Proof. intros k e _. apply (quiet_stuck _ _ _ _ Hquiet). Qed.

Lemma doubt_old now w' ls' :
  loads w' rs ls' → counter_holds n w' → told (w_fs w') →
  ls' = ls ∨ ls' = ls ++ [claim_line rid op] → doubt now w'.
Proof.
  intros [Ho Hr] Hc Ht Hls. exists rs, ls'. split_and!; [done..|].
  destruct Hls as [-> | ->]; rewrite ?requests_of_log_snoc; cbn.
  - split; [apply calm_before|left]. split_and!; [apply Hquiet|exact (proj2 Hfresh)|done|].
    left. exact (proj1 Hfresh).
  - split; [|left; split_and!; [apply Hquiet|exact (proj2 Hfresh)|done|]].
    + intros k e Hne. rewrite lookup_insert_ne by done. by apply calm_before.
    + right. by rewrite lookup_insert_eq.
Qed.

Abbreviation ls1 := (ls ++ [claim_line rid op]).

Lemma doubt_marked now w' :
  loads w' (rs ++ [AnyOperationRecord.Prepared (marker now)]) ls1 → counter_holds n w' →
  told (w_fs w') ∨ tnew (w_fs w') → doubt now w'.
Proof.
  intros [Ho Hr] Hc Ht. eexists _, ls1. split_and!; [done..|].
  rewrite requests_of_log_snoc, index_records_snoc. cbn. split.
  - intros k e Hne. rewrite lookup_insert_ne by done. by apply calm_before.
  - right. left. split_and!; [by rewrite lookup_insert_eq| | |by rewrite lookup_insert_eq|done].
    + intros i p Hne. rewrite lookup_insert_ne by done. apply (quiet_prepared _ _ _ _ Hquiet).
    + intros i r. destruct (decide (i = next_op_id w)) as [->|Hne];
        [rewrite lookup_insert_eq; by intros [= <-]
        |rewrite lookup_insert_ne by done; exact (proj2 Hfresh i r)].
Qed.

Lemma committed_tables now now' :
  let I := index_records (rs ++ [AnyOperationRecord.Prepared (marker now)]
             ++ [AnyOperationRecord.Fs (record_of_prepared (marker now) now')]) in
  no_prepared I ∧
  I !! next_op_id w = Some (AnyOperationRecord.Fs (record_of_prepared (marker now) now')) ∧
  (∀ i r, I !! i = Some r → committed_for rid r = true → i = next_op_id w).
Proof.
  rewrite (assoc_L (++)), !index_records_snoc. cbn. rewrite insert_insert_eq. split_and!.
  - intros i p. destruct (decide (i = next_op_id w)) as [->|Hne];
      [by rewrite lookup_insert_eq
      |rewrite lookup_insert_ne by done; apply (quiet_prepared _ _ _ _ Hquiet)].
  - by rewrite lookup_insert_eq.
  - intros i r. destruct (decide (i = next_op_id w)) as [->|Hne]; [done|].
    rewrite lookup_insert_ne by done. intros Hr Hc. by rewrite (proj2 Hfresh _ _ Hr) in Hc.
Qed.

Lemma doubt_committed now now' w' ls' :
  loads w' (rs ++ [AnyOperationRecord.Prepared (marker now)]
            ++ [AnyOperationRecord.Fs (record_of_prepared (marker now) now')]) ls' →
  counter_holds n w' → tnew (w_fs w') →
  ls' = ls1 ∨ ls' = ls1 ++ [done_line rid (answer_of (marker now))] → doubt now w'.
Proof.
  intros [Ho Hr] Hc Ht Hls. eexists _, ls'. split_and!; [done..|].
  destruct (committed_tables now now') as (Hnp & Hi & Hu).
  assert (others_calm (marker now) (requests_of_log ls1) ∧
    requests_of_log ls1 !! rid = Some (claimed op)) as [Hcalm Hclaim].
  { rewrite requests_of_log_snoc. cbn. split; [|by rewrite lookup_insert_eq].
    intros k e Hne. rewrite lookup_insert_ne by done. by apply calm_before. }
  destruct Hls as [-> | ->]; rewrite ?(requests_of_log_snoc ls1); cbn.
  - split; [done|]. right; right. split_and!; [done|by exists now'|done|done|by left].
  - split.
    + intros k e Hne. rewrite lookup_insert_ne by done. by apply Hcalm.
    + right; right. split_and!; [done|by exists now'|done|done|right].
      by rewrite lookup_insert_eq.
Qed.

Lemma fresh_after now now' msg rid' :
  rid' ≠ rid → fresh_request rid' rs ls →
  fresh_request rid' (rs ++ [AnyOperationRecord.Prepared (marker now)]
      ++ [AnyOperationRecord.Fs (record_of_prepared (marker now) now')])
    (ls1 ++ [done_line rid msg]).
Proof.
  intros Hne [Hq Hno]. split.
  - rewrite !requests_of_log_snoc. cbn. by rewrite !lookup_insert_ne by done.
  - intros i r. rewrite (assoc_L (++)), !index_records_snoc. cbn. rewrite insert_insert_eq.
    rewrite lookup_insert_Some. intros [[<- <-]|[_ Hr]]; [|by eapply Hno].
    unfold committed_for. cbn. apply bool_decide_eq_false. congruence.
Qed.

Lemma quiet_after now now' w' :
  logs w' (rs ++ [AnyOperationRecord.Prepared (marker now)]
           ++ [AnyOperationRecord.Fs (record_of_prepared (marker now) now')])
    (ls1 ++ [done_line rid (answer_of (marker now))]) →
  counter_holds n w' →
  requests (w_mem w') = <[rid := done_entry (answer_of (marker now))]> (requests (w_mem w)) →
  next_id (w_mem w') = u64_add (next_id (w_mem w)) 1 →
  ∃ rs' ls', quiet n w' rs' ls' ∧
    ∀ rid', rid' ≠ rid → fresh_request rid' rs ls → fresh_request rid' rs' ls'.
Proof.
  intros Hl Hc Hreq Hid. eexists _, _. split; [|by apply fresh_after].
  split; [done|done| | | |].
  - rewrite Hreq, !requests_of_log_snoc. cbn. rewrite insert_insert_eq.
    by rewrite (quiet_requests _ _ _ _ Hquiet).
  - apply committed_tables.
  - intros k e. rewrite !requests_of_log_snoc. cbn. rewrite insert_insert_eq.
    rewrite lookup_insert_Some. intros [[<- <-]|[_ Hk]]; [done|].
    by apply (quiet_stuck _ _ _ _ Hquiet) in Hk.
  - assert (u64_add (next_id (w_mem w)) 1 = (next_id (w_mem w) + 1)%N) as Hadd.
    { unfold u64_add, ids_left in *. rewrite N.mod_small; lia. }
    rewrite Hid, Hadd. intros r Hr. rewrite !elem_of_app, !list_elem_of_singleton in Hr.
    destruct Hr as [Hr|[-> | ->]].
    + apply (quiet_ids _ _ _ _ Hquiet) in Hr. lia.
    + rewrite (next_op_number w) by done. cbn. lia.
    + rewrite (next_op_number w) by done. cbn. lia.
Qed.

(** The claim, the handler, and the recording of its result. *)
Lemma claimed_mutation_wp h :
  (∀ w1, changed requests_path (put_request rid (claimed op)) w w1 → logs w1 rs ls1 →
     follows_wal h w1 rs ls1 rid kind path before after blob mid done_ body) →
  wp (claim ← attempt (claim_request rid op);
      match claim with
      | Ok None => finishing rid h
      | Ok (Some entry) => mret (replay rid entry)
      | Err e => mret (ServerMessage.Error rid e)
      end) w ended.
Proof.
  intros Hh. pose proof (quiet_logs _ _ _ _ Hquiet) as Hl.
  pose proof (quiet_counter _ _ _ _ Hquiet) as Hc.
  apply wp_bind, wp_attempt, (claim_request_wp _ _ _ rs ls); [done| | |].
  { rewrite (quiet_requests _ _ _ _ Hquiet). apply Hfresh. }
  2: { intros o w1 Ho (Hf1 & _ & Hs1) Ht. destruct o as [a|e|]; [done|..].
       - by destruct crash_only_fails.
       - split; [done|]. exists 0%N. apply torn_reqs_loads in Ht as [Ht|Ht];
           (eapply doubt_old; [done| |by rewrite Hf1|auto]);
           by eapply counter_holds_same; [apply Hs1|]. }
  intros w1 (Hf1 & Hm1 & Hs1) Hl1.
  assert (counter_holds n w1) as Hc1 by by eapply counter_holds_same; [apply Hs1|].
  unfold finishing. apply wp_bind, wp_attempt, (Hh w1); [by split_and!|done|..].
  { intros w2 Hd (Hf2 & Hs2 & Hm2). split; [done|]. exists 0%N. eapply doubt_old; [| | |by right].
    - by eapply logs_loads, logs_same_sd.
    - by eapply counter_holds_same; [by rewrite Hs2|].
    - by rewrite Hf2, Hf1. }
  intros w2 (Hf2 & Hs2 & Hm2).
  assert (next_op_id w2 = next_op_id w) as Hid.
  { unfold next_op_id. by rewrite Hm2, Hm1. }
  assert (counter_holds n w2) as Hc2 by by eapply counter_holds_same; [by rewrite Hs2|].
  assert (∀ w', others_kept w2 w' → counter_holds n w') as Hkeep.
  { intros w' Hk. apply (counter_holds_same _ w2); [|done]. apply Hk; [done|].
    apply not_eq_sym, blob_path_not_log. set_solver. }
  assert (∀ now, prepared_rec w2 rid kind path before after now
    = AnyOperationRecord.Prepared (marker now)) as Hprep.
  { intros now. unfold prepared_rec, marker. by rewrite Hid. }
  assert (∀ now, committed_rec w2 rid kind path before after now
    = AnyOperationRecord.Fs (record_of_prepared (marker 0) now)) as Hcomm.
  { intros now. unfold committed_rec, commit_record, record_of_prepared, marker.
    cbn. by rewrite Hid. }
  split_and!.
  - intros o w3 now Ho Hf3 Hm3 Ht Hk. rewrite Hprep in Ht. destruct o as [a|e|]; [done|..].
    { by destruct crash_only_fails. }
    split; [done|]. exists now. apply torn_ops_loads in Ht as [Ht|Ht].
    + eapply doubt_old; [done|by apply Hkeep|by rewrite Hf3, Hf2, Hf1|by right].
    + eapply doubt_marked; [done|by apply Hkeep|left; by rewrite Hf3, Hf2, Hf1].
  - intros o w3 now Ho Ht Hm3 Hl3 Hk. rewrite Hprep in Hl3. destruct o as [a|e|]; [done|..].
    { by destruct Ho as [?%crash_only_fails|[]]. }
    split; [done|]. exists now. eapply doubt_marked; [by apply logs_loads|by apply Hkeep|by apply Hmid].
  - intros o w3 now now' Ho Ht Hm3 Hl3 Hk. rewrite Hprep, Hcomm in Hl3.
    destruct o as [a|e|]; [done|..]. { by destruct crash_only_fails. }
    split; [done|]. exists now. apply torn_ops_loads in Hl3 as [Hl3|Hl3].
    + eapply doubt_marked; [done|by apply Hkeep|right; by apply Hdone].
    + rewrite <- (assoc_L (++)) in Hl3.
      eapply (doubt_committed now now'); [exact Hl3|by apply Hkeep|by apply Hdone|by left].
  - intros w3 now now' Ht Hm3 Hl3 Hb Hk. rewrite Hprep, !Hcomm in *. rewrite Hid in *.
    unfold finish_. apply wp_bind, wp_attempt.
    rewrite <- (Hbody now).
    eapply remember_result_wp; [exact Hl3|..].
    + intros w4 (Hf4 & Hm4 & Hs4) Hl4. apply wp_ret. split_and!.
      * by rewrite <- (Hbody now).
      * by rewrite Hf4.
      * rewrite Hm4, Hm3, Hm2, Hm1. cbn. by rewrite insert_insert_eq.
      * exists now'. rewrite Hm4, Hm3. cbn.
        apply (find_first_replace_or_push (has_id (next_op_id w)));
          [by apply (record_of_prepared_found (marker 0))|].
        by intros x [Hx _]%andb_true_iff.
      * unfold blob_kept in Hb. rewrite Hid in Hb. destruct blob; [|done].
        rewrite Hs4 by (apply blob_path_not_log; set_solver). done.
      * rewrite Hm4, Hm3, Hm2, Hm1. cbn. unfold u64_add, ids_left in *.
        rewrite N.mod_small; lia.
      * eapply (quiet_after now now'); [exact Hl4| | |].
        -- by eapply counter_holds_same; [apply Hs4|apply Hkeep].
        -- rewrite Hm4, Hm3, Hm2, Hm1. cbn. by rewrite insert_insert_eq.
        -- by rewrite Hm4, Hm3, Hm2, Hm1.
    + intros o w4 Ho (Hf4 & Hm4 & Hs4) Ht4. destruct o as [a|e|]; [done|..].
      { by destruct crash_only_fails. }
      split; [done|]. exists now. apply torn_reqs_loads in Ht4 as [Ht4|Ht4];
        (eapply (doubt_committed now now');
           [exact Ht4|by eapply counter_holds_same; [apply Hs4|apply Hkeep]
           |rewrite Hf4; by apply Hdone|auto]).
Qed.
End mutation.
End handling.

(** ** Starting again, as often as the process dies *)

Section reopening.
Context `{CrashOnly} `{Sha256Laws} `{HashIterLaws}
        `{JsonCodecLaws AnyOperationRecord} `{JsonCodecLaws RequestLogLine}.

(** What [Server_new] does with the store. *)
Definition reopen (ws : Workspace) : M ProtocolError (list RecoveryAction) :=
  OperationStore_new ;; recover ws.

(** Any number of starts in which the process died. *)
Inductive died_reopening (ws : Workspace) : world → world → Prop :=
| died_never w : died_reopening ws w w
| died_again w w1 w2 :
    reopen ws w = (Killed, w1) → died_reopening ws w1 w2 → died_reopening ws w w2.

Lemma reopened_wp ws prep op told tnew n w w1 :
  decidable_marker ws prep told tnew → op ≠ "exec" →
  in_doubt prep op told tnew n w → died_reopening ws w w1 →
  wp (reopen ws) w1 (λ o w2, match o with
    | Returned _ => settled prep told tnew w2
    | Raised _ => False
    | Killed => True
    end).
Proof.
  intros Hdec Hop Hd Hdied. induction Hdied as [w|w w1 w2 Hrun _ IH].
  - eapply (restart_wp ws prep op told tnew); [done..|auto|].
    intros o w' Ho _ _. destruct o; [done| |done]. by destruct crash_only_fails.
  - apply IH. apply (wp_run _ _ (λ o w', match o with
      | Killed => in_doubt prep op told tnew n w' | _ => True end) _ _ Hrun).
    eapply (restart_wp ws prep op told tnew); [done..| |].
    + done.
    + intros o w' Ho Hd' _. by destruct o.
Qed.
End reopening.

(** What a restart from [w2] makes of a mutation: dead again, or settled one
    way or the other -- never an error. *)
Definition happens_or_not `{Env} `{Sha256} `{HashIter} `{JsonCodec AnyOperationRecord}
    `{JsonCodec RequestLogLine} (ws : Workspace) (told tnew : tree → Prop)
    (rid : string) (msg : ServerMessage) (record : N → FsOperationRecord) (w2 : world) : Prop :=
  match reopen ws w2 with
  | (Returned _, w3) =>
      (told (w_fs w3) ∧ requests (w_mem w3) !! rid = None ∧
       find_committed_by_request_id (w_mem w3) rid = None) ∨
      (tnew (w_fs w3) ∧ requests (w_mem w3) !! rid = Some (done_entry msg) ∧
       ∃ now, find_record (w_mem w3) (FsOperationRecord.operation_id (record now))
                = Some (AnyOperationRecord.Fs (record now)))
  | (Raised _, _) => False
  | (Killed, _) => True
  end.

(** The answer and the record of the next mutation. *)
Definition mutation_answer (w : world) (rid : string) (before : option string) (after : string)
    : ServerMessage := ServerMessage.Result rid (mutation before after (next_op_id w)).
Definition mutation_record (w : world) (rid : string) (kind : OperationKind) (path : string)
    (before : option string) (after : string) (now : N) : FsOperationRecord :=
  FsOperationRecord.Mk (next_op_id w) rid kind path before after now.

(** A finished mutation, in the tables and on disk. *)
Definition recorded `{JsonCodec AnyOperationRecord} `{JsonCodec RequestLogLine}
    (n : N) (w : world) (rs : list AnyOperationRecord) (ls : list RequestLogLine)
    (rid : string) (kind : OperationKind) (path : string)
    (before : option string) (after : string) (blob : option bytes) (w' : world) : Prop :=
  requests (w_mem w')
    = <[rid := done_entry (mutation_answer w rid before after)]> (requests (w_mem w)) ∧
  (∃ now, find_record (w_mem w') (next_op_id w)
     = Some (AnyOperationRecord.Fs (mutation_record w rid kind path before after now))) ∧
  match blob with
  | Some b => w_sd w' !! blob_path (next_op_id w) "before" = Some b
  | None => True
  end ∧
  next_id (w_mem w') = (next_id (w_mem w) + 1)%N ∧
  ∃ rs' ls', quiet n w' rs' ls' ∧
    ∀ rid', rid' ≠ rid → fresh_request rid' rs ls → fresh_request rid' rs' ls'.

Section verdicts.
Context `{CrashOnly} `{TempfileLaws} `{Sha256Laws} `{HashIterLaws}
        `{Processes} `{TomlConfig}
        `{JsonCodecLaws AnyOperationRecord} `{JsonCodecLaws RequestLogLine}.

(** From the run of a mutation to its verdicts. *)
Lemma ended_succeeds `{!FaultFree} srv req n w rs ls rid op kind path before after blob done_ told tnew :
  wp (handle srv req) w
    (ended n w rs ls rid op kind path before after blob done_ told tnew (mutation before after)) →
  ∃ w', handle srv req w = (Returned (mutation_answer w rid before after), w') ∧
    done_ (w_fs w') ∧ recorded n w rs ls rid kind path before after blob w'.
Proof.
  unfold wp. destruct (handle _ _ _) as [[msg|e|] w']; cbn; [|done|].
  - intros (-> & Ht & Hreq & [now Hrec] & Hb & Hid & Hq). exists w'.
    split_and!; [done|done|]. split_and!; [done|by exists now|done|done|done].
  - by intros [?%fault_free_dies _].
Qed.

Lemma ended_happens_or_not srv req n w rs ls rid op kind path before after blob done_ told tnew w1 w2 :
  wp (handle srv req) w
    (ended n w rs ls rid op kind path before after blob done_ told tnew (mutation before after)) →
  kind ≠ OperationKind.Undo → op ≠ "exec" →
  (∀ now, decidable_marker (Server.workspace srv)
     (marker w rid kind path before after now) told tnew) →
  handle srv req w = (Killed, w1) →
  died_reopening (Server.workspace srv) w1 w2 →
  happens_or_not (Server.workspace srv) told tnew rid
    (mutation_answer w rid before after) (mutation_record w rid kind path before after) w2.
Proof.
  intros Hwp Hk Hop Hdec Hrun Hdied.
  pose proof (wp_run _ _ _ _ _ Hrun Hwp) as (_ & now & Hd).
  eapply (reopened_wp _ _ op) in Hdied; [|by apply Hdec|done|exact Hd].
  unfold wp in Hdied. unfold happens_or_not.
  destruct (reopen _ _) as [[acts|e|] w3]; cbn in Hdied; [|done|done].
  destruct Hdied as [(Ht & Hq & Hf)|(Ht & Hq & Hf)]; [by left|right].
  split_and!; [done|etrans; [exact Hq|]|done]. do 2 f_equal.
  unfold answer_of, reconstruct_fs, marker. by destruct kind.
Qed.
End verdicts.

(** ** [edit] *)

Section edit.
Context `{CrashOnly} `{TempfileLaws} `{Sha256Laws} `{HashIterLaws}
        `{Processes} `{TomlConfig}
        `{JsonCodecLaws AnyOperationRecord} `{JsonCodecLaws RequestLogLine}.

(** The tree with the edit done: the file holds [content] under its old
    mode; all else is as in [t]. *)
Definition edited (t : tree) (abs : path) (content : bytes) (mode : N) (t' : tree) : Prop :=
  installed t abs content mode t'.

Lemma edit_marker_decidable kind t ws path abs original mode mtime content id rid now :
  ws_canonical t ws → resolve t ws path = Ok abs → real t abs →
  t !! abs = Some (File original mode mtime) → hash_bytes original ≠ hash_bytes content →
  decidable_marker ws
    (PreparedRecord.Mk id rid kind path (Some (hash_bytes original))
       (hash_bytes content) now)
    (beside t abs) (installed t abs content mode).
Proof.
  intros Hws Hr Hreal Hl Hne. unfold decidable_marker, after_state.
  cbn [PreparedRecord.path PreparedRecord.before_hash PreparedRecord.expected_after_hash].
  rewrite decide_False by apply hash_not_sentinel. split_and!; [..|congruence].
  - intros t' Hb. pose proof (extends_beside _ _ _ Hb) as He. exists abs. split.
    + by apply (resolve_extends t).
    + apply (hash_of_real _ _ _ mode mtime); [by apply (real_extends t)|].
      by rewrite (beside_lookup _ _ _ Hb).
  - intros t' Hi. pose proof (extends_installed _ _ _ _ _ _ _ _ Hl Hi) as He.
    exists abs. split; [by apply (resolve_extends t)|].
    destruct Hi as [mtime' ->]. eapply hash_of_real; [by apply (real_extends t)|].
    apply lookup_insert_eq.
Qed.

Lemma edit_plan_Ok t ws path base old new all abs original content :
  edit_plan t ws path base old new all = Ok (abs, original, content) →
  resolve t ws path = Ok abs ∧ base = hash_bytes original ∧
  (∃ mode mtime, metadata t abs = Ok (File original mode mtime)) ∧
  edit_text path original (as_bytes old) (as_bytes new) all = Ok content.
Proof.
  unfold edit_plan. intros (_ & _ & Hx)%result_bind_Ok.
  apply result_bind_Ok in Hx as (abs' & Hr & Hy).
  destruct (metadata t abs') as [[original' mode mtime| |]|] eqn:Hm; try done.
  case_decide; [|done]. apply result_bind_Ok in Hy as (content' & Ht & [= <- <- <-]).
  rewrite Hr. split_and!; eauto.
Qed.

(** [edit] follows the write-ahead protocol when its plan succeeds. *)
Lemma edit_follows_wal ws rid path base old new all abs original mode mtime content w rs ls :
  tree_wf (w_fs w) → ws_canonical (w_fs w) ws → logs w rs ls →
  edit_plan (w_fs w) ws path base old new all = Ok (abs, original, content) →
  w_fs w !! abs = Some (File original mode mtime) →
  follows_wal (edit ws rid path base old new all) w rs ls rid OperationKind.Edit path
    (Some base) (hash_bytes content) (Some original)
    (λ t', beside (w_fs w) abs t' ∨ installed (w_fs w) abs content mode t')
    (installed (w_fs w) abs content mode)
    (mutation (Some base) (hash_bytes content)).
Proof.
  intros Hwf Hws Hl Hplan Hlook Φ HK HW.
  apply (edit_wp _ _ _ _ _ _ _ _ rs ls); [done..| | |].
  - intros e w' [?%crash_only_fails|He] _; [done|congruence].
  - done.
  - intros abs' original' mode' mtime' content' w1 Hplan' _ Hlook' _ Hw1.
    rewrite Hplan in Hplan'. simplify_eq.
    assert (¬ fails) as Hnf by apply crash_only_fails.
    destruct (HW w1 Hw1) as (Hx1 & Hx2 & Hx3 & Hx4). split_and!; [done|..].
    + intros o w' now Ho Ht. apply (Hx2 o w' now Ho).
      destruct Ht as [Ht|(m & Ht & Hm)]; [by left|right]. by rewrite <- (Hm Hnf).
    + intros o w' now now' Ho (m & Ht & Hm). apply (Hx3 o w' now now' Ho). by rewrite <- (Hm Hnf).
    + intros w' now now' (m & Ht & Hm). apply (Hx4 w' now now'). by rewrite <- (Hm Hnf).
Qed.

Context (srv : Server) (n : N) (w : world) (rid path base old new : string) (all : bool).
Context (rs : list AnyOperationRecord) (ls : list RequestLogLine).
Context (abs : World.path) (original content : bytes) (mode mtime : N).

(** An edit that is going to succeed, sent as a new request to a server at
    rest. *)
Definition good_edit : Prop :=
  tree_wf (w_fs w) ∧ ws_canonical (w_fs w) (Server.workspace srv) ∧
  quiet n w rs ls ∧ fresh_request rid rs ls ∧ ids_left w ∧
  edit_plan (w_fs w) (Server.workspace srv) path base old new all = Ok (abs, original, content) ∧
  w_fs w !! abs = Some (File original mode mtime).

Definition edit_request : Request :=
  Request.Mk rid (RequestBody.Edit path base old new all).

Lemma handle_edit_wp :
  good_edit →
  wp (handle srv edit_request) w
    (ended n w rs ls rid "edit" OperationKind.Edit path (Some base) (hash_bytes content)
       (Some original) (installed (w_fs w) abs content mode)
       (beside (w_fs w) abs) (installed (w_fs w) abs content mode)
       (mutation (Some base) (hash_bytes content))).
Proof.
  intros (Hwf & Hws & Hq & Hfr & Hroom & Hplan & Hlook).
  unfold handle. cbn [Request.body Request.request_id edit_request].
  eapply (claimed_mutation_wp n w rs ls _ _ _ _ _ _ _
    (λ t', beside (w_fs w) abs t' ∨ installed (w_fs w) abs content mode t')); try done.
  - by left.
  - intros w1 (Hf1 & _) Hl1. rewrite <- Hf1. cbn [dispatch].
    eapply (edit_follows_wal _ _ _ _ _ _ _ abs original mode mtime); by rewrite ?Hf1.
Qed.
End edit.

(** C2: an edit that passes its checks, on a server at rest, succeeds: the
    answer carries the operation's id and both hashes; the file holds exactly
    the content [edit_text] computes, its mode is kept and every other entry
    of the tree is as it was; the request is recorded with its answer, the
    operation with its before-content; and the server is at rest again. *)
Theorem edit_succeeds `{FaultFree} `{TempfileLaws} `{Sha256Laws} `{HashIterLaws}
    `{Processes} `{TomlConfig} `{JsonCodecLaws AnyOperationRecord} `{JsonCodecLaws RequestLogLine}
    srv n w rid path base old new all rs ls abs original content mode mtime :
  good_edit srv n w rid path base old new all rs ls abs original content mode mtime →
  ∃ w', handle srv (edit_request rid path base old new all) w
          = (Returned (mutation_answer w rid (Some base) (hash_bytes content)), w') ∧
    installed (w_fs w) abs content mode (w_fs w') ∧
    recorded n w rs ls rid OperationKind.Edit path (Some base) (hash_bytes content) (Some original) w'.
Proof.
  intros Hgood. pose proof fault_free_crash_only.
  by eapply ended_succeeds, (handle_edit_wp _ _ _ _ _ _ _ _ _ _ _ _ _ _ _ _ Hgood).
Qed.

(** C1: an edit happens once or not at all, however often the process dies.
    The process may be killed at any system call of the request, and again at
    any system call of any number of restarts.  Once a restart gets through,
    either the file is as it was (a temporary file may have been left beside
    it), no record of the operation exists and the request is forgotten, so
    that a retry runs it; or the file holds the new content under its old
    mode, the operation is recorded, and the request has its answer.  A
    restart never fails of its own accord. *)
Theorem edit_survives_crashes `{CrashOnly} `{TempfileLaws} `{Sha256Laws} `{HashIterLaws}
    `{Processes} `{TomlConfig} `{JsonCodecLaws AnyOperationRecord} `{JsonCodecLaws RequestLogLine}
    srv n w rid path base old new all rs ls abs original content mode mtime w1 w2 :
  good_edit srv n w rid path base old new all rs ls abs original content mode mtime →
  hash_bytes original ≠ hash_bytes content →
  handle srv (edit_request rid path base old new all) w = (Killed, w1) →
  died_reopening (Server.workspace srv) w1 w2 →
  happens_or_not (Server.workspace srv)
    (beside (w_fs w) abs) (installed (w_fs w) abs content mode)
    rid (mutation_answer w rid (Some base) (hash_bytes content))
    (mutation_record w rid OperationKind.Edit path (Some base) (hash_bytes content)) w2.
Proof.
  intros Hgood Hne Hrun Hdied. pose proof Hgood as (Hwf & Hws & _ & _ & _ & Hplan & Hlook).
  destruct (edit_plan_Ok _ _ _ _ _ _ _ _ _ _ Hplan) as (Hr & -> & (m & mt & Hm) & _).
  destruct (resolved_metadata _ _ _ _ _ Hwf Hws Hr Hm) as [Hreal _].
  eapply ended_happens_or_not; [by eapply handle_edit_wp|done| | |done|done].
  - done.
  - intros now. by eapply edit_marker_decidable.
Qed.

(** ** [delete] *)

Section delete.
Context `{CrashOnly} `{TempfileLaws} `{Sha256Laws} `{HashIterLaws}
        `{Processes} `{TomlConfig}
        `{JsonCodecLaws AnyOperationRecord} `{JsonCodecLaws RequestLogLine}.
Context (srv : Server) (n : N) (w : world) (rid path : string).
Context (rs : list AnyOperationRecord) (ls : list RequestLogLine).
Context (abs : World.path) (data : bytes) (mode mtime : N).

(** The deletion of a file that is there, sent as a new request to a server
    at rest. *)
Definition good_delete : Prop :=
  tree_wf (w_fs w) ∧ ws_canonical (w_fs w) (Server.workspace srv) ∧
  quiet n w rs ls ∧ fresh_request rid rs ls ∧ ids_left w ∧
  resolve (w_fs w) (Server.workspace srv) path = Ok abs ∧
  metadata (w_fs w) abs = Ok (File data mode mtime).

Definition delete_request : Request := Request.Mk rid (RequestBody.Delete path).

Lemma handle_delete_wp :
  good_delete →
  wp (handle srv delete_request) w
    (ended n w rs ls rid "delete" OperationKind.Delete path (Some (hash_bytes data))
       FILE_DELETED_SENTINEL (Some data) (λ t', t' = delete abs (w_fs w))
       (λ t', t' = w_fs w) (λ t', t' = delete abs (w_fs w))
       (mutation (Some (hash_bytes data)) FILE_DELETED_SENTINEL)).
Proof.
  intros (Hwf & Hws & Hq & Hfr & Hroom & Hr & Hm).
  unfold handle. cbn [Request.body Request.request_id delete_request].
  eapply (claimed_mutation_wp n w rs ls _ _ _ _ _ _ _
    (λ t', t' = w_fs w ∨ t' = delete abs (w_fs w))); try done.
  intros w1 (Hf1 & _) Hl1 Φ HK HW. rewrite <- Hf1 in *. cbn [dispatch].
  eapply (delete_wp _ _ _ _ _ _ abs data mode mtime); [done..| | |].
  - intros e w' Hf _. by destruct crash_only_fails.
  - done.
  - intros w2 blob Hw2 Hblob. rewrite (Hblob crash_only_fails). by apply HW.
Qed.

Lemma delete_marker_decidable p s id now :
  good_delete → abs = p ++ [s] → names_entry (w_fs w) (Server.workspace srv) path p s →
  decidable_marker (Server.workspace srv)
    (PreparedRecord.Mk id rid OperationKind.Delete path (Some (hash_bytes data))
       FILE_DELETED_SENTINEL now)
    (λ t', t' = w_fs w) (λ t', t' = delete abs (w_fs w)).
Proof.
  intros (Hwf & Hws & _ & _ & _ & Hr & Hm) Habs (a & Ha & Hc).
  destruct (resolved_metadata _ _ _ _ _ Hwf Hws Hr Hm) as [Hreal Hlook].
  unfold decidable_marker, after_state.
  cbn [PreparedRecord.path PreparedRecord.before_hash PreparedRecord.expected_after_hash].
  rewrite decide_True by done. split_and!; [| |done].
  - intros t' ->. exists abs. split; [done|]. by rewrite (hash_of_metadata _ _ _ Hm).
  - intros t' ->. exists abs.
    pose proof (keeps_ways_delete _ _ _ _ _ Hlook) as Hk. subst abs.
    destruct (real_parent_dir _ _ _ Hreal) as [Hp Hd].
    assert (name_ok s) as Hs.
    { apply real_names, Forall_app in Hreal as [_ Hs]. by inversion Hs. }
    pose proof (keeps_ways_dir _ _ _ Hk Hd). split.
    + apply (resolve_entry (w_fs w)); try done.
      * exists a. split; [done|]. unfold canonicalize in *. by apply (walk_keeps_ways (w_fs w)).
      * intros n'. by rewrite lookup_delete_eq.
    + apply hash_of_missing; [|done|done|apply lookup_delete_eq].
      apply real_delete_file; [done|by rewrite Hlook|apply snoc_ne].
Qed.
End delete.

(** Deleting a file that is there, on a server at rest, removes exactly
    that entry of the tree; the answer carries its hash and the deleted
    marker, the content is kept for undo, and the server is at rest again. *)
Theorem delete_succeeds `{FaultFree} `{TempfileLaws} `{Sha256Laws} `{HashIterLaws}
    `{Processes} `{TomlConfig} `{JsonCodecLaws AnyOperationRecord} `{JsonCodecLaws RequestLogLine}
    srv n w rid path rs ls abs data mode mtime :
  good_delete srv n w rid path rs ls abs data mode mtime →
  ∃ w', handle srv (delete_request rid path) w
          = (Returned (mutation_answer w rid (Some (hash_bytes data)) FILE_DELETED_SENTINEL), w') ∧
    w_fs w' = delete abs (w_fs w) ∧
    recorded n w rs ls rid OperationKind.Delete path (Some (hash_bytes data)) FILE_DELETED_SENTINEL
      (Some data) w'.
Proof.
  intros Hgood. pose proof fault_free_crash_only.
  by eapply (ended_succeeds _ _ _ _ _ _ _ _ _ _ _ _ _ (λ t', t' = delete abs (w_fs w))),
    handle_delete_wp.
Qed.

(** C18: a deletion happens once or not at all, however often the process
    dies; the recovery tells by the file being there or gone.  The path must
    name the file itself: through a link, the restart may not find its way
    back once the file is gone. *)
Theorem delete_survives_crashes `{CrashOnly} `{TempfileLaws} `{Sha256Laws} `{HashIterLaws}
    `{Processes} `{TomlConfig} `{JsonCodecLaws AnyOperationRecord} `{JsonCodecLaws RequestLogLine}
    srv n w rid path rs ls p s data mode mtime w1 w2 :
  good_delete srv n w rid path rs ls (p ++ [s]) data mode mtime →
  names_entry (w_fs w) (Server.workspace srv) path p s →
  handle srv (delete_request rid path) w = (Killed, w1) →
  died_reopening (Server.workspace srv) w1 w2 →
  happens_or_not (Server.workspace srv)
    (λ t', t' = w_fs w) (λ t', t' = delete (p ++ [s]) (w_fs w))
    rid (mutation_answer w rid (Some (hash_bytes data)) FILE_DELETED_SENTINEL)
    (mutation_record w rid OperationKind.Delete path (Some (hash_bytes data))
       FILE_DELETED_SENTINEL) w2.
Proof.
  intros Hgood Hn Hrun Hdied.
  eapply ended_happens_or_not; [by eapply handle_delete_wp|done| | |done|done].
  - done.
  - intros now. by eapply delete_marker_decidable.
Qed.

(** ** [create] *)

Section create.
Context `{CrashOnly} `{TempfileLaws} `{Sha256Laws} `{HashIterLaws}
        `{Processes} `{TomlConfig}
        `{JsonCodecLaws AnyOperationRecord} `{JsonCodecLaws RequestLogLine}.
Context (srv : Server) (n : N) (w : world) (rid path content : string).
Context (rs : list AnyOperationRecord) (ls : list RequestLogLine).
Context (p : World.path) (s : string).

(** The creation of a file that is not there, in a directory that is, sent
    as a new request to a server at rest.  (A name that begins like the
    temporary files' could be taken by one.) *)
Definition good_create : Prop :=
  ws_canonical (w_fs w) (Server.workspace srv) ∧
  quiet n w rs ls ∧ fresh_request rid rs ls ∧ ids_left w ∧
  (str_len content <= MAX_TEXT_BYTES)%N ∧
  resolve (w_fs w) (Server.workspace srv) path = Ok (p ++ [s]) ∧
  real (w_fs w) p ∧ is_dir_node (w_fs w !! p) = true ∧ name_ok s ∧
  w_fs w !! (p ++ [s]) = None ∧ strip_prefix s ".tmp" = None.

Definition create_request : Request := Request.Mk rid (RequestBody.Create path content).

Abbreviation bytes := (as_bytes content).

Lemma handle_create_wp :
  good_create →
  wp (handle srv create_request) w
    (ended n w rs ls rid "create" OperationKind.Create path None (hash_bytes bytes) None
       (created (w_fs w) p s bytes (¬ fails))
       (beside (w_fs w) (p ++ [s])) (created (w_fs w) p s bytes False)
       (mutation None (hash_bytes bytes))).
Proof.
  intros (Hws & Hq & Hfr & Hroom & Hlen & Hr & Hp & Hd & Hs & Hfree & Hnt).
  unfold handle. cbn [Request.body Request.request_id create_request].
  eapply (claimed_mutation_wp n w rs ls _ _ _ _ _ _ _
    (λ t', beside (w_fs w) (p ++ [s]) t' ∨ created (w_fs w) p s bytes False t')); try done.
  - by left.
  - intros t (mt & [->|[Hno _]]); [exists mt; by left|]. destruct Hno. apply crash_only_fails.
  - intros w1 (Hf1 & _) Hl1 Φ HK HW. rewrite <- Hf1 in *. cbn [dispatch].
    eapply create_wp; [done..| | |done].
    + intros e w' Hf _. by destruct crash_only_fails.
    + done.
Qed.

Lemma extends_created t' : w_fs w !! (p ++ [s]) = None →
  created (w_fs w) p s bytes False t' → extends (w_fs w) t'.
Proof.
  intros Hfree (mt & [->|(_ & tn & data & mode & Hne & _ & Hl & ->)]).
  - apply extends_insert. intros n'. by rewrite Hfree.
  - intros q n' Hq. unfold with_temp_file.
    assert (q ≠ p ++ [tn]) by (intros ->; congruence).
    assert (q ≠ p ++ [s]) by (intros ->; congruence).
    exists n'. rewrite !lookup_insert_ne by done. auto using same_shape_refl.
Qed.

Lemma created_lookup t' : created (w_fs w) p s bytes False t' →
  ∃ mt, t' !! (p ++ [s]) = Some (File bytes 420 mt).
Proof.
  intros (mt & [->|(_ & tn & data & mode & Hne & _ & Hl & ->)]); exists mt.
  - apply lookup_insert_eq.
  - unfold with_temp_file. rewrite lookup_insert_ne; [apply lookup_insert_eq|].
    by intros [_ ?]%app_inj_tail.
Qed.

Lemma create_marker_decidable id now :
  good_create → names_entry (w_fs w) (Server.workspace srv) path p s →
  decidable_marker (Server.workspace srv)
    (PreparedRecord.Mk id rid OperationKind.Create path None (hash_bytes bytes) now)
    (beside (w_fs w) (p ++ [s])) (created (w_fs w) p s bytes False).
Proof.
  intros (Hws & _ & _ & _ & _ & Hr & Hp & Hd & Hs & Hfree & _) (a & Ha & Hc).
  unfold decidable_marker, after_state.
  cbn [PreparedRecord.path PreparedRecord.before_hash PreparedRecord.expected_after_hash].
  rewrite decide_False by apply hash_not_sentinel.
  assert (∀ t', extends (w_fs w) t' → (∀ n', t' !! (p ++ [s]) = Some n' → not_symlink n') →
    resolve t' (Server.workspace srv) path = Ok (p ++ [s])) as Hres.
  { intros t' He Hn'. apply (resolve_entry (w_fs w)); try done.
    - exists a. split; [done|]. by apply (walk_extends (w_fs w)).
    - by apply (extends_dir (w_fs w)). }
  split_and!; [| |done].
  - intros t' Hb. pose proof (extends_beside _ _ _ Hb) as He.
    pose proof (beside_lookup _ _ _ Hb) as Hl. rewrite Hfree in Hl.
    exists (p ++ [s]). split; [apply Hres; [done|by rewrite Hl]|].
    apply hash_of_missing; [by apply (real_extends (w_fs w))|by apply (extends_dir (w_fs w))|done|done].
  - intros t' Hb. pose proof (extends_created _ Hfree Hb) as He.
    destruct (created_lookup _ Hb) as [mt Hl].
    exists (p ++ [s]). split; [apply Hres; [done|]|].
    { rewrite Hl. by intros n' [= <-]. }
    eapply hash_of_real; [|done].
    econstructor; [by apply (real_extends (w_fs w))|by apply (extends_dir (w_fs w))|done|done|done].
Qed.
End create.

(** Creating a file that is not there, in a directory that is, on a server
    at rest, adds exactly one entry to the tree: the file with the content
    asked for and mode 0644.  Nothing is overwritten and no temporary file
    stays; the answer carries the content's hash, and the server is at rest
    again. *)
Theorem create_succeeds `{FaultFree} `{TempfileLaws} `{Sha256Laws} `{HashIterLaws}
    `{Processes} `{TomlConfig} `{JsonCodecLaws AnyOperationRecord} `{JsonCodecLaws RequestLogLine}
    srv n w rid path content rs ls p s :
  good_create srv n w rid path content rs ls p s →
  ∃ w', handle srv (create_request rid path content) w
          = (Returned (mutation_answer w rid None (hash_bytes (as_bytes content))), w') ∧
    (∃ mtime, w_fs w' = <[p ++ [s] := File (as_bytes content) 420 mtime]> (w_fs w)) ∧
    recorded n w rs ls rid OperationKind.Create path None (hash_bytes (as_bytes content)) None w'.
Proof.
  intros Hgood. pose proof fault_free_crash_only.
  destruct (ended_succeeds _ _ _ _ _ _ _ _ _ _ _ _ _ _ _ _ (handle_create_wp _ _ _ _ _ _ _ _ _ _ Hgood))
    as (w' & Hrun & (mt & Ht) & Hrec).
  exists w'. split_and!; [done| |done]. exists mt.
  destruct Ht as [->|[Hno _]]; [done|]. destruct Hno. apply fault_free_fails.
Qed.

(** C17: a creation happens once or not at all, however often the process dies
    (a temporary file may have been left beside the target). *)
Theorem create_survives_crashes `{CrashOnly} `{TempfileLaws} `{Sha256Laws} `{HashIterLaws}
    `{Processes} `{TomlConfig} `{JsonCodecLaws AnyOperationRecord} `{JsonCodecLaws RequestLogLine}
    srv n w rid path content rs ls p s w1 w2 :
  good_create srv n w rid path content rs ls p s →
  names_entry (w_fs w) (Server.workspace srv) path p s →
  handle srv (create_request rid path content) w = (Killed, w1) →
  died_reopening (Server.workspace srv) w1 w2 →
  happens_or_not (Server.workspace srv)
    (beside (w_fs w) (p ++ [s])) (created (w_fs w) p s (as_bytes content) False)
    rid (mutation_answer w rid None (hash_bytes (as_bytes content)))
    (mutation_record w rid OperationKind.Create path None (hash_bytes (as_bytes content))) w2.
Proof.
  intros Hgood Hn Hrun Hdied.
  eapply ended_happens_or_not; [by eapply handle_create_wp|done| | |done|done].
  - done.
  - intros now. by eapply create_marker_decidable.
Qed.
