(* ===== verification/Codec.v ===== *)
(** * Codec: a serializer that satisfies the laws

    The logs are proved correct for any serializer with the laws of
    [Jsonl.JsonCodecLaws] (the source uses [serde_json]).  This file has one:
    a record is written as the binary digits of an injective encoding,
    between braces.  It models no code; the witnesses run on it. *)

From S2P Require Import Prelude Text Protocol World Fs Hash Workspace Jsonl Store.

(** ** An injective encoding of the records *)

(** Each record is the list of its encoded fields, each variant a tag and
    its fields. *)
Ltac fields :=
  intros []; cbv beta iota;
  repeat (rewrite decode_encode; cbn [mbind option_bind]; cbv beta iota); done.

#[export] Instance request_body_eq_dec : EqDecision RequestBody.
Proof. solve_decision. Defined.
#[export] Instance request_eq_dec : EqDecision Request.
Proof. solve_decision. Defined.

(** An enumeration is numbered. *)
Definition enum_countable {A} `{EqDecision A} (f : A → positive) (g : positive → option A)
    (H : ∀ x, g (f x) = Some x) : Countable A :=
  {| encode := f; decode := g; decode_encode := H |}.

#[export] Instance ErrorCode_countable : Countable ErrorCode.
Proof.
  refine (enum_countable
    (λ x, match x with | InvalidRequest => 1%positive | UnknownOperation => 2%positive |
        PathOutsideRoot => 3%positive | NotFound => 4%positive | NotAFile => 5%positive
        | NotADirectory => 6%positive | IsADirectory => 7%positive | InvalidHash =>
        8%positive | StaleFile => 9%positive | IoError => 10%positive | ExecFailed =>
        11%positive | UndoConflict => 12%positive | OperationNotFound => 13%positive |
        RequestNotFound => 14%positive | PatchFailed => 15%positive | AlreadyExists =>
        16%positive | NoMatch => 17%positive | AmbiguousMatch => 18%positive end)
    (λ p, match p with | 1%positive => Some InvalidRequest | 2%positive => Some
        UnknownOperation | 3%positive => Some PathOutsideRoot | 4%positive => Some
        NotFound | 5%positive => Some NotAFile | 6%positive => Some NotADirectory |
        7%positive => Some IsADirectory | 8%positive => Some InvalidHash | 9%positive =>
        Some StaleFile | 10%positive => Some IoError | 11%positive => Some ExecFailed |
        12%positive => Some UndoConflict | 13%positive => Some OperationNotFound |
        14%positive => Some RequestNotFound | 15%positive => Some PatchFailed |
        16%positive => Some AlreadyExists | 17%positive => Some NoMatch | 18%positive =>
        Some AmbiguousMatch | _ => None end) _).
  by intros [].
Defined.

#[export] Instance OperationKind_countable : Countable OperationKind.
Proof.
  refine (enum_countable
    (λ x, match x with | OperationKind.Create => 1%positive | OperationKind.Edit =>
        2%positive | OperationKind.Delete => 3%positive | OperationKind.Undo =>
        4%positive | OperationKind.Write => 5%positive | OperationKind.Patch =>
        6%positive end)
    (λ p, match p with | 1%positive => Some OperationKind.Create | 2%positive => Some
        OperationKind.Edit | 3%positive => Some OperationKind.Delete | 4%positive =>
        Some OperationKind.Undo | 5%positive => Some OperationKind.Write | 6%positive =>
        Some OperationKind.Patch | _ => None end) _).
  by intros [].
Defined.

#[export] Instance TransferDirection_countable : Countable TransferDirection.
Proof.
  refine (enum_countable
    (λ x, match x with | TransferDirection.Upload => 1%positive |
        TransferDirection.Download => 2%positive end)
    (λ p, match p with | 1%positive => Some TransferDirection.Upload | 2%positive =>
        Some TransferDirection.Download | _ => None end) _).
  by intros [].
Defined.

#[export] Instance ExecDisposition_countable : Countable ExecDisposition.
Proof.
  refine (enum_countable
    (λ x, match x with | ExecDisposition.Completed => 1%positive |
        ExecDisposition.TimedOut => 2%positive | ExecDisposition.Rejected => 3%positive
        end)
    (λ p, match p with | 1%positive => Some ExecDisposition.Completed | 2%positive =>
        Some ExecDisposition.TimedOut | 3%positive => Some ExecDisposition.Rejected | _
        => None end) _).
  by intros [].
Defined.

#[export] Instance ListKind_countable : Countable ListKind.
Proof.
  refine (enum_countable
    (λ x, match x with | ListKind.File => 1%positive | ListKind.Dir => 2%positive |
        ListKind.Symlink => 3%positive end)
    (λ p, match p with | 1%positive => Some ListKind.File | 2%positive => Some
        ListKind.Dir | 3%positive => Some ListKind.Symlink | _ => None end) _).
  by intros [].
Defined.

#[export] Instance RequestStatus_countable : Countable RequestStatus.
Proof.
  refine (enum_countable
    (λ x, match x with | RequestStatus.Unknown => 1%positive | RequestStatus.InProgress
        => 2%positive | RequestStatus.Done => 3%positive | RequestStatus.Error =>
        4%positive end)
    (λ p, match p with | 1%positive => Some RequestStatus.Unknown | 2%positive => Some
        RequestStatus.InProgress | 3%positive => Some RequestStatus.Done | 4%positive =>
        Some RequestStatus.Error | _ => None end) _).
  by intros [].
Defined.

#[export] Instance ExecTermination_countable : Countable ExecTermination.
Proof.
  refine (inj_countable
    (λ x, match x with
          | ExecTermination.Exited a => [1%positive; encode a]
          | ExecTermination.TimedOut => [2%positive]
          | ExecTermination.Signaled a => [3%positive; encode a]
          end)
    (λ l, match l with
          | [1%positive; a] => a ← decode a; Some (ExecTermination.Exited a)
          | [2%positive] => Some (ExecTermination.TimedOut)
          | [3%positive; a] => a ← decode a; Some (ExecTermination.Signaled a)
          | _ => None
          end) _).
  fields.
Defined.

#[export] Instance ProtocolError_countable : Countable ProtocolError.
Proof.
  refine (inj_countable
    (λ x, let 'ProtocolError.Mk a b c d := x in [encode a; encode b; encode c; encode d])
    (λ l, match l with
          | [a; b; c; d] => a ← decode a; b ← decode b; c ← decode c; d ← decode
              d; Some (ProtocolError.Mk a b c d)
          | _ => None
          end) _).
  fields.
Defined.

#[export] Instance ExecOutput_countable : Countable ExecOutput.
Proof.
  refine (inj_countable
    (λ x, let 'ExecOutput.Mk a b c d := x in [encode a; encode b; encode c; encode d])
    (λ l, match l with
          | [a; b; c; d] => a ← decode a; b ← decode b; c ← decode c; d ← decode
              d; Some (ExecOutput.Mk a b c d)
          | _ => None
          end) _).
  fields.
Defined.

#[export] Instance FsOperationRecord_countable : Countable FsOperationRecord.
Proof.
  refine (inj_countable
    (λ x, let 'FsOperationRecord.Mk a b c d e f g := x in [encode a; encode b; encode c;
        encode d; encode e; encode f; encode g])
    (λ l, match l with
          | [a; b; c; d; e; f; g] => a ← decode a; b ← decode b; c ← decode c; d ←
              decode d; e ← decode e; f ← decode f; g ← decode g; Some
              (FsOperationRecord.Mk a b c d e f g)
          | _ => None
          end) _).
  fields.
Defined.

#[export] Instance TransferOperationRecord_countable : Countable TransferOperationRecord.
Proof.
  refine (inj_countable
    (λ x, let 'TransferOperationRecord.Mk a b c d e f g h := x in [encode a; encode b;
        encode c; encode d; encode e; encode f; encode g; encode h])
    (λ l, match l with
          | [a; b; c; d; e; f; g; h] => a ← decode a; b ← decode b; c ← decode c;
              d ← decode d; e ← decode e; f ← decode f; g ← decode g; h ← decode
              h; Some (TransferOperationRecord.Mk a b c d e f g h)
          | _ => None
          end) _).
  fields.
Defined.

#[export] Instance ExecOperationRecord_countable : Countable ExecOperationRecord.
Proof.
  refine (inj_countable
    (λ x, let 'ExecOperationRecord.Mk a b c d e f g h i j k l m n o := x in [encode a;
        encode b; encode c; encode d; encode e; encode f; encode g; encode h; encode i;
        encode j; encode k; encode l; encode m; encode n; encode o])
    (λ l, match l with
          | [a; b; c; d; e; f; g; h; i; j; k; l; m; n; o] => a ← decode a; b ←
              decode b; c ← decode c; d ← decode d; e ← decode e; f ← decode f; g
              ← decode g; h ← decode h; i ← decode i; j ← decode j; k ← decode k;
              l ← decode l; m ← decode m; n ← decode n; o ← decode o; Some
              (ExecOperationRecord.Mk a b c d e f g h i j k l m n o)
          | _ => None
          end) _).
  fields.
Defined.

#[export] Instance PreparedRecord_countable : Countable PreparedRecord.
Proof.
  refine (inj_countable
    (λ x, let 'PreparedRecord.Mk a b c d e f g := x in [encode a; encode b; encode c;
        encode d; encode e; encode f; encode g])
    (λ l, match l with
          | [a; b; c; d; e; f; g] => a ← decode a; b ← decode b; c ← decode c; d ←
              decode d; e ← decode e; f ← decode f; g ← decode g; Some
              (PreparedRecord.Mk a b c d e f g)
          | _ => None
          end) _).
  fields.
Defined.

#[export] Instance AbortedRecord_countable : Countable AbortedRecord.
Proof.
  refine (inj_countable
    (λ x, let 'AbortedRecord.Mk a b := x in [encode a; encode b])
    (λ l, match l with
          | [a; b] => a ← decode a; b ← decode b; Some (AbortedRecord.Mk a b)
          | _ => None
          end) _).
  fields.
Defined.

#[export] Instance AnyOperationRecord_countable : Countable AnyOperationRecord.
Proof.
  refine (inj_countable
    (λ x, match x with
          | AnyOperationRecord.Fs a => [1%positive; encode a]
          | AnyOperationRecord.Exec a => [2%positive; encode a]
          | AnyOperationRecord.Transfer a => [3%positive; encode a]
          | AnyOperationRecord.Prepared a => [4%positive; encode a]
          | AnyOperationRecord.Aborted a => [5%positive; encode a]
          end)
    (λ l, match l with
          | [1%positive; a] => a ← decode a; Some (AnyOperationRecord.Fs a)
          | [2%positive; a] => a ← decode a; Some (AnyOperationRecord.Exec a)
          | [3%positive; a] => a ← decode a; Some (AnyOperationRecord.Transfer a)
          | [4%positive; a] => a ← decode a; Some (AnyOperationRecord.Prepared a)
          | [5%positive; a] => a ← decode a; Some (AnyOperationRecord.Aborted a)
          | _ => None
          end) _).
  fields.
Defined.

#[export] Instance ListEntry_countable : Countable ListEntry.
Proof.
  refine (inj_countable
    (λ x, let 'ListEntry.Mk a b c := x in [encode a; encode b; encode c])
    (λ l, match l with
          | [a; b; c] => a ← decode a; b ← decode b; c ← decode c; Some (ListEntry.Mk a b c)
          | _ => None
          end) _).
  fields.
Defined.

#[export] Instance ListResult_countable : Countable ListResult.
Proof.
  refine (inj_countable
    (λ x, let 'ListResult.Mk a b := x in [encode a; encode b])
    (λ l, match l with
          | [a; b] => a ← decode a; b ← decode b; Some (ListResult.Mk a b)
          | _ => None
          end) _).
  fields.
Defined.

#[export] Instance FileMode_countable : Countable FileMode.
Proof.
  refine (inj_countable
    (λ x, let 'FileMode.Mk a b c := x in [encode a; encode b; encode c])
    (λ l, match l with
          | [a; b; c] => a ← decode a; b ← decode b; c ← decode c; Some (FileMode.Mk a b c)
          | _ => None
          end) _).
  fields.
Defined.

#[export] Instance FileEntry_countable : Countable FileEntry.
Proof.
  refine (inj_countable
    (λ x, let 'FileEntry.Mk a b c d e := x in [encode a; encode b; encode c; encode d; encode e])
    (λ l, match l with
          | [a; b; c; d; e] => a ← decode a; b ← decode b; c ← decode c; d ←
              decode d; e ← decode e; Some (FileEntry.Mk a b c d e)
          | _ => None
          end) _).
  fields.
Defined.

#[export] Instance ReadResult_countable : Countable ReadResult.
Proof.
  refine (inj_countable
    (λ x, let 'ReadResult.Mk a b c d := x in [encode a; encode b; encode c; encode d])
    (λ l, match l with
          | [a; b; c; d] => a ← decode a; b ← decode b; c ← decode c; d ← decode
              d; Some (ReadResult.Mk a b c d)
          | _ => None
          end) _).
  fields.
Defined.

#[export] Instance MutationResult_countable : Countable MutationResult.
Proof.
  refine (inj_countable
    (λ x, let 'MutationResult.Mk a b c := x in [encode a; encode b; encode c])
    (λ l, match l with
          | [a; b; c] => a ← decode a; b ← decode b; c ← decode c; Some (MutationResult.Mk a b c)
          | _ => None
          end) _).
  fields.
Defined.

#[export] Instance ExecResult_countable : Countable ExecResult.
Proof.
  refine (inj_countable
    (λ x, let 'ExecResult.Mk a b c d e f := x in [encode a; encode b; encode c; encode
        d; encode e; encode f])
    (λ l, match l with
          | [a; b; c; d; e; f] => a ← decode a; b ← decode b; c ← decode c; d ←
              decode d; e ← decode e; f ← decode f; Some (ExecResult.Mk a b c d e
              f)
          | _ => None
          end) _).
  fields.
Defined.

#[export] Instance UploadPrepareResult_countable : Countable UploadPrepareResult.
Proof.
  refine (inj_countable
    (λ x, let 'UploadPrepareResult.Mk a b := x in [encode a; encode b])
    (λ l, match l with
          | [a; b] => a ← decode a; b ← decode b; Some (UploadPrepareResult.Mk a b)
          | _ => None
          end) _).
  fields.
Defined.

#[export] Instance TransferResult_countable : Countable TransferResult.
Proof.
  refine (inj_countable
    (λ x, let 'TransferResult.Mk a b c d e f := x in [encode a; encode b; encode c;
        encode d; encode e; encode f])
    (λ l, match l with
          | [a; b; c; d; e; f] => a ← decode a; b ← decode b; c ← decode c; d ←
              decode d; e ← decode e; f ← decode f; Some (TransferResult.Mk a b c
              d e f)
          | _ => None
          end) _).
  fields.
Defined.

#[export] Instance UndoResult_countable : Countable UndoResult.
Proof.
  refine (inj_countable
    (λ x, let 'UndoResult.Mk a b c := x in [encode a; encode b; encode c])
    (λ l, match l with
          | [a; b; c] => a ← decode a; b ← decode b; c ← decode c; Some (UndoResult.Mk a b c)
          | _ => None
          end) _).
  fields.
Defined.

#[export] Instance GcResult_countable : Countable GcResult.
Proof.
  refine (inj_countable
    (λ x, let 'GcResult.Mk a b c d := x in [encode a; encode b; encode c; encode d])
    (λ l, match l with
          | [a; b; c; d] => a ← decode a; b ← decode b; c ← decode c; d ← decode
              d; Some (GcResult.Mk a b c d)
          | _ => None
          end) _).
  fields.
Defined.

#[export] Instance OperationDetails_countable : Countable OperationDetails.
Proof.
  refine (inj_countable
    (λ x, let 'OperationDetails.Mk a := x in [encode a])
    (λ l, match l with
          | [a] => a ← decode a; Some (OperationDetails.Mk a)
          | _ => None
          end) _).
  fields.
Defined.

#[export] Instance RequestStatusResult_countable : Countable RequestStatusResult.
Proof.
  refine (inj_countable
    (λ x, let 'RequestStatusResult.Mk a b c := x in [encode a; encode b; encode c])
    (λ l, match l with
          | [a; b; c] => a ← decode a; b ← decode b; c ← decode c; Some
              (RequestStatusResult.Mk a b c)
          | _ => None
          end) _).
  fields.
Defined.

#[export] Instance ResultBody_countable : Countable ResultBody.
Proof.
  refine (inj_countable
    (λ x, match x with
          | ResultBody.List a => [1%positive; encode a]
          | ResultBody.Stat a => [2%positive; encode a]
          | ResultBody.Read a => [3%positive; encode a]
          | ResultBody.Mutation a => [4%positive; encode a]
          | ResultBody.Exec a => [5%positive; encode a]
          | ResultBody.Undo a => [6%positive; encode a]
          | ResultBody.UploadPrepare a => [7%positive; encode a]
          | ResultBody.UploadAbort a => [8%positive; encode a]
          | ResultBody.Transfer a => [9%positive; encode a]
          | ResultBody.History a => [10%positive; encode a]
          | ResultBody.Operation a => [11%positive; encode a]
          | ResultBody.RequestStatus a => [12%positive; encode a]
          | ResultBody.Gc a => [13%positive; encode a]
          end)
    (λ l, match l with
          | [1%positive; a] => a ← decode a; Some (ResultBody.List a)
          | [2%positive; a] => a ← decode a; Some (ResultBody.Stat a)
          | [3%positive; a] => a ← decode a; Some (ResultBody.Read a)
          | [4%positive; a] => a ← decode a; Some (ResultBody.Mutation a)
          | [5%positive; a] => a ← decode a; Some (ResultBody.Exec a)
          | [6%positive; a] => a ← decode a; Some (ResultBody.Undo a)
          | [7%positive; a] => a ← decode a; Some (ResultBody.UploadPrepare a)
          | [8%positive; a] => a ← decode a; Some (ResultBody.UploadAbort a)
          | [9%positive; a] => a ← decode a; Some (ResultBody.Transfer a)
          | [10%positive; a] => a ← decode a; Some (ResultBody.History a)
          | [11%positive; a] => a ← decode a; Some (ResultBody.Operation a)
          | [12%positive; a] => a ← decode a; Some (ResultBody.RequestStatus a)
          | [13%positive; a] => a ← decode a; Some (ResultBody.Gc a)
          | _ => None
          end) _).
  fields.
Defined.

#[export] Instance ServerMessage_countable : Countable ServerMessage.
Proof.
  refine (inj_countable
    (λ x, match x with
          | ServerMessage.Result a b => [1%positive; encode a; encode b]
          | ServerMessage.Error a b => [2%positive; encode a; encode b]
          end)
    (λ l, match l with
          | [1%positive; a; b] => a ← decode a; b ← decode b; Some (ServerMessage.Result a b)
          | [2%positive; a; b] => a ← decode a; b ← decode b; Some (ServerMessage.Error a b)
          | _ => None
          end) _).
  fields.
Defined.

#[export] Instance RequestLogLine_countable : Countable RequestLogLine.
Proof.
  refine (inj_countable
    (λ x, let 'RequestLogLine.Mk a b c d e := x in [encode a; encode b; encode c; encode
        d; encode e])
    (λ l, match l with
          | [a; b; c; d; e] => a ← decode a; b ← decode b; c ← decode c; d ←
              decode d; e ← decode e; Some (RequestLogLine.Mk a b c d e)
          | _ => None
          end) _).
  fields.
Defined.

#[export] Instance RequestBody_countable : Countable RequestBody.
Proof.
  refine (inj_countable
    (λ x, match x with
          | RequestBody.List a b c => [1%positive; encode a; encode b; encode c]
          | RequestBody.Stat a => [2%positive; encode a]
          | RequestBody.Read a b c => [3%positive; encode a; encode b; encode c]
          | RequestBody.Create a b => [4%positive; encode a; encode b]
          | RequestBody.Edit a b c d e => [5%positive; encode a; encode b; encode
              c; encode d; encode e]
          | RequestBody.Exec a b c d => [6%positive; encode a; encode b; encode c; encode d]
          | RequestBody.Delete a => [7%positive; encode a]
          | RequestBody.Undo a => [8%positive; encode a]
          | RequestBody.UploadPrepare a b => [9%positive; encode a; encode b]
          | RequestBody.UploadCommit a b c d => [10%positive; encode a; encode b;
              encode c; encode d]
          | RequestBody.UploadAbort a => [11%positive; encode a]
          | RequestBody.DownloadRecord a b c d => [12%positive; encode a; encode
              b; encode c; encode d]
          | RequestBody.History a => [13%positive; encode a]
          | RequestBody.OperationGet a => [14%positive; encode a]
          | RequestBody.RequestStatus a => [15%positive; encode a]
          | RequestBody.Gc a => [16%positive; encode a]
          end)
    (λ l, match l with
          | [1%positive; a; b; c] => a ← decode a; b ← decode b; c ← decode c;
              Some (RequestBody.List a b c)
          | [2%positive; a] => a ← decode a; Some (RequestBody.Stat a)
          | [3%positive; a; b; c] => a ← decode a; b ← decode b; c ← decode c;
              Some (RequestBody.Read a b c)
          | [4%positive; a; b] => a ← decode a; b ← decode b; Some (RequestBody.Create a b)
          | [5%positive; a; b; c; d; e] => a ← decode a; b ← decode b; c ← decode
              c; d ← decode d; e ← decode e; Some (RequestBody.Edit a b c d e)
          | [6%positive; a; b; c; d] => a ← decode a; b ← decode b; c ← decode c;
              d ← decode d; Some (RequestBody.Exec a b c d)
          | [7%positive; a] => a ← decode a; Some (RequestBody.Delete a)
          | [8%positive; a] => a ← decode a; Some (RequestBody.Undo a)
          | [9%positive; a; b] => a ← decode a; b ← decode b; Some (RequestBody.UploadPrepare a b)
          | [10%positive; a; b; c; d] => a ← decode a; b ← decode b; c ← decode c;
              d ← decode d; Some (RequestBody.UploadCommit a b c d)
          | [11%positive; a] => a ← decode a; Some (RequestBody.UploadAbort a)
          | [12%positive; a; b; c; d] => a ← decode a; b ← decode b; c ← decode c;
              d ← decode d; Some (RequestBody.DownloadRecord a b c d)
          | [13%positive; a] => a ← decode a; Some (RequestBody.History a)
          | [14%positive; a] => a ← decode a; Some (RequestBody.OperationGet a)
          | [15%positive; a] => a ← decode a; Some (RequestBody.RequestStatus a)
          | [16%positive; a] => a ← decode a; Some (RequestBody.Gc a)
          | _ => None
          end) _).
  fields.
Defined.

#[export] Instance Request_countable : Countable Request.
Proof.
  refine (inj_countable
    (λ x, let 'Request.Mk a b := x in [encode a; encode b])
    (λ l, match l with
          | [a; b] => a ← decode a; b ← decode b; Some (Request.Mk a b)
          | _ => None
          end) _).
  fields.
Defined.


(** ** The serializer *)

Fixpoint bits (p : positive) : bytes :=
  match p with
  | xH => []
  | xO p => Byte.x30 :: bits p
  | xI p => Byte.x31 :: bits p
  end.

(** The digits up to the closing brace, which must come last. *)
Fixpoint unbits (bs : bytes) : option positive :=
  match bs with
  | [Byte.x7d] => Some xH
  | Byte.x30 :: bs => xO <$> unbits bs
  | Byte.x31 :: bs => xI <$> unbits bs
  | _ => None
  end.

Lemma unbits_bits p : unbits (bits p ++ [Byte.x7d]) = Some p.
Proof. induction p as [p IH|p IH|]; cbn; by rewrite ?IH. Qed.

Lemma unbits_brace bs p : unbits bs = Some p → ∃ m, bs = m ++ [Byte.x7d].
Proof.
  revert p. induction bs as [|b bs IH]; [done|]. intros p.
  assert (∀ q, unbits bs = Some q → ∃ m, b :: bs = m ++ [Byte.x7d]) as Hrest.
  { intros q [m ->]%IH. by exists (b :: m). }
  destruct b; try done; cbn.
  - destruct (unbits bs) as [q|]; [|done]. intros _. by apply (Hrest q).
  - destruct (unbits bs) as [q|]; [|done]. intros _. by apply (Hrest q).
  - destruct bs as [|? ?]; [by exists []|done].
Qed.

Lemma bits_chars p b : b ∈ bits p → b = Byte.x30 ∨ b = Byte.x31.
Proof. induction p as [p IH|p IH|]; cbn; rewrite ?elem_of_cons, ?elem_of_nil; naive_solver. Qed.

Lemma bits_utf8 p : utf8_valid (bits p ++ [Byte.x7d]) = true.
Proof.
  induction p as [p IH|p IH|]; cbn; [..|done].
  all: change (utf8_valid ([Byte.x30] ++ bits p ++ [Byte.x7d]) = true) ||
       change (utf8_valid ([Byte.x31] ++ bits p ++ [Byte.x7d]) = true).
  all: by rewrite utf8_valid_app.
Qed.

#[export] Instance bit_codec `{Countable T} : JsonCodec T := {
  json x := Byte.x7b :: bits (encode x) ++ [Byte.x7d];
  from_json bs :=
    match bs with
    | Byte.x7b :: bs =>
        match unbits bs ≫= decode with Some x => Ok x | None => Err "invalid" end
    | _ => Err "expected `{`"
    end }.

#[export] Instance bit_codec_laws `{Countable T} : JsonCodecLaws T.
Proof.
  split.
  - intros x. cbn. by rewrite unbits_bits; cbn [mbind option_bind]; rewrite decode_encode.
  - intros x. by exists (bits (encode x)).
  - intros x Hin. cbn in Hin. rewrite elem_of_cons, elem_of_app, list_elem_of_singleton in Hin.
    destruct Hin as [|[[|]%bits_chars|]]; done.
  - intros x. change (utf8_valid ([Byte.x7b] ++ bits (encode x) ++ [Byte.x7d]) = true).
    rewrite utf8_valid_app by done. apply bits_utf8.
  - intros x p [k [Hk Heq]]. cbn in Heq. destruct p as [|b p]; [done|].
    injection Heq as <- Heq. cbn. destruct (unbits p) as [q|] eqn:Hp; [|done]. exfalso.
    apply unbits_brace in Hp as [m ->].
    destruct k as [|y k _] using rev_ind; [done|].
    rewrite (assoc_L (++)) in Heq. apply app_inj_tail in Heq as [Heq _].
    assert (Byte.x7d ∈ bits (encode x)) as [|]%bits_chars by (rewrite Heq; set_solver); done.
Qed.
