(* ===== verification/Concrete.v ===== *)
(** * Concrete: a machine to run the model on

    Concrete instances of everything the development is parametric in, and a
    small workspace: the witnesses apply the theorems to runs of the model on
    this machine.  It models no code. *)

From S2P Require Import Prelude Text Protocol World Fs Hash FsSpec Workspace Jsonl Store.
From S2P Require Import StoreSpec FsOps Transfer Recovery Crash Config Exec Server Durability.
From S2P Require Import Codec.

(** A "hash" that shows its argument, and an order of iteration. *)
#[export] Instance sha256_shown : Sha256 := { sha256_hex b := "x" +:+ string_of_list_byte b }.
#[export] Instance sha256_shown_laws : Sha256Laws.
Proof. split. intros b Hb. by apply (f_equal String.length) in Hb. Qed.

#[export] Instance hash_iter_keys : HashIter := { hash_iter A := map_to_list }.
#[export] Instance hash_iter_keys_laws : HashIterLaws.
Proof. by split. Qed.

(** A temporary name longer than every name there is. *)
Fixpoint ts (n : nat) : string := match n with O => "" | S n => String "t" (ts n) end.

Definition total_length (names : list string) : nat :=
  foldr (λ s n, String.length s + n) 0 names.

#[export] Instance tempfile_long : Tempfile := {
  tempfile_name pre suf used := pre +:+ ts (3 + total_length (elements used)) +:+ suf }.

Lemma ts_length n : String.length (ts n) = n.
Proof. induction n as [|n IH]; simpl; congruence. Qed.

Lemma total_length_elem s names : s ∈ names → String.length s ≤ total_length names.
Proof.
  induction names as [|x names IH]; [set_solver|]. intros [->|Hin]%elem_of_cons; simpl; [lia|].
  apply IH in Hin. lia.
Qed.

#[export] Instance tempfile_long_laws : TempfileLaws.
Proof.
  split; intros pre suf used; unfold tempfile_name, tempfile_long.
  - intros Hin%elem_of_elements%total_length_elem.
    rewrite !append_length, !ts_length in Hin. lia.
  - rewrite !elem_of_cons, elem_of_nil.
    intros [Hn|[Hn|[Hn|[]]]]; apply (f_equal String.length) in Hn;
      rewrite !append_length, ts_length in Hn; simpl in Hn; lia.
  - eexists. split; [|done]. by induction (3 + _) as [|n IH].
Qed.

(** No processes, and no configuration file. *)
#[export] Instance no_processes : Processes := {
  spawn _ _ := Err (io.MkError ErrorKind.NotFound "No such file or directory (os error 2)") }.
#[export] Instance empty_config : TomlConfig := { toml_from_str _ := Ok ServerConfig.default }.

(** An environment that leaves every call alone, and one that kills the
    process in the [k]-th. *)
Definition calm : Env := {| env_fault _ := NoFault; env_clock n := (N.of_nat n * 1000000)%N |}.
Definition killing (k : nat) : Env := {|
  env_fault n := if Nat.eqb n k then Kill 5 else NoFault;
  env_clock n := (N.of_nat n * 1000000)%N |}.

#[export] Instance calm_fault_free : @FaultFree calm.
Proof. done. Qed.
#[export] Instance killing_crash_only k : @CrashOnly (killing k).
Proof. intros n j text. cbn. by destruct (Nat.eqb n k). Qed.

(** ** A workspace with one file *)

Definition ws : Workspace := MkWorkspace ["r"] ["s"; "scratch"].

Definition hello : bytes := as_bytes "hello world".
Definition note : path := ["r"; "note.txt"].

Definition tree0 : tree :=
  <[[] := Dir 493 4096]> (<[["r"] := Dir 493 4096]> (<[note := File hello 420 7]>
  (<[["s"] := Dir 493 4096]> (<[["s"; "scratch"] := Dir 493 4096]> ∅)))).

Definition world0 : world := World tree0 ∅ empty_memory 0 [].

Definition srv0 : Server := Server.Mk ws ServerConfig.default None.

Definition name_okb (s : string) : bool := bool_decide (name_ok s).
Definition tree_wfb (t : tree) : bool :=
  is_dir_node (t !! []) &&
  forallb (λ '(p, _), match last p with
                      | None => true
                      | Some s => is_dir_node (t !! removelast p) && name_okb s
                      end) (map_to_list t).

Lemma tree_wfb_ok t : tree_wfb t = true → tree_wf t.
Proof.
  intros [Hd Hall]%andb_true_iff. split; [done|]. intros p s n Hl.
  rewrite forallb_forall in Hall. specialize (Hall (p ++ [s], n)).
  rewrite <- list_elem_of_In, elem_of_map_to_list in Hall. apply Hall in Hl.
  cbn beta iota in Hl. rewrite last_snoc, removelast_last in Hl.
  apply andb_true_iff in Hl as [? ?%bool_decide_eq_true]. done.
Qed.

(** A path of directories is real. *)
Fixpoint realb (t : tree) (p : path) (rest : list string) : bool :=
  match rest with
  | [] => true
  | s :: rest => is_dir_node (t !! p) && name_okb s &&
                 match t !! (p ++ [s]) with
                 | Some (Symlink _) | None => false
                 | Some _ => realb t (p ++ [s]) rest
                 end
  end.

Lemma realb_ok t p rest : real t p → realb t p rest = true → real t (p ++ rest).
Proof.
  revert p. induction rest as [|s rest IH]; intros p Hp Hr; [by rewrite app_nil_r|].
  cbn in Hr. apply andb_true_iff in Hr as [[Hd Hs%bool_decide_eq_true]%andb_true_iff Hr].
  replace (p ++ s :: rest) with ((p ++ [s]) ++ rest) by by rewrite <- (assoc_L (++)).
  destruct (t !! (p ++ [s])) as [n|] eqn:Hl; [|done]. destruct n; try done; (apply IH; [|done]);
    by econstructor.
Qed.

Lemma tree0_wf : tree_wf tree0.
Proof. by apply tree_wfb_ok. Qed.

Lemma ws_tree0 : ws_canonical tree0 ws.
Proof.
  split; apply (realb_ok tree0 []); (done || by constructor).
Qed.

Lemma world0_quiet : quiet 0 world0 [] [].
Proof.
  split; try done; [by left|]. intros r Hr. set_solver.
Qed.
