(* ===== verification/ClientApi.v ===== *)
(** * ClientApi: the calls a client makes

    Models the call wrappers of [crates/agent-remote-client/src/lib.rs]: the
    error type, the unpacking of an answer, and one function per kind of
    request.  The exchange of a request for its answer is the interface
    [Connection], which the wrappers are written against; [ClientConn.v]
    models the connection that provides it, and [Agreement.v] shows that the
    server's answers are those the wrappers expect. *)

From S2P Require Import Prelude Text Protocol World.

Module ClientError.
Inductive ClientError :=
| Server (e : ProtocolError)
| Io (e : io.Error)
| Closed
| Timeout
| Serde (text : string)
| Transfer (text : string).

(** The [#[error]] texts. *)
Definition display (e : ClientError) : string :=
  match e with
  | Server e => "protocol error from server: " +:+ ProtocolError.display e
  | Io e => "transport io error: " +:+ io.to_string e
  | Closed => "server closed connection"
  | Timeout => "request timed out"
  | Serde text => "serde error: " +:+ text
  | Transfer text => "transfer failed: " +:+ text
  end.
End ClientError.
Abbreviation ClientError := ClientError.ClientError.

(** In milliseconds: two minutes, and the server's own default for [exec]. *)
Definition DEFAULT_REQUEST_TIMEOUT : N := 120 * 1000.
Definition DEFAULT_EXEC_TIMEOUT_MS : N := 5 * 60 * 1000.

(** One request for its answer, within a time limit: what
    [send_request_with_timeout] provides. *)
Class Connection := {
  send_request_with_timeout : RequestBody → N → M ClientError (string * ServerMessage) }.

(** [Client::unpack]. *)
Definition unpack (msg : ServerMessage) : result ClientError ResultBody :=
  match msg with
  | ServerMessage.Result _ r => Ok r
  | ServerMessage.Error _ e => Err (ClientError.Server e)
  end.

Definition unexpected (what : string) : ClientError :=
  ClientError.Server (ProtocolError.new InvalidRequest ("unexpected result body for " +:+ what)).

Module Client.
Section calls.
Context `{Connection}.

Definition send_request (body : RequestBody) : M ClientError (string * ServerMessage) :=
  send_request_with_timeout body DEFAULT_REQUEST_TIMEOUT.

Definition list_ (path : string) (offset limit : option N)
    : M ClientError ListResult :=
  '(_, msg) ← send_request (RequestBody.List path offset limit);
  body ← lift (unpack msg);
  match body with
  | ResultBody.List r => mret r
  | _ => raise (unexpected "list")
  end.

Definition stat_ (path : string)
    : M ClientError FileEntry :=
  '(_, msg) ← send_request (RequestBody.Stat path);
  body ← lift (unpack msg);
  match body with
  | ResultBody.Stat r => mret r
  | _ => raise (unexpected "stat")
  end.

Definition read_ (path : string) (offset limit : option N)
    : M ClientError ReadResult :=
  '(_, msg) ← send_request (RequestBody.Read path offset limit);
  body ← lift (unpack msg);
  match body with
  | ResultBody.Read r => mret r
  | _ => raise (unexpected "read")
  end.

Definition create_ (path content : string)
    : M ClientError MutationResult :=
  '(_, msg) ← send_request (RequestBody.Create path content);
  body ← lift (unpack msg);
  match body with
  | ResultBody.Mutation r => mret r
  | _ => raise (unexpected "create")
  end.

Definition edit_ (path base_hash old_text new_text : string) (replace_all : bool)
    : M ClientError MutationResult :=
  '(_, msg) ← send_request (RequestBody.Edit path base_hash old_text new_text replace_all);
  body ← lift (unpack msg);
  match body with
  | ResultBody.Mutation r => mret r
  | _ => raise (unexpected "edit")
  end.

Definition delete_ (path : string)
    : M ClientError MutationResult :=
  '(_, msg) ← send_request (RequestBody.Delete path);
  body ← lift (unpack msg);
  match body with
  | ResultBody.Mutation r => mret r
  | _ => raise (unexpected "delete")
  end.

(** An exec waits for the server's time limit and half a minute more. *)
Definition exec_ (argv : list string) (cwd profile : option string) (timeout_ms : option N)
    : M ClientError ExecResult :=
  let wait := saturating_add (default DEFAULT_EXEC_TIMEOUT_MS timeout_ms) 30000 in
  '(_, msg) ← send_request_with_timeout (RequestBody.Exec argv cwd profile timeout_ms) wait;
  body ← lift (unpack msg);
  match body with
  | ResultBody.Exec r => mret r
  | _ => raise (unexpected "exec")
  end.

Definition upload_prepare (path : string) (overwrite : bool)
    : M ClientError UploadPrepareResult :=
  '(_, msg) ← send_request (RequestBody.UploadPrepare path overwrite);
  body ← lift (unpack msg);
  match body with
  | ResultBody.UploadPrepare r => mret r
  | _ => raise (unexpected "upload_prepare")
  end.

Definition upload_commit (transfer_id : string) (size : N) (sha256 : string) (duration_ms : N)
    : M ClientError TransferResult :=
  '(_, msg) ← send_request (RequestBody.UploadCommit transfer_id size sha256 duration_ms);
  body ← lift (unpack msg);
  match body with
  | ResultBody.Transfer r => mret r
  | _ => raise (unexpected "upload_commit")
  end.

Definition upload_abort (transfer_id : string)
    : M ClientError unit :=
  '(_, msg) ← send_request (RequestBody.UploadAbort transfer_id);
  body ← lift (unpack msg);
  match body with
  | ResultBody.UploadAbort _ => mret tt
  | _ => raise (unexpected "upload_abort")
  end.

Definition download_record (path : string) (size : N) (sha256 : string) (duration_ms : N)
    : M ClientError TransferResult :=
  '(_, msg) ← send_request (RequestBody.DownloadRecord path size sha256 duration_ms);
  body ← lift (unpack msg);
  match body with
  | ResultBody.Transfer r => mret r
  | _ => raise (unexpected "download_record")
  end.

Definition undo_ (operation_id : string)
    : M ClientError UndoResult :=
  '(_, msg) ← send_request (RequestBody.Undo operation_id);
  body ← lift (unpack msg);
  match body with
  | ResultBody.Undo r => mret r
  | _ => raise (unexpected "undo")
  end.

Definition history_ (limit : option N)
    : M ClientError (list AnyOperationRecord) :=
  '(_, msg) ← send_request (RequestBody.History limit);
  body ← lift (unpack msg);
  match body with
  | ResultBody.History r => mret r
  | _ => raise (unexpected "history")
  end.

Definition operation_get (operation_id : string)
    : M ClientError OperationDetails :=
  '(_, msg) ← send_request (RequestBody.OperationGet operation_id);
  body ← lift (unpack msg);
  match body with
  | ResultBody.Operation r => mret r
  | _ => raise (unexpected "operation_get")
  end.

Definition gc (keep : option N)
    : M ClientError GcResult :=
  '(_, msg) ← send_request (RequestBody.Gc keep);
  body ← lift (unpack msg);
  match body with
  | ResultBody.Gc r => mret r
  | _ => raise (unexpected "gc")
  end.

Definition request_status (target : string)
    : M ClientError RequestStatusResult :=
  '(_, msg) ← send_request (RequestBody.RequestStatus target);
  body ← lift (unpack msg);
  match body with
  | ResultBody.RequestStatus r => mret r
  | _ => raise (unexpected "request_status")
  end.

End calls.
End Client.
