(* ===== verification/Agreement.v ===== *)
(** * Agreement: the two ends speak the same protocol

    A request that is answered with a result is answered with the kind of
    result the client's call for it expects; so the client's "unexpected
    result body" is never reached by an answer of this server to a new
    request.  The server's side is proved of [Server.v], the client's calls
    are proved against the interface [Connection] with that promise as its
    law, and a connection straight to the server discharges it. *)

From S2P Require Import Prelude Text Protocol World Fs Hash Workspace Jsonl Store StoreSpec.
From S2P Require Import FsOps Undo Prune Transfer Recovery Config Exec Server ServerSpec.
From S2P Require Import ClientApi.

(** The kinds of result that answer a request. *)
Definition expected (b : RequestBody) (r : ResultBody) : bool :=
  match b, r with
  | RequestBody.List _ _ _, ResultBody.List _
  | RequestBody.Stat _, ResultBody.Stat _
  | RequestBody.Read _ _ _, ResultBody.Read _
  | RequestBody.Create _ _, ResultBody.Mutation _
  | RequestBody.Edit _ _ _ _ _, ResultBody.Mutation _
  | RequestBody.Exec _ _ _ _, ResultBody.Exec _
  | RequestBody.Delete _, ResultBody.Mutation _
  | RequestBody.Undo _, ResultBody.Undo _
  | RequestBody.UploadPrepare _ _, ResultBody.UploadPrepare _
  | RequestBody.UploadCommit _ _ _ _, ResultBody.Transfer _
  | RequestBody.UploadAbort _, ResultBody.UploadAbort _
  | RequestBody.DownloadRecord _ _ _ _, ResultBody.Transfer _
  | RequestBody.History _, ResultBody.History _
  | RequestBody.OperationGet _, ResultBody.Operation _
  | RequestBody.RequestStatus _, ResultBody.RequestStatus _
  | RequestBody.Gc _, ResultBody.Gc _ => true
  | _, _ => false
  end.

Definition agrees (b : RequestBody) (msg : ServerMessage) : Prop :=
  match msg with
  | ServerMessage.Result _ r => expected b r = true
  | ServerMessage.Error _ _ => True
  end.

(** ** The server's side *)

Section server_side.
Context `{Env} `{Sha256} `{HashIter} `{Tempfile} `{Processes} `{TomlConfig}
        `{JsonCodec AnyOperationRecord} `{JsonCodec RequestLogLine}.

(** When the computation returns, [P] holds of the value. *)
Definition returns {E A} (P : A → Prop) (m : M E A) : Prop :=
  ∀ w, wp m w (λ o _, match o with Returned a => P a | _ => True end).

Lemma returns_ret {E A} (P : A → Prop) (a : A) : P a → returns (E := E) P (mret a).
Proof. by intros HP w. Qed.

Lemma returns_raise {E A} (P : A → Prop) (e : E) : returns P (raise (A := A) e).
Proof. by intros w. Qed.

Lemma returns_bind {E A B} (P : B → Prop) (m : M E A) (k : A → M E B) :
  (∀ a, returns P (k a)) → returns P (m ≫= k).
Proof.
  intros Hk w. apply wp_bind. unfold wp at 1. destruct (m w) as [[a|e|] w']; cbn; [apply Hk|done..].
Qed.

Lemma returns_lift {E A} (P : A → Prop) (r : result E A) :
  (∀ a, r = Ok a → P a) → returns P (lift r).
Proof. intros HP w. apply wp_lift; auto. Qed.

Ltac returns_go :=
  repeat first
    [ apply returns_raise
    | apply returns_ret; done
    | apply returns_bind; intros ?
    | match goal with
      | |- returns _ (match ?x with _ => _ end) => destruct x
      | |- returns _ (if ?x then _ else _) => destruct x
      | |- returns _ (let '_ := ?x in _) => destruct x
      end ].

Lemma list_returns ws p o l : returns (λ r, expected (RequestBody.List p o l) r = true) (list_ ws p o l).
Proof. unfold list_. returns_go. Qed.
Lemma stat_returns ws p : returns (λ r, expected (RequestBody.Stat p) r = true) (stat ws p).
Proof. unfold stat. returns_go. Qed.
Lemma read_returns ws p o l : returns (λ r, expected (RequestBody.Read p o l) r = true) (read ws p o l).
Proof. unfold read. returns_go. Qed.
Lemma create_returns ws rid p c : returns (λ r, expected (RequestBody.Create p c) r = true) (create ws rid p c).
Proof. unfold create. returns_go. Qed.
Lemma edit_returns ws rid p h o n all :
  returns (λ r, expected (RequestBody.Edit p h o n all) r = true) (edit ws rid p h o n all).
Proof. unfold edit. returns_go. Qed.
Lemma delete_returns ws rid p : returns (λ r, expected (RequestBody.Delete p) r = true) (delete_ ws rid p).
Proof. unfold delete_. returns_go. Qed.
Lemma undo_returns ws rid id :
  returns (λ r, expected (RequestBody.Undo id) r = true) (handle_undo ws rid id).
Proof. unfold handle_undo, undo. returns_go. Qed.
Lemma upload_prepare_returns ws p o :
  returns (λ r, expected (RequestBody.UploadPrepare p o) r = true) (upload_prepare ws p o).
Proof. unfold upload_prepare. returns_go. Qed.
Lemma upload_commit_returns rid id n h d :
  returns (λ r, expected (RequestBody.UploadCommit id n h d) r = true) (upload_commit rid id n h d).
Proof. unfold upload_commit. returns_go. Qed.
Lemma upload_abort_returns id :
  returns (λ r, expected (RequestBody.UploadAbort id) r = true) (upload_abort id).
Proof. unfold upload_abort. returns_go. Qed.
Lemma download_record_returns ws rid p n h d :
  returns (λ r, expected (RequestBody.DownloadRecord p n h d) r = true) (download_record ws rid p n h d).
Proof. unfold download_record. returns_go. Qed.
Lemma history_returns l : returns (λ r, expected (RequestBody.History l) r = true) (handle_history l).
Proof. unfold handle_history. returns_go. Qed.
Lemma operation_get_returns id :
  returns (λ r, expected (RequestBody.OperationGet id) r = true) (handle_operation_get id).
Proof. unfold handle_operation_get. returns_go. Qed.
Lemma gc_returns srv keep : returns (λ r, expected (RequestBody.Gc keep) r = true) (handle_gc srv keep).
Proof. unfold handle_gc. returns_go. Qed.

(** Recording a result does not change its kind. *)
Lemma agrees_finish b rid r w :
  (∀ body, r = Ok body → expected b body = true) →
  wp (finish_ rid r) w (λ o _, match o with Returned msg => agrees b msg | _ => True end).
Proof.
  intros Hr. unfold finish_, finish_err. destruct r as [body|e]; apply wp_bind, wp_attempt;
    match goal with |- wp ?m ?w _ => unfold wp at 1; destruct (m w) as [[a|e'|] w'] end; cbn; try done.
  by apply Hr.
Qed.

Lemma agrees_finishing b rid h :
  returns (λ r, expected b r = true) h → returns (agrees b) (finishing rid h).
Proof.
  intros Hh w. unfold finishing. apply wp_bind, wp_attempt. eapply wp_mono; [|apply Hh].
  intros [a|e|] w' Ha; [apply agrees_finish; by intros ? [= <-]|by apply agrees_finish|done].
Qed.

Lemma agrees_exec srv rid argv cwd profile timeout_ms :
  returns (agrees (RequestBody.Exec argv cwd profile timeout_ms))
    (handle_exec srv rid argv cwd profile timeout_ms).
Proof. unfold handle_exec. returns_go. Qed.

Lemma agrees_dispatch srv rid b : returns (agrees b) (dispatch srv rid b).
Proof.
  destruct b; cbn [dispatch]; try apply agrees_exec; apply agrees_finishing;
    eauto using list_returns, stat_returns, read_returns, create_returns, edit_returns,
      delete_returns, undo_returns, upload_prepare_returns, upload_commit_returns,
      upload_abort_returns, download_record_returns, history_returns, operation_get_returns,
      gc_returns.
  returns_go.
Qed.

Lemma claim_request_new rid op w Φ :
  requests (w_mem w) !! rid = None →
  (∀ w', Φ (Returned None) w') → (∀ e w', Φ (Raised e) w') → (∀ w', Φ Killed w') →
  wp (claim_request rid op) w Φ.
Proof.
  intros Hn HR HE HK. unfold claim_request. apply wp_bind, wp_get_mem. rewrite Hn.
  apply wp_bind, append_request_line_mem. intros [a|e|] w' Hm; [|apply HE|apply HK].
  apply wp_bind, wp_get_mem. rewrite Hm, Hn. apply wp_bind, wp_put_mem, wp_ret, HR.
Qed.

(** The server answers a new request with the kind of result it asks for. *)
Lemma handle_agrees srv req w :
  requests (w_mem w) !! Request.request_id req = None →
  wp (handle srv req) w (λ o _, match o with
    | Returned msg => ServerMessage.request_id msg = Request.request_id req ∧
                      agrees (Request.body req) msg
    | Raised _ => False | Killed => True end).
Proof.
  intros Hn. destruct (claims (Request.body req)) eqn:Hc.
  - rewrite handle_claims by done. unfold claim_and_dispatch. apply wp_bind, wp_attempt.
    apply claim_request_new; [done|..]; [intros w'|by intros e w'; apply wp_ret|done].
    generalize (yields_dispatch srv (Request.request_id req) (Request.body req) w'),
      (agrees_dispatch srv (Request.request_id req) (Request.body req) w').
    unfold wp. by destruct (dispatch _ _ _ w') as [[a|e|] w''].
  - assert (∀ h, returns (λ r, expected (Request.body req) r = true) h →
      wp (r ← attempt h; mret (message_of (Request.request_id req) r) : M ProtocolError _) w
        (λ o _, match o with
          | Returned msg => ServerMessage.request_id msg = Request.request_id req ∧
                            agrees (Request.body req) msg
          | Raised _ => False | Killed => True end)) as Hup.
    { intros h Hh. apply wp_bind, wp_attempt. eapply wp_mono; [|apply Hh].
      intros [a|e|] w' Ha; [by apply wp_ret|by apply wp_ret|done]. }
    unfold handle. destruct (Request.body req); try done; apply Hup;
      [apply upload_prepare_returns|apply upload_abort_returns].
Qed.
End server_side.

(** ** The client's side *)

(** What the client's calls rely on: an answer is of the kind the request
    asks for. *)
Class ConnectionLaws `{Connection} := {
  exchange_agrees body timeout w :
    wp (send_request_with_timeout body timeout) w
      (λ o _, match o with Returned (_, msg) => agrees body msg | _ => True end) }.

(** The call hands out what the exchange brings: the value of the result, the
    server's error, or the failure of the exchange. *)
Definition delivers `{Connection} {A} (call : M ClientError A) (body : RequestBody) (timeout : N)
    (inj : A → ResultBody → Prop) : Prop :=
  ∀ w, match send_request_with_timeout body timeout w with
       | (Returned (_, ServerMessage.Result _ r), w') => ∃ a, call w = (Returned a, w') ∧ inj a r
       | (Returned (_, ServerMessage.Error _ e), w') => call w = (Raised (ClientError.Server e), w')
       | (Raised e, w') => call w = (Raised e, w')
       | (Killed, w') => call w = (Killed, w')
       end.

Section client_side.
Context `{ConnectionLaws}.

Ltac call_delivers :=
  match goal with
  | |- delivers _ ?body ?timeout _ =>
      intros w; generalize (exchange_agrees body timeout w);
      unfold wp, Client.list_, Client.stat_, Client.read_, Client.create_, Client.edit_,
        Client.delete_, Client.exec_, Client.upload_prepare, Client.upload_commit,
        Client.upload_abort, Client.download_record, Client.undo_, Client.history_,
        Client.operation_get, Client.gc, Client.request_status, Client.send_request, mbind, M_bind;
      destruct (send_request_with_timeout body timeout w) as [[[rid [rid' r|rid' e]]|e|] w'];
      cbn; [destruct r; intros Hr; try done; eexists; (split; [reflexivity|first [reflexivity|by eexists]])|done..]
  end.

(** C31: the client's calls.  Over any connection whose answers are of the
    kind the request asks for, each of the sixteen calls returns the value in
    the answer, the server's error, or the failure of the exchange; none ever
    reports an unexpected result body. *)
Theorem calls_deliver :
  (∀ p o l, delivers (Client.list_ p o l) (RequestBody.List p o l) DEFAULT_REQUEST_TIMEOUT
     (λ a r, r = ResultBody.List a)) ∧
  (∀ p, delivers (Client.stat_ p) (RequestBody.Stat p) DEFAULT_REQUEST_TIMEOUT
     (λ a r, r = ResultBody.Stat a)) ∧
  (∀ p o l, delivers (Client.read_ p o l) (RequestBody.Read p o l) DEFAULT_REQUEST_TIMEOUT
     (λ a r, r = ResultBody.Read a)) ∧
  (∀ p c, delivers (Client.create_ p c) (RequestBody.Create p c) DEFAULT_REQUEST_TIMEOUT
     (λ a r, r = ResultBody.Mutation a)) ∧
  (∀ p h o n all, delivers (Client.edit_ p h o n all) (RequestBody.Edit p h o n all)
     DEFAULT_REQUEST_TIMEOUT (λ a r, r = ResultBody.Mutation a)) ∧
  (∀ p, delivers (Client.delete_ p) (RequestBody.Delete p) DEFAULT_REQUEST_TIMEOUT
     (λ a r, r = ResultBody.Mutation a)) ∧
  (∀ argv cwd prof t, delivers (Client.exec_ argv cwd prof t) (RequestBody.Exec argv cwd prof t)
     (saturating_add (default DEFAULT_EXEC_TIMEOUT_MS t) 30000) (λ a r, r = ResultBody.Exec a)) ∧
  (∀ p o, delivers (Client.upload_prepare p o) (RequestBody.UploadPrepare p o)
     DEFAULT_REQUEST_TIMEOUT (λ a r, r = ResultBody.UploadPrepare a)) ∧
  (∀ id n h d, delivers (Client.upload_commit id n h d) (RequestBody.UploadCommit id n h d)
     DEFAULT_REQUEST_TIMEOUT (λ a r, r = ResultBody.Transfer a)) ∧
  (∀ id, delivers (Client.upload_abort id) (RequestBody.UploadAbort id) DEFAULT_REQUEST_TIMEOUT
     (λ _ r, ∃ id', r = ResultBody.UploadAbort id')) ∧
  (∀ p n h d, delivers (Client.download_record p n h d) (RequestBody.DownloadRecord p n h d)
     DEFAULT_REQUEST_TIMEOUT (λ a r, r = ResultBody.Transfer a)) ∧
  (∀ id, delivers (Client.undo_ id) (RequestBody.Undo id) DEFAULT_REQUEST_TIMEOUT
     (λ a r, r = ResultBody.Undo a)) ∧
  (∀ l, delivers (Client.history_ l) (RequestBody.History l) DEFAULT_REQUEST_TIMEOUT
     (λ a r, r = ResultBody.History a)) ∧
  (∀ id, delivers (Client.operation_get id) (RequestBody.OperationGet id) DEFAULT_REQUEST_TIMEOUT
     (λ a r, r = ResultBody.Operation a)) ∧
  (∀ keep, delivers (Client.gc keep) (RequestBody.Gc keep) DEFAULT_REQUEST_TIMEOUT
     (λ a r, r = ResultBody.Gc a)) ∧
  (∀ id, delivers (Client.request_status id) (RequestBody.RequestStatus id) DEFAULT_REQUEST_TIMEOUT
     (λ a r, r = ResultBody.RequestStatus a)).
Proof. split_and!; intros; call_delivers. Qed.
End client_side.

(** ** A client linked to the server *)

Section linked.
Context `{Env} `{Sha256} `{HashIter} `{Tempfile} `{Processes} `{TomlConfig}
        `{JsonCodec AnyOperationRecord} `{JsonCodec RequestLogLine}.

(** C30: the server keeps to the protocol.  A request with an id the server
    has not seen is answered, unless the process dies, with a message that
    carries its id and is either an error or the kind of result that belongs
    to the request. *)
Theorem answers_agree srv req w :
  requests (w_mem w) !! Request.request_id req = None →
  match handle srv req w with
  | (Returned msg, _) => ServerMessage.request_id msg = Request.request_id req ∧
                         agrees (Request.body req) msg
  | (Raised _, _) => False
  | (Killed, _) => True
  end.
Proof.
  intros Hn. generalize (handle_agrees srv req w Hn). unfold wp.
  by destruct (handle srv req w) as [[msg|e|] w'].
Qed.

(** The exchange of a request with a server in the same world, under an id
    the server has not seen; a dead server is a closed connection. *)
Context (next_request_id : world → string).
Context (Hfresh : ∀ w, requests (w_mem w) !! next_request_id w = None).

Definition linked (srv : Server) : Connection := {|
  send_request_with_timeout body _ := λ w,
    let rid := next_request_id w in
    match handle srv (Request.Mk rid body) w with
    | (Returned msg, w') => (Returned (rid, msg), w')
    | (Raised _, w') | (Killed, w') => (Raised ClientError.Closed, w')
    end |}.

Lemma linked_laws srv : ConnectionLaws (H:=linked srv).
Proof.
  split. intros body timeout w. unfold wp. cbn.
  generalize (handle_agrees srv (Request.Mk (next_request_id w) body) w (Hfresh w)). unfold wp.
  destruct (handle _ _ _) as [[msg|e|] w']; cbn; naive_solver.
Qed.
End linked.
