(* ===== verification/ClientTransfer.v ===== *)
(** * ClientTransfer: endpoints, uploads and downloads from the client's side

    Models [crates/agent-remote-client/src/transfer.rs]: the command lines of
    an endpoint, the upload driver (prepare, stream into a receiver process,
    cross-check, commit or abort) and the download driver (stream from a
    sender process into a temporary file, check, install, record).

    The child processes and what the local source yields are parameters; the
    exchange with the server is [ClientApi.Connection].  [DownloadSpec.v] and
    [UploadSpec.v] prove what the drivers promise. *)

From S2P Require Import Prelude Text Protocol World Fs Hash Workspace Jsonl FsOps Transfer Exec.
From S2P Require Import ClientApi.

(** ** Command lines *)

(** [shell_quote] of [lib.rs]. *)
Definition shell_quote (s : string) : string :=
  if decide (s = "") then "''" else "'" +:+ escape_quotes s +:+ "'".

(** [ssh_argv]. *)
Definition ssh_argv (host : string) (remote : list string) : list string :=
  let cmd := String.concat " " (shell_quote <$> remote) in
  ["ssh"; "-o"; "BatchMode=yes"; "-o"; "ServerAliveInterval=30"; "-o"; "ServerAliveCountMax=4";
   host; cmd].

Module Endpoint.
Inductive Endpoint :=
| Local (server_bin root : string) (state_base config : option string)
| Ssh (host remote_bin root : string) (state_base config : option string).

(** [if let Some(x) = option { argv.push(flag); argv.push(x) }]. *)
Definition push_option (flag : string) (o : option string) : list string :=
  match o with Some x => [flag; x] | None => [] end.

Definition control_command (bin root : string) (state_base config : option string) : list string :=
  [bin; "--root"; root] ++ push_option "--config" config ++ push_option "--state-base" state_base.

Definition control_argv (e : Endpoint) : list string :=
  match e with
  | Local server_bin root state_base config => control_command server_bin root state_base config
  | Ssh host remote_bin root state_base config =>
      ssh_argv host (control_command remote_bin root state_base config)
  end.

Definition receive_command (bin staging_path : string) (expect_size : N) : list string :=
  [bin; "--transfer-receive"; staging_path; "--expect-size"; pretty expect_size].

Definition transfer_receive_argv (e : Endpoint) (staging_path : string) (expect_size : N)
    : list string :=
  match e with
  | Local server_bin _ _ _ => receive_command server_bin staging_path expect_size
  | Ssh host remote_bin _ _ _ => ssh_argv host (receive_command remote_bin staging_path expect_size)
  end.

Definition send_command (bin remote_path root : string) (state_base : option string) : list string :=
  [bin; "--transfer-send"; remote_path; "--root"; root] ++ push_option "--state-base" state_base.

Definition transfer_send_argv (e : Endpoint) (remote_path : string) : list string :=
  match e with
  | Local server_bin root state_base _ => send_command server_bin remote_path root state_base
  | Ssh host remote_bin root state_base _ =>
      ssh_argv host (send_command remote_bin remote_path root state_base)
  end.
End Endpoint.
Abbreviation Endpoint := Endpoint.Endpoint.

(** The binary that is this program, on the machine of the endpoint. *)
Definition endpoint_bin (e : Endpoint) : string :=
  match e with Endpoint.Local b _ _ _ | Endpoint.Ssh _ b _ _ _ => b end.

Definition transfer_err (msg : string) : ClientError := ClientError.Transfer msg.

(** ** Child processes *)

(** [std::process::ExitStatus]: whether it is a success, and its text. *)
Record ExitStatus := MkExit { success : bool; status_text : string }.

(** The receiver of an upload, from the side of its standard input; [sent]
    is what was written before.  Its effects are on the server's machine. *)
Class ReceiverProcess := {
  receiver_spawn : list string → result io.Error unit;
  receiver_write (argv : list string) (sent chunk : bytes) : result io.Error unit;
  receiver_close (argv : list string) (sent : bytes) : result io.Error unit;
  (** after the end of its input: its output, and how it exits *)
  receiver_finish (argv : list string) (sent : bytes)
    : M ClientError (result io.Error bytes * result io.Error ExitStatus);
  receiver_kill (argv : list string) (sent : bytes) : M ClientError unit }.

(** The sender of a download: the reads of its standard output, and its exit. *)
Record SenderRun := MkSender {
  sender_reads : list (result io.Error bytes);
  sender_exit : result io.Error ExitStatus }.
Class SenderProcess := { sender_spawn : list string → result io.Error SenderRun }.

(** ** Uploading *)

(** What the local source yields during an upload. *)
Record LocalSource := MkSource {
  source_path : string;
  source_metadata : result io.Error node;
  source_open : result io.Error unit;
  source_reads : list (result io.Error bytes) }.   (* at most [TRANSFER_BUF_SIZE] each *)

(** [String::from_utf8] on what [read_to_string] or [read_line] has read. *)
Definition not_utf8 : io.Error :=
  io.MkError ErrorKind.Other "stream did not contain valid UTF-8".
Definition utf8_or (bs : bytes) : result io.Error bytes :=
  if utf8_valid bs then Ok bs else Err not_utf8.

Section upload.
Context `{Sha256} `{JsonCodec ReceiveMetadata.ReceiveMetadata} `{Connection} `{ReceiverProcess}.

(** The loop of [stream_to_receiver]: what was sent, and how it ended. *)
Fixpoint stream_loop (argv : list string) (reads : list (result io.Error bytes)) (sent : bytes)
    : bytes * result ClientError unit :=
  match reads with
  | [] | Ok [] :: _ => (sent, Ok tt)
  | Ok chunk :: reads' =>
      match receiver_write argv sent chunk with
      | Ok _ => stream_loop argv reads' (sent ++ chunk)
      | Err e => (sent, Err (transfer_err ("write to receiver: " +:+ io.to_string e)))
      end
  | Err e :: _ => (sent, Err (transfer_err ("read local source: " +:+ io.to_string e)))
  end.

(** The whole [stream_result] block. *)
Definition stream_source (argv : list string) (reads : list (result io.Error bytes)) (size : N)
    : bytes * result ClientError unit :=
  let '(sent, r) := stream_loop argv reads [] in
  (sent,
   _ ← r;
   if negb (bool_decide (lenN sent = size)) then
     Err (transfer_err ("local file changed size during upload: sent " +:+ pretty (lenN sent)
            +:+ " bytes, expected " +:+ pretty size))
   else map_err (λ e, transfer_err ("close receiver stdin: " +:+ io.to_string e))
          (receiver_close argv sent)).

(** What the receiver says it received. *)
Definition receiver_metadata (out : bytes) : result ClientError ReceiveMetadata.ReceiveMetadata :=
  map_err (λ e, transfer_err ("invalid receiver metadata "
                  +:+ debug_name (string_of_list_byte out) +:+ ": " +:+ e))
    (from_json (trim out)).

Definition stream_to_receiver (endpoint : Endpoint) (src : LocalSource) (size : N)
    (staging_path : string) : M ClientError string :=
  let argv := Endpoint.transfer_receive_argv endpoint staging_path size in
  lift (map_err (λ e, transfer_err ("spawn transfer receiver: " +:+ io.to_string e))
          (receiver_spawn argv)) ;;
  match source_open src with
  | Err e =>
      (* the child is dropped, and killed with that *)
      receiver_kill argv [] ;;
      raise (transfer_err ("open local source " +:+ debug_name (source_path src) +:+ ": "
                             +:+ io.to_string e))
  | Ok _ =>
      let '(sent, r) := stream_source argv (source_reads src) size in
      match r with
      | Err e => receiver_kill argv sent ;; raise e
      | Ok _ =>
          '(out, status) ← receiver_finish argv sent;
          out ← lift (map_err (λ e, transfer_err ("read receiver metadata: " +:+ io.to_string e))
                        (out ≫= utf8_or));
          status ← lift (map_err (λ e, transfer_err ("wait for receiver: " +:+ io.to_string e))
                           status);
          if negb (success status) then
            raise (transfer_err ("transfer receiver failed with " +:+ status_text status))
          else
            remote ← lift (receiver_metadata out);
            let local_sha := hash_bytes sent in
            if negb (bool_decide (ReceiveMetadata.size remote = size)
                     && bool_decide (ReceiveMetadata.sha256 remote = local_sha)) then
              raise (transfer_err ("upload verification failed: local " +:+ pretty size +:+ " bytes "
                +:+ local_sha +:+ ", remote " +:+ pretty (ReceiveMetadata.size remote)
                +:+ " bytes " +:+ ReceiveMetadata.sha256 remote))
            else mret local_sha
      end
  end.

Definition abort_after (transfer_id : string) (err : ClientError) : M ClientError ClientError :=
  r ← attempt (Client.upload_abort transfer_id);
  mret (match r with
        | Ok _ => err
        | Err abort_err =>
            transfer_err (ClientError.display err
              +:+ "; additionally, cleaning up the staged upload failed: "
              +:+ ClientError.display abort_err)
        end).

(** [upload_file]; [duration_ms] is the clock's. *)
Definition upload_file (endpoint : Endpoint) (src : LocalSource) (remote_path : string)
    (overwrite : bool) (duration_ms : N) : M ClientError TransferResult :=
  meta ← lift (map_err (λ e, transfer_err ("cannot stat local source "
                +:+ debug_name (source_path src) +:+ ": " +:+ io.to_string e))
                (source_metadata src));
  if negb (is_file_node meta) then
    raise (transfer_err ("local source is not a regular file: " +:+ debug_name (source_path src)))
  else
    let size := node_len meta in
    prep ← Client.upload_prepare remote_path overwrite;
    let id := UploadPrepareResult.transfer_id prep in
    streamed ← attempt (stream_to_receiver endpoint src size (UploadPrepareResult.staging_path prep));
    match streamed with
    | Err e => e' ← abort_after id e; raise e'
    | Ok sha256 =>
        committed ← attempt (Client.upload_commit id size sha256 duration_ms);
        match committed with
        | Ok result => mret result
        | Err e => e' ← abort_after id e; raise e'
        end
    end.
End upload.

(** ** Reading the sender's output *)

(** A [BufReader]: the bytes it holds, and the reads still to come.  An empty
    read, or the end of the list, is the end of the stream. *)
Record reader := MkReader { held : bytes; coming : list (result io.Error bytes) }.

(** The bytes up to and with the first newline, and those after it. *)
Fixpoint split_line (bs : bytes) : option (bytes * bytes) :=
  match bs with
  | [] => None
  | b :: bs' =>
      if bool_decide (b = nl) then Some ([b], bs')
      else '(l, r) ← split_line bs'; Some (b :: l, r)
  end.

(** [read_line]: up to a newline or the end of the stream. *)
Fixpoint read_until (acc held : bytes) (coming : list (result io.Error bytes))
    : result io.Error (bytes * reader) :=
  match split_line held with
  | Some (l, r) => Ok (acc ++ l, MkReader r coming)
  | None =>
      match coming with
      | [] => Ok (acc ++ held, MkReader [] [])
      | Ok [] :: _ => Ok (acc ++ held, MkReader [] [])
      | Ok chunk :: coming' => read_until (acc ++ held) chunk coming'
      | Err e :: _ => Err e
      end
  end.
Definition read_line (r : reader) : result io.Error (bytes * reader) :=
  '(l, r') ← read_until [] (held r) (coming r);
  l ← utf8_or l;
  Ok (l, r').

(** [read] into a buffer of [want] bytes. *)
Definition read_some (want : nat) (r : reader) : result io.Error (bytes * reader) :=
  match held r with
  | [] =>
      match coming r with
      | [] => Ok ([], r)
      | Ok [] :: _ => Ok ([], MkReader [] [])
      | Ok chunk :: coming' => Ok (take want chunk, MkReader (drop want chunk) coming')
      | Err e :: _ => Err e
      end
  | _ => Ok (take want (held r), MkReader (drop want (held r)) (coming r))
  end.

(** How many bytes the stream can still yield; a round of the receiving loop
    takes at least one, so this many rounds are enough. *)
Definition yield_bound (r : reader) : nat :=
  length (held r)
  + foldr (λ x n, match x with Ok bs => length bs | Err _ => 0 end + n) 0 (coming r).

(** ** Downloading *)

Section download.
Context `{Env} `{Tempfile} `{Sha256}.
Context `{JsonCodec SendHeader.SendHeader} `{JsonCodec SendTrailer.SendTrailer}.

(** The receiving loop of [receive_stream], on the temporary file. *)
Fixpoint receive_bytes (fuel : nat) (tmp : path) (size remaining : N) (r : reader) (got : bytes)
    : M ClientError (bytes * reader) :=
  match fuel with
  | O => mret (got, r)
  | S fuel' =>
      if bool_decide (remaining = 0%N) then mret (got, r)
      else
        let want := N.to_nat (N.min remaining TRANSFER_BUF_SIZE) in
        '(chunk, r') ← lift (map_err (λ e, transfer_err ("read file bytes: " +:+ io.to_string e))
                              (read_some want r));
        if bool_decide (chunk = []) then
          raise (transfer_err ("sender stream ended early: " +:+ pretty remaining +:+ " of "
                                 +:+ pretty size +:+ " bytes missing"))
        else
          map_raise (λ e, transfer_err ("write local temp file: " +:+ io.to_string e))
            (fs_append tmp chunk) ;;
          receive_bytes fuel' tmp size (remaining - lenN chunk) r' (got ++ chunk)
  end.

Definition receive_stream (r : reader) (tmp : path) : M ClientError (N * string) :=
  '(header, r) ← lift (map_err (λ e, transfer_err ("read sender header: " +:+ io.to_string e))
                         (read_line r));
  if bool_decide (trim header = []) then raise (transfer_err "sender produced no header")
  else
    h ← lift (map_err (λ e, transfer_err ("invalid sender header "
                +:+ debug_name (string_of_list_byte header) +:+ ": " +:+ e))
                (from_json (trim header)));
    let size := SendHeader.size h in
    '(got, r) ← receive_bytes (S (S (yield_bound r))) tmp size size r [];
    '(trailer, _) ← lift (map_err (λ e, transfer_err ("read sender trailer: " +:+ io.to_string e))
                            (read_line r));
    t ← lift (map_err (λ e, transfer_err ("invalid sender trailer "
                +:+ debug_name (string_of_list_byte trailer) +:+ ": " +:+ e))
                (from_json (trim trailer)));
    let local_sha := hash_bytes got in
    if negb (bool_decide (SendTrailer.sha256 t = local_sha)) then
      raise (transfer_err ("download verification failed: received hash " +:+ local_sha
               +:+ ", sender reported " +:+ SendTrailer.sha256 t))
    else mret (size, local_sha).

(** A local path: its text, the entry it names, and its directory with the
    text of that ([Path::parent], when there is one that is not empty). *)
Record LocalTarget := MkTarget {
  target_text : string;
  target_entry : path;
  target_parent : option (string * path) }.

Definition check_local_target (target : LocalTarget) (overwrite : bool) : M ClientError path :=
  '(parent_text, parent) ← lift (ok_or (target_parent target)
     (transfer_err ("local target has no parent: " +:+ debug_name (target_text target))));
  d ← fs_is_dir parent;
  if negb d then
    raise (transfer_err ("local parent directory does not exist: " +:+ debug_name parent_text))
  else
    m ← attempt (fs_symlink_metadata (target_entry target));
    match m with
    | Ok (Dir _ _) =>
        raise (transfer_err ("local target is a directory: " +:+ debug_name (target_text target)))
    | Ok _ =>
        if negb overwrite then
          raise (transfer_err ("local target already exists: " +:+ debug_name (target_text target)
                   +:+ "; pass overwrite=true to replace it"))
        else mret parent
    | Err e =>
        if decide (io.kind e = ErrorKind.NotFound) then mret parent
        else raise (transfer_err ("stat local target: " +:+ io.to_string e))
    end.

(** The combination of the stream's outcome and the sender's exit. *)
Definition sender_outcome (received : result ClientError (N * string))
    (exit : result io.Error ExitStatus) : result ClientError (N * string) :=
  status ← map_err (λ e, transfer_err ("wait for sender: " +:+ io.to_string e)) exit;
  match received with
  | Err e =>
      Err (if success status then e
           else transfer_err ("transfer sender failed with " +:+ status_text status +:+ ": "
                                +:+ ClientError.display e))
  | Ok v =>
      if success status then Ok v
      else Err (transfer_err ("transfer sender failed with " +:+ status_text status))
  end.

(** [PersistError]. *)
Definition persist_error (e : io.Error) : ClientError :=
  transfer_err ("install local target: failed to persist temporary file: " +:+ io.to_string e).

Context `{SenderProcess}.

(** [download_file] up to the installation, on the client's machine. *)
Definition install_download (endpoint : Endpoint) (remote_path : string) (target : LocalTarget)
    (overwrite : bool) : M ClientError (N * string) :=
  parent ← check_local_target target overwrite;
  tmp ← map_raise (λ e, transfer_err ("create local temp file: " +:+ io.to_string e))
          (tempfile_in parent ".tmp" ".part");
  until_persisted tmp (
    run ← lift (map_err (λ e, transfer_err ("spawn transfer sender: " +:+ io.to_string e))
                  (sender_spawn (Endpoint.transfer_send_argv endpoint remote_path)));
    received ← attempt (receive_stream (MkReader [] (sender_reads run)) tmp);
    '(size, sha256) ← lift (sender_outcome received (sender_exit run));
    map_raise (λ e, transfer_err ("sync local temp file: " +:+ io.to_string e)) (fs_sync tmp) ;;
    (if overwrite
     then map_raise persist_error (fs_rename tmp (target_entry target))
     else map_raise persist_error (fs_rename_noreplace tmp (target_entry target))) ;;
    mret (size, sha256)).

(** [download_file]: the client's machine first, then the record on the
    server. *)
Definition download_file `{Connection} (endpoint : Endpoint) (remote_path : string)
    (target : LocalTarget) (overwrite : bool) (duration_ms : N) (local : world)
    : world * M ClientError TransferResult :=
  match install_download endpoint remote_path target overwrite local with
  | (Returned (size, sha256), local') =>
      (local',
       map_raise (λ e, transfer_err ("download completed and " +:+ debug_name (target_text target)
           +:+ " was installed, but recording the operation on the server failed: "
           +:+ ClientError.display e))
         (Client.download_record remote_path size sha256 duration_ms))
  | (Raised e, local') => (local', raise e)
  | (Killed, local') => (local', λ w, (Killed, w))
  end.
End download.

(** ** Properties *)

(** [ssh] joins what follows the host with spaces and hands it to the remote
    user's shell, which runs these words. *)
Definition ssh_runs (host : string) (argv words : list string) : Prop :=
  ∃ cmd, argv = ["ssh"; "-o"; "BatchMode=yes"; "-o"; "ServerAliveInterval=30";
                 "-o"; "ServerAliveCountMax=4"; host; cmd] ∧
    sh_words Between cmd = Some words.

Lemma ssh_argv_runs host remote : ssh_runs host (ssh_argv host remote) remote.
Proof.
  eexists. split; [reflexivity|]. exact (sh_words_argv remote).
Qed.

(** An ssh endpoint runs, on its host, exactly the command a local
    endpoint would run: whatever characters the binary, the root, the paths
    and the options hold, the remote shell reads back the same words, for the
    server and for both transfer processes. *)
Theorem ssh_runs_the_local_command host bin root state_base config path size :
  let ssh := Endpoint.Ssh host bin root state_base config in
  let local := Endpoint.Local bin root state_base config in
  ssh_runs host (Endpoint.control_argv ssh) (Endpoint.control_argv local) ∧
  ssh_runs host (Endpoint.transfer_receive_argv ssh path size)
    (Endpoint.transfer_receive_argv local path size) ∧
  ssh_runs host (Endpoint.transfer_send_argv ssh path) (Endpoint.transfer_send_argv local path).
Proof. split_and!; apply ssh_argv_runs. Qed.
