(* ===== verification/DownloadSpec.v ===== *)
(** * DownloadSpec: what a download installs

    Specifications of the receiving half of [ClientTransfer.v]: whatever the
    sender's output and however it is cut into reads, what is installed is
    what the sender declared and hashed, and nothing is installed otherwise;
    and the output of the sender of [Transfer.v] is accepted, whole. *)

From S2P Require Import Prelude Text Protocol World Fs Hash FsSpec Workspace Jsonl FsOps Transfer.
From S2P Require Import TransferSpec Exec ClientApi ClientTransfer.

(** ** The bytes a reader yields *)

Definition stream (r : reader) : bytes := held r ++ flat (coming r).

(** No read fails, and none is empty before the end. *)
Definition clean (r : reader) : Prop := Forall (λ x, ∃ c : bytes, x = Ok c ∧ c ≠ []) (coming r).

Lemma stream_bound r : length (stream r) ≤ yield_bound r.
Proof.
  unfold stream, yield_bound. rewrite length_app. apply Nat.add_le_mono_l.
  induction (coming r) as [|[[|b c]|e] cs IH]; cbn; try lia. rewrite length_app. lia.
Qed.

Lemma split_line_Some bs l r :
  split_line bs = Some (l, r) → bs = l ++ r ∧ ∃ l0, l = l0 ++ [nl] ∧ nl ∉ l0.
Proof.
  revert l r. induction bs as [|b bs IH]; intros l r; cbn; [done|]. case_bool_decide as Hb.
  - intros [= <- <-]. split; [done|]. exists []. subst b. split; [done|set_solver].
  - destruct (split_line bs) as [[l1 r1]|] eqn:Hs; [|done]. intros [= <- <-].
    destruct (IH _ _ eq_refl) as (-> & l0 & -> & Hn). split; [done|].
    exists (b :: l0). split; [done|set_solver].
Qed.

Lemma split_line_None bs : split_line bs = None → nl ∉ bs.
Proof.
  induction bs as [|b bs IH]; cbn; [set_solver|]. case_bool_decide; [done|].
  destruct (split_line bs) as [[]|]; [done|]. set_solver.
Qed.

Lemma split_line_app l rest : nl ∉ l → split_line (l ++ nl :: rest) = Some (l ++ [nl], rest).
Proof.
  induction l as [|b l IH]; intros Hn; [done|]. cbn [split_line app].
  rewrite bool_decide_false by set_solver. by rewrite IH by set_solver.
Qed.

(** [l] is a line of a text that goes on with [rest]; only the last line can
    lack its newline. *)
Definition is_line (l rest : bytes) : Prop :=
  (∃ l0, l = l0 ++ [nl] ∧ nl ∉ l0) ∨ nl ∉ l ∧ rest = [].

(** A text has one first line. *)
Lemma first_line_unique l rest l' rest' :
  is_line l rest → is_line l' rest' → l ++ rest = l' ++ rest' → l = l' ∧ rest = rest'.
Proof.
  assert (∀ (l0 l1 : bytes) r0 r1, nl ∉ l0 → nl ∉ l1 → l0 ++ nl :: r0 = l1 ++ nl :: r1 →
    l0 = l1 ∧ r0 = r1) as Hsplit.
  { induction l0 as [|b l0 IH]; intros [|d l1] r0 r1 Hn Hn' Heq; cbn in Heq; simplify_eq;
      [done|set_solver|set_solver|].
    destruct (IH l1 r0 r1) as [-> ->]; [set_solver..|done|done]. }
  intros [(l0 & -> & Hn)|[Hn ->]] [(l1 & -> & Hn')|[Hn' ->]] Heq;
    rewrite <- ?(assoc_L (++)), ?app_nil_r in Heq; cbn [app] in Heq.
  - by destruct (Hsplit _ _ _ _ Hn Hn' Heq) as [-> ->].
  - exfalso. apply Hn'. rewrite <- Heq. set_solver.
  - exfalso. apply Hn. rewrite Heq. set_solver.
  - by rewrite Heq.
Qed.

Lemma read_until_yields acc h c l r :
  nl ∉ acc → read_until acc h c = Ok (l, r) → acc ++ h ++ flat c = l ++ stream r ∧
    is_line l (stream r) ∧ (clean (MkReader h c) → clean r).
Proof.
  revert acc h. induction c as [|x c IH]; intros acc h Hacc; cbn [read_until];
    (destruct (split_line h) as [[l1 r1]|] eqn:Hs;
     [intros [= <- <-]; apply split_line_Some in Hs as (-> & l0 & -> & Hn);
      split_and!; [unfold stream; cbn; by rewrite <- !(assoc_L (++))
                  |left; exists (acc ++ l0); split; [by rewrite (assoc_L (++))|set_solver]|done]
     |apply split_line_None in Hs]).
  - intros [= <- <-]. split_and!; [unfold stream; cbn; by rewrite !app_nil_r|right; set_solver|done].
  - destruct x as [[|b x]|e]; [..|done].
    + intros [= <- <-].
      split_and!; [unfold stream; cbn; by rewrite !app_nil_r|right; set_solver|by constructor].
    + intros Hr. destruct (IH (acc ++ h) (b :: x) ltac:(set_solver) Hr) as (Heq & Hl & Hc).
      split_and!; [|done|].
      * rewrite <- Heq. cbn. by rewrite <- (assoc_L (++)).
      * intros Hcl. apply Hc. by inversion Hcl.
Qed.

Lemma read_line_yields r l r' :
  read_line r = Ok (l, r') →
  stream r = l ++ stream r' ∧ is_line l (stream r') ∧ (clean r → clean r').
Proof.
  unfold read_line. intros Hr. apply result_bind_Ok in Hr as ([l1 r1] & Hu & Hr).
  apply result_bind_Ok in Hr as (l2 & Hl & [= -> ->]). unfold utf8_or in Hl.
  destruct (utf8_valid l1); [|done]. injection Hl as ->.
  apply read_until_yields in Hu; [done|set_solver].
Qed.

(** A clean reader returns the first line of its stream. *)
Lemma read_until_line acc h c l rest :
  Forall (λ x, ∃ c : bytes, x = Ok c ∧ c ≠ []) c → nl ∉ l → h ++ flat c = l ++ nl :: rest →
  ∃ r', read_until acc h c = Ok (acc ++ l ++ [nl], r').
Proof.
  intros Hc. revert acc h l. induction Hc as [|x c (ck & -> & Hne) Hc IH]; intros acc h l Hn Heq.
  - cbn in Heq. rewrite app_nil_r in Heq. subst h. cbn [read_until].
    rewrite split_line_app by done. by eexists.
  - cbn [read_until]. destruct (split_line h) as [[l1 r1]|] eqn:Hs.
    + apply split_line_Some in Hs as (-> & l0 & -> & Hn0).
      rewrite <- !(assoc_L (++)) in Heq.
      assert (l0 = l) as ->; [|by eexists].
      clear -Heq Hn Hn0. revert l Heq Hn. induction l0 as [|b l0 IH]; intros [|d l] Heq Hn; [done|..].
      * cbn in Heq. injection Heq as <- _. set_solver.
      * cbn in Heq. injection Heq as -> _. set_solver.
      * cbn in Heq. injection Heq as -> Heq. f_equal. apply IH; set_solver.
    + apply split_line_None in Hs. destruct ck as [|b ck]; [done|].
      cbn [flat] in Heq. rewrite (assoc_L (++)) in Heq.
      assert (∃ l', l = h ++ l' ∧ (b :: ck) ++ flat c = l' ++ nl :: rest) as (l' & -> & Heq').
      { clear -Hs Heq. rewrite <- (assoc_L (++)) in Heq. revert l Heq. induction h as [|d h IH]; intros l Heq; [by exists l|].
        destruct l as [|d' l]; cbn in Heq; injection Heq as -> Heq; [set_solver|].
        destruct (IH ltac:(set_solver) l Heq) as (l' & -> & ?). by exists l'. }
      destruct (IH (acc ++ h) (b :: ck) l') as (r' & Hr); [set_solver|done|].
      exists r'. cbn [app] in Hr. rewrite Hr. by rewrite <- !(assoc_L (++)).
Qed.

Lemma read_line_line r l rest :
  clean r → nl ∉ l → utf8_valid l = true → stream r = l ++ nl :: rest →
  ∃ r', read_line r = Ok (l ++ [nl], r') ∧ stream r' = rest ∧ clean r'.
Proof.
  intros Hc Hn Hu Heq. destruct (read_until_line [] (held r) (coming r) l rest Hc Hn Heq) as (r' & Hr).
  exists r'. assert (read_line r = Ok (l ++ [nl], r')) as Hl.
  { unfold read_line. rewrite Hr. cbn. unfold utf8_or. by rewrite utf8_valid_app. }
  split; [done|]. destruct (read_line_yields _ _ _ Hl) as (Hs & _ & Hcl). split; [|auto].
  rewrite Heq in Hs. replace (l ++ nl :: rest) with ((l ++ [nl]) ++ rest) in Hs
    by by rewrite <- (assoc_L (++)). by apply app_inv_head in Hs.
Qed.

Lemma read_some_yields want r c r' :
  read_some want r = Ok (c, r') → 0 < want →
  stream r = c ++ stream r' ∧ length c ≤ want ∧ (c = [] → stream r = []) ∧ (clean r → clean r').
Proof.
  unfold read_some, stream. destruct r as [h cs]; cbn. intros Hr Hw.
  destruct h as [|b h].
  - destruct cs as [|[[|b ck]|e] cs]; [..|done]; injection Hr as <- <-; cbn.
    + split_and!; try done; lia.
    + split_and!; try done; [lia|]. by constructor.
    + split_and!; [|apply firstn_le_length| |by inversion 1].
      * change ((b :: ck) ++ flat cs = take want (b :: ck) ++ drop want (b :: ck) ++ flat cs).
        by rewrite (assoc_L (++)), take_drop.
      * by destruct want; [lia|].
  - injection Hr as <- <-. cbn [held coming]. split_and!; [|apply firstn_le_length| |done].
    + by rewrite (assoc_L (++)), take_drop.
    + by destruct want; [lia|].
Qed.

Lemma read_some_clean want r : clean r → is_ok (read_some want r) = true.
Proof.
  unfold read_some, clean. destruct r as [[|b h] cs]; [|done]. cbn.
  intros [|x cs' (c & -> & Hne)]; [done|]. by destruct c.
Qed.

(** ** Receiving into the temporary file *)

(** An ending that is not a value, and is the environment's doing, or [bad]. *)
Definition ends_badly `{Env} {E A} (bad : Prop) (o : outcome E A) : Prop :=
  match o with Returned _ => False | Raised _ => fails ∨ bad | Killed => dies end.

Lemma faulty_badly `{Env} {E A} bad (o : outcome E A) : faulty o → ends_badly bad o.
Proof. destruct o; cbn; auto. Qed.

Section receiving.
Context `{Env} `{Sha256} (t : tree) (p : path) (tn : string).
Context (Hp : real t p) (Hd : is_dir_node (t !! p) = true).
Context (Hn : name_ok tn) (Hfree : t !! (p ++ [tn]) = None).

Lemma receive_bytes_wp fuel size remaining r got w data mode mt Φ :
  w_fs w = with_temp_file t p tn data mode mt → length (stream r) < fuel →
  (∀ new r' w' mt', lenN new = remaining → stream r = new ++ stream r' → (clean r → clean r') →
     fs_step w w' (with_temp_file t p tn (data ++ new) mode mt') → Φ (Returned (got ++ new, r')) w') →
  (∀ o w' data' mt', ends_badly (clean r → (lenN (stream r) < remaining)%N) o →
     fs_step w w' (with_temp_file t p tn data' mode mt') → Φ o w') →
  wp (receive_bytes fuel (p ++ [tn]) size remaining r got) w Φ.
Proof.
  revert remaining r got w data mt Φ. induction fuel as [|fuel IH]; [lia|].
  intros remaining r got w data mt Φ Hw Hfuel HR HF. cbn [receive_bytes].
  case_bool_decide as Hz.
  - apply wp_ret. rewrite <- (app_nil_r got). eapply (HR [] r w mt); [by rewrite Hz|done|done|].
    rewrite app_nil_r. by split_and!.
  - assert (fs_step w w (with_temp_file t p tn data mode mt)) as Hw0 by by split_and!.
    set (want := N.to_nat (N.min remaining TRANSFER_BUF_SIZE)).
    assert (0 < want) as Hwant by (unfold want, TRANSFER_BUF_SIZE; lia).
    apply wp_bind, wp_lift; [|intros e He].
    2: { eapply (HF _ _ data mt); [|done]. right. intros Hc. apply (read_some_clean want) in Hc.
         destruct (read_some want r); [done|]. by cbn in He. }
    intros [chunk r'] Ha. destruct (read_some want r) as [[c1 r1]|] eqn:Hrs; [|done].
    cbn in Ha. injection Ha as -> ->.
    apply read_some_yields in Hrs as (Hst & Hlen & Hend & Hcl); [|done].
    case_bool_decide as Hc.
    { apply wp_raise. eapply (HF _ _ data mt); [|done]. right. intros _. rewrite (Hend Hc). unfold lenN. simpl length. lia. }
    apply wp_bind, wp_map_raise. eapply append_temp_wp; [done..| |].
    + intros w1 mt1 Hw1. assert (length chunk ≠ 0) by by destruct chunk.
      assert (lenN chunk <= remaining)%N by (unfold lenN, want in *; lia).
      eapply (IH _ r' (got ++ chunk) w1 (data ++ chunk) mt1); [apply Hw1| |..].
      * rewrite Hst, length_app in Hfuel. lia.
      * intros new r2 w2 mt2 Hl2 Hs2 Hc2 Hw2. rewrite <- (assoc_L (++)).
        eapply (HR (chunk ++ new)); [|by rewrite Hst, Hs2, (assoc_L (++))|auto|].
        -- unfold lenN in *. rewrite length_app. lia.
        -- rewrite <- (assoc_L (++)) in Hw2. eapply fs_step_trans; done.
      * intros o w2 data2 mt2 Ho Hw2. eapply (HF _ _ data2 mt2); [|by eapply fs_step_trans].
        destruct o as [|e|]; [done| |done]. destruct Ho as [Ho|Ho]; [by left|right].
        intros Hc'. specialize (Ho (Hcl Hc')). rewrite Hst. unfold lenN in *. rewrite length_app. lia.
    + intros o w1 data1 mt1 Ho Hw1. destruct o as [|e|]; [done|..];
        (eapply (HF _ _ data1 mt1); [by apply faulty_badly|done]).
Qed.
End receiving.

(** ** The sender's framing *)

Section framing.
Context `{Sha256} `{JsonCodecLaws SendHeader.SendHeader} `{JsonCodecLaws SendTrailer.SendTrailer}.

(** [bs] is a header that declares [size], that many bytes, and a trailer with
    their hash. *)
Definition framed (bs data : bytes) (size : N) (sha : string) : Prop :=
  ∃ header trailer rest, bs = header ++ data ++ trailer ++ rest ∧
    is_line header (data ++ trailer ++ rest) ∧ is_line trailer rest ∧
    from_json (trim header) = Ok (SendHeader.Mk size) ∧ lenN data = size ∧
    from_json (trim trailer) = Ok (SendTrailer.Mk sha) ∧ sha = hash_bytes data.

(** What the sender writes for a file with this content. *)
Definition sent_for (data : bytes) : bytes :=
  send_output (SendHeader.Mk (lenN data), data, SendTrailer.Mk (hash_bytes data)).

(** The framing is unambiguous. *)
Lemma framed_sent data data' size sha :
  framed (sent_for data) data' size sha →
  data' = data ∧ size = lenN data ∧ sha = hash_bytes data.
Proof.
  intros (header & trailer & rest & Hs & Hl & _ & Hh & Hlen & _ & ->).
  unfold sent_for, send_output in Hs. rewrite (assoc_L (++)) in Hs.
  apply first_line_unique in Hs as [<- Hs]; [|left; eexists; split; [done|apply json_one_line]|done].
  rewrite json_trim_line, from_json_json in Hh. injection Hh as <-.
  apply app_inj_1 in Hs as [<- _]; [done|]. unfold lenN in Hlen. lia.
Qed.

Context `{Env} (t : tree) (p : path) (tn : string).
Context (Hp : real t p) (Hd : is_dir_node (t !! p) = true).
Context (Hn : name_ok tn) (Hfree : t !! (p ++ [tn]) = None).

Lemma receive_stream_wp r w mode mt Φ :
  w_fs w = with_temp_file t p tn [] mode mt →
  (∀ data size sha w' mt', framed (stream r) data size sha →
     fs_step w w' (with_temp_file t p tn data mode mt') → Φ (Returned (size, sha)) w') →
  (∀ o w' data' mt', ends_badly (∀ data, clean r → stream r ≠ sent_for data) o →
     fs_step w w' (with_temp_file t p tn data' mode mt') → Φ o w') →
  wp (receive_stream r (p ++ [tn])) w Φ.
Proof.
  intros Hw HR HF. unfold receive_stream.
  assert (fs_step w w (with_temp_file t p tn [] mode mt)) as Hw0 by by split_and!.
  (* what a good stream gives at each of the three reads *)
  assert (∀ data, clean r → stream r = sent_for data → ∃ r1,
    read_line r = Ok (json (SendHeader.Mk (lenN data)) ++ [nl], r1) ∧ clean r1 ∧
    stream r1 = data ++ json (SendTrailer.Mk (hash_bytes data)) ++ [nl]) as Hgood.
  { intros data Hc Hs. destruct (read_line_line r _ _ Hc (json_one_line _) (json_utf8 _) Hs)
      as (r1 & Hr1 & Hs1 & Hc1). by exists r1. }
  apply wp_bind, wp_lift; [intros [header r1] Hh|intros e Hh].
  2: { apply (HF _ _ [] mt); [right|done]. intros data Hc Hs.
       destruct (Hgood data Hc Hs) as (r1 & Hr1 & _). by rewrite Hr1 in Hh. }
  destruct (read_line r) as [[h1 r1']|] eqn:Hrl; [|done]. cbn in Hh. injection Hh as -> ->.
  destruct (read_line_yields _ _ _ Hrl) as (Hst & Hline & Hcl).
  assert (∀ data, clean r → stream r = sent_for data →
    header = json (SendHeader.Mk (lenN data)) ++ [nl] ∧
    stream r1 = data ++ json (SendTrailer.Mk (hash_bytes data)) ++ [nl]) as Hgood1.
  { intros data Hc Hs. destruct (Hgood data Hc Hs) as (r2 & Hr2 & _ & Hs2).
    by injection Hr2 as -> ->. }
  case_bool_decide as Hempty.
  { apply wp_raise, (HF _ _ [] mt); [right|done]. intros data Hc Hs.
    destruct (Hgood1 data Hc Hs) as [-> _]. rewrite json_trim_line in Hempty. by apply json_nonempty in Hempty. }
  apply wp_bind, wp_lift; [intros hd Hhd|intros e Hhd].
  2: { apply (HF _ _ [] mt); [right|done]. intros data Hc Hs.
       destruct (Hgood1 data Hc Hs) as [-> _]. by rewrite json_trim_line, from_json_json in Hhd. }
  destruct (from_json (trim header)) as [hd'|] eqn:Hjson; [|done]. cbn in Hhd. injection Hhd as ->.
  apply wp_bind. eapply (receive_bytes_wp t p tn Hp Hd Hn Hfree _ _ _ r1 [] w [] mode mt);
    [done|pose proof (stream_bound r1); lia|..].
  2: { intros o w1 data1 mt1 Ho Hw1. destruct o as [|e|]; [done|..];
         (apply (HF _ _ data1 mt1); [|done]); [|done].
       destruct Ho as [Ho|Ho]; [by left|right]. intros data Hc Hs.
       destruct (Hgood1 data Hc Hs) as [-> Hs1]. specialize (Ho (Hcl Hc)).
       rewrite json_trim_line, from_json_json in Hjson. injection Hjson as <-.
       rewrite Hs1 in Ho. unfold lenN in Ho. rewrite length_app in Ho. cbn in Ho. lia. }
  intros new r2 w1 mt1 Hlen Hs1 Hc1 Hw1. cbn [app] in *.
  assert (∀ data, clean r → stream r = sent_for data →
    new = data ∧ stream r2 = json (SendTrailer.Mk (hash_bytes data)) ++ [nl]) as Hgood2.
  { intros data Hc Hs. destruct (Hgood1 data Hc Hs) as [-> Hs2].
    rewrite json_trim_line, from_json_json in Hjson. injection Hjson as <-. rewrite Hs1 in Hs2.
    apply app_inj_1 in Hs2 as [-> ->]; [done|]. unfold lenN in Hlen. cbn in Hlen. lia. }
  apply wp_bind, wp_lift; [intros [trailer r3] Ht|intros e Ht].
  2: { apply (HF _ _ new mt1); [right|done]. intros data Hc Hs.
       destruct (Hgood2 data Hc Hs) as [_ Hs2].
       destruct (read_line_line r2 _ [] (Hc1 (Hcl Hc)) (json_one_line _) (json_utf8 _) Hs2)
         as (r3 & Hr3 & _). by rewrite Hr3 in Ht. }
  destruct (read_line r2) as [[tl r3']|] eqn:Hrl2; [|done]. cbn in Ht. injection Ht as -> ->.
  destruct (read_line_yields _ _ _ Hrl2) as (Hst2 & Hline2 & _).
  assert (∀ data, clean r → stream r = sent_for data →
    trailer = json (SendTrailer.Mk (hash_bytes data)) ++ [nl]) as Hgood3.
  { intros data Hc Hs. destruct (Hgood2 data Hc Hs) as [_ Hs2].
    destruct (read_line_line r2 _ [] (Hc1 (Hcl Hc)) (json_one_line _) (json_utf8 _) Hs2)
      as (r4 & Hr4 & _). rewrite Hrl2 in Hr4. by injection Hr4. }
  apply wp_bind, wp_lift; [intros tr Htr|intros e Htr].
  2: { apply (HF _ _ new mt1); [right|done]. intros data Hc Hs.
       rewrite (Hgood3 data Hc Hs), json_trim_line, from_json_json in Htr. done. }
  destruct (from_json (trim trailer)) as [tr'|] eqn:Hjt; [|done]. cbn in Htr. injection Htr as ->.
  case_bool_decide as Hsha; cbn [negb].
  - apply wp_ret, (HR new _ _ _ mt1); [|done]. exists header, trailer, (stream r3).
    destruct hd as [size], tr as [sha]. cbn in *. subst sha.
    rewrite Hs1, Hst2 in Hline. split_and!; [by rewrite Hst, Hs1, Hst2|done..].
  - apply wp_raise, (HF _ _ new mt1); [right|done]. intros data Hc Hs.
    destruct (Hgood2 data Hc Hs) as [-> _].
    rewrite (Hgood3 data Hc Hs), json_trim_line, from_json_json in Hjt. by injection Hjt as <-.
Qed.
End framing.

(** ** Installing a download *)

Section install.
Context `{Sha256} `{JsonCodecLaws SendHeader.SendHeader} `{JsonCodecLaws SendTrailer.SendTrailer}.
Context `{Env} `{TempfileLaws} `{SenderProcess}.
Context (endpoint : Endpoint) (remote_path : string) (overwrite : bool).
Context (target : LocalTarget) (t : tree) (p : path) (s parent_text : string).

(** The target is the entry [s] of the real directory [p]; its name is not
    one a temporary file can have. *)
Definition local_target : Prop :=
  target_entry target = p ++ [s] ∧ target_parent target = Some (parent_text, p) ∧
  real t p ∧ is_dir_node (t !! p) = true ∧ name_ok s ∧ strip_prefix s ".tmp" = None.

Context (Ht : local_target).

(** Nothing is in the way of the installation. *)
Definition installable : Prop :=
  if overwrite then is_dir_node (t !! (p ++ [s])) = false else t !! (p ++ [s]) = None.

(** The sender's run. *)
Definition sender_says (run : SenderRun) : Prop :=
  sender_spawn (Endpoint.transfer_send_argv endpoint remote_path) = Ok run ∧
  ∃ status, sender_exit run = Ok status ∧ success status = true.

(** It is that of a sender that streamed a file with this content. *)
Definition sender_sends (data : bytes) : Prop :=
  ∃ run, sender_says run ∧ clean (MkReader [] (sender_reads run)) ∧
    stream (MkReader [] (sender_reads run)) = sent_for data.

Definition fine : Prop := installable ∧ ∃ data, sender_sends data.

Lemma symlink_metadata_entry t' :
  real t' p → is_dir_node (t' !! p) = true →
  symlink_metadata t' (p ++ [s]) = ok_or (t' !! (p ++ [s])) enoent.
Proof. intros Hr Hd. unfold symlink_metadata. by rewrite entry_loc_real. Qed.

Lemma check_local_target_wp w Φ :
  w_fs w = t →
  (∀ w', fs_step w w' t → installable → Φ (Returned p) w') →
  (∀ o w', ends_badly (¬ installable) o → fs_step w w' t → Φ o w') →
  wp (check_local_target target overwrite) w Φ.
Proof.
  intros Hw HR HF. destruct Ht as (He & Hpar & Hr & Hd & Hok & _). unfold check_local_target.
  rewrite He, Hpar. apply wp_bind_Ok. apply wp_bind, fs_is_dir_wp.
  2: { intros w1 Hf Hw1. apply HF; [done|fs_eq]. }
  intros b w1 Hw1 Hb. destruct b; cbn [negb].
  2: { apply wp_raise, HF; [|fs_eq]. left. destruct Hb as [Hb|[Hb _]]; [|done].
       unfold is_dir in Hb. rewrite Hw in Hb. destruct (t !! p) as [n|] eqn:Hl; [|done].
       by rewrite (metadata_real _ _ n Hr Hl) in Hb; cbn [ok] in Hb; rewrite Hd in Hb. }
  apply wp_bind, wp_attempt, fs_symlink_metadata_wp.
  rewrite (proj1 Hw1), Hw, symlink_metadata_entry by done. unfold installable in *. split_and!.
  - intros n w2 Hn Hw2. destruct (t !! (p ++ [s])) as [n'|] eqn:Hl; [|done].
    injection Hn as ->. assert (fs_step w w2 t) by fs_eq.
    destruct n, overwrite; cbn [negb];
      first [ apply wp_ret, HR; done
            | apply wp_raise, HF; [right; naive_solver|done] ].
  - intros e w2 He' Hw2. destruct (t !! (p ++ [s])) as [n'|] eqn:Hl; [done|].
    injection He' as <-. apply wp_ret, HR; [fs_eq|]. by destruct overwrite.
  - intros text w2 Hf Hw2. apply wp_raise, HF; [by left|fs_eq].
  - intros w2 Hf Hw2. apply HF; [done|fs_eq].
Qed.

(** The body run with the temporary file in hand. *)
Lemma install_body_wp tn w mt Φ :
  name_ok tn → t !! (p ++ [tn]) = None → s ≠ tn → installable →
  w_fs w = with_temp_file t p tn [] 384 mt →
  (∀ run data size sha w' mt', sender_says run → framed (stream (MkReader [] (sender_reads run))) data size sha →
     fs_step w w' (<[p ++ [s] := File data 384 mt']> t) → Φ (Returned (size, sha)) w') →
  (∀ o w' data mt', ends_badly (¬ fine) o →
     fs_step w w' (with_temp_file t p tn data 384 mt') → Φ o w') →
  wp (run ← lift (map_err (λ e, transfer_err ("spawn transfer sender: " +:+ io.to_string e))
                  (sender_spawn (Endpoint.transfer_send_argv endpoint remote_path)));
      received ← attempt (receive_stream (MkReader [] (sender_reads run)) (p ++ [tn]));
      '(size, sha256) ← lift (sender_outcome received (sender_exit run));
      map_raise (λ e, transfer_err ("sync local temp file: " +:+ io.to_string e)) (fs_sync (p ++ [tn])) ;;
      (if overwrite
       then map_raise persist_error (fs_rename (p ++ [tn]) (target_entry target))
       else map_raise persist_error (fs_rename_noreplace (p ++ [tn]) (target_entry target))) ;;
      mret (size, sha256)) w Φ.
Proof.
  intros Hn Hfree Hne Hin Hw HR HF. destruct Ht as (He & _ & Hr & Hd & Hok & _). rewrite He.
  assert (fs_step w w (with_temp_file t p tn [] 384 mt)) as Hw0 by by split_and!.
  apply wp_bind, wp_lift; [intros run Hrun|intros e Hrun].
  2: { apply (HF _ _ [] mt); [right|done]. intros (_ & data & run & [Hs _] & _).
       by rewrite Hs in Hrun. }
  destruct (sender_spawn _) as [run'|] eqn:Hspawn; [|done]. injection Hrun as ->.
  (* a run that is fine gives a stream that is *)
  assert (fine → (∃ status, sender_exit run = Ok status ∧ success status = true) ∧
    ∃ data, clean (MkReader [] (sender_reads run)) ∧
      stream (MkReader [] (sender_reads run)) = sent_for data) as Hfine.
  { intros (_ & data & run' & [Hs Hex] & Hst). rewrite Hspawn in Hs. injection Hs as ->. eauto. }
  apply wp_bind, wp_attempt. eapply (receive_stream_wp t p tn Hr Hd Hn Hfree _ w 384 mt); [done|..].
  2: { intros o w1 data1 mt1 Ho Hw1. destruct o as [|e|]; [done|..].
       2: by apply (HF _ _ data1 mt1).
       apply wp_bind, wp_lift; [intros a Ha|intros e' He'].
       - unfold sender_outcome in Ha. by destruct (sender_exit run) as [st|]; [destruct (success st)|].
       - apply (HF _ _ data1 mt1); [|done]. destruct Ho as [Ho|Ho]; [by left|right].
         intros Hf. destruct (Hfine Hf) as (_ & data & Hc & Hs). by apply (Ho data). }
  intros data size sha w1 mt1 Hfr Hw1. apply wp_bind, wp_lift; [intros [size' sha'] Ha|intros e Ha].
  2: { apply (HF _ _ data mt1); [right|done]. intros Hf. destruct (Hfine Hf) as ((st & Hst & Hsu) & _).
       unfold sender_outcome in Ha. rewrite Hst in Ha. cbn in Ha. by rewrite Hsu in Ha. }
  assert (sender_says run ∧ size' = size ∧ sha' = sha) as (Hsay & -> & ->).
  { unfold sender_outcome in Ha. destruct (sender_exit run) as [st|] eqn:Hex; [|done]. cbn in Ha.
    destruct (success st) eqn:Hsu; [|done]. injection Ha as <- <-. split; [|done].
    split; [done|]. by exists st. }
  apply wp_bind, wp_map_raise. unfold fs_sync. apply wp_sys.
  2: done.
  2,3: intros; apply (HF _ _ data mt1); [by try left|fs_eq].
  intros [] w2 [= <-]. set (w2 := emit _ _).
  assert (fs_step w w2 (with_temp_file t p tn data 384 mt1)) as Hw2 by (unfold w2; fs_eq).
  clearbody w2.
  unfold installable in Hin. apply wp_bind. destruct overwrite; apply wp_map_raise, fs_change_wp; cbv beta;
    rewrite (proj1 Hw2), ?temp_rename, ?temp_rename_noreplace, ?Hin by done; try done.
  all: try (intros; apply (HF _ _ data mt1); [by try left|fs_eq]).
  all: intros t' w3 [= <-] Hw3; apply wp_ret, (HR run data size sha w3 mt1); [done|done|fs_eq].
Qed.

Lemma install_download_wp w Φ :
  w_fs w = t →
  (∀ run data size sha w' mt, sender_says run → framed (stream (MkReader [] (sender_reads run))) data size sha →
     installable → w_fs w' = <[p ++ [s] := File data 384 mt]> t → Φ (Returned (size, sha)) w') →
  (∀ o w', ends_badly (¬ fine) o → beside t (p ++ [s]) (w_fs w') → Φ o w') →
  wp (install_download endpoint remote_path target overwrite) w Φ.
Proof.
  intros Hw HR HF. pose proof Ht as (He & _ & Hr & Hd & Hok & Hpre). unfold install_download.
  apply wp_bind, check_local_target_wp; [done|..].
  2: { intros o w1 Ho Hw1. destruct o as [|e|]; [done|..]; (apply HF; [|left; apply Hw1]); [|done].
       destruct Ho as [Ho|Ho]; [by left|right; unfold fine; tauto]. }
  intros w1 Hw1 Hin. apply wp_bind, wp_map_raise.
  apply tempfile_in_wp; rewrite ?(proj1 Hw1); [done|done|..].
  2: { intros o w2 Ho Hw2. destruct o as [|e|]; [done|..]; (apply HF; [|left; apply Hw2]); by try left. }
  intros tn w2 mt Hn (m & _ & Htn) Hfree Hw2.
  assert (s ≠ tn) as Hne. { intros ->. rewrite Htn, strip_prefix_append in Hpre. done. }
  unfold until_persisted. apply wp_bind, wp_attempt.
  eapply (install_body_wp tn w2 mt); [done..|apply Hw2| |].
  - intros run data size sha w3 mt3 Hs Hfr Hw3. apply wp_ret. eapply HR; [done..|apply Hw3].
  - intros o w3 data mt3 Ho Hw3. destruct o as [|e|]; [done|..].
    + apply wp_bind. eapply (drop_temp_wp t p tn Hr Hd Hn Hfree _ data 384 mt3); [apply Hw3|..].
      * intros w4 Hw4. apply wp_raise, HF; [done|left; apply Hw4].
      * intros w4 _ Hw4. apply wp_raise, HF; [done|]. rewrite (proj1 Hw4), (proj1 Hw3).
        by apply beside_temp.
      * intros w4 Hf Hw4. apply HF; [done|]. rewrite (proj1 Hw4), (proj1 Hw3). by apply beside_temp.
    + apply HF; [done|]. rewrite (proj1 Hw3). by apply beside_temp.
Qed.
End install.

(** ** Properties *)

Section properties.
Context `{Sha256} `{JsonCodecLaws SendHeader.SendHeader} `{JsonCodecLaws SendTrailer.SendTrailer}.
Context `{TempfileLaws} `{SenderProcess}.
Context (endpoint : Endpoint) (remote_path : string) (overwrite : bool) (target : LocalTarget).

(** C15: nothing unchecked is installed.  Whatever the sender writes, however
    its output is cut into reads and whatever fails on the client's machine,
    a download that reports success has installed exactly the bytes between a
    header with their number and a trailer with their hash, from a sender that
    exited well, and has not replaced a file unless told to; a download that
    does not leaves the target as it was. *)
Theorem download_checked `{Env} p s parent_text w :
  local_target target (w_fs w) p s parent_text →
  let '(o, w') := install_download endpoint remote_path target overwrite w in
  match o with
  | Returned (size, sha) => ∃ run data mt,
      sender_says endpoint remote_path run ∧
      framed (stream (MkReader [] (sender_reads run))) data size sha ∧
      installable overwrite (w_fs w) p s ∧
      w_fs w' = <[p ++ [s] := File data 384 mt]> (w_fs w)
  | _ => beside (w_fs w) (p ++ [s]) (w_fs w')
  end.
Proof.
  intros Ht. apply wp_let, (install_download_wp _ _ _ _ _ _ _ _ Ht); [done|..].
  - intros run data size sha w' mt Hs Hf Hi Hw'. by exists run, data, mt.
  - intros [a|e|] w' Ho Hb; [done|exact Hb..].
Qed.

(** C16: a download is the remote file.  When the sender, on the server's
    machine, streams the file its path resolves to, and its output reaches a
    client's machine on which no call fails -- in reads of any size -- the
    download returns the length and the hash of that file, and the target
    holds its content. *)
Theorem download_roundtrip (server : Env) root base wr out wr' :
  run_transfer_send root base remote_path wr = (Returned out, wr') → tree_wf (w_fs wr') →
  ∃ ws abs data, resolve (w_fs wr') ws remote_path = Ok abs ∧
    tree_read (w_fs wr') abs = Ok data ∧
    ∀ (client : Env) run p s parent_text w, FaultFree (H:=client) →
      sender_says endpoint remote_path run → clean (MkReader [] (sender_reads run)) →
      flat (sender_reads run) = send_output out →
      local_target target (w_fs w) p s parent_text → installable overwrite (w_fs w) p s →
      ∃ w' mt, install_download endpoint remote_path target overwrite w
          = (Returned (lenN data, hash_bytes data), w') ∧
        w_fs w' = <[p ++ [s] := File data 384 mt]> (w_fs w).
Proof.
  intros Hrun Hwf. pose proof (run_transfer_send_wp root base remote_path wr) as Hsend.
  apply (wp_run _ _ _ _ _ Hrun) in Hsend. destruct (Hsend Hwf) as (ws & abs & data & Hres & Hread & ->).
  exists ws, abs, data. split_and!; [done..|].
  intros client run p s parent_text w Hff Hsay Hclean Hflat Ht Hin.
  assert (sender_sends endpoint remote_path data) as Hsends by by exists run.
  assert (wp (install_download endpoint remote_path target overwrite) w (λ o w',
    o = Returned (lenN data, hash_bytes data) ∧
    ∃ mt, w_fs w' = <[p ++ [s] := File data 384 mt]> (w_fs w))) as [Ho [mt Hw']].
  2: { exists (install_download endpoint remote_path target overwrite w).2, mt. split; [|done].
       by destruct (install_download _ _ _ _ w) as [o w']; cbn in *; subst o. }
  apply (install_download_wp _ _ _ _ _ _ _ _ Ht); [done|..].
  - intros run' data' size sha w' mt [Hsp _] Hf _ Hw'.
    destruct Hsay as [Hsp' _]. assert (run' = run) as -> by congruence.
    unfold stream in Hf. cbn [held coming app] in Hf. rewrite Hflat in Hf.
    apply framed_sent in Hf as (-> & -> & ->). split; [done|]. by exists mt.
  - intros o w' Ho _. exfalso. destruct o as [|e|]; [done|..].
    + destruct Ho as [Ho|Ho]; [by apply fault_free_fails in Ho|].
      apply Ho. split; [done|]. by exists data.
    + by apply fault_free_dies in Ho.
Qed.
End properties.
