(* ===== verification/UploadHandlers.v ===== *)
(** * UploadHandlers: what the server's upload handlers do

    Specifications, in any environment, of [upload_prepare], [upload_commit]
    and [upload_abort] of [Transfer.v], over the tree, the registry of pending
    uploads and the counter transfer ids are made from. *)

From S2P Require Import Prelude Text Protocol World Fs Hash FsSpec Workspace Jsonl Store StoreSpec.
From S2P Require Import FsOps Transfer TransferSpec Server Tables.

(** ** Transfer ids *)

Lemma transfer_id_of_inj ts n ts' n' :
  (ts <= u64_max)%N → (n <= u64_max)%N → (ts' <= u64_max)%N → (n' <= u64_max)%N →
  transfer_id_of ts n = transfer_id_of ts' n' → ts = ts' ∧ n = n'.
Proof.
  intros Hts Hn Hts' Hn' Heq. unfold transfer_id_of in Heq. apply append_inj_l in Heq.
  apply split_dash in Heq as [Ht Heq]; [|apply to_hex_no_dash..].
  apply (f_equal (of_hex 0)) in Ht, Heq. rewrite !of_hex_to_hex in Ht, Heq by done. done.
Qed.

(** Every registered upload has an id that was made from an earlier value of
    the counter. *)
Definition ids_issued (m : memory) : Prop :=
  ∀ id, is_Some (uploads m !! id) →
    ∃ ts n, (ts <= u64_max)%N ∧ (n < transfer_counter m)%N ∧ id = transfer_id_of ts n.

(** So the next id is new, until the counter wraps. *)
Lemma ids_issued_fresh m ts :
  ids_issued m → (transfer_counter m < u64_max)%N →
  uploads m !! transfer_id_of (as_u64 ts) (transfer_counter m) = None.
Proof.
  intros Hm Hc. apply eq_None_not_Some. intros (ts' & n & Hts' & Hn & Heq)%Hm.
  apply transfer_id_of_inj in Heq; [lia|apply as_u64_le|lia..].
Qed.

Lemma ids_issued_register m m' ts u :
  ids_issued m → (transfer_counter m < u64_max)%N →
  uploads m' = <[transfer_id_of (as_u64 ts) (transfer_counter m) := u]> (uploads m) →
  transfer_counter m' = u64_add (transfer_counter m) 1 → ids_issued m'.
Proof.
  intros Hm Hc Hu Hn id. rewrite Hu, lookup_insert_is_Some', Hn.
  unfold u64_add. rewrite N.mod_small by lia. intros [<-|Hid].
  - exists (as_u64 ts), (transfer_counter m). split_and!; [apply as_u64_le|lia|done].
  - destruct (Hm id Hid) as (ts' & n & ? & ? & ->). exists ts', n. split_and!; [done|lia|done].
Qed.

(** A registry that has only shrunk, with the counter as it was. *)
Definition registry_shrinks (m m' : memory) : Prop :=
  uploads m' ⊆ uploads m ∧ transfer_counter m' = transfer_counter m.

#[export] Instance registry_shrinks_preorder : PreOrder registry_shrinks.
Proof.
  split; [by intros m|]. intros m1 m2 m3 [? ?] [? ?]. split; [by etrans|congruence].
Qed.
#[export] Instance registry_shrinks_recording : Recording registry_shrinks.
Proof. by split. Qed.

Lemma ids_issued_shrinks m m' : registry_shrinks m m' → ids_issued m → ids_issued m'.
Proof.
  intros [Hu Hn] Hm id [u Hid]. rewrite Hn. apply Hm. exists u. by eapply lookup_weaken.
Qed.

(** ** Preparing *)

(** The name of a staging file for the entry [s]. *)
Definition staging_for (s tn : string) : Prop :=
  ∃ m, no_slash m = true ∧ tn = (STAGING_PREFIX +:+ s +:+ ".") +:+ m +:+ STAGING_SUFFIX.

Lemma staging_for_ne s tn : staging_for s tn → s ≠ tn.
Proof.
  intros (m & _ & ->) Heq. apply (f_equal String.length) in Heq. rewrite !append_length in Heq.
  cbn in Heq. lia.
Qed.

Section prepare.
Context `{Env} `{HashIter} `{TempfileLaws} `{JsonCodec AnyOperationRecord} `{JsonCodec RequestLogLine}.
Context (ws : Workspace) (path : string) (overwrite : bool) (p : World.path) (s : string).

(** The upload [id] is registered, with an empty staging file beside its
    target [p ++ [s]]; [t1] is the tree without it. *)
Definition prepared (t1 : tree) (m : memory) (tn id : string) (w' : world) : Prop :=
  real t1 p ∧ is_dir_node (t1 !! p) = true ∧ name_ok tn ∧ staging_for s tn ∧
  t1 !! (p ++ [tn]) = None ∧ is_dir_node (t1 !! (p ++ [s])) = false ∧
  (overwrite = false → t1 !! (p ++ [s]) = None) ∧
  (∃ mt, w_fs w' = with_temp_file t1 p tn [] 384 mt) ∧
  uploads (w_mem w') = <[id := PendingUpload.Mk (p ++ [tn]) (p ++ [s]) path overwrite]> (uploads m) ∧
  transfer_counter (w_mem w') = u64_add (transfer_counter m) 1 ∧
  ∃ ts, id = transfer_id_of (as_u64 ts) (transfer_counter m).

Lemma prepared_ids t1 m tn id w' :
  prepared t1 m tn id w' → ids_issued m → (transfer_counter m < u64_max)%N →
  uploads m !! id = None ∧ ids_issued (w_mem w').
Proof.
  intros (_ & _ & _ & _ & _ & _ & _ & _ & Hu & Hn & ts & ->) Hm Hc. split.
  - by apply ids_issued_fresh.
  - by eapply ids_issued_register.
Qed.

(** An upload may put a file there. *)
Definition free_for_upload (t : tree) : bool :=
  match t !! (p ++ [s]) with None => true | Some n => is_file_node n && overwrite end.

Lemma check_upload_target_wp w Φ :
  real (w_fs w) p → is_dir_node (w_fs w !! p) = true →
  (∀ w', fs_step w w' (w_fs w) → is_dir_node (w_fs w !! (p ++ [s])) = false →
     (overwrite = false → w_fs w !! (p ++ [s]) = None) → Φ (Returned tt) w') →
  (∀ o w', stopped (free_for_upload (w_fs w) = false) o → fs_step w w' (w_fs w) → Φ o w') →
  wp (check_upload_target (p ++ [s]) p path overwrite) w Φ.
Proof.
  intros Hr Hd HR HF. unfold check_upload_target. apply wp_bind, wp_attempt, fs_metadata_wp. split_and!.
  2: { intros e w1 He. destruct (w_fs w !! p) as [n|] eqn:Hl; [|done].
       by rewrite (metadata_real _ _ n Hr Hl) in He. }
  2: { intros text w1 Hf Hw1. apply wp_bind. rewrite decide_False by done. apply wp_raise, HF; [by left|done]. }
  2: intros; by apply HF.
  intros n w1 Hn Hw1. destruct (w_fs w !! p) as [n'|] eqn:Hl; [|done].
  rewrite (metadata_real _ _ n' Hr Hl) in Hn. injection Hn as ->. rewrite Hd.
  apply wp_bind, wp_ret, wp_bind, wp_attempt, fs_symlink_metadata_wp. rewrite (proj1 Hw1).
  unfold symlink_metadata. rewrite entry_loc_real by (done || by rewrite Hl). cbn [mbind result_bind].
  split_and!.
  - intros n' w2 Hn Hw2. unfold free_for_upload in HF.
    destruct (w_fs w !! (p ++ [s])) as [n''|]; [|done]. injection Hn as ->.
    repeat match goal with |- wp (if ?b then _ else _) _ _ => destruct b eqn:? end;
      try (apply wp_raise, HF; [right; destruct n' as [| |], overwrite; done|fs_eq]).
    apply wp_ret, HR; [fs_eq|done|]. by destruct overwrite.
  - intros e w2 He Hw2. destruct (w_fs w !! (p ++ [s])) as [n''|]; [done|]. injection He as <-.
    apply wp_ret, HR; [fs_eq|done|done].
  - intros text w2 Hf Hw2. rewrite decide_False by done. apply wp_raise, HF; [by left|fs_eq].
  - intros w2 Hf Hw2. apply HF; [done|fs_eq].
Qed.

Lemma stage_upload_wp w Φ :
  real (w_fs w) p → is_dir_node (w_fs w !! p) = true →
  is_dir_node (w_fs w !! (p ++ [s])) = false → (overwrite = false → w_fs w !! (p ++ [s]) = None) →
  (∀ t1 tn id w', swept (in_flight_staging (uploads (w_mem w))) STALE_STAGING_MAX_AGE (w_fs w) t1 →
     prepared t1 (w_mem w) tn id w' →
     Φ (Returned (ResultBody.UploadPrepare (UploadPrepareResult.Mk id (path_text (p ++ [tn]))))) w') →
  (∀ o w', faulty o → sweeps (in_flight_staging (uploads (w_mem w))) STALE_STAGING_MAX_AGE w w' → Φ o w') →
  wp (stage_upload (p ++ [s]) p path overwrite) w Φ.
Proof.
  intros Hr Hd Hnd Hnone HR HF. unfold stage_upload. rewrite last_snoc.
  apply wp_bind_Ok, wp_bind, wp_get_mem, wp_bind, sweep_dir_wp; [done..| |intros; by apply HF].
  intros _ w1 (Hsw & Hsd1 & Hm1). pose proof (swept_real _ _ _ _ _ Hsw Hr Hd) as Hr1.
  pose proof (swept_dir _ _ _ _ _ Hsw Hd) as Hd1.
  apply wp_bind, wp_map_raise, tempfile_in_wp; [done..| |].
  2: { intros o w2 Ho Hw2. assert (sweeps (in_flight_staging (uploads (w_mem w))) STALE_STAGING_MAX_AGE w w2)
         by (split; [by rewrite (proj1 Hw2)|split; fs_eq]).
       destruct o as [|e|]; [done|..]; by apply HF. }
  intros tn w2 mt Hn Htn Hfree Hw2. unfold new_transfer_id.
  apply wp_bind, wp_bind, wp_get_mem, wp_bind, wp_put_mem, wp_bind, wp_now_ns, wp_ret.
  apply wp_bind, wp_put_mem, wp_ret, (HR (w_fs w1) tn); [done|].
  assert (w_mem w2 = w_mem w) as Hm2 by (destruct Hw2 as (_ & _ & ->); done).
  split_and!; [done..| | | | | |].
  - destruct (Hsw (p ++ [s])) as [->|[-> _]]; done.
  - intros Ho. destruct (Hsw (p ++ [s])) as [->|[-> _]]; auto.
  - exists mt. apply Hw2.
  - cbn. by rewrite Hm2.
  - cbn. by rewrite Hm2.
  - rewrite Hm2. by eexists.
Qed.

Lemma upload_prepare_wp w Φ :
  resolve (w_fs w) ws path = Ok (p ++ [s]) → real (w_fs w) p → is_dir_node (w_fs w !! p) = true →
  (∀ t1 tn id w', swept (in_flight_staging (uploads (w_mem w))) STALE_STAGING_MAX_AGE (w_fs w) t1 →
     prepared t1 (w_mem w) tn id w' →
     Φ (Returned (ResultBody.UploadPrepare (UploadPrepareResult.Mk id (path_text (p ++ [tn]))))) w') →
  (∀ o w', stopped (free_for_upload (w_fs w) = false) o →
     swept (in_flight_staging (uploads (w_mem w))) STALE_STAGING_MAX_AGE (w_fs w) (w_fs w') → Φ o w') →
  wp (upload_prepare ws path overwrite) w Φ.
Proof.
  intros Hres Hr Hd HR HF. unfold upload_prepare, ws_resolve.
  apply wp_bind, wp_bind, wp_get_fs. rewrite Hres. apply wp_ret, wp_bind.
  assert (parent_dir (p ++ [s]) = mret p) as ->.
  { unfold parent_dir. rewrite removelast_last. by destruct p. }
  apply wp_ret, wp_bind, check_upload_target_wp; [done..| |].
  - intros w1 (Hf & _ & Hm) Hnd Hnone.
    apply stage_upload_wp; rewrite ?Hf, ?Hm; try done. intros o w2 Ho [Hw2 _]. rewrite Hf in Hw2.
    apply HF; [by apply faulty_stopped|exact Hw2].
  - intros o w1 Ho (Hf & _). rewrite <- Hf in *. destruct o; [done|by apply HF; [|apply swept_refl]..].
Qed.
End prepare.

(** ** Committing *)

Section commit.
Context `{Env} `{JsonCodec AnyOperationRecord} `{JsonCodec RequestLogLine}.
Context (t1 : tree) (p : path) (s tn : string).
Context (Hr : real t1 p) (Hd : is_dir_node (t1 !! p) = true) (Hn : name_ok tn).
Context (Hfree : t1 !! (p ++ [tn]) = None) (Hne : s ≠ tn).
Context (Hnd : is_dir_node (t1 !! (p ++ [s])) = false).

Lemma fsync_any_wp q w Φ :
  (∀ w', fs_step w w' (w_fs w) → Φ (Returned tt) w') →
  (∀ o w', stopped (is_ok (metadata (w_fs w) q) = false) o → fs_step w w' (w_fs w) → Φ o w') →
  wp (fsync_file_or_dir q) w Φ.
Proof.
  intros HR HF. destruct (is_ok (metadata (w_fs w) q)) eqn:Hm.
  { apply fsync_wp; [done..|]. intros o w' Ho. by apply HF, faulty_stopped. }
  unfold fsync_file_or_dir. apply wp_sys.
  - intros [] w' Ha. apply result_bind_Ok in Ha as (n & Hq & _).
    change (w_fs (tick w)) with (w_fs w) in Hq. by rewrite Hq in Hm.
  - intros e _. apply HF; [by right|done].
  - intros text Hf. apply HF; [by left|done].
  - intros Hf. by apply HF.
Qed.

(** The target is as it was, or complete. *)
Definition placed (overwrite : bool) (data : bytes) (t : tree) : Prop :=
  real t p ∧ is_dir_node (t !! p) = true ∧
  (t !! (p ++ [s]) = t1 !! (p ++ [s]) ∨
   (∃ mt, t !! (p ++ [s]) = Some (File data 384 mt)) ∧ (overwrite = false → t1 !! (p ++ [s]) = None)).

Lemma placed_temp overwrite data data' mt : placed overwrite data (with_temp_file t1 p tn data' 384 mt).
Proof.
  destruct (temp_dir t1 p tn Hr Hd Hfree data' 384 mt) as [Hr' Hd']. split; [done|]. split; [done|]. left.
  unfold with_temp_file. apply lookup_insert_ne. by intros [_ ?]%app_inj_tail.
Qed.

Lemma placed_installed (overwrite : bool) data mt :
  (overwrite = false → t1 !! (p ++ [s]) = None) →
  placed overwrite data (<[p ++ [s] := File data 384 mt]> t1).
Proof.
  intros Hnone. split; [apply real_insert_file; [done| |apply snoc_ne]|].
  { done. }
  split; [by rewrite lookup_insert_ne by (apply not_eq_sym, snoc_ne)|].
  right. split; [|done]. exists mt. apply lookup_insert_eq.
Qed.

Lemma install_upload_wp logical overwrite w data mt Φ :
  w_fs w = with_temp_file t1 p tn data 384 mt →
  (∀ w', fs_step w w' (<[p ++ [s] := File data 384 mt]> t1) →
     (overwrite = false → t1 !! (p ++ [s]) = None) → Φ (Returned tt) w') →
  (∀ o w', stopped (overwrite = false ∧ t1 !! (p ++ [s]) ≠ None) o →
     placed overwrite data (w_fs w') → w_mem w' = w_mem w → Φ o w') →
  wp (install_upload (PendingUpload.Mk (p ++ [tn]) (p ++ [s]) logical overwrite)) w Φ.
Proof.
  intros Hw HR HF. unfold install_upload.
  cbn [PendingUpload.overwrite PendingUpload.staging PendingUpload.target PendingUpload.logical_path].
  destruct overwrite.
  - apply wp_map_raise, fs_change_wp; cbv beta; rewrite Hw, ?temp_rename by done.
    2: done.
    2: intros text w1 Hf (Hfs & _ & Hm); apply HF; [by left| |done]; rewrite Hfs; apply placed_temp.
    2: intros w1 Hk (Hfs & _ & Hm); apply HF; [done| |done]; rewrite Hfs; apply placed_temp.
    intros t' w1 [= <-] Hw1. by apply HR.
  - apply wp_bind, wp_map_raise, fs_change_wp; cbv beta; rewrite Hw.
    3: intros text w1 Hf (Hfs & _ & Hm); apply HF; [by left| |done]; rewrite Hfs; apply placed_temp.
    3: intros w1 Hk (Hfs & _ & Hm); apply HF; [done| |done]; rewrite Hfs; apply placed_temp.
    all: unfold tree_link; rewrite (temp_loc t1 p tn Hr Hd Hn Hfree); cbn [mbind result_bind];
      rewrite (temp_target t1 p tn Hr Hd Hfree); cbn [mbind result_bind];
      rewrite temp_lookup; cbn [ok_or mbind result_bind];
      assert (p ++ [s] ≠ p ++ [tn]) as Hpne by (intros [_ ?]%app_inj_tail; done);
      unfold with_temp_file; rewrite lookup_insert_ne by done;
      destruct (t1 !! (p ++ [s])) as [n|] eqn:Hl; try done.
    2: { intros e w1 _ (Hfs & _ & Hm). apply HF; [by right| |done]. rewrite Hfs. apply placed_temp. }
    intros t' w1 [= <-] Hw1.
    set (t2 := <[p ++ [s] := File data 384 mt]> t1).
    assert (real t2 p) as Hr2 by (apply real_insert_file; [done|by rewrite Hl|apply snoc_ne]).
    assert (is_dir_node (t2 !! p) = true) as Hd2
      by (unfold t2; by rewrite lookup_insert_ne by (apply not_eq_sym, snoc_ne)).
    assert (t2 !! (p ++ [tn]) = None) as Hfree2 by (unfold t2; by rewrite lookup_insert_ne).
    assert (w_fs w1 = with_temp_file t2 p tn data 384 mt) as Hfs1.
    { rewrite (proj1 Hw1). unfold with_temp_file, t2. by rewrite insert_insert_ne. }
    assert (placed false data (with_temp_file t2 p tn data 384 mt)) as Hplaced.
    { destruct (temp_dir t2 p tn Hr2 Hd2 Hfree2 data 384 mt) as [Hr' Hd']. split; [done|]. split; [done|].
      right. split; [|done]. exists mt. unfold with_temp_file, t2.
      rewrite lookup_insert_ne by congruence. apply lookup_insert_eq. }
    apply wp_map_raise, fs_change_wp; cbv beta; rewrite Hfs1, ?temp_remove by done.
    2: done.
    2: intros text w2 Hf Hw2; apply HF; [by left|by rewrite (proj1 Hw2)|fs_eq].
    2: intros w2 Hk Hw2; apply HF; [done|by rewrite (proj1 Hw2)|fs_eq].
    intros t' w2 [= <-] Hw2. apply HR; [|done]. change (fs_step w w2 t2). clearbody t2. fs_eq.
Qed.

(** Why a commit can be refused: a length not as declared, a target that has
    come up meanwhile, or one without a proper name. *)
Definition commit_refused (overwrite : bool) (data : bytes) (size : N) : Prop :=
  lenN data ≠ size ∨ (overwrite = false ∧ t1 !! (p ++ [s]) ≠ None) ∨ ¬ name_ok s.

Lemma upload_commit_wp rid id size sha dur logical overwrite w data mt Φ :
  w_fs w = with_temp_file t1 p tn data 384 mt →
  uploads (w_mem w) !! id = Some (PendingUpload.Mk (p ++ [tn]) (p ++ [s]) logical overwrite) →
  (∀ op w', lenN data = size → (overwrite = false → t1 !! (p ++ [s]) = None) →
     w_fs w' = <[p ++ [s] := File data 384 mt]> t1 →
     uploads (w_mem w') = delete id (uploads (w_mem w)) →
     Φ (Returned (ResultBody.Transfer
          (TransferResult.Mk op TransferDirection.Upload logical size sha dur))) w') →
  (∀ o w', stopped (commit_refused overwrite data size) o →
     placed overwrite data (w_fs w') → uploads (w_mem w') = uploads (w_mem w) → Φ o w') →
  wp (upload_commit rid id size sha dur) w Φ.
Proof.
  intros Hw Hid HR HF. unfold upload_commit. apply wp_bind, wp_get_mem. rewrite Hid. apply wp_bind_Ok.
  cbn [PendingUpload.staging PendingUpload.target PendingUpload.logical_path].
  apply wp_bind, wp_map_raise, fs_metadata_wp. rewrite Hw.
  erewrite metadata_real; [|by apply temp_real|apply temp_lookup].
  split_and!; [|done|..].
  2: intros text w1 Hf (Hfs & _ & Hm); apply HF; [by left|rewrite Hfs, Hw; apply placed_temp|by rewrite Hm].
  2: intros w1 Hk (Hfs & _ & Hm); apply HF; [done|rewrite Hfs, Hw; apply placed_temp|by rewrite Hm].
  intros n w1 [= <-] Hw1. cbn [is_file_node negb].
  change (node_len (File data 384 mt)) with (lenN data).
  case_bool_decide as Hsize; cbn [negb].
  2: { destruct Hw1 as (Hfs & _ & Hm).
       apply wp_raise, HF; [right; by left|rewrite Hfs, Hw; apply placed_temp|by rewrite Hm]. }
  apply wp_bind. eapply (install_upload_wp _ _ w1 data mt); [by rewrite (proj1 Hw1)| |].
  2: { intros [[]|e|] w2 Ho Hpl Hm; [done| |apply HF; [done|done|rewrite Hm; by destruct Hw1 as (_ & _ & ->)]].
       apply HF; [|done|rewrite Hm; by destruct Hw1 as (_ & _ & ->)].
       destruct Ho as [?|?]; [by left|right; right; by left]. }
  intros w2 Hw2 Hnone.
  assert (∀ w3, w_fs w3 = w_fs w2 → uploads (w_mem w3) = uploads (w_mem w2) →
    placed overwrite data (w_fs w3) ∧ uploads (w_mem w3) = uploads (w_mem w)) as Hlater.
  { intros w3 Hfs Hm. destruct Hw1 as (_ & _ & Hm1), Hw2 as (Hf2 & _ & Hm2). split; [|congruence].
    rewrite Hfs, Hf2. by apply placed_installed. }
  apply wp_bind, wp_map_raise, fsync_any_wp.
  2: { intros o w3 Ho (Hfs & _ & Hm). destruct (Hlater w3 Hfs ltac:(by rewrite Hm)) as [Hpl Hup].
       destruct o as [[]|e|]; [done| |by apply HF]. apply HF; [|done|done].
       destruct Ho as [?|Hmeta]; [by left|right; right; right]. intros Hs. revert Hmeta.
       erewrite metadata_real; [done| |rewrite (proj1 Hw2); apply lookup_insert_eq].
       rewrite (proj1 Hw2). by apply real_insert_file_self. }
  intros w3 Hw3. apply wp_bind. eapply wp_mono; [|apply touches_next_operation_id].
  intros o4 w4 [Hw4 Ho4].
  assert (w_fs w4 = w_fs w2 ∧ uploads (w_mem w4) = uploads (w_mem w2)) as [Hf4 Hu4].
  { destruct Hw3 as (? & _ & Hm3), Hw4 as [? ?]. split; [congruence|]. by rewrite <- Hm3. }
  destruct (Hlater w4 Hf4 Hu4) as [Hpl4 Hup4].
  destruct o4 as [op|e|]; [|by apply HF; [apply faulty_stopped, Ho4|..]..].
  apply wp_bind, wp_now_ms. intros now. apply wp_bind.
  eapply wp_mono; [|apply touches_append_transfer_record].
  intros o5 w5 [Hw5 Ho5].
  destruct (Hlater w5 ltac:(rewrite <- Hf4; apply Hw5) ltac:(rewrite <- Hu4; apply Hw5)) as [Hpl5 Hup5].
  destruct o5 as [[]|e|]; [|by apply HF; [apply faulty_stopped, Ho5|..]..].
  apply wp_bind, wp_put_mem, wp_ret, HR; try done.
  - cbn. destruct Hw5 as [-> _], Hw4 as [-> _], Hw3 as (-> & _). apply Hw2.
  - cbn. destruct Hw5 as [_ ->], Hw4 as [_ ->], Hw3 as (_ & _ & ->), Hw2 as (_ & _ & ->), Hw1 as (_ & _ & ->).
    done.
Qed.
End commit.

(** ** Aborting *)

Section abort.
Context `{Env}.

Lemma upload_abort_wp t1 p tn id entry w data mt Φ :
  real t1 p → is_dir_node (t1 !! p) = true → name_ok tn → t1 !! (p ++ [tn]) = None →
  w_fs w = with_temp_file t1 p tn data 384 mt → uploads (w_mem w) !! id = Some entry →
  PendingUpload.staging entry = p ++ [tn] →
  (∀ w', w_fs w' = t1 → w_mem w' = set_uploads (delete id (uploads (w_mem w))) (w_mem w) →
     Φ (Returned (ResultBody.UploadAbort id)) w') →
  (∀ o w', faulty o → Φ o w') →
  wp (upload_abort id) w Φ.
Proof.
  intros Hr Hd Hn Hfree Hw Hid Hst HR HF. unfold upload_abort. apply wp_bind, wp_get_mem.
  rewrite Hid. apply wp_bind_Ok, wp_bind, wp_put_mem, wp_bind, wp_attempt. rewrite Hst.
  apply fs_change_wp; cbv beta; cbn [w_fs set_mem]; rewrite Hw, ?temp_remove by done.
  - intros t' w1 [= <-] (Hf & _ & Hm). apply wp_bind, wp_ret, wp_ret, HR; [done|]. by rewrite Hm.
  - done.
  - intros text w1 Hf _. apply wp_bind. rewrite decide_False by done. by apply wp_raise, HF.
  - intros w1 Hf _. by apply HF.
Qed.
End abort.
