(* ===== verification/Wire.v ===== *)
(** * Wire: what lies between the two ends of an upload

    The receiver process of an upload is this program again, started on the
    server's machine with the command line the client composes.  Between it
    and the client, and between client and server, there is what can go wrong:
    a [Wire] says what the pipes do to the bytes and the reports, what befalls
    the receiver's machine, which requests and answers are lost, and where the
    client dies.  [linked_receiver] and [lossy] are the receiver and the
    connection of [ClientTransfer.v] over a wire and a server in one world. *)

From S2P Require Import Prelude Text Protocol World Fs Hash FsSpec Workspace Jsonl Store StoreSpec.
From S2P Require Import FsOps Undo Prune Transfer TransferSpec Recovery Config Exec Server ServerSpec.
From S2P Require Import ClientApi Agreement ClientTransfer.

(** ** Paths as text *)

Lemma split_slash_name s : no_slash s = true → split_slash s = [s].
Proof.
  induction s as [|c s IH]; [done|]. cbn [lacks]. intros [Hc Hs]%andb_true_iff.
  rewrite negb_true_iff, Ascii.eqb_neq in Hc. specialize (IH Hs).
  destruct c as [[] [] [] [] [] [] [] []]; try done; cbn [split_slash]; by rewrite IH.
Qed.

Lemma split_slash_cons s rest :
  no_slash s = true → split_slash (s +:+ "/" +:+ rest) = s :: split_slash rest.
Proof.
  induction s as [|c s IH]; [done|]. cbn [lacks]. intros [Hc Hs]%andb_true_iff.
  rewrite negb_true_iff, Ascii.eqb_neq in Hc. specialize (IH Hs).
  change (split_slash (String c (s +:+ "/" +:+ rest)) = String c s :: split_slash rest).
  destruct c as [[] [] [] [] [] [] [] []]; try done; cbn [split_slash]; by rewrite IH.
Qed.

(** The path a text names. *)
Definition text_path (s : string) : path := normal_names (split_slash s).

Lemma text_path_text p :
  p ≠ [] → Forall name_ok p → Forall (λ s, no_slash s = true) p → text_path (path_text p) = p.
Proof.
  intros Hne Hok Hns. unfold text_path, path_text.
  change (split_slash ("/" +:+ join_slash p)) with ("" :: split_slash (join_slash p)).
  assert (split_slash (join_slash p) = p) as ->.
  { unfold join_slash. clear Hok. induction Hns as [|s p Hs Hns IH]; [done|].
    destruct p as [|s' p]; [by apply split_slash_name|].
    change (split_slash (s +:+ "/" +:+ String.concat "/" (s' :: p)) = s :: s' :: p).
    rewrite split_slash_cons by done. by rewrite IH. }
  change (normal_names ("" :: p)) with (normal_names p). by apply normal_names_id.
Qed.

(** ** The receiver's command line *)

(** The words the operating system is given: [ssh] hands its command to a
    shell. *)
Definition words_run (argv : list string) : option (list string) :=
  match argv with
  | [program; _; _; _; _; _; _; _; cmd] =>
      if decide (program = "ssh") then sh_words Between cmd else Some argv
  | _ => Some argv
  end.

(** The command line of [--transfer-receive]. *)
Definition receive_options (bin : string) (words : list string) : option (path * N) :=
  match words with
  | [program; flag; staging; size_flag; n] =>
      if decide (program = bin ∧ flag = "--transfer-receive" ∧ size_flag = "--expect-size")
      then pair (text_path staging) <$> parse_u64 n else None
  | _ => None
  end.
Definition receiver_args (bin : string) (argv : list string) : option (path * N) :=
  words_run argv ≫= receive_options bin.

Lemma receiver_args_of endpoint staging n :
  (n <= u64_max)%N →
  receiver_args (endpoint_bin endpoint) (Endpoint.transfer_receive_argv endpoint staging n)
  = Some (text_path staging, n).
Proof.
  intros Hn. assert (∀ bin, receive_options bin (Endpoint.receive_command bin staging n)
    = Some (text_path staging, n)) as Hopt.
  { intros bin. unfold receive_options, Endpoint.receive_command.
    by rewrite decide_True, parse_u64_pretty. }
  unfold receiver_args. destruct endpoint as [bin root sb cfg|host bin root sb cfg];
    cbn [Endpoint.transfer_receive_argv]; [apply Hopt|].
  unfold words_run, ssh_argv. rewrite decide_True by done.
  change (shell_quote <$> ?l) with (Exec.shell_quote <$> l). rewrite sh_words_argv. apply Hopt.
Qed.

(** ** Wires *)

(** What the client learns of a receiver that has ended: all, or that its
    output or its exit could not be read, or an exit that is a failure (as
    [ssh] has when the connection breaks). *)
Inductive report := Truthful | NoOutput (e : io.Error) | NoStatus (e : io.Error) | Broken (text : string).

Definition reported (r : report) (out : bytes) (status : ExitStatus)
    : result io.Error bytes * result io.Error ExitStatus :=
  match r with
  | Truthful => (Ok out, Ok status)
  | NoOutput e => (Err e, Ok status)
  | NoStatus e => (Ok out, Err e)
  | Broken text => (Ok out, Ok (MkExit false text))
  end.

(** What becomes of a request: it does not get there, or its answer does not
    come back, or the client dies before or after it is executed. *)
Inductive fate := Delivered | Unsent (e : ClientError) | AnswerLost (e : ClientError) | DiesBefore | DiesAfter.

(** Every field may depend on the command line and on what was sent. *)
Record Wire := MkWire {
  wire_spawn : list string → result io.Error unit;
  wire_write : list string → bytes → bytes → result io.Error unit;
  wire_close : list string → bytes → result io.Error unit;
  (** what the receiver reads: cut, cut short, altered, or failing *)
  wire_input : list string → bytes → list (result io.Error bytes);
  (** what befalls it: failing calls, and its death *)
  wire_env : list string → bytes → Env;
  wire_report : list string → bytes → report;
  (** the client dies while it waits for the receiver *)
  wire_dies : list string → bytes → bool;
  wire_fate : world → RequestBody → fate }.

(** Nothing goes wrong. *)
Record sound_wire (W : Wire) : Prop := {
  sound_spawn argv : wire_spawn W argv = Ok tt;
  sound_write argv sent chunk : wire_write W argv sent chunk = Ok tt;
  sound_close argv sent : wire_close W argv sent = Ok tt;
  sound_input argv sent : flat (wire_input W argv sent) = sent ∧ ∀ e, Err e ∉ wire_input W argv sent;
  sound_env argv sent : @FaultFree (wire_env W argv sent);
  sound_report argv sent : wire_report W argv sent = Truthful;
  sound_dies argv sent : wire_dies W argv sent = false;
  sound_fate w body : wire_fate W w body = Delivered }.

Section ends.
Context `{Sha256} `{JsonCodec ReceiveMetadata.ReceiveMetadata} (bin : string) (W : Wire).

(** The run of a receiver process: what it prints, and its exit. *)
Definition receiver_run (argv : list string) (sent : bytes) (w : world) : bytes * ExitStatus * world :=
  match receiver_args bin argv with
  | None => ([], MkExit false "exit status: 2", w)
  | Some (staging, n) =>
      match run_transfer_receive (H := wire_env W argv sent) staging (wire_input W argv sent) n w with
      | (Returned meta, w') => (json meta ++ [nl], MkExit true "exit status: 0", w')
      | (Raised _, w') => ([], MkExit false "exit status: 1", w')
      | (Killed, w') => ([], MkExit false "signal: 9 (SIGKILL)", w')
      end
  end.

(** Its effects are those it has by the time the client goes on; a receiver
    the client kills has run like any other, on what it got to read. *)
Definition linked_receiver : ReceiverProcess := {|
  receiver_spawn := wire_spawn W;
  receiver_write := wire_write W;
  receiver_close := wire_close W;
  receiver_finish argv sent := λ w,
    let '(out, status, w') := receiver_run argv sent w in
    (if wire_dies W argv sent then Killed else Returned (reported (wire_report W argv sent) out status), w');
  receiver_kill argv sent := λ w,
    let '(_, _, w') := receiver_run argv sent w in
    (if wire_dies W argv sent then Killed else Returned tt, w') |}.

(** A connection over the wire. *)
Definition lossy (c : Connection) : Connection := {|
  send_request_with_timeout body timeout := λ w,
    let '(o, w') := send_request_with_timeout (Connection := c) body timeout w in
    match wire_fate W w body with
    | Delivered => (o, w')
    | Unsent e => (Raised e, w)
    | AnswerLost e => (Raised e, w')
    | DiesBefore => (Killed, w)
    | DiesAfter => (Killed, w')
    end |}.
End ends.
