(* ===== verification/UploadSpec.v ===== *)
(** * UploadSpec: an upload puts the local file there

    The client's upload driver of [ClientTransfer.v] over the server's handlers
    and a receiver process on the server's machine, on which anything may fail,
    and a [Wire.v] between them that loses and alters what it carries: an upload
    that succeeds has installed the local file, one that does not leaves the
    target alone or complete, and one nothing goes wrong with succeeds. *)

From S2P Require Import Prelude Text Protocol World Fs Hash FsSpec Workspace Jsonl Store StoreSpec.
From S2P Require Import FsOps Undo Prune Transfer TransferSpec Recovery Config Exec Server ServerSpec.
From S2P Require Import ClientApi Agreement ClientTransfer Tables UploadHandlers Wire.

(** ** The client, the wire and the server's machine *)

Section linked.
Context `{Env} `{Sha256} `{HashIter} `{TempfileLaws} `{Processes} `{TomlConfig}.
Context `{JsonCodec AnyOperationRecord} `{JsonCodec RequestLogLine}.
Context `{JsonCodecLaws ReceiveMetadata.ReceiveMetadata}.
Context (next_request_id : world → string).
Context (Hfresh : ∀ w, requests (w_mem w) !! next_request_id w = None).
Context (srv : Server) (W : Wire) (endpoint : Endpoint).
#[local] Instance receiver : ReceiverProcess := linked_receiver (endpoint_bin endpoint) W.
#[local] Instance connection : Connection := lossy W (linked next_request_id srv).

(** A call that does not return although nothing stands in its way met a
    fault, of the wire or of the machine. *)
Definition with_cause (good : Prop) : Prop := sound_wire W → good → fails ∨ dies.

Lemma faulty_cause {E A} (o : outcome E A) good : faulty o → with_cause good.
Proof. unfold with_cause. destruct o; cbn; tauto. Qed.
Lemma stopped_cause {E A} (o : outcome E A) (P good : Prop) :
  stopped P o → (P → ¬ good) → with_cause good.
Proof. unfold with_cause. destruct o; cbn; tauto. Qed.
Lemma unsound_cause good : ¬ sound_wire W → with_cause good.
Proof. by intros Hw Hs. Qed.
Lemma with_cause_mono (good good' : Prop) : (good' → good) → with_cause good → with_cause good'.
Proof. unfold with_cause. tauto. Qed.

(** The bytes are the same, or SHA-256 has collided. *)
Definition intact (received data : bytes) : Prop :=
  received = data ∨ received ≠ data ∧ lenN received = lenN data ∧ hash_bytes received = hash_bytes data.

Lemma intact_same received data :
  lenN received = lenN data → hash_bytes received = hash_bytes data → intact received data.
Proof. intros Hl Hh. destruct (decide (received = data)); [by left|by right]. Qed.
Lemma intact_length received data : intact received data → lenN received = lenN data.
Proof. by intros [->|(_ & ? & _)]. Qed.

(** ** Requests over the wire *)

(** The request gets to the server and its answer back, or the call ends
    without one, before or after the server has executed it. *)
Lemma send_request_wp body w Φ :
  wp (handle srv (Request.Mk (next_request_id w) body)) w (λ o w',
    (match o with
     | Returned msg => Φ (Returned (next_request_id w, msg)) w'
     | _ => Φ (Raised ClientError.Closed) w'
     end) ∧
    (¬ sound_wire W → (∀ e, Φ (Raised e) w') ∧ Φ Killed w')) →
  (¬ sound_wire W → (∀ e, Φ (Raised e) w) ∧ Φ Killed w) →
  wp (Client.send_request body) w Φ.
Proof.
  unfold wp, Client.send_request. cbn.
  destruct (handle _ _ w) as [o w'] eqn:Hh. cbn. intros [Ho Hlost] Hunsent.
  destruct (wire_fate W w body) eqn:Hf.
  - by destruct o.
  - destruct Hunsent as [HE _]; [intros Hs; by rewrite (sound_fate W Hs) in Hf|]. destruct o; apply HE.
  - destruct Hlost as [HE _]; [intros Hs; by rewrite (sound_fate W Hs) in Hf|]. destruct o; apply HE.
  - destruct Hunsent as [_ HK]; [intros Hs; by rewrite (sound_fate W Hs) in Hf|]. by destruct o.
  - destruct Hlost as [_ HK]; [intros Hs; by rewrite (sound_fate W Hs) in Hf|]. by destruct o.
Qed.

Section one_upload.
Context (remote_path : string) (overwrite : bool) (p : path) (s : string).
Context (Hslash : Forall (λ x, no_slash x = true) (p ++ [s])).

(** The target has not the name of a staging file itself, which a sweep might
    take. *)
Definition left_alone (t t' : tree) : Prop :=
  is_staging_name s = false → t' !! (p ++ [s]) = t !! (p ++ [s]).

Lemma swept_target in_flight max_age t t' : swept in_flight max_age t t' → left_alone t t'.
Proof.
  intros Hsw Hst. destruct (Hsw (p ++ [s])) as [?|[_ (d & name & ? & ? & ? & ? & Hq & Hn & _)]]; [done|].
  apply app_inj_tail in Hq as [_ <-]. congruence.
Qed.

Lemma temp_target_alone t tn data mt : s ≠ tn → with_temp_file t p tn data 384 mt !! (p ++ [s]) = t !! (p ++ [s]).
Proof. intros Hne. unfold with_temp_file. rewrite lookup_insert_ne; [done|]. by intros [_ ?]%app_inj_tail. Qed.

Lemma client_prepare_wp w Φ :
  resolve (w_fs w) (Server.workspace srv) remote_path = Ok (p ++ [s]) →
  real (w_fs w) p → is_dir_node (w_fs w !! p) = true →
  (∀ t1 tn id w', swept (in_flight_staging (uploads (w_mem w))) STALE_STAGING_MAX_AGE (w_fs w) t1 →
     prepared remote_path overwrite p s t1 (w_mem w) tn id w' →
     Φ (Returned (UploadPrepareResult.Mk id (path_text (p ++ [tn])))) w') →
  (∀ o w', not_returned o → with_cause (free_for_upload overwrite p s (w_fs w) = true) →
     left_alone (w_fs w) (w_fs w') → Φ o w') →
  wp (Client.upload_prepare remote_path overwrite) w Φ.
Proof.
  intros Hres Hr Hd HR HF. unfold Client.upload_prepare. apply wp_bind, send_request_wp.
  2: { intros Hw. split; [intros e|]; (apply HF; [done|by apply unsound_cause|done]). }
  unfold handle. cbn [Request.body Request.request_id]. apply wp_bind, wp_attempt.
  eapply upload_prepare_wp; [done..| |].
  - intros t1 tn id w' Hsw Hprep. apply wp_ret. cbn [message_of]. split.
    + apply wp_bind_Ok, wp_ret. by eapply HR.
    + assert (left_alone (w_fs w) (w_fs w')) as Hal.
      { destruct Hprep as (_ & _ & _ & Hst & _ & _ & _ & [mt Hw'] & _). intros Hname.
        rewrite Hw', temp_target_alone by (by eapply staging_for_ne). by eapply swept_target. }
      intros Hw. split; [intros e|]; (apply HF; [done|by apply unsound_cause|done]).
  - intros o w' Ho Hsw%swept_target.
    assert (with_cause (free_for_upload overwrite p s (w_fs w) = true)) as Hc
      by (eapply stopped_cause; [exact Ho|congruence]).
    destruct o as [a|e|]; [done| |].
    + apply wp_ret. cbn [message_of]. split; [|by intros _; split; [intros e'|]; apply HF].
      apply wp_bind, wp_lift; [done|intros e' _; by apply HF].
    + split; [by apply HF|]. by intros _; split; [intros e'|]; apply HF.
Qed.

(** What the server has registered under [id], if anything, is staged as [tn]. *)
Definition staged_as (tn id : string) (w : world) : Prop :=
  ∀ entry, uploads (w_mem w) !! id = Some entry → PendingUpload.staging entry = p ++ [tn].

(** The answer is an error, or there is none. *)
Definition no_result {E} (o : outcome E ServerMessage) : Prop :=
  match o with Returned (ServerMessage.Result _ _) => False | _ => True end.

(** The claim of the commit goes through, and touches the store only. *)
Lemma handle_commit_wp rid t1 tn id size sha dur w data mt Φ :
  requests (w_mem w) !! rid = None →
  real t1 p → is_dir_node (t1 !! p) = true → name_ok tn → t1 !! (p ++ [tn]) = None → s ≠ tn →
  is_dir_node (t1 !! (p ++ [s])) = false → w_fs w = with_temp_file t1 p tn data 384 mt →
  uploads (w_mem w) !! id = Some (PendingUpload.Mk (p ++ [tn]) (p ++ [s]) remote_path overwrite) →
  (∀ op w', lenN data = size → (overwrite = false → t1 !! (p ++ [s]) = None) →
     w_fs w' = <[p ++ [s] := File data 384 mt]> t1 →
     uploads (w_mem w') = delete id (uploads (w_mem w)) →
     Φ (Returned (ServerMessage.Result rid (ResultBody.Transfer
          (TransferResult.Mk op TransferDirection.Upload remote_path size sha dur)))) w') →
  (∀ o w', no_result o → with_cause (¬ commit_refused t1 p s overwrite data size) →
     placed t1 p s overwrite data (w_fs w') → staged_as tn id w' → Φ o w') →
  wp (handle srv (Request.Mk rid (RequestBody.UploadCommit id size sha dur))) w Φ.
Proof.
  intros Hnew Hr Hd Hn Hfree Hne Hnd Hw Hid HR HF. rewrite handle_claims by done. unfold claim_and_dispatch.
  cbn [Request.body Request.request_id].
  assert (∀ w', w_fs w' = w_fs w → uploads (w_mem w') = uploads (w_mem w) →
    placed t1 p s overwrite data (w_fs w') ∧ staged_as tn id w') as Hbefore.
  { intros w' Hf Hu. rewrite Hf, Hw. split; [by apply placed_temp|]. intros entry. rewrite Hu, Hid. by intros [= <-]. }
  apply wp_bind, wp_attempt.
  apply (wp_and _ _ _ _ (touches_claim_request rid "upload_commit" w)), claim_request_new; [done|..].
  2: { intros e w1 [[Hf1 Hu1] Ho]. destruct (Hbefore w1 Hf1 Hu1).
       apply wp_ret, HF; [done|by eapply faulty_cause, Ho|done..]. }
  2: { intros w1 [[Hf1 Hu1] Ho]. destruct (Hbefore w1 Hf1 Hu1). apply HF; [done|by eapply faulty_cause, Ho|done..]. }
  intros w1 [[Hf1 Hu1] _]. cbn [dispatch]. unfold finishing. apply wp_bind, wp_attempt.
  eapply (upload_commit_wp t1 p s tn Hr Hd Hn Hfree Hne Hnd _ id _ _ _ _ _ w1 data mt);
    [by rewrite Hf1|by rewrite Hu1|..].
  - intros op w2 Hsize Hnone Hf2 Hu2.
    assert (∀ w3, w_fs w3 = w_fs w2 → uploads (w_mem w3) = uploads (w_mem w2) →
      placed t1 p s overwrite data (w_fs w3) ∧ staged_as tn id w3) as Hdone.
    { intros w3 Hf3 Hu3. rewrite Hf3, Hf2. split; [by apply placed_installed|].
      intros entry. by rewrite Hu3, Hu2, lookup_delete_eq. }
    unfold finish_. apply wp_bind, wp_attempt.
    eapply wp_mono; [|apply touches_remember_result].
    intros [[]|e|] w3 [[Hf3 Hu3] Ho]; cbn; [|destruct (Hdone w3 Hf3 Hu3)..].
    + eapply (HR op w3); [done..|by rewrite Hf3|by rewrite Hu3, Hu2, Hu1].
    + apply HF; [done|by eapply (faulty_cause (Raised e)), Ho|done..].
    + apply HF; [done|by eapply faulty_cause, Ho|done..].
  - intros o w2 Ho Hpl Hu2.
    assert (with_cause (¬ commit_refused t1 p s overwrite data size)) as Hc
      by (eapply stopped_cause; [exact Ho|tauto]).
    assert (∀ w3, w_fs w3 = w_fs w2 → uploads (w_mem w3) = uploads (w_mem w2) →
      placed t1 p s overwrite data (w_fs w3) ∧ staged_as tn id w3) as Hstill.
    { intros w3 Hf3 Hu3. rewrite Hf3. split; [done|].
      intros entry. rewrite Hu3, Hu2, Hu1, Hid. by intros [= <-]. }
    destruct (Hstill w2 eq_refl eq_refl) as [Hpl2 Hst2].
    destruct o as [a|e|]; [done| |by apply HF]. unfold finish_, finish_err. apply wp_bind, wp_attempt.
    eapply wp_mono; [|apply touches_remember_error].
    intros o3 w3 [[Hf3 Hu3] _]. destruct (Hstill w3 Hf3 Hu3). by destruct o3; apply HF.
Qed.

Lemma client_commit_wp t1 tn id size sha dur w data mt Φ :
  real t1 p → is_dir_node (t1 !! p) = true → name_ok tn → t1 !! (p ++ [tn]) = None → s ≠ tn →
  is_dir_node (t1 !! (p ++ [s])) = false → w_fs w = with_temp_file t1 p tn data 384 mt →
  uploads (w_mem w) !! id = Some (PendingUpload.Mk (p ++ [tn]) (p ++ [s]) remote_path overwrite) →
  (∀ op w', lenN data = size → (overwrite = false → t1 !! (p ++ [s]) = None) →
     w_fs w' = <[p ++ [s] := File data 384 mt]> t1 →
     Φ (Returned (TransferResult.Mk op TransferDirection.Upload remote_path size sha dur)) w') →
  (∀ o w', not_returned o → with_cause (¬ commit_refused t1 p s overwrite data size) →
     placed t1 p s overwrite data (w_fs w') → staged_as tn id w' → Φ o w') →
  wp (Client.upload_commit id size sha dur) w Φ.
Proof.
  intros Hr Hd Hn Hfree Hne Hnd Hw Hid HR HF. unfold Client.upload_commit. apply wp_bind, send_request_wp.
  2: { assert (placed t1 p s overwrite data (w_fs w)) by (rewrite Hw; by apply placed_temp).
       assert (staged_as tn id w) by (intros entry; rewrite Hid; by intros [= <-]).
       intros Hwire. split; [intros e|]; (apply HF; [done|by apply unsound_cause|done..]). }
  eapply (handle_commit_wp _ t1 tn); [apply Hfresh|done..| |].
  - intros op w' Hsize Hnone Hf Hu. split; [by apply wp_bind_Ok, wp_ret, HR|].
    assert (placed t1 p s overwrite data (w_fs w')) by (rewrite Hf; by apply placed_installed).
    assert (staged_as tn id w') by (intros entry; by rewrite Hu, lookup_delete_eq).
    intros Hwire. split; [intros e|]; (apply HF; [done|by apply unsound_cause|done..]).
  - intros o w' Ho Hc Hpl Hst. split; [|by intros _; split; [intros e|]; apply HF].
    destruct o as [[i b|i e]|e|]; [done| |by apply HF..].
    apply wp_bind, wp_lift; [done|intros e' _; by apply HF].
Qed.

(** ** The stream *)

Lemma stream_loop_all argv reads sent sent' :
  stream_loop argv reads sent = (sent', Ok tt) → sent' = sent ++ flat reads.
Proof.
  revert sent. induction reads as [|[[|b chunk]|e] reads IH]; intros sent; cbn [stream_loop flat];
    [intros [= <-]; by rewrite app_nil_r..| |done].
  destruct (receiver_write _ _ _) as [|e]; [|done].
  intros Hs. apply IH in Hs. by rewrite Hs, <- (assoc_L (++)).
Qed.

(** A source that can be read, and yields as much as its size says. *)
Definition streamable (src : LocalSource) (size : N) : Prop :=
  source_open src = Ok tt ∧ (∀ e, Err e ∉ source_reads src) ∧ lenN (flat (source_reads src)) = size.

Lemma stream_source_streamable argv src size :
  sound_wire W → streamable src size → (stream_source argv (source_reads src) size).2 = Ok tt.
Proof.
  intros Hs (_ & Hread & Hlen). unfold stream_source.
  assert (∀ sent, stream_loop argv (source_reads src) sent = (sent ++ flat (source_reads src), Ok tt)) as Hall.
  { revert Hread. generalize (source_reads src) as reads. clear -Hs.
    induction reads as [|[[|b chunk]|e] reads IH]; intros Hread sent; cbn [stream_loop flat].
    1,2: by rewrite app_nil_r.
    - change (receiver_write argv sent (b :: chunk)) with (wire_write W argv sent (b :: chunk)). rewrite (sound_write W Hs), IH by set_solver.
      by rewrite <- (assoc_L (++)).
    - destruct (Hread e). set_solver. }
  rewrite Hall. cbn. rewrite bool_decide_true by done. cbn. by rewrite (sound_close W Hs).
Qed.

(** The receiver has written to its staging file and nowhere else; and it
    succeeds only with what it read, as much as announced, and says so. *)
Lemma receiver_run_spec argv sent t1 tn n w data mt :
  real t1 p → is_dir_node (t1 !! p) = true → name_ok tn → t1 !! (p ++ [tn]) = None →
  receiver_args (endpoint_bin endpoint) argv = Some (p ++ [tn], n) →
  w_fs w = with_temp_file t1 p tn data 384 mt →
  let '(out, status, w') := receiver_run (endpoint_bin endpoint) W argv sent w in
  ∃ received mt', fs_step w w' (with_temp_file t1 p tn received 384 mt') ∧
    if success status then received = flat (wire_input W argv sent) ∧ lenN received = n ∧
      out = json (ReceiveMetadata.Mk n (hash_bytes received)) ++ [nl]
    else out = [] ∧ (sound_wire W → lenN sent ≠ n).
Proof.
  intros Hr Hd Hn Hfree Hargs Hw. unfold receiver_run. rewrite Hargs.
  set (input := wire_input W argv sent).
  assert (wp (run_transfer_receive (H := wire_env W argv sent) (p ++ [tn]) input n) w
    (λ o w', ∃ received mt', fs_step w w' (with_temp_file t1 p tn received 384 mt') ∧
      match o with
      | Returned meta => received = flat input ∧ lenN received = n ∧
          meta = ReceiveMetadata.Mk n (hash_bytes received)
      | o => stopped (H := wire_env W argv sent) (lenN (flat input) ≠ n ∨ ∃ e, Err e ∈ input) o
      end)) as Hrun.
  { eapply (run_transfer_receive_wp (H := wire_env W argv sent)); [done..|exact Hw| |].
    - intros w' mt' Hlen Hw'. by exists (flat input), mt'.
    - intros o w' data' mt' Ho Hw'. exists data', mt'. split; [done|]. by destruct o. }
  unfold wp in Hrun.
  assert (∀ o : outcome string ReceiveMetadata.ReceiveMetadata,
    stopped (H := wire_env W argv sent) (lenN (flat input) ≠ n ∨ ∃ e, Err e ∈ input) o →
    sound_wire W → lenN sent ≠ n) as Hwhy.
  { intros o Ho Hs. pose proof (sound_env W Hs argv sent) as Hff.
    destruct (sound_input W Hs argv sent) as [Hflat Herr]. fold input in Hflat, Herr. rewrite Hflat in Ho.
    destruct o as [|e|]; [done| |by apply fault_free_dies in Ho].
    destruct Ho as [Ho%fault_free_fails|[Ho|[e' He]]]; [done|done|by apply Herr in He]. }
  destruct (run_transfer_receive _ _ _ w) as [[meta|e|] w']; cbn [fst snd success] in *;
    destruct Hrun as (received & mt' & Hw' & Ho); exists received, mt'; (split; [exact Hw'|]).
  - destruct Ho as (? & ? & ->). done.
  - split; [done|]. by eapply (Hwhy (Raised e)).
  - split; [done|]. by eapply (Hwhy Killed).
Qed.

(** What the client makes of a receiver's end. *)
Lemma report_checked (argv : list string) sent n received status out r Φ (w : world) :
  (if success status then lenN received = n ∧ out = json (ReceiveMetadata.Mk n (hash_bytes received)) ++ [nl]
   else out = []) →
  (success status = true → hash_bytes received = hash_bytes sent → Φ (Returned (hash_bytes sent)) w) →
  (∀ e, (r = Truthful → success status = true → hash_bytes received ≠ hash_bytes sent) →
     Φ (Raised e) w) →
  let '(out', status') := reported r out status in
  wp (out ← lift (map_err (λ e, transfer_err ("read receiver metadata: " +:+ io.to_string e)) (out' ≫= utf8_or));
      status ← lift (map_err (λ e, transfer_err ("wait for receiver: " +:+ io.to_string e)) status');
      if negb (success status) then raise (transfer_err ("transfer receiver failed with " +:+ status_text status))
      else
        remote ← lift (receiver_metadata out);
        let local_sha := hash_bytes sent in
        if negb (bool_decide (ReceiveMetadata.size remote = n)
                 && bool_decide (ReceiveMetadata.sha256 remote = local_sha)) then
          raise (transfer_err ("upload verification failed: local " +:+ pretty n +:+ " bytes "
            +:+ local_sha +:+ ", remote " +:+ pretty (ReceiveMetadata.size remote)
            +:+ " bytes " +:+ ReceiveMetadata.sha256 remote))
        else mret local_sha) w Φ.
Proof.
  intros Hstat HR HE.
  assert (∀ bs, bs = out → wp (lift (map_err (λ e, transfer_err ("read receiver metadata: " +:+ io.to_string e))
    (Ok bs ≫= utf8_or))) w (λ o w', w' = w ∧ o = Returned bs)) as Hutf.
  { intros bs ->. cbn. unfold utf8_or. destruct (success status).
    - destruct Hstat as [_ ->]. by rewrite utf8_valid_app by apply json_utf8.
    - by rewrite Hstat. }
  assert (∀ bs Ψ, bs = out → Ψ (Returned bs) w → wp (lift (map_err (λ e, transfer_err ("read receiver metadata: " +:+ io.to_string e))
    (Ok bs ≫= utf8_or))) w Ψ) as Hutf'.
  { intros bs Ψ Hbs HΨ. eapply wp_mono; [|by apply Hutf]. by intros o w' [-> ->]. }
  destruct r as [|e|e|text]; cbn [reported].
  - apply wp_bind, Hutf'; [done|]. apply wp_bind_Ok. destruct (success status) eqn:Hsu; cbn [negb].
    2: { apply wp_raise, HE. done. }
    destruct Hstat as [Hlen ->]. unfold receiver_metadata. rewrite json_trim_line, from_json_json.
    apply wp_bind_Ok. cbn [ReceiveMetadata.size ReceiveMetadata.sha256].
    rewrite (bool_decide_true (n = n)) by done. cbn [andb].
    case_bool_decide as Hh; cbn [negb]; [by apply wp_ret, HR|by apply wp_raise, HE].
  - apply wp_bind, wp_lift; [done|]. intros e' _. by apply HE.
  - apply wp_bind, Hutf'; [done|]. apply wp_bind, wp_lift; [done|]. intros e' _. by apply HE.
  - apply wp_bind, Hutf'; [done|]. apply wp_bind_Ok. cbn [success negb]. by apply wp_raise, HE.
Qed.

Lemma stream_to_receiver_wp src size t1 tn w data mt Φ :
  real t1 p → is_dir_node (t1 !! p) = true → name_ok tn → t1 !! (p ++ [tn]) = None →
  no_slash tn = true → (size <= u64_max)%N → w_fs w = with_temp_file t1 p tn data 384 mt →
  (∀ received w' mt', lenN (flat (source_reads src)) = size →
     intact received (flat (source_reads src)) → (sound_wire W → received = flat (source_reads src)) →
     fs_step w w' (with_temp_file t1 p tn received 384 mt') →
     Φ (Returned (hash_bytes (flat (source_reads src)))) w') →
  (∀ o w' received mt', not_returned o → with_cause (streamable src size) →
     fs_step w w' (with_temp_file t1 p tn received 384 mt') → Φ o w') →
  wp (stream_to_receiver endpoint src size (path_text (p ++ [tn]))) w Φ.
Proof.
  intros Hr Hd Hn Hfree Hns Hsz Hw HR HF. unfold stream_to_receiver.
  assert (text_path (path_text (p ++ [tn])) = p ++ [tn]) as Htp.
  { apply text_path_text; [by destruct p| |].
    - apply Forall_app. split; [by apply (real_names t1)|by constructor].
    - apply Forall_app in Hslash as [? _]. apply Forall_app. split; [done|by constructor]. }
  set (argv := Endpoint.transfer_receive_argv _ _ _).
  assert (receiver_args (endpoint_bin endpoint) argv = Some (p ++ [tn], size)) as Hargs
    by (unfold argv; by rewrite receiver_args_of, Htp).
  apply wp_bind, wp_lift.
  2: { intros e He. apply (HF _ _ data mt); [done| |by rewrite <- Hw]. apply unsound_cause. intros Hs.
       cbn in He. by rewrite (sound_spawn W Hs) in He. }
  intros [] _. pose proof (λ sent, receiver_run_spec argv sent t1 tn size w data mt Hr Hd Hn Hfree Hargs Hw) as Hrun.
  assert (∀ sent (e : ClientError), with_cause (streamable src size) →
    wp (receiver_kill argv sent ;; raise e) w Φ) as Hkill.
  { intros sent e Hc. specialize (Hrun sent). unfold wp. cbn.
    unfold mbind, M_bind. destruct (receiver_run _ _ _ _ w) as [[out status] w'].
    destruct Hrun as (received & mt' & Hw' & _).
    destruct (wire_dies W argv sent); cbn; by apply (HF _ _ received mt'). }
  destruct (source_open src) as [[]|e] eqn:Hopen.
  2: { apply Hkill. intros _ (? & _). congruence. }
  destruct (stream_source argv (source_reads src) size) as [sent r] eqn:Hs.
  destruct r as [[]|e].
  2: { apply Hkill. intros Hsound Hst%(stream_source_streamable argv); [|done]. by rewrite Hs in Hst. }
  assert (sent = flat (source_reads src) ∧ lenN sent = size) as [-> Hlen].
  { unfold stream_source in Hs. destruct (stream_loop argv (source_reads src) []) as [sent' r'] eqn:Hl.
    injection Hs as <- Hs. destruct r' as [[]|e]; [|done]. cbn [mbind result_bind] in Hs.
    case_bool_decide as Hlen; cbn [negb] in Hs; [|done]. apply stream_loop_all in Hl. by subst sent'. }
  set (sent := flat (source_reads src)) in *. specialize (Hrun sent).
  apply wp_bind. unfold wp at 1. cbn [receiver_finish linked_receiver receiver].
  destruct (receiver_run _ W argv sent w) as [[out status] w']. destruct Hrun as (received & mt' & Hw' & Hstat).
  destruct (wire_dies W argv sent) eqn:Hdies; cbn [fst snd].
  { apply (HF _ _ received mt'); [done| |done]. apply unsound_cause. intros Hsound.
    by rewrite (sound_dies W Hsound) in Hdies. }
  pose proof (report_checked argv sent size received status out (wire_report W argv sent) Φ w') as Hrep.
  destruct (reported _ out status) as [out' status'] eqn:Hreported. apply Hrep.
  - destruct (success status); [by destruct Hstat as (_ & ? & ?)|by destruct Hstat].
  - intros Hsu Hh. rewrite Hsu in Hstat. destruct Hstat as (Hrec & Hl & _).
    apply (HR received w' mt'); [done| | |done].
    + apply intact_same; [congruence|done].
    + intros Hsound. rewrite Hrec. apply (sound_input W Hsound).
  - intros e He. apply (HF _ _ received mt'); [done| |done]. apply unsound_cause. intros Hsound.
    destruct (success status).
    + apply He; [by apply sound_report|done|]. destruct Hstat as (-> & _ & _). f_equal. apply (sound_input W Hsound).
    + destruct Hstat as [_ Hne]. by apply Hne.
Qed.

(** ** The whole upload *)

(** An upload that nothing stands in the way of. *)
Definition uploadable (src : LocalSource) (t : tree) : Prop :=
  free_for_upload overwrite p s t = true ∧ name_ok s ∧
  ∃ stat mode mtime, source_metadata src = Ok (File stat mode mtime) ∧ streamable src (lenN stat).

(** The local source, as the client reads it, is [data], and as much as its
    metadata says. *)
Definition local_data (src : LocalSource) (data : bytes) : Prop :=
  data = flat (source_reads src) ∧
  ∃ stat mode mtime, source_metadata src = Ok (File stat mode mtime) ∧ lenN stat = lenN data.

(** The result [r] is that of an upload which has installed the source. *)
Definition delivered (src : LocalSource) (dur : N) (w : world) (r : TransferResult) (w' : world) : Prop :=
  ∃ op data received t1 mt,
    local_data src data ∧
    r = TransferResult.Mk op TransferDirection.Upload remote_path (lenN data) (hash_bytes data) dur ∧
    swept (in_flight_staging (uploads (w_mem w))) STALE_STAGING_MAX_AGE (w_fs w) t1 ∧
    (overwrite = false → t1 !! (p ++ [s]) = None) ∧
    w_fs w' = <[p ++ [s] := File received 384 mt]> t1 ∧
    intact received data ∧ (sound_wire W → received = data).

(** The target is as it was before the upload, or it is complete. *)
Definition target_spared (src : LocalSource) (t t' : tree) : Prop :=
  t' !! (p ++ [s]) = t !! (p ++ [s]) ∨
  (∃ data received mt, local_data src data ∧ t' !! (p ++ [s]) = Some (File received 384 mt) ∧
     intact received data) ∧
  (overwrite = false → t !! (p ++ [s]) = None).

Definition spared (src : LocalSource) (w w' : world) : Prop :=
  is_staging_name s = false → target_spared src (w_fs w) (w_fs w').

(** Taking back the upload leaves the target alone. *)
Lemma upload_abort_keeps tn id w :
  real (w_fs w) p → is_dir_node (w_fs w !! p) = true → s ≠ tn → staged_as tn id w →
  wp (upload_abort id) w (λ _ w', w_fs w' !! (p ++ [s]) = w_fs w !! (p ++ [s])).
Proof.
  intros Hr Hd Hne Hst. unfold upload_abort. apply wp_bind, wp_get_mem.
  destruct (uploads (w_mem w) !! id) as [entry|] eqn:Hid; [|by apply wp_raise].
  apply wp_bind_Ok, wp_bind, wp_put_mem, wp_bind, wp_attempt. rewrite (Hst entry Hid).
  assert (∀ (r : result io.Error unit) w', w_fs w' !! (p ++ [s]) = w_fs w !! (p ++ [s]) →
    wp ((match r with
         | Ok _ => mret tt
         | Err e => if decide (io.kind e = ErrorKind.NotFound) then mret tt
                    else raise (io_context "remove staging failed" e)
         end) ;; mret (ResultBody.UploadAbort id)) w'
      (λ _ w'', w_fs w'' !! (p ++ [s]) = w_fs w !! (p ++ [s]))) as Hrest.
  { intros [a|e] w' Hw'; [done|]. apply wp_bind. by case_decide. }
  apply fs_change_wp; cbv beta; cbn [w_fs set_mem].
  2: intros e w1 _ (Hf & _); apply (Hrest (Err e)); by rewrite Hf.
  2: intros text w1 _ (Hf & _); apply (Hrest (Err (injected text))); by rewrite Hf.
  2: intros w1 _ (Hf & _); by rewrite Hf.
  intros t' w1 Ht (Hf & _). apply (Hrest (Ok tt)). rewrite Hf. unfold tree_remove in Ht.
  rewrite entry_loc_real in Ht by done. cbn [mbind result_bind] in Ht.
  assert (t' = delete (p ++ [tn]) (w_fs w)) as ->
    by (destruct (w_fs w !! (p ++ [tn])) as [[]|]; simplify_eq; done).
  apply lookup_delete_ne. by intros [_ ?]%app_inj_tail.
Qed.

Lemma abort_keeps tn id (e : ClientError) w :
  real (w_fs w) p → is_dir_node (w_fs w !! p) = true → s ≠ tn → staged_as tn id w →
  wp (e' ← abort_after id e; raise e' : M ClientError TransferResult) w
    (λ o w', not_returned o ∧ w_fs w' !! (p ++ [s]) = w_fs w !! (p ++ [s])).
Proof.
  intros Hr Hd Hne Hst. apply wp_bind, wp_bind, wp_attempt. unfold Client.upload_abort.
  apply wp_bind, send_request_wp; [|by intros _; split; [intros e'|]].
  unfold handle. cbn [Request.body Request.request_id].
  apply wp_bind, wp_attempt. eapply wp_mono; [|by apply (upload_abort_keeps tn)].
  intros [b|e'|] w' Hw'; (split; [|by intros _; split; [intros ?|]]).
  - apply wp_bind, wp_lift; [|done]. intros a _. by destruct a.
  - by apply wp_bind, wp_lift.
  - done.
Qed.

Lemma upload_file_wp src dur w Φ :
  resolve (w_fs w) (Server.workspace srv) remote_path = Ok (p ++ [s]) →
  real (w_fs w) p → is_dir_node (w_fs w !! p) = true →
  (∀ meta, source_metadata src = Ok meta → (node_len meta <= u64_max)%N) →
  (∀ r w', delivered src dur w r w' → Φ (Returned r) w') →
  (∀ o w', not_returned o → with_cause (uploadable src (w_fs w)) → spared src w w' → Φ o w') →
  wp (upload_file endpoint src remote_path overwrite dur) w Φ.
Proof.
  intros Hres Hr Hd Hmax HR HF. unfold upload_file. apply wp_bind, wp_lift.
  2: { intros e He. apply HF; [done| |by left]. intros _ (_ & _ & ? & ? & ? & Hm & _). by rewrite Hm in He. }
  intros meta Hmeta. destruct (source_metadata src) as [n|e] eqn:Hsrc; [|done]. injection Hmeta as ->.
  specialize (Hmax meta eq_refl). destruct meta as [stat mode mtime| |]; cbn [is_file_node negb].
  2,3: apply wp_raise, HF; [done| |by left]; intros _ (_ & _ & ? & ? & ? & Hm & _); congruence.
  change (node_len (File stat mode mtime)) with (lenN stat) in *.
  apply wp_bind. eapply client_prepare_wp; [done..| |].
  2: { intros o w1 Ho Hc%(with_cause_mono _ (uploadable src (w_fs w))) Hal; [|by intros (? & _)].
       assert (spared src w w1) as Hsp by (intros Hst; left; by apply Hal). by destruct o; [|apply HF..]. }
  intros t1 tn id w1 Hsw (Hr1 & Hd1 & Hn & Hst & Hfree & Hnd & Hnone & [mt1 Hw1] & Hu1 & _).
  cbn [UploadPrepareResult.staging_path UploadPrepareResult.transfer_id].
  assert (no_slash tn = true) as Hns.
  { destruct Hst as (m & Hm & ->). apply Forall_app in Hslash as [_ Hs1].
    apply Forall_cons in Hs1 as [Hs1 _]. by rewrite !lacks_append, Hs1, Hm. }
  assert (s ≠ tn) as Hne by by eapply staging_for_ne.
  assert (∀ e w2, with_cause (uploadable src (w_fs w)) → spared src w w2 →
    real (w_fs w2) p → is_dir_node (w_fs w2 !! p) = true → staged_as tn id w2 →
    wp (e' ← abort_after id e; raise e' : M ClientError TransferResult) w2 Φ) as Habort.
  { intros e w2 Hc Hsp Hr2 Hd2 Hst2. eapply wp_mono; [|by eapply (abort_keeps tn)].
    intros o w3 [Ho Hkeep]. apply HF; [done..|]. intros Hname. unfold target_spared.
    rewrite Hkeep. by apply Hsp. }
  apply wp_bind, wp_attempt. eapply stream_to_receiver_wp; [done..|exact Hw1| |].
  2: { intros o w2 received mt2 Ho Hc%(with_cause_mono _ (uploadable src (w_fs w))) (Hf2 & _ & Hm2).
       2: { intros (_ & _ & ? & ? & ? & Hm & ?). rewrite Hm in Hsrc. by injection Hsrc as -> -> ->. }
       assert (spared src w w2) as Hsp.
       { intros Hname. left. rewrite Hf2, temp_target_alone by done. by eapply swept_target. }
       destruct (temp_dir t1 p tn Hr1 Hd1 Hfree received 384 mt2) as [Hr2 Hd2]. rewrite <- Hf2 in Hr2, Hd2.
       destruct o as [a|e|]; [done| |by apply HF]. apply Habort; [done..|].
       intros entry. rewrite Hm2, Hu1, lookup_insert_eq. by intros [= <-]. }
  intros received w2 mt2 Hlen Hint Hsound Hw2.
  assert (local_data src (flat (source_reads src))) as Hlocal
    by (split; [done|]; exists stat, mode, mtime; by rewrite Hlen).
  apply wp_bind, wp_attempt. eapply (client_commit_wp t1 tn); [done..|apply Hw2| | |].
  - destruct Hw2 as (_ & _ & ->). rewrite Hu1. apply lookup_insert_eq.
  - intros op w3 _ Hno Hw3. apply wp_ret, HR. rewrite <- Hlen.
    exists op, (flat (source_reads src)), received, t1, mt2.
    exact (conj Hlocal (conj eq_refl (conj Hsw (conj Hno (conj Hw3 (conj Hint Hsound)))))).
  - intros o w3 Ho Hc (Hr3 & Hd3 & Hpl) Hst3.
    assert (with_cause (uploadable src (w_fs w))) as Hc'.
    { eapply with_cause_mono; [|exact Hc]. intros (_ & Hok & _). intros [Hrec|[[Hov Hl]|?]]; [|by apply Hl, Hnone|done].
      by rewrite (intact_length _ _ Hint), Hlen in Hrec. }
    assert (spared src w w3) as Hsp.
    { intros Hname. unfold target_spared. rewrite <- (swept_target _ _ _ _ Hsw Hname).
      destruct Hpl as [?|[[mt3 Hdone] Hno]]; [by left|right]. split; [|done].
      by exists (flat (source_reads src)), received, mt3. }
    destruct o as [a|e|]; [done|by apply Habort|by apply HF].
Qed.
End one_upload.

(** C12: an upload that succeeds has installed the local file.  To an endpoint
    of either kind, over a wire that may lose, cut and alter what it carries,
    with either end dying, and a machine on which anything may fail: when
    [upload_file] returns a result, the bytes read from the local source were
    as many as its metadata said; the target, which did not exist before unless
    it was to be overwritten, holds exactly those bytes -- or others of the
    same length with the same SHA-256; of the rest of the tree at most
    abandoned staging files of the sweep are gone; and the result names the
    path, the size and the hash. *)
Theorem upload_delivers src remote_path overwrite dur p s w :
  resolve (w_fs w) (Server.workspace srv) remote_path = Ok (p ++ [s]) →
  real (w_fs w) p → is_dir_node (w_fs w !! p) = true →
  Forall (λ x, no_slash x = true) (p ++ [s]) →
  (∀ meta, source_metadata src = Ok meta → (node_len meta <= u64_max)%N) →
  let '(o, w') := upload_file endpoint src remote_path overwrite dur w in
  match o with
  | Returned r => ∃ op data received t1 mt,
      local_data src data ∧
      r = TransferResult.Mk op TransferDirection.Upload remote_path (lenN data) (hash_bytes data) dur ∧
      swept (in_flight_staging (uploads (w_mem w))) STALE_STAGING_MAX_AGE (w_fs w) t1 ∧
      (overwrite = false → t1 !! (p ++ [s]) = None) ∧
      w_fs w' = <[p ++ [s] := File received 384 mt]> t1 ∧
      intact received data
  | _ => True
  end.
Proof.
  intros Hres Hr Hd Hslash Hmax.
  apply (wp_let _ _ (λ o w', match o with Returned r => _ | _ => True end)).
  eapply upload_file_wp; [done..| |by intros [a|e|]].
  intros r w' (op & data & received & t1 & mt & ? & ? & ? & ? & ? & ? & _).
  by exists op, data, received, t1, mt.
Qed.

(** C13: an upload never leaves half a file.  To a target that has not itself
    the name of a staging file, over any wire and in any environment, however
    the upload ends -- done, refused, failed, with requests, answers, bytes or
    reports lost, or the client, the receiver or the server cut off at any
    call --, the target is as it was, or it is complete: as many bytes as the
    local file, with its SHA-256; and an upload that is not to overwrite leaves
    what is there alone. *)
Theorem upload_spares_target src remote_path overwrite dur p s w :
  is_staging_name s = false →
  resolve (w_fs w) (Server.workspace srv) remote_path = Ok (p ++ [s]) →
  real (w_fs w) p → is_dir_node (w_fs w !! p) = true →
  Forall (λ x, no_slash x = true) (p ++ [s]) →
  (∀ meta, source_metadata src = Ok meta → (node_len meta <= u64_max)%N) →
  let '(_, w') := upload_file endpoint src remote_path overwrite dur w in
  target_spared overwrite p s src (w_fs w) (w_fs w').
Proof.
  intros Hns Hres Hr Hd Hslash Hmax.
  apply (wp_let _ _ (λ _ w', target_spared overwrite p s src (w_fs w) (w_fs w'))).
  eapply upload_file_wp; [done..| |intros o w' _ _ Hsp; by apply Hsp].
  intros r w' (op & data & received & t1 & mt & Hlocal & _ & Hsw & Hnone & Hw' & Hint & _). right.
  assert (t1 !! (p ++ [s]) = w_fs w !! (p ++ [s])) as <- by by eapply swept_target.
  rewrite Hw'. split; [|done]. exists data, received, mt. refine (conj Hlocal (conj _ Hint)).
  apply lookup_insert_eq.
Qed.

(** C14: An upload succeeds.  Over a wire and on a machine on which nothing fails: when the target
    can take a file -- nothing is there, or a regular file that is to be
    overwritten --, and the local source is a regular file that can be opened
    and read and yields as many bytes as its metadata says, then [upload_file]
    returns, with a result that names path, size and hash, and the target holds
    the bytes of the source. *)
Theorem upload_succeeds `{!FaultFree} src remote_path overwrite dur p s w :
  sound_wire W →
  resolve (w_fs w) (Server.workspace srv) remote_path = Ok (p ++ [s]) →
  real (w_fs w) p → is_dir_node (w_fs w !! p) = true →
  Forall (λ x, no_slash x = true) (p ++ [s]) →
  (∀ meta, source_metadata src = Ok meta → (node_len meta <= u64_max)%N) →
  uploadable overwrite p s src (w_fs w) →
  ∃ op mt t1 w', let data := flat (source_reads src) in
    upload_file endpoint src remote_path overwrite dur w
    = (Returned (TransferResult.Mk op TransferDirection.Upload remote_path (lenN data) (hash_bytes data) dur), w') ∧
    swept (in_flight_staging (uploads (w_mem w))) STALE_STAGING_MAX_AGE (w_fs w) t1 ∧
    w_fs w' = <[p ++ [s] := File data 384 mt]> t1.
Proof.
  intros Hsound Hres Hr Hd Hslash Hmax Hup.
  assert (wp (upload_file endpoint src remote_path overwrite dur) w (λ o w', ∃ r,
    o = Returned r ∧ delivered remote_path overwrite p s src dur w r w')) as Hwp.
  { eapply upload_file_wp; [done..| |]; [by eauto|].
    intros o w' _ Hc _. by destruct (Hc Hsound Hup) as [?%fault_free_fails|?%fault_free_dies]. }
  unfold wp in Hwp. destruct (upload_file endpoint src remote_path overwrite dur w) as [o w'].
  destruct Hwp as (r & Ho & op & data & received & t1 & mt & [-> _] & -> & Hsw & _ & Hw' & _ & Hrec).
  cbn [fst snd] in *. exists op, mt, t1, w'. rewrite Ho, Hw', Hrec by done. done.
Qed.
End linked.

(** ** Aborting *)

(** The ids of the registry are issued at every start, and stay so with every
    preparation before the counter wraps, and with every commit and abort. *)
Lemma load_ids_issued `{Env} `{JsonCodec AnyOperationRecord} `{JsonCodec RequestLogLine} w :
  wp OperationStore_load w (λ o w', ∀ r, o = Returned r → ids_issued (w_mem w')).
Proof.
  unfold OperationStore_load. do 3 (apply wp_bind, wp_any; [intros ? ? _|done..]).
  apply wp_put_mem. intros _ _ id [u Hu]. cbn in Hu. by rewrite lookup_empty in Hu.
Qed.

Lemma commit_ids_issued `{Env} `{JsonCodec AnyOperationRecord} `{JsonCodec RequestLogLine}
    rid id size sha dur w :
  ids_issued (w_mem w) → wp (upload_commit rid id size sha dur) w (λ _ w', ids_issued (w_mem w')).
Proof.
  intros Hm. eapply wp_mono; [|apply (keeps_upload_commit registry_shrinks)].
  - intros o w' [Hr _]. by eapply ids_issued_shrinks.
  - intros m. split; [apply delete_subseteq|done].
Qed.

(** C34: an abort takes the preparation back.  In every environment, and until
    the counter of transfer ids wraps: when an upload was prepared and its
    abort returns, the registry is exactly as it was before -- the id the
    preparation gave belonged to no other upload --, the staging file is gone
    and the tree is as before but for abandoned staging files that the
    preparation swept away -- exactly as before when there are none --, and a
    commit of the same transfer is refused without touching anything. *)
Theorem abort_undoes_prepare `{Env} `{HashIter} `{TempfileLaws} `{JsonCodec AnyOperationRecord}
    `{JsonCodec RequestLogLine} ws path overwrite p s w :
  resolve (w_fs w) ws path = Ok (p ++ [s]) → real (w_fs w) p → is_dir_node (w_fs w !! p) = true →
  ids_issued (w_mem w) → (transfer_counter (w_mem w) < u64_max)%N →
  let in_flight := in_flight_staging (uploads (w_mem w)) in
  let '(o, w1) := upload_prepare ws path overwrite w in
  match o with
  | Returned (ResultBody.UploadPrepare (UploadPrepareResult.Mk id staging_path)) =>
      let '(o', w2) := upload_abort id w1 in
      match o' with
      | Returned _ =>
          uploads (w_mem w2) = uploads (w_mem w) ∧ ids_issued (w_mem w2) ∧
          swept in_flight STALE_STAGING_MAX_AGE (w_fs w) (w_fs w2) ∧
          ((∀ q, ¬ abandoned in_flight STALE_STAGING_MAX_AGE (w_fs w) q) → w_fs w2 = w_fs w) ∧
          ∀ rid size sha dur, upload_commit rid id size sha dur w2 = (Raised (unknown_transfer id), w2)
      | Raised _ => fails
      | Killed => dies
      end
  | Returned _ => False
  | _ => True
  end.
Proof.
  intros Hres Hr Hd Hids Hcount in_flight.
  apply (wp_let _ _ (λ o w1, match o with Returned (ResultBody.UploadPrepare _) => _ | _ => _ end)).
  eapply upload_prepare_wp; [done..| |by intros [a|e|]].
  intros t1 tn id w1 Hsw Hprep. destruct (prepared_ids _ _ _ _ _ _ _ _ _ Hprep Hids Hcount) as [Hnew Hids1].
  destruct Hprep as (Hr1 & Hd1 & Hn & _ & Hfree & _ & _ & [mt Hw1] & Hu1 & _).
  apply (wp_let _ _ (λ o w2, match o with Returned _ => _ | _ => _ end)).
  eapply (upload_abort_wp t1 p tn); [done..|exact Hw1|rewrite Hu1; apply lookup_insert_eq|done| |].
  2: by intros [a|e|] w2.
  intros w2 Hf Hm2. assert (uploads (w_mem w2) = uploads (w_mem w)) as Hu2.
  { rewrite Hm2. cbn. by rewrite Hu1, delete_insert_id. }
  split_and!; [done| |by rewrite Hf| |].
  - eapply ids_issued_shrinks; [|exact Hids1]. rewrite Hm2. split; [apply delete_subseteq|done].
  - intros Hnone. rewrite Hf. apply map_eq. intros q. destruct (Hsw q) as [?|[_ Hq]]; [done|].
    by destruct (Hnone q).
  - intros rid size sha dur. unfold upload_commit, get_mem, mbind, M_bind. by rewrite Hu2, Hnew.
Qed.
