(* ===== verification/DirLock.v ===== *)
(** * DirLock: one server per state directory

    Models [acquire_dir_lock] of [crates/agent-remote-server/src/store.rs]:
    [flock] on [<state dir>/lock], tried again every 50 ms for a grace period,
    and the pid left in the file for the refusal of a later starter to name.
    [acquire_dir_lock] is the call as one process sees it; [step] has any
    number of processes start, wait, serve and end over one state directory
    and one workspace, which programs that are no servers change as well.
    [server_alone] is what the single-server model of the other files stands
    on. *)

From S2P Require Import Prelude Text Protocol World Fs Hash Workspace Jsonl Store.
From S2P Require Import Recovery Prune Transfer Config Exec Server.

#[local] Open Scope N_scope.

(** ** Time, in nanoseconds *)

Definition millis (n : N) : N := n * 1000000.
Definition LOCK_RETRY : N := millis 50.
(** The grace period [OperationStore::new] gives. *)
Definition STARTUP_GRACE : N := millis 5000.

(** ** The refusal *)

(** What the refusal says of the holder, from a reading of the lock file. *)
Definition holder_note (reading : result io.Error bytes) : string :=
  match reading with
  | Ok bs =>
      match from_utf8 bs with
      | Some _ =>
          let s := string_of_list_byte (trim bs) in
          if bool_decide (s = "") then "" else " (held by pid " +:+ s +:+ ")"
      | None => ""
      end
  | Err _ => ""
  end.

(** [log_dir] is the directory as [{:?}] prints it, less the quotes. *)
Definition lock_refused (log_dir holder : string) : ProtocolError :=
  ProtocolError.new IoError
    ("state directory " +:+ debug_name log_dir +:+ " is locked by another agent-remote-server"
       +:+ holder +:+ "; only one server may serve a workspace root at a time").

(** ** Leaving the pid

    The file was opened without truncating it, its offset is 0; each of the
    two calls may fail, the write after some bytes. *)

Definition write_at_start (bs old : bytes) : bytes := bs ++ drop (length bs) old.

Definition record_pid (truncated : bool) (written : nat) (pid : N) (old : bytes) : bytes :=
  write_at_start (take written (as_bytes (pretty pid) ++ [nl])) (if truncated then [] else old).

(** ** The call *)

(** What a process meets: whether the lock file opens, whether [flock] called
    at a moment is granted, how long it is from there to a reading of the
    clock, by how much a sleep is too long, and what the lock file holds. *)
Class LockMachine := {
  lock_open : result io.Error unit;
  lock_flock : N → bool;
  lock_lag : N → N;
  lock_late : N → N;
  lock_reading : result io.Error bytes }.

Section call.
Context `{LockMachine} (log_dir : string).

(** The [loop]; [None] when the fuel does not do. *)
Fixpoint lock_loop (fuel : nat) (deadline now : N) : option (N * result ProtocolError unit) :=
  match fuel with
  | O => None
  | S fuel' =>
      if lock_flock now then Some (now, Ok tt)
      else
        let now' := now + lock_lag now in
        if deadline <=? now' then Some (now', Err (lock_refused log_dir (holder_note lock_reading)))
        else lock_loop fuel' deadline (now' + LOCK_RETRY + lock_late now')
  end.

(** Tries that are enough for a grace period. *)
Definition lock_fuel (grace : N) : nat := S (S (N.to_nat (grace / LOCK_RETRY))).

(** The moment it returns, and what. *)
Definition acquire_dir_lock (grace now : N) : option (N * result ProtocolError unit) :=
  match lock_open with
  | Err e => Some (now, Err (io_to_protocol e))
  | Ok _ => lock_loop (lock_fuel grace) (now + grace) (now + lock_lag now)
  end.

Lemma lock_loop_spec fuel deadline now :
  deadline <= now + N.of_nat fuel * LOCK_RETRY →
  ∃ t r, lock_loop (S fuel) deadline now = Some (t, r) ∧ now <= t ∧
    match r with
    | Ok _ => lock_flock t = true
    | Err e => e = lock_refused log_dir (holder_note lock_reading) ∧ deadline <= t ∧
        ∃ u, lock_flock u = false ∧ t = u + lock_lag u ∧ now <= u
    end.
Proof.
  revert now. induction fuel as [|fuel IH]; intros now Hfuel; cbn [lock_loop] in *;
    (destruct (lock_flock now) eqn:Hf;
     [exists now, (Ok tt); split; [done|]; split; [lia|done]|]);
    (destruct (N.leb_spec deadline (now + lock_lag now)) as [Hd|Hd];
     [eexists _, (Err _); split; [done|]; split; [lia|]; split; [done|]; split; [done|];
      exists now; split_and!; [done..|lia]|]); [lia|].
  set (next := now + lock_lag now + LOCK_RETRY + lock_late (now + lock_lag now)).
  assert (now + LOCK_RETRY <= next) as Hnext by (unfold next; lia).
  destruct (IH next) as (t & r & Hrun & Ht & Hr); [lia|].
  exists t, r. split; [done|]. split; [lia|].
  destruct r as [[]|e]; [done|]. destruct Hr as (He & Hdt & u & Hu & Htu & Hnu).
  split_and!; [done..|]. exists u. split_and!; [done..|lia].
Qed.

Lemma lock_fuel_enough grace now :
  now + grace <= now + lock_lag now + N.of_nat (S (N.to_nat (grace / LOCK_RETRY))) * LOCK_RETRY.
Proof.
  rewrite Nat2N.inj_succ, N2Nat.id.
  pose proof (N.mul_succ_div_gt grace LOCK_RETRY ltac:(done)). lia.
Qed.

(** The lock is asked for long enough, and not for ever.  Whatever the machine
    does, the call returns within the tries of its fuel: it returns with the
    lock when a try was granted, and it refuses -- naming what the lock file
    says of the holder -- only when the grace period is over and a try was not
    granted; when the lock is free from some moment on, and clock readings
    after that are prompt enough to be within the grace period, it gets it. *)
Theorem acquire_dir_lock_spec grace now :
  ∃ t r, acquire_dir_lock grace now = Some (t, r) ∧ now <= t ∧
    match r with
    | Ok _ => lock_flock t = true
    | Err e =>
        (∃ e', lock_open = Err e' ∧ e = io_to_protocol e') ∨
        (e = lock_refused log_dir (holder_note lock_reading) ∧ now + grace <= t ∧
         ∃ u, lock_flock u = false ∧ t = u + lock_lag u)
    end ∧
    (lock_open = Ok tt → ∀ free lag, (∀ t, free <= t → lock_flock t = true) →
      (∀ t, lock_lag t <= lag) → free + lag <= now + grace → r = Ok tt).
Proof.
  unfold acquire_dir_lock. destruct lock_open as [[]|e] eqn:Hopen.
  - destruct (lock_loop_spec _ (now + grace) (now + lock_lag now) (lock_fuel_enough grace now))
      as (t & r & Hrun & Ht & Hr).
    exists t, r. split; [exact Hrun|]. split; [lia|]. split.
    + destruct r as [[]|e]; [done|]. right. destruct Hr as (He & Hd & u & Hu & Htu & _). eauto.
    + intros _ free lag Hfree Hlag Hfl. destruct r as [[]|e]; [done|].
      destruct Hr as (_ & Hd & u & Hu & -> & _). exfalso.
      destruct (N.le_gt_cases free u) as [Hle|Hlt]; [by rewrite Hfree in Hu|].
      specialize (Hlag u). lia.
  - exists now, (Err (io_to_protocol e)). split_and!; [done|lia|by eauto|done].
Qed.
End call.

(** A pid that was written in full is what the refusal says. *)
Lemma holder_note_recorded pid old :
  holder_note (Ok (record_pid true (length (as_bytes (pretty pid) ++ [nl])) pid old))
  = " (held by pid " +:+ pretty pid +:+ ")".
Proof.
  unfold record_pid, write_at_start, holder_note. rewrite take_ge, drop_nil, app_nil_r by done.
  destruct (pretty_digits pid) as [Hne Hdig].
  assert (from_utf8 (as_bytes (pretty pid) ++ [nl]) ≠ None) as Hutf.
  { unfold from_utf8. by rewrite digits_utf8. }
  destruct (from_utf8 _); [|done].
  rewrite trim_digits_line by done. unfold as_bytes in *. rewrite string_of_list_byte_of_string.
  rewrite bool_decide_false; [done|]. intros Heq. by rewrite Heq in Hne.
Qed.

(** ** Servers over one state directory *)

(** Where a process is in [main]. *)
Inductive stage :=
| Trying (since : N)              (* asking since [since]; about to call [flock] *)
| Denied (since : N)              (* [flock] was not granted *)
| Waiting (since until : N)       (* asleep *)
| Giving_up                       (* the deadline has passed *)
| Refused (e : ProtocolError)
| Granted                         (* [flock] was granted, the pid not left yet *)
| Opening                         (* about to load the store *)
| Serving (srv : Server) (w0 w : world)   (* started with [w0], now at [w] *)
| Gone.

(** The processes that have the lock. *)
Definition holds (ph : stage) : Prop :=
  match ph with Granted | Opening | Serving _ _ _ => True | _ => False end.

Record system := MkSystem {
  clock : N;
  holder : option N;              (* whose open file has the lock *)
  lock_file : bytes;
  disk : gmap string bytes;       (* the state directory *)
  files : tree;                   (* the workspace *)
  procs : gmap N stage }.         (* by pid *)

Definition set_proc (p : N) (ph : stage) (s : system) : system :=
  MkSystem (clock s) (holder s) (lock_file s) (disk s) (files s) (<[p := ph]> (procs s)).
Definition set_holder (h : option N) (s : system) : system :=
  MkSystem (clock s) h (lock_file s) (disk s) (files s) (procs s).
Definition set_lock_file (bs : bytes) (s : system) : system :=
  MkSystem (clock s) (holder s) bs (disk s) (files s) (procs s).
Definition set_disk (w : world) (s : system) : system :=
  MkSystem (clock s) (holder s) (lock_file s) (w_sd w) (w_fs w) (procs s).
(** The world as the process that last saw [w] sees it now. *)
Definition seen_from (s : system) (w : world) : world :=
  set_sd (λ _, disk s) (set_fs (λ _, files s) w).
(** A process ends, by itself or not; the kernel drops its lock. *)
Definition ends (p : N) (s : system) : system :=
  set_proc p Gone (if decide (holder s = Some p) then set_holder None s else s).

Section servers.
Context `{Sha256} `{HashIter} `{Tempfile} `{Processes} `{TomlConfig}
        `{JsonCodec AnyOperationRecord} `{JsonCodec RequestLogLine}.
Context (log_dir : string) (grace : N).

(** What a server does once it has the lock: load the store and go on
    starting up, and then serve requests, on a machine where calls may fail
    and the process may die in any. *)
Definition starts (ws : Workspace) (w : world) (o : outcome string Server) (w' : world) : Prop :=
  ∃ (env : Env) config history_limit,
    (map_raise ProtocolError.display OperationStore_load ;;
     Server_start ws config history_limit) w = (o, w').
Definition serves (srv : Server) (w : world) (o : outcome ProtocolError ServerMessage) (w' : world) : Prop :=
  ∃ (env : Env) req, handle srv req w = (o, w').

Inductive step (s : system) : system → Prop :=
| step_time t : clock s <= t →
    step s (MkSystem t (holder s) (lock_file s) (disk s) (files s) (procs s))
(** Programs that are no servers change the workspace. *)
| step_files t :
    step s (MkSystem (clock s) (holder s) (lock_file s) (disk s) t (procs s))
| step_arrive p : procs s !! p = None → step s (set_proc p (Trying (clock s)) s)
| step_grant p since :
    procs s !! p = Some (Trying since) → holder s = None →
    step s (set_proc p Granted (set_holder (Some p) s))
(** [flock] may fail for other reasons than a holder. *)
| step_deny p since :
    procs s !! p = Some (Trying since) → step s (set_proc p (Denied since) s)
| step_wait p since :
    procs s !! p = Some (Denied since) → clock s < since + grace →
    step s (set_proc p (Waiting since (clock s + LOCK_RETRY)) s)
| step_wake p since until :
    procs s !! p = Some (Waiting since until) → until <= clock s →
    step s (set_proc p (Trying since) s)
| step_give_up p since :
    procs s !! p = Some (Denied since) → since + grace <= clock s →
    step s (set_proc p Giving_up s)
| step_refuse p r :
    procs s !! p = Some Giving_up → (∀ bs, r = Ok bs → bs = lock_file s) →
    step s (set_proc p (Refused (lock_refused log_dir (holder_note r))) s)
| step_record p truncated written :
    procs s !! p = Some Granted →
    step s (set_proc p Opening (set_lock_file (record_pid truncated written p (lock_file s)) s))
| step_start p ws w srv w' :
    procs s !! p = Some Opening → starts ws (seen_from s w) (Returned srv) w' →
    step s (set_proc p (Serving srv w' w') (set_disk w' s))
| step_start_fails p ws w o w' :
    procs s !! p = Some Opening → starts ws (seen_from s w) o w' → not_returned o →
    step s (ends p (set_disk w' s))
| step_serve p srv w0 w m w' :
    procs s !! p = Some (Serving srv w0 w) → serves srv (seen_from s w) (Returned m) w' →
    step s (set_proc p (Serving srv w0 w') (set_disk w' s))
| step_serve_fails p srv w0 w o w' :
    procs s !! p = Some (Serving srv w0 w) → serves srv (seen_from s w) o w' → not_returned o →
    step s (ends p (set_disk w' s))
(** Any process may end: refused, unable to open the lock file, at the end of
    its input, killed. *)
| step_end p ph : procs s !! p = Some ph → step s (ends p s).

Definition idle_system (sd : gmap string bytes) (t : tree) : system :=
  MkSystem 0 None [] sd t ∅.

Definition reachable (sd : gmap string bytes) (t : tree) (s : system) : Prop :=
  rtc step (idle_system sd t) s.

(** A request served by a server nobody else is around of: only the workspace
    may have changed since the last. *)
Definition session (srv : Server) (w w' : world) : Prop :=
  ∃ t m, serves srv (set_fs (λ _, t) w) (Returned m) w'.

(** *** The invariant *)

Definition in_place (s : system) (ph : stage) : Prop :=
  match ph with
  | Serving srv w0 w =>
      w_sd w = disk s ∧ rtc (session srv) w0 w ∧
      ∃ ws wi, starts ws wi (Returned srv) w0
  | _ => True
  end.

Definition exclusive (s : system) : Prop :=
  ∀ p ph, procs s !! p = Some ph → holds ph → holder s = Some p ∧ in_place s ph.

Lemma seen_from_own s w : w_sd w = disk s → seen_from s w = set_fs (λ _, files s) w.
Proof. intros Hd. unfold seen_from. rewrite <- Hd. by destruct w. Qed.

(** One process moves, the holder and the state directory stay. *)
Lemma exclusive_moves p ph' s s' :
  exclusive s → holder s' = holder s → disk s' = disk s → procs s' = <[p := ph']> (procs s) →
  (holds ph' → holder s = Some p ∧ in_place s ph') → exclusive s'.
Proof.
  intros Hex Hh Hd Hp Hph q ph Hq Hholds. rewrite Hh. unfold in_place. rewrite Hd.
  rewrite Hp in Hq. apply lookup_insert_Some in Hq as [[<- <-]|[_ Hq]]; [by apply Hph|].
  by apply (Hex q).
Qed.

(** The holder moves, whatever becomes of the state directory. *)
Lemma exclusive_holder p ph ph' s s' :
  exclusive s → procs s !! p = Some ph → holds ph → holder s' = Some p →
  procs s' = <[p := ph']> (procs s) → in_place s' ph' → exclusive s'.
Proof.
  intros Hex Hp Hholds Hh Hps Hph q ph2 Hq Hholds2.
  rewrite Hps in Hq. apply lookup_insert_Some in Hq as [[<- <-]|[Hne Hq]]; [done|].
  destruct (Hex p ph Hp Hholds) as [Hh1 _], (Hex q ph2 Hq Hholds2) as [Hh2 _]. congruence.
Qed.

(** A process ends, whatever it did to the state directory as the holder. *)
Lemma exclusive_ends p ph s s' :
  exclusive s → procs s !! p = Some ph → procs s' = procs s → holder s' = holder s →
  (disk s' = disk s ∨ holds ph) → exclusive (ends p s').
Proof.
  intros Hex Hp Hps Hh Hd q ph2. unfold ends, set_proc. cbn [procs]. intros Hq Hholds.
  assert (procs (if decide (holder s' = Some p) then set_holder None s' else s') = procs s) as Hsame
    by (by case_decide).
  rewrite Hsame in Hq. apply lookup_insert_Some in Hq as [[<- <-]|[Hne Hq]]; [done|].
  destruct (Hex q ph2 Hq Hholds) as [Hh2 Hin].
  rewrite decide_False by congruence. cbn [holder]. split; [congruence|].
  destruct Hd as [Hd|Hd]; [|by destruct (Hex p ph Hp Hd); congruence].
  unfold in_place in *. cbn [disk]. by rewrite Hd.
Qed.

Lemma exclusive_step s s' : exclusive s → step s s' → exclusive s'.
Proof.
  intros Hex Hstep. destruct Hstep as
    [t Ht|t|p Hp|p since Hp Hh|p since Hp|p since Hp Hc|p since until Hp Hc|p since Hp Hc
    |p r Hp Hr|p tr wr Hp|p ws w srv w' Hp Hs|p ws w o w' Hp Hs Ho|p srv w0 w m w' Hp Hs
    |p srv w0 w o w' Hp Hs Ho|p ph Hp].
  1,2: exact Hex.
  1,3,4,5,6,7: by eapply exclusive_moves.
  - intros q ph Hq Hholds. cbn [procs set_proc set_holder] in Hq.
    apply lookup_insert_Some in Hq as [[<- <-]|[Hne Hq]]; [done|].
    destruct (Hex q ph Hq Hholds). congruence.
  - eapply exclusive_moves; [done..|]. intros _. by apply (Hex p Granted).
  - eapply (exclusive_holder p Opening); [done..| |done|].
    + by apply (Hex p Opening).
    + split; [done|]. split; [done|]. by exists ws, (seen_from s w).
  - by eapply exclusive_ends; [..|right].
  - destruct (Hex p _ Hp I) as (Hh & Hd & Hrun & Hstart).
    eapply (exclusive_holder p (Serving srv w0 w)); [done..|].
    split; [done|]. split; [|done]. eapply rtc_r; [done|]. exists (files s), m.
    by rewrite <- seen_from_own.
  - by eapply exclusive_ends; [..|right].
  - by eapply exclusive_ends; [..|left].
Qed.

Lemma reachable_exclusive sd t s : reachable sd t s → exclusive s.
Proof.
  intros Hr. apply (rtc_ind_r (R:=step) exclusive (idle_system sd t)) with (z := s); [done| |exact Hr].
  intros s1 s2 _ Hstep Hex. by eapply exclusive_step.
Qed.

(** C9: One server at a time, and it may think itself alone.  However many
    processes start, wait, serve, fail and die over one state directory, and
    whatever other programs do to the workspace: at every moment at most one
    process is past the lock; and the state directory of one that serves is as
    it left it with its last request, so that all it ever did since it loaded
    the store is a run of a server nobody else is around of. *)
Theorem server_alone sd t s p ph :
  reachable sd t s → procs s !! p = Some ph → holds ph →
  holder s = Some p ∧ (∀ q ph', procs s !! q = Some ph' → holds ph' → q = p) ∧
  ∀ srv w0 w, ph = Serving srv w0 w →
    w_sd w = disk s ∧ rtc (session srv) w0 w ∧ ∃ ws wi, starts ws wi (Returned srv) w0.
Proof.
  intros Hr%reachable_exclusive Hp Hholds. destruct (Hr p ph Hp Hholds) as [Hh Hin].
  split; [done|]. split.
  - intros q ph' Hq Hq'. destruct (Hr q ph' Hq Hq'). congruence.
  - intros srv w0 w ->. exact Hin.
Qed.
End servers.
