(* ===== verification/ServerMain.v ===== *)
(** * ServerMain: the server's command line

    Models [crates/agent-remote-server/src/main.rs]: the options, and which of
    the three modes they start -- the resident server, the receiver of an
    upload, the sender of a download.  The option parser is a parameter with
    the part of its documented behaviour that command lines of options with
    separate values rely on.

    The theorem closes the circle with [ClientTransfer.v]: the command lines
    an endpoint makes start the server in the mode and with the values meant. *)

From S2P Require Import Prelude Text Protocol World Fs Hash Workspace Jsonl Store Prune Transfer.
From S2P Require Import Recovery Config Exec Server ClientApi ClientTransfer.

(** ** The options *)

Module Args.
Record Args := Mk {
  root : option string;
  state_base : option string;
  config : option string;
  history_limit : N;
  transfer_receive : option string;
  expect_size : option N;
  transfer_send : option string }.
End Args.
Abbreviation Args := Args.Args.

(** [Args::parse]. *)
Class Clap := { parse_args : list string → result string Args }.

Inductive Flag :=
| FRoot | FStateBase | FConfig | FHistoryLimit | FTransferReceive | FExpectSize | FTransferSend.
#[export] Instance flag_eq_dec : EqDecision Flag.
Proof. solve_decision. Defined.

Definition flag_text (f : Flag) : string :=
  match f with
  | FRoot => "--root"
  | FStateBase => "--state-base"
  | FConfig => "--config"
  | FHistoryLimit => "--history-limit"
  | FTransferReceive => "--transfer-receive"
  | FExpectSize => "--expect-size"
  | FTransferSend => "--transfer-send"
  end.

Definition default_args : Args := Args.Mk None None None 1000 None None None.

(** The value of one option; numbers are read as [u64]. *)
Definition set_flag (f : Flag) (v : string) (a : Args) : option Args :=
  let '(Args.Mk r b c h tr es ts) := a in
  match f with
  | FRoot => Some (Args.Mk (Some v) b c h tr es ts)
  | FStateBase => Some (Args.Mk r (Some v) c h tr es ts)
  | FConfig => Some (Args.Mk r b (Some v) h tr es ts)
  | FHistoryLimit => n ← parse_u64 v; Some (Args.Mk r b c n tr es ts)
  | FTransferReceive => Some (Args.Mk r b c h (Some v) es ts)
  | FExpectSize => n ← parse_u64 v; Some (Args.Mk r b c h tr (Some n) ts)
  | FTransferSend => Some (Args.Mk r b c h tr es (Some v))
  end.

Fixpoint args_of (pairs : list (Flag * string)) (a : Args) : option Args :=
  match pairs with
  | [] => Some a
  | (f, v) :: pairs' => set_flag f v a ≫= args_of pairs'
  end.

(** [conflicts_with] and [requires]. *)
Definition admissible (a : Args) : bool :=
  negb (bool_decide (is_Some (Args.transfer_send a)) && bool_decide (is_Some (Args.transfer_receive a)))
  && (bool_decide (Args.expect_size a = None) || bool_decide (is_Some (Args.transfer_receive a))).

(** A value the parser takes as it is: not empty, and not to be mistaken for
    an option. *)
Definition plain (v : string) : bool :=
  match v with EmptyString => false | String c _ => negb (bool_decide (c = "-"%char)) end.

Definition words_of (pairs : list (Flag * string)) : list string :=
  pairs ≫= λ '(f, v), [flag_text f; v].

(** Options with their values in separate words, each at most once. *)
Class ClapLaws `{Clap} := clap_reads bin pairs a :
  NoDup pairs.*1 → forallb plain pairs.*2 = true →
  args_of pairs default_args = Some a → admissible a = true →
  parse_args (bin :: words_of pairs) = Ok a.

(** ** [main] *)

(** [PathBuf::join] of a relative name. *)
Definition path_join (a name : string) : string :=
  if bool_decide (a = "") then name
  else if string_ends_with a "/" then a +:+ name else a +:+ "/" +:+ name.

Definition resolve_state_base (home state_base : option string) : result string string :=
  match state_base with
  | Some b => Ok b
  | None =>
      home ← ok_or home "HOME is not set; pass --state-base";
      Ok (path_join home ".agent-remote")
  end.

(** What a run leaves on standard output. *)
Inductive Output :=
| Received (meta : ReceiveMetadata.ReceiveMetadata)
| Sent (stream : SendHeader.SendHeader * bytes * SendTrailer.SendTrailer)
| Served (answers : list ServerMessage).

Section main.
Context `{Env} `{Sha256} `{HashIter} `{Tempfile} `{Processes} `{TomlConfig}
        `{JsonCodec AnyOperationRecord} `{JsonCodec RequestLogLine} `{JsonCodec Request}.

(** What surrounds the process: its directory (through which it reads a path
    argument), its home, its standard input as reads and as lines, and the
    text of a configuration file. *)
Context (abs : string → path) (home : option string)
        (stdin : list (result io.Error bytes)) (input : list bytes)
        (read_config : string → result io.Error string).

Definition serve (root base : string) (config : option string) (history_limit : option N)
    : M string Output :=
  t ← get_fs;
  state_dir ← lift (state_dir_under t (abs base) (abs root));
  srv ← Server_new (abs root) state_dir (read_config <$> config) history_limit;
  answers ← map_raise ProtocolError.display (run srv input);
  mret (Served answers).

Definition send (root base path : string) : M string Output :=
  stream ← run_transfer_send (abs root) (abs base) path; mret (Sent stream).

Definition receive_into (staging : string) (expect_size : N) : M string Output :=
  meta ← run_transfer_receive (abs staging) stdin expect_size; mret (Received meta).

Definition main (args : Args) : M string Output :=
  match Args.transfer_receive args with
  | Some staging =>
      expect_size ← lift (ok_or (Args.expect_size args) "--transfer-receive requires --expect-size");
      receive_into staging expect_size
  | None =>
      base ← lift (resolve_state_base home (Args.state_base args));
      match Args.transfer_send args with
      | Some path =>
          root ← lift (ok_or (Args.root args) "--transfer-send requires --root");
          send root base path
      | None =>
          root ← lift (ok_or (Args.root args) "--root is required");
          serve root base (Args.config args)
            (if (0 <? Args.history_limit args)%N then Some (Args.history_limit args) else None)
      end
  end.
End main.

(** ** Properties *)

Definition endpoint_host (e : Endpoint) : option string :=
  match e with Endpoint.Local _ _ _ _ => None | Endpoint.Ssh h _ _ _ _ => Some h end.
Definition endpoint_root (e : Endpoint) : string :=
  match e with Endpoint.Local _ r _ _ | Endpoint.Ssh _ _ r _ _ => r end.
Definition endpoint_state_base (e : Endpoint) : option string :=
  match e with Endpoint.Local _ _ b _ | Endpoint.Ssh _ _ _ b _ => b end.
Definition endpoint_config (e : Endpoint) : option string :=
  match e with Endpoint.Local _ _ _ c | Endpoint.Ssh _ _ _ _ c => c end.

(** A command line starts the program its first word names, with these words:
    for a local endpoint they are the command line itself, for one behind ssh
    what the remote user's shell reads, where ssh takes the host for a host
    because it is [plain].  The program is the endpoint's server binary. *)
Definition starts (e : Endpoint) (argv words : list string) : Prop :=
  head words = Some (endpoint_bin e) ∧
  match endpoint_host e with
  | None => words = argv
  | Some host => plain host = true ∧ ssh_runs host argv words
  end.

Definition plain_option (o : option string) : bool := match o with Some v => plain v | None => true end.

Lemma endpoint_starts e words argv :
  argv = match endpoint_host e with None => words | Some host => ssh_argv host words end →
  head words = Some (endpoint_bin e) → plain_option (endpoint_host e) = true →
  starts e argv words.
Proof.
  intros -> Hw Hh. split; [done|].
  destruct e as [bin r b c|host bin r b c]; cbn in *; [done|split; [done|apply ssh_argv_runs]].
Qed.

Definition option_pair (f : Flag) (o : option string) : list (Flag * string) :=
  match o with Some v => [(f, v)] | None => [] end.

Lemma plain_number n : (n <= u64_max)%N → plain (pretty n) = true.
Proof.
  intros Hn. pose proof (parse_u64_pretty n Hn) as Hp.
  destruct (pretty n) as [|c s]; [done|]. cbn. destruct (bool_decide_reflect (c = "-"%char)) as [->|]; done.
Qed.

(** C35: an endpoint's command lines do what they are made for.  For a local
    endpoint and, through the remote user's shell, for one behind ssh, and
    with any characters in its values -- but the host, the root, the state
    base, the configuration, the staging file and the path sent may not be
    empty or begin with a hyphen -- each of its three command lines starts the
    endpoint's own binary, and this, being the server, on the control command
    line serves the endpoint's root with its state and configuration and the
    default history limit; on the receive command line it receives the
    announced number of bytes into the staging file; on the send command line
    it sends the path from the endpoint's root. *)
Theorem endpoints_reach_the_server `{Env} `{Sha256} `{HashIter} `{Tempfile} `{Processes}
    `{TomlConfig} `{JsonCodec AnyOperationRecord} `{JsonCodec RequestLogLine} `{JsonCodec Request}
    `{ClapLaws} abs home stdin input read_config e staging path size :
  plain_option (endpoint_host e) = true → plain (endpoint_root e) = true → plain_option (endpoint_state_base e) = true →
  plain_option (endpoint_config e) = true → plain staging = true → plain path = true →
  (size <= u64_max)%N →
  let runs argv (run : M string Output) := ∃ words a,
    starts e argv words ∧ parse_args words = Ok a ∧
    main abs home stdin input read_config a = run in
  runs (Endpoint.control_argv e)
    (base ← lift (resolve_state_base home (endpoint_state_base e));
     serve abs input read_config (endpoint_root e) base (endpoint_config e) (Some 1000%N)) ∧
  runs (Endpoint.transfer_receive_argv e staging size) (receive_into abs stdin staging size) ∧
  runs (Endpoint.transfer_send_argv e path)
    (base ← lift (resolve_state_base home (endpoint_state_base e));
     send abs (endpoint_root e) base path).
Proof.
  intros Hh Hr Hb Hc Hst Hp Hn runs. set (bin := endpoint_bin e).
  set (root := endpoint_root e) in *. set (sb := endpoint_state_base e) in *.
  set (config := endpoint_config e) in *.
  assert (∀ argv words pairs a run,
    argv = match endpoint_host e with None => words | Some host => ssh_argv host words end →
    words = bin :: words_of pairs →
    NoDup pairs.*1 → forallb plain pairs.*2 = true → args_of pairs default_args = Some a →
    admissible a = true → main abs home stdin input read_config a = run → runs argv run) as Hruns.
  { intros argv words pairs a run Hargv Hw Hd Hv Ha Had Hm. exists words, a.
    split_and!; [|rewrite Hw; by eapply clap_reads|done].
    apply endpoint_starts; [done|by rewrite Hw|done]. }
  split_and!.
  - apply (Hruns _ (Endpoint.control_command bin root sb config)
      ((FRoot, root) :: option_pair FConfig config ++ option_pair FStateBase sb)
      (Args.Mk (Some root) sb config 1000 None None None)).
    1: unfold root, sb, config, bin; by destruct e.
    all: destruct config, sb; cbn in Hb, Hc |- *; rewrite ?Hr, ?Hb, ?Hc; try done;
      by apply (bool_decide_unpack _).
  - apply (Hruns _ (Endpoint.receive_command bin staging size)
      [(FTransferReceive, staging); (FExpectSize, pretty size)]
      (Args.Mk None None None 1000 (Some staging) (Some size) None)); try done.
    + by destruct e.
    + by apply (bool_decide_unpack _).
    + cbn [forallb fmap list_fmap snd]. by rewrite Hst, plain_number.
    + cbn. by rewrite parse_u64_pretty.
  - apply (Hruns _ (Endpoint.send_command bin path root sb)
      ((FTransferSend, path) :: (FRoot, root) :: option_pair FStateBase sb)
      (Args.Mk (Some root) sb None 1000 None None (Some path))).
    1: unfold root, sb, bin; by destruct e.
    all: destruct sb; cbn in Hb |- *; rewrite ?Hr, ?Hb, ?Hp; try done;
      by apply (bool_decide_unpack _).
Qed.
