(* ===== verification/Mcp.v ===== *)
(** * Mcp: the fleet of workspaces and the tools over it

    Models [crates/agent-remote-mcp/src/lib.rs] and the message filter of its
    [main.rs]: the fleet file and its checks, the connection slot of a
    workspace with its bounded reconnecting, and the tools, which turn a call
    of [ClientApi.v] into a text for the caller.

    Parameters are the TOML and JSON libraries and the network: whether the
    [k]-th connection attempt succeeds, whether the server then answers the
    probe, and which connections have closed. *)

From S2P Require Import Prelude Text Protocol World Fs Hash Workspace Jsonl Store Transfer Exec.
From S2P Require Import ClientApi ClientTransfer.

(** ** The fleet file *)

Module WorkspaceEntry.
Record WorkspaceEntry := Mk {
  host : option string; root : string; bin : option string;
  config : option string; state_base : option string; label : option string }.
End WorkspaceEntry.
Abbreviation WorkspaceEntry := WorkspaceEntry.WorkspaceEntry.

Module FleetWorkspace.
Record Workspace := Mk { endpoint : Endpoint; label : option string }.
End FleetWorkspace.
Abbreviation FleetWorkspace := FleetWorkspace.Workspace.

(** [toml::from_str::<FleetFile>]: the [workspaces] table. *)
Class FleetToml := { fleet_from_str : string → result string (gmap string WorkspaceEntry) }.

(** A [BTreeMap] is iterated in the order of its keys. *)
Definition btree_items {A} (m : gmap string A) : list (string * A) :=
  merge_sort (λ a b : string * A, String.le a.1 b.1) (map_to_list m).

(** What two workspaces must not share. *)
Definition address (e : WorkspaceEntry) : option string * string :=
  (WorkspaceEntry.host e, WorkspaceEntry.root e).

Definition workspace_of (entry : WorkspaceEntry) : FleetWorkspace :=
  let bin := default "agent-remote-server" (WorkspaceEntry.bin entry) in
  let endpoint :=
    match WorkspaceEntry.host entry with
    | Some host => Endpoint.Ssh host bin (WorkspaceEntry.root entry)
                     (WorkspaceEntry.state_base entry) (WorkspaceEntry.config entry)
    | None => Endpoint.Local bin (WorkspaceEntry.root entry)
                (WorkspaceEntry.state_base entry) (WorkspaceEntry.config entry)
    end in
  FleetWorkspace.Mk endpoint (WorkspaceEntry.label entry).

Definition same_address (prev name : string) : string :=
  "workspaces '" +:+ prev +:+ "' and '" +:+ name +:+ "' address the same host and root; "
    +:+ "they would contend for the same server state lock".

(** The loop of [parse_fleet]. *)
Fixpoint fleet_loop (items : list (string * WorkspaceEntry))
    (seen : gmap (option string * string) string) (out : gmap string FleetWorkspace)
    : result string (gmap string FleetWorkspace) :=
  match items with
  | [] => Ok out
  | (name, entry) :: items' =>
      match seen !! address entry with
      | Some prev => Err (same_address prev name)
      | None => fleet_loop items' (<[address entry := name]> seen)
                  (<[name := workspace_of entry]> out)
      end
  end.

Definition parse_fleet `{FleetToml} (text : string) : result string (gmap string FleetWorkspace) :=
  file ← fleet_from_str text;
  if bool_decide (file = ∅) then Err "fleet config declares no workspaces"
  else fleet_loop (btree_items file) ∅ ∅.

(** ** Connections *)

Definition CONNECT_ATTEMPTS : nat := 4.

(** The network: connections are numbered in the order they are dialed. *)
Class Network := {
  dial : list string → nat → result ClientError unit;   (* [Client::connect] *)
  probe : nat → result ClientError unit;                (* [stat(".")] right after *)
  closed_now : nat → bool }.                            (* [is_closed] of an older one *)

(** [RemoteWorkspaceServer]: the fleet, the slots, and how many connections
    were dialed so far. *)
Record Fleet := MkFleet {
  workspaces : gmap string FleetWorkspace;
  slots : gmap string nat;
  dialed : nat }.

(** [RemoteWorkspaceServer::new]. *)
Definition Fleet_new (fleet : gmap string FleetWorkspace) : Fleet := MkFleet fleet ∅ 0.

(** [handle]. *)
Definition workspace_handle (st : Fleet) (workspace : string) : result string FleetWorkspace :=
  ok_or (workspaces st !! workspace)
    ("unknown_workspace: '" +:+ workspace +:+ "' is not a configured workspace; available workspaces: "
       +:+ String.concat ", " (btree_items (workspaces st)).*1).

(** One attempt: connect and probe. *)
Definition attempt_connect `{Network} (argv : list string) (k : nat) : result (string * ClientError) nat :=
  match dial argv k with
  | Err e => Err ("connect_failed", e)
  | Ok _ => match probe k with Ok _ => Ok k | Err e => Err ("probe_failed", e) end
  end.

(** The attempts from the [n]-th on, [todo] of them: the connection, or the
    code and the text of the last failure. *)
Fixpoint connect_loop `{Network} (argv : list string) (todo n next : nat) (code last : string)
    : result (string * string) nat * nat :=
  match todo with
  | O => (Err (code, last), next)
  | S todo' =>
      match attempt_connect argv next with
      | Ok c => (Ok c, S next)
      | Err (code', e) =>
          connect_loop argv todo' (S n) (S next) code'
            ("attempt " +:+ pretty (N.of_nat n) +:+ ": " +:+ ClientError.display e)
      end
  end.

(** [RemoteWorkspaceServer::client]. *)
Definition client `{Network} (st : Fleet) (workspace : string)
    : result string (nat * FleetWorkspace) * Fleet :=
  match workspace_handle st workspace with
  | Err e => (Err e, st)
  | Ok ws =>
      let reconnect :=
        match connect_loop (Endpoint.control_argv (FleetWorkspace.endpoint ws)) CONNECT_ATTEMPTS 1
                (dialed st) "connect_failed" "" with
        | (Ok c, next) =>
            (Ok (c, ws), MkFleet (workspaces st) (<[workspace := c]> (slots st)) next)
        | (Err (code, last), next) =>
            (Err (code +:+ ": cannot reach workspace '" +:+ workspace +:+ "' after "
                    +:+ pretty (N.of_nat CONNECT_ATTEMPTS) +:+ " attempts (" +:+ last +:+ ")"),
             MkFleet (workspaces st) (slots st) next)
        end in
      match slots st !! workspace with
      | Some c => if negb (closed_now c) then (Ok (c, ws), st) else reconnect
      | None => reconnect
      end
  end.

(** [check_workspace]: one attempt, with its own texts. *)
Definition check_workspace `{Network} (endpoint : Endpoint) (k : nat) : result string unit :=
  match dial (Endpoint.control_argv endpoint) k with
  | Err e => Err ("connect_failed: " +:+ ClientError.display e)
  | Ok _ => match probe k with
            | Ok _ => Ok tt
            | Err e => Err ("probe_failed: " +:+ ClientError.display e)
            end
  end.

(** ** The filter in front of the protocol library

    [RejectUnknownMethods::receive] ([main.rs]): requests with a method the
    library does not know are answered here; anything else is passed on.
    [sent_ok] says whether the [k]-th reply can be sent. *)
Inductive Incoming (A : Type) := CustomRequest (id method : string) | Known (msg : A).
Arguments CustomRequest {A} id method.
Arguments Known {A} msg.

Fixpoint receive {A} (sent_ok : nat → bool) (k : nat) (incoming : list (Incoming A))
    : option A * list (string * string) * list (Incoming A) :=
  match incoming with
  | [] => (None, [], [])
  | Known msg :: rest => (Some msg, [], rest)
  | CustomRequest id method :: rest =>
      let reply := (id, "method not found: " +:+ method) in
      if sent_ok k then
        let '(msg, replies, rest') := receive sent_ok (S k) rest in (msg, reply :: replies, rest')
      else (None, [], rest)
  end.

(** ** Tools *)

(** [CallToolResult] with one text. *)
Record CallToolResult := MkTool { is_error : bool; tool_text : string }.
Definition ok_ (text : string) : CallToolResult := MkTool false text.
Definition err_ (text : string) : CallToolResult := MkTool true text.

(** [serde_json]: values, and the texts of rows of [list_workspaces]. *)
Record WorkspaceRow := MkRow { row_name : string; row_host : string; row_root : string;
                               row_label : option string }.
Class JsonValues := {
  Value : Type;
  insert_if_object : string → string → Value → Value;   (* [as_object_mut], [insert] *)
  to_string_pretty : Value → result string string;
  rows_to_string : list WorkspaceRow → result string string }.
Class ToValue (T : Type) `{JsonValues} := { to_value : T → result string Value }.

(** [ok_json_in_workspace]. *)
Definition ok_json_in_workspace {T} `{ToValue T} (workspace : string) (value : T) : CallToolResult :=
  match to_value value with
  | Err e => err_ ("result serialize error: " +:+ e)
  | Ok v =>
      match to_string_pretty (insert_if_object "workspace" workspace v) with
      | Ok text => ok_ text
      | Err e => err_ ("result serialize error: " +:+ e)
      end
  end.

(** The calls that name a workspace, with their inputs. *)
Inductive Tool :=
| ListDirectory (path : string) (offset limit : option N)
| ReadFile (path : string) (offset limit : option N)
| CreateFile (path content : string)
| EditFile (path base_hash old_text new_text : string) (replace_all : option bool)
| DeleteFile (path : string)
| RunCommand (argv : list string) (cwd profile : option string) (timeout_ms : option N)
| UploadFile (src : LocalSource) (remote_path : string) (overwrite : option bool) (duration_ms : N)
| Undo (operation_id : string)
| History (limit : option N)
| OperationGet (operation_id : string)
| RequestStatus (request_id : string).

(** A row of a directory listing. *)
Definition list_row (e : ListEntry) : string :=
  match ListEntry.kind e with
  | ListKind.Dir => "  " +:+ ListEntry.name e +:+ "/"
  | ListKind.File =>
      match ListEntry.size e with
      | Some s => "  " +:+ ListEntry.name e +:+ " (" +:+ pretty s +:+ " bytes)"
      | None => "  " +:+ ListEntry.name e
      end
  | ListKind.Symlink => "  " +:+ ListEntry.name e +:+ " ->"
  end.

Definition newline : string := String "010" "".

Definition list_text (result : ListResult) : string :=
  if bool_decide (ListResult.entries result = []) then "(empty directory)"
  else String.concat newline (list_row <$> ListResult.entries result)
       +:+ match ListResult.next_offset result with
           | Some next => newline +:+ "[more entries: use offset=" +:+ pretty next +:+ "]"
           | None => ""
           end.

Definition read_text (r : ReadResult) : string :=
  ReadResult.content r
  +:+ match ReadResult.next_offset r with
      | Some next => newline +:+ newline +:+ "[output truncated; use offset=" +:+ pretty next
                       +:+ " to read more]"
      | None => ""
      end
  +:+ match ReadResult.hash r with
      | Some hash => newline +:+ newline +:+ "[hash: " +:+ hash +:+ "]"
      | None => ""
      end.

Definition mutation_text (verb path workspace : string) (w : MutationResult) : string :=
  verb +:+ " " +:+ path +:+ " in workspace '" +:+ workspace +:+ "'. operation_id="
    +:+ MutationResult.operation_id w +:+ ", new_hash=" +:+ MutationResult.new_hash w.

Definition delete_text (path workspace : string) (w : MutationResult) : string :=
  "Deleted " +:+ path +:+ " in workspace '" +:+ workspace +:+ "'. operation_id="
    +:+ MutationResult.operation_id w.

Definition undo_text (operation_id workspace : string) (u : UndoResult) : string :=
  "Undid target " +:+ operation_id +:+ " in workspace '" +:+ workspace +:+ "'; undo_operation_id="
    +:+ UndoResult.operation_id u +:+ ", new_hash=" +:+ UndoResult.new_hash u.

Section tools.
Context `{Sha256} `{JsonCodec ReceiveMetadata.ReceiveMetadata} `{JsonCodec AnyOperationRecord}.
Context `{JsonValues} `{!ToValue ExecResult} `{!ToValue TransferResult} `{!ToValue OperationDetails}
        `{!ToValue RequestStatusResult}.

Definition history_text (workspace : string) (ops : list AnyOperationRecord) : string :=
  if bool_decide (ops = []) then "(no operations recorded in workspace '" +:+ workspace +:+ "')"
  else String.concat newline (string_of_list_byte ∘ json <$> ops).

(** [match client.call(..).await]: the text of the value, or of the error. *)
Definition answer {A} (call : M ClientError A) (f : A → CallToolResult)
    : M ClientError CallToolResult :=
  r ← attempt call;
  mret (match r with Ok a => f a | Err e => err_ (ClientError.display e) end).

(** ** The tools, once they have their client *)

Definition list_directory `{Connection} (path : string) (offset limit : option N)
    : M ClientError CallToolResult :=
  answer (Client.list_ path offset limit) (ok_ ∘ list_text).

Definition read_file `{Connection} (path : string) (offset limit : option N)
    : M ClientError CallToolResult :=
  answer (Client.read_ path offset limit) (ok_ ∘ read_text).

Definition create_file `{Connection} (workspace path content : string)
    : M ClientError CallToolResult :=
  answer (Client.create_ path content) (ok_ ∘ mutation_text "Created" path workspace).

Definition edit_file `{Connection} (workspace path base_hash old_text new_text : string)
    (replace_all : option bool) : M ClientError CallToolResult :=
  answer (Client.edit_ path base_hash old_text new_text (default false replace_all))
    (ok_ ∘ mutation_text "Edited" path workspace).

Definition delete_file `{Connection} (workspace path : string) : M ClientError CallToolResult :=
  answer (Client.delete_ path) (ok_ ∘ delete_text path workspace).

Definition run_command `{Connection} (workspace : string) (argv : list string)
    (cwd profile : option string) (timeout_ms : option N) : M ClientError CallToolResult :=
  answer (Client.exec_ argv cwd profile timeout_ms) (ok_json_in_workspace workspace).

Definition upload_tool `{Connection} `{ReceiverProcess} (endpoint : Endpoint) (workspace : string)
    (src : LocalSource) (remote_path : string) (overwrite : option bool) (duration_ms : N)
    : M ClientError CallToolResult :=
  answer (upload_file endpoint src remote_path (default false overwrite) duration_ms)
    (ok_json_in_workspace workspace).

Definition undo_tool `{Connection} (workspace operation_id : string)
    : M ClientError CallToolResult :=
  answer (Client.undo_ operation_id) (ok_ ∘ undo_text operation_id workspace).

Definition history_tool `{Connection} (workspace : string) (limit : option N)
    : M ClientError CallToolResult :=
  answer (Client.history_ limit) (ok_ ∘ history_text workspace).

Definition operation_get_tool `{Connection} (workspace operation_id : string)
    : M ClientError CallToolResult :=
  answer (Client.operation_get operation_id) (ok_json_in_workspace workspace).

Definition request_status_tool `{Connection} (workspace request_id : string)
    : M ClientError CallToolResult :=
  answer (Client.request_status request_id) (ok_json_in_workspace workspace).

(** The dispatch of [tool_router]. *)
Definition tool_call `{Connection} `{ReceiverProcess} (endpoint : Endpoint) (workspace : string)
    (t : Tool) : M ClientError CallToolResult :=
  match t with
  | ListDirectory path offset limit => list_directory path offset limit
  | ReadFile path offset limit => read_file path offset limit
  | CreateFile path content => create_file workspace path content
  | EditFile path base_hash old_text new_text replace_all =>
      edit_file workspace path base_hash old_text new_text replace_all
  | DeleteFile path => delete_file workspace path
  | RunCommand argv cwd profile timeout_ms => run_command workspace argv cwd profile timeout_ms
  | UploadFile src remote_path overwrite duration_ms =>
      upload_tool endpoint workspace src remote_path overwrite duration_ms
  | Undo operation_id => undo_tool workspace operation_id
  | History limit => history_tool workspace limit
  | OperationGet operation_id => operation_get_tool workspace operation_id
  | RequestStatus request_id => request_status_tool workspace request_id
  end.

(** The tool: [connection c] is the [c]-th connection dialed. *)
Definition run_tool `{Network} (connection : nat → Connection) (receiver : nat → ReceiverProcess)
    (st : Fleet) (workspace : string) (t : Tool) : Fleet * M ClientError CallToolResult :=
  match client st workspace with
  | (Err e, st') => (st', mret (err_ e))
  | (Ok (c, ws), st') =>
      (st', @tool_call (connection c) (receiver c) (FleetWorkspace.endpoint ws) workspace t)
  end.

(** [download_file]: the path reported is the local one. *)
Definition download_tool `{Env} `{Tempfile} `{JsonCodec SendHeader.SendHeader}
    `{JsonCodec SendTrailer.SendTrailer} `{Network} (connection : nat → Connection)
    (sender : nat → SenderProcess) (st : Fleet) (workspace remote_path : string)
    (target : LocalTarget) (overwrite : option bool) (duration_ms : N) (local : world)
    : Fleet * world * M ClientError CallToolResult :=
  match client st workspace with
  | (Err e, st') => (st', local, mret (err_ e))
  | (Ok (c, ws), st') =>
      let '(local', recorded) :=
        download_file (H4:=sender c) (H5:=connection c) (FleetWorkspace.endpoint ws) remote_path target
          (default false overwrite) duration_ms local in
      (st', local',
       answer recorded (λ r,
         ok_json_in_workspace workspace
           (TransferResult.Mk (TransferResult.operation_id r) (TransferResult.direction r)
              (target_text target) (TransferResult.size r) (TransferResult.sha256 r)
              (TransferResult.duration_ms r))))
  end.

(** [list_workspaces]. *)
Definition workspace_row (item : string * FleetWorkspace) : WorkspaceRow :=
  let '(name, ws) := item in
  let '(host, root) :=
    match FleetWorkspace.endpoint ws with
    | Endpoint.Ssh host _ root _ _ => (host, root)
    | Endpoint.Local _ root _ _ => ("(local)", root)
    end in
  MkRow name host root (FleetWorkspace.label ws).

Definition list_workspaces (st : Fleet) : CallToolResult :=
  match rows_to_string (workspace_row <$> btree_items (workspaces st)) with
  | Ok text => ok_ text
  | Err e => err_ ("serialize error: " +:+ e)
  end.
End tools.
