(* ===== verification/McpSpec.v ===== *)
(** * McpSpec: the fleet is sound, connections are bounded, tools answer

    Properties of [Mcp.v]: which fleet files are accepted and what they
    become, when a workspace's connection is reused and how often it is
    retried, and that a tool always answers with a text. *)

From S2P Require Import Prelude Text Protocol World Fs Hash Workspace Jsonl Store Transfer Exec.
From S2P Require Import FsOps Undo Prune Recovery Config Server ServerSpec.
From S2P Require Import ClientApi Agreement ClientTransfer Mcp.

(** ** The fleet file *)

Lemma btree_items_perm {A} (m : gmap string A) : btree_items m ≡ₚ map_to_list m.
Proof. apply merge_sort_Permutation. Qed.

Lemma btree_items_nodup {A} (m : gmap string A) : NoDup (btree_items m).*1.
Proof. rewrite btree_items_perm. apply NoDup_fst_map_to_list. Qed.

Lemma elem_of_btree_items {A} (m : gmap string A) n e : (n, e) ∈ btree_items m ↔ m !! n = Some e.
Proof. by rewrite btree_items_perm, elem_of_map_to_list. Qed.

Lemma fleet_loop_ok items seen out :
  NoDup items.*1 → NoDup (address <$> items.*2) →
  (∀ n e, (n, e) ∈ items → seen !! address e = None) →
  fleet_loop items seen out = Ok (list_to_map (prod_map id workspace_of <$> items) ∪ out).
Proof.
  revert seen out. induction items as [|[n e] items IH]; intros seen out Hn Ha Hs; cbn [fleet_loop].
  - cbn. by rewrite map_empty_union.
  - rewrite (Hs n e) by set_solver. cbn in Hn, Ha.
    apply NoDup_cons in Hn as [Hn1 Hn], Ha as [Ha1 Ha]. rewrite IH; [|done|done|].
    + f_equal. cbn [fmap list_fmap prod_map list_to_map foldr curry fst snd id].
      rewrite <- insert_union_l, insert_union_r; [done|].
      apply not_elem_of_list_to_map_1. intros Hin. apply Hn1.
      rewrite <- list_fmap_compose in Hin. exact Hin.
    + intros n' e' Hin. rewrite lookup_insert_ne; [apply (Hs n'); set_solver|]. intros Heq. apply Ha1.
      rewrite Heq. apply list_elem_of_fmap. exists e'. split; [done|].
      apply list_elem_of_fmap. by exists (n', e').
Qed.

Lemma fleet_loop_err items seen out msg :
  fleet_loop items seen out = Err msg →
  ∃ prev name e before after, items = before ++ (name, e) :: after ∧ msg = same_address prev name ∧
    (seen !! address e = Some prev ∨ ∃ e', (prev, e') ∈ before ∧ address e' = address e).
Proof.
  revert seen out. induction items as [|[n e] items IH]; intros seen out; cbn [fleet_loop]; [done|].
  destruct (seen !! address e) as [prev|] eqn:Hs.
  - intros [= <-]. exists prev, n, e, [], items. auto.
  - intros Hl. destruct (IH _ _ Hl) as (prev & name & e1 & before & after & -> & -> & Hp).
    exists prev, name, e1, ((n, e) :: before), after. split_and!; [done..|].
    destruct Hp as [Hp|(e' & Hin & He)]; [|right; exists e'; split; [set_solver|done]].
    destruct (decide (address e = address e1)) as [Heq|Hne].
    + rewrite Heq, lookup_insert_eq in Hp. injection Hp as <-. right. exists e. split; [set_solver|done].
    + rewrite lookup_insert_ne in Hp by done. by left.
Qed.

Lemma fleet_loop_distinct items seen out fleet :
  fleet_loop items seen out = Ok fleet →
  NoDup ((λ x, address x.2) <$> items) ∧ ∀ x, x ∈ items → seen !! address x.2 = None.
Proof.
  revert seen out. induction items as [|[n e] items IH]; intros seen out; cbn [fleet_loop].
  { intros _. split; [constructor|set_solver]. }
  destruct (seen !! address e) eqn:Hs; [done|]. intros Hl. destruct (IH _ _ Hl) as [Hn Hin].
  assert (∀ x, x ∈ items → address x.2 ≠ address e ∧ seen !! address x.2 = None) as Hx.
  { intros x Hx. specialize (Hin x Hx). rewrite lookup_insert_None in Hin. naive_solver. }
  split; [|intros x [->|Hx']%elem_of_cons; [done|naive_solver]].
  apply NoDup_cons. split; [|done]. intros (x & Heq & Hx')%list_elem_of_fmap. by destruct (Hx x Hx').
Qed.

Lemma nodup_fmap_inj {A B} (f : A → B) l x y :
  NoDup (f <$> l) → x ∈ l → y ∈ l → f x = f y → x = y.
Proof.
  induction l as [|z l IH]; [set_solver|]. cbn. rewrite NoDup_cons, !elem_of_cons.
  intros [Hz Hn] [->|Hx] [->|Hy] Heq; [done|..|by apply IH];
    destruct Hz; apply list_elem_of_fmap; eauto.
Qed.

(** No two workspaces of the file have the same host and root. *)
Definition distinct_addresses (file : gmap string WorkspaceEntry) : Prop :=
  ∀ n1 n2 e1 e2, file !! n1 = Some e1 → file !! n2 = Some e2 → address e1 = address e2 → n1 = n2.

Lemma distinct_nodup file : distinct_addresses file → NoDup (address <$> (btree_items file).*2).
Proof.
  intros Hd. pose proof (btree_items_nodup file) as Hn.
  assert (∀ n e, (n, e) ∈ btree_items file → file !! n = Some e) as Hin
    by (intros n e; apply elem_of_btree_items).
  induction (btree_items file) as [|[n e] items IH]; [constructor|]. cbn in *.
  apply NoDup_cons in Hn as [Hn1 Hn]. apply NoDup_cons. split; [|apply IH; [done|set_solver]].
  intros (e' & Heq & ((n' & e'') & -> & Hin')%list_elem_of_fmap)%list_elem_of_fmap. apply Hn1.
  assert (n' = n) as -> by (apply (Hd n' n e'' e); [apply Hin; by right|apply Hin; by left|done]).
  apply list_elem_of_fmap. by exists (n, e'').
Qed.

(** C29: which fleet files are accepted, and what they become.  A file that
    declares workspaces with pairwise different addresses becomes the fleet
    with exactly its names, each with its endpoint, binary and label; a file
    without workspaces, and one in which two different workspaces have the
    same host and root, is refused, in the second case with the names of two
    such workspaces. *)
Theorem parse_fleet_spec `{FleetToml} text file :
  fleet_from_str text = Ok file →
  (file ≠ ∅ → distinct_addresses file → parse_fleet text = Ok (workspace_of <$> file)) ∧
  (file = ∅ → parse_fleet text = Err "fleet config declares no workspaces") ∧
  (¬ distinct_addresses file → ∃ prev name e e',
     prev ≠ name ∧ file !! prev = Some e' ∧ file !! name = Some e ∧ address e' = address e ∧
     parse_fleet text = Err (same_address prev name)).
Proof.
  intros Hf. unfold parse_fleet. rewrite Hf. cbn [mbind result_bind].
  assert (file ≠ ∅ → distinct_addresses file →
    fleet_loop (btree_items file) ∅ ∅ = Ok (workspace_of <$> file)) as Hok.
  { intros _ Hd. rewrite fleet_loop_ok; [|apply btree_items_nodup|by apply distinct_nodup|done].
    f_equal. rewrite map_union_empty, list_to_map_fmap. f_equal.
    rewrite <- (list_to_map_to_list file) at 2.
    apply list_to_map_proper; [apply btree_items_nodup|apply btree_items_perm]. }
  split_and!.
  - intros Hne Hd. rewrite bool_decide_false by done. auto.
  - intros ->. by rewrite bool_decide_true.
  - intros Hnd. rewrite bool_decide_false by (intros ->; by apply Hnd).
    destruct (fleet_loop (btree_items file) ∅ ∅) as [fleet|msg] eqn:Hl.
    + exfalso. apply Hnd. intros n1 n2 e1 e2 H1 H2 Heq.
      apply fleet_loop_distinct in Hl as [Hn _].
      assert ((n1, e1) = (n2, e2)) as [= ? _]; [|done].
      apply (nodup_fmap_inj _ _ _ _ Hn); [by apply elem_of_btree_items..|done].
    + destruct (fleet_loop_err _ _ _ _ Hl) as (prev & name & e & before & after & Hitems & -> & Hp).
      destruct Hp as [Hp|(e' & Hin & Heq)]; [done|]. exists prev, name, e, e'.
      assert (∀ n x, (n, x) ∈ before ++ (name, e) :: after → file !! n = Some x) as Hlook.
      { intros n x. rewrite <- Hitems. apply elem_of_btree_items. }
      split_and!; [|apply Hlook; set_solver..|done|done].
      intros ->. pose proof (btree_items_nodup file) as Hn. rewrite Hitems in Hn.
      rewrite fmap_app, NoDup_app in Hn. destruct Hn as (_ & Hn & _). apply (Hn name); [|set_solver].
      apply list_elem_of_fmap. by exists (name, e').
Qed.

(** ** Connections *)

Section connections.
Context `{Network}.

(** The [k]-th connection is made and answers the probe. *)
Definition reaches (argv : list string) (k : nat) : Prop := is_ok (dial argv k) = true ∧ is_ok (probe k) = true.

Lemma attempt_connect_spec argv k :
  match attempt_connect argv k with
  | Ok c => c = k ∧ reaches argv k
  | Err _ => ¬ reaches argv k
  end.
Proof. unfold attempt_connect, reaches. destruct (dial argv k), (probe k); cbn; naive_solver. Qed.

Lemma connect_loop_spec argv todo n next code last :
  match connect_loop argv todo n next code last with
  | (Ok c, next') => ∃ i, i < todo ∧ c = next + i ∧ next' = S c ∧ reaches argv c ∧
      ∀ j, j < i → ¬ reaches argv (next + j)
  | (Err _, next') => next' = next + todo ∧ ∀ j, j < todo → ¬ reaches argv (next + j)
  end.
Proof.
  revert n next code last. induction todo as [|todo IH]; intros n next code last; cbn [connect_loop].
  { split; [lia|]. intros j Hj. lia. }
  pose proof (attempt_connect_spec argv next) as Ha.
  destruct (attempt_connect argv next) as [c|[code' e]].
  - destruct Ha as [-> Hr]. exists 0. rewrite Nat.add_0_r. split_and!; [lia|done..|]. intros j Hj. lia.
  - specialize (IH (S n) (S next) code' ("attempt " +:+ pretty (N.of_nat n) +:+ ": " +:+ ClientError.display e)).
    assert (∀ j m, (∀ i, i < m → ¬ reaches argv (S next + i)) → j < S m → ¬ reaches argv (next + j)) as Hsh.
    { intros [|j] m Hm Hj; [by rewrite Nat.add_0_r|]. replace (next + S j) with (S next + j) by lia.
      apply Hm. lia. }
    destruct (connect_loop _ _ _ _ _ _) as [[c|e'] next'].
    + destruct IH as (i & Hi & -> & -> & Hr & Hj). exists (S i).
      replace (next + S i) with (S next + i) by lia. split_and!; [lia|done..|].
      intros j Hlt. by apply (Hsh j i).
    + destruct IH as [-> Hj]. split; [lia|]. intros j Hlt. by apply (Hsh j todo).
Qed.

(** C28: connections are reused and retried, within bounds.  A call for an
    unknown workspace dials nothing.  For a known one, an open connection is
    reused as it is; otherwise at most four connections are dialed, the first
    one that answers the probe is handed out and kept, and when none does the
    caller gets an error and the slot keeps what it had.  Other workspaces'
    slots are never touched. *)
Theorem client_reaches st workspace :
  let '(r, st') := client st workspace in
  workspaces st' = workspaces st ∧
  (∀ other, other ≠ workspace → slots st' !! other = slots st !! other) ∧
  match workspaces st !! workspace with
  | None => is_ok r = false ∧ st' = st
  | Some ws =>
      let argv := Endpoint.control_argv (FleetWorkspace.endpoint ws) in
      (∃ c, slots st !! workspace = Some c ∧ closed_now c = false ∧ r = Ok (c, ws) ∧ st' = st) ∨
      ((∀ c, slots st !! workspace = Some c → closed_now c = true) ∧
       ((∃ i, i < CONNECT_ATTEMPTS ∧ reaches argv (dialed st + i) ∧
              (∀ j, j < i → ¬ reaches argv (dialed st + j)) ∧
              r = Ok (dialed st + i, ws) ∧ dialed st' = S (dialed st + i) ∧
              slots st' = <[workspace := dialed st + i]> (slots st)) ∨
        ((∀ j, j < CONNECT_ATTEMPTS → ¬ reaches argv (dialed st + j)) ∧ is_ok r = false ∧
         dialed st' = dialed st + CONNECT_ATTEMPTS ∧ slots st' = slots st)))
  end.
Proof.
  unfold client, workspace_handle. destruct (workspaces st !! workspace) as [ws|] eqn:Hws; cbn [ok_or].
  2: by split_and!.
  set (argv := Endpoint.control_argv (FleetWorkspace.endpoint ws)).
  pose proof (connect_loop_spec argv CONNECT_ATTEMPTS 1 (dialed st) "connect_failed" "") as Hl.
  destruct (connect_loop argv CONNECT_ATTEMPTS 1 (dialed st) "connect_failed" "") as [[c|[code last]] next];
    destruct (slots st !! workspace) as [c0|] eqn:Hslot; [destruct (closed_now c0) eqn:Hc0| |
                                                         destruct (closed_now c0) eqn:Hc0|]; cbn [negb].
  all: cbn [workspaces slots dialed].
  all: split; [done|]; split; [by intros; rewrite ?lookup_insert_ne|].
  2, 5: left; by exists c0.
  all: right; split; [by intros; simplify_eq|].
  1, 2: left; destruct Hl as (i & Hi & -> & -> & Hr & Hj); by exists i.
  all: right; destruct Hl as [-> Hj]; by split_and!.
Qed.
End connections.

(** ** Tools *)

(** The request a tool stands for; an upload is more than one. *)
Definition tool_request (t : Tool) : option (RequestBody * N) :=
  match t with
  | ListDirectory path offset limit =>
      Some (RequestBody.List path offset limit, DEFAULT_REQUEST_TIMEOUT)
  | ReadFile path offset limit => Some (RequestBody.Read path offset limit, DEFAULT_REQUEST_TIMEOUT)
  | CreateFile path content => Some (RequestBody.Create path content, DEFAULT_REQUEST_TIMEOUT)
  | EditFile path base_hash old_text new_text replace_all =>
      Some (RequestBody.Edit path base_hash old_text new_text (default false replace_all),
            DEFAULT_REQUEST_TIMEOUT)
  | DeleteFile path => Some (RequestBody.Delete path, DEFAULT_REQUEST_TIMEOUT)
  | RunCommand argv cwd profile timeout_ms =>
      Some (RequestBody.Exec argv cwd profile timeout_ms,
            saturating_add (default DEFAULT_EXEC_TIMEOUT_MS timeout_ms) 30000)
  | UploadFile _ _ _ _ => None
  | Undo operation_id => Some (RequestBody.Undo operation_id, DEFAULT_REQUEST_TIMEOUT)
  | History limit => Some (RequestBody.History limit, DEFAULT_REQUEST_TIMEOUT)
  | OperationGet operation_id => Some (RequestBody.OperationGet operation_id, DEFAULT_REQUEST_TIMEOUT)
  | RequestStatus request_id => Some (RequestBody.RequestStatus request_id, DEFAULT_REQUEST_TIMEOUT)
  end.

Section tool_calls.
Context `{Sha256} `{JsonCodec ReceiveMetadata.ReceiveMetadata} `{JsonCodec AnyOperationRecord}.
Context `{JsonValues} `{!ToValue ExecResult} `{!ToValue TransferResult} `{!ToValue OperationDetails}
        `{!ToValue RequestStatusResult}.

(** What the tool reports for a result of the kind it asked for. *)
Definition tool_reports (workspace : string) (t : Tool) (r : ResultBody) : option CallToolResult :=
  match t, r with
  | ListDirectory _ _ _, ResultBody.List a => Some (ok_ (list_text a))
  | ReadFile _ _ _, ResultBody.Read a => Some (ok_ (read_text a))
  | CreateFile path _, ResultBody.Mutation a => Some (ok_ (mutation_text "Created" path workspace a))
  | EditFile path _ _ _ _, ResultBody.Mutation a =>
      Some (ok_ (mutation_text "Edited" path workspace a))
  | DeleteFile path, ResultBody.Mutation a => Some (ok_ (delete_text path workspace a))
  | RunCommand _ _ _ _, ResultBody.Exec a => Some (ok_json_in_workspace workspace a)
  | Undo id, ResultBody.Undo a => Some (ok_ (undo_text id workspace a))
  | History _, ResultBody.History a => Some (ok_ (history_text workspace a))
  | OperationGet _, ResultBody.Operation a => Some (ok_json_in_workspace workspace a)
  | RequestStatus _, ResultBody.RequestStatus a => Some (ok_json_in_workspace workspace a)
  | _, _ => None
  end.

(** C27: a tool is its request.  Every tool but the transfers makes exactly
    one exchange, of the request its inputs name; it reports the value it
    brings in the tool's own text, or the error of the server or of the
    exchange as an error text, and never fails itself. *)
Theorem tool_is_its_request `{ConnectionLaws} `{ReceiverProcess} endpoint workspace t body timeout w :
  tool_request t = Some (body, timeout) →
  match send_request_with_timeout body timeout w with
  | (Returned (_, ServerMessage.Result _ r), w') => ∃ report,
      tool_reports workspace t r = Some report ∧
      tool_call endpoint workspace t w = (Returned report, w')
  | (Returned (_, ServerMessage.Error _ e), w') =>
      tool_call endpoint workspace t w = (Returned (err_ (ClientError.display (ClientError.Server e))), w')
  | (Raised e, w') => tool_call endpoint workspace t w = (Returned (err_ (ClientError.display e)), w')
  | (Killed, w') => tool_call endpoint workspace t w = (Killed, w')
  end.
Proof.
  intros Ht. pose proof (exchange_agrees body timeout w) as Ha. unfold wp in Ha.
  destruct t; simplify_eq/=;
    unfold tool_call, list_directory, read_file, create_file, edit_file, delete_file, run_command,
      undo_tool, history_tool, operation_get_tool, request_status_tool, answer, attempt, Client.list_, Client.read_, Client.create_, Client.edit_,
      Client.delete_, Client.exec_, Client.undo_, Client.history_, Client.operation_get,
      Client.request_status, Client.send_request, mbind, M_bind;
    (destruct (send_request_with_timeout _ _ w) as [[[rid [rid' r|rid' e]]|e|] w']; cbn in *;
     [destruct r; try done; eexists; (split; reflexivity)|reflexivity..]).
Qed.
End tool_calls.
