(* ===== verification/ClientMain.v ===== *)
(** * ClientMain: the command lines of the client and of the MCP server

    Models [crates/agent-remote-client/src/main.rs] (the endpoint the options
    name, each subcommand as a call of [ClientApi.v] with what it prints and
    the exit code), the [main] of [crates/agent-remote-mcp/src/main.rs] (where
    the fleet file is, and the diagnostic mode), and the interaction log of
    [crates/agent-remote-client/src/log_writer.rs].

    Option parsing is done by crate [clap] and not modelled: the options are
    given as records.  An error is the text of [anyhow::Error]. *)

From S2P Require Import Prelude Text Protocol World Fs Hash Workspace Jsonl Store Transfer Exec.
From S2P Require Import ClientApi ClientTransfer Mcp ServerMain.

(** ** The client *)

Module Command.
Inductive Command :=
| Ls (path : string) (offset limit : option N)
| Stat (path : string)
| Cat (path : string) (offset limit : option N)
| Create (path : string) (file : option string)
| Edit (path base_hash old_text new_text : string) (replace_all : bool)
| Exec (cwd profile : option string) (timeout_ms : option N) (argv : list string)
| Rm (path : string)
| Undo (operation_id : string)
| History (limit : option N)
| Op (operation_id : string)
| Status (request_id : string)
| Gc (keep : option N).
End Command.
Abbreviation Command := Command.Command.

Module Cli.
Record Cli := Mk {
  host : option string;
  remote_bin : string;
  root : string;
  config : option string;
  state_base : option string;
  local : bool;
  log : option string;
  command : Command }.
End Cli.
Abbreviation Cli := Cli.Cli.

Definition endpoint_of (cli : Cli) : result string Endpoint :=
  if Cli.local cli then
    Ok (Endpoint.Local (Cli.remote_bin cli) (Cli.root cli) (Cli.state_base cli) (Cli.config cli))
  else
    host ← ok_or (Cli.host cli) "--host is required (or use --local to run the server locally)";
    Ok (Endpoint.Ssh host (Cli.remote_bin cli) (Cli.root cli) (Cli.state_base cli) (Cli.config cli)).

(** What a command leaves: standard output, standard error, exit code. *)
Record printed := MkPrinted { out : string; err : string; code : Z }.
Definition prints (text : string) : printed := MkPrinted text "" 0.

(** [{:>10}]. *)
Fixpoint spaces (n : nat) : string := match n with O => "" | S n => " " +:+ spaces n end.
Definition right_aligned (width : nat) (s : string) : string :=
  spaces (width - String.length s) +:+ s.

Definition ls_row (e : ListEntry) : string :=
  let kind := match ListEntry.kind e with
              | ListKind.File => "f" | ListKind.Dir => "d" | ListKind.Symlink => "l" end in
  let size := match ListEntry.size e with Some s => pretty s | None => "-" end in
  kind +:+ " " +:+ right_aligned 10 size +:+ " " +:+ ListEntry.name e +:+ newline.

Definition ls_printed (result : ListResult) : printed :=
  MkPrinted (String.concat "" (ls_row <$> ListResult.entries result))
    (match ListResult.next_offset result with
     | Some next => "[more entries: use --offset " +:+ pretty next +:+ "]" +:+ newline
     | None => "" end) 0.

Definition cat_printed (r : ReadResult) : printed :=
  MkPrinted (ReadResult.content r)
    (match ReadResult.next_offset r with
     | Some next => newline +:+ "[truncated: use --offset " +:+ pretty next +:+ "]" +:+ newline
     | None => "" end) 0.

(** [print_exec_output]: what it writes. *)
Definition exec_output_text (output : ExecOutput) : string :=
  ExecOutput.prefix output
  +:+ (if (0 <? ExecOutput.omitted_bytes output)%N
       then newline +:+ "[" +:+ pretty (ExecOutput.omitted_bytes output) +:+ " bytes omitted]" +:+ newline
       else "")
  +:+ ExecOutput.suffix output.

(** [{:?}] of a termination. *)
Definition debug_termination (t : ExecTermination) : string :=
  match t with
  | ExecTermination.Exited code => "Exited { code: " +:+ pretty code +:+ " }"
  | ExecTermination.TimedOut => "TimedOut"
  | ExecTermination.Signaled signal => "Signaled { signal: " +:+ pretty signal +:+ " }"
  end.

Definition exit_code (t : ExecTermination) : Z :=
  match t with
  | ExecTermination.Exited code => code
  | ExecTermination.TimedOut => 124
  | ExecTermination.Signaled signal => 128 + signal
  end.

Definition exec_printed (result : ExecResult) : printed :=
  MkPrinted (exec_output_text (ExecResult.stdout result))
    (exec_output_text (ExecResult.stderr result)
     +:+ "[" +:+ debug_termination (ExecResult.termination result) +:+ "] operation_id="
     +:+ ExecResult.operation_id result +:+ " duration_ms=" +:+ pretty (ExecResult.duration_ms result)
     +:+ newline)
    (exit_code (ExecResult.termination result)).

Section client.
Context `{JsonValues} `{!ToValue FileEntry} `{!ToValue MutationResult} `{!ToValue UndoResult}
        `{!ToValue (list AnyOperationRecord)} `{!ToValue OperationDetails}
        `{!ToValue RequestStatusResult} `{!ToValue GcResult}.

(** [read_input], of a file or of standard input. *)
Context (read_input : option string → result string string).

(** [println!("{}", serde_json::to_string_pretty(&value)?)]. *)
Definition pretty_printed {T} `{!ToValue T} (value : T) : result string printed :=
  v ← to_value value; text ← to_string_pretty v; Ok (prints (text +:+ newline)).

(** [client.call(..).await?], and what is made of its value. *)
Definition report {A} (call : M ClientError A) (f : A → result string printed) : M string printed :=
  a ← map_raise ClientError.display call; lift (f a).

Definition run_command `{Connection} (command : Command) : M string printed :=
  match command with
  | Command.Ls path offset limit => report (Client.list_ path offset limit) (λ r, Ok (ls_printed r))
  | Command.Stat path => report (Client.stat_ path) pretty_printed
  | Command.Cat path offset limit => report (Client.read_ path offset limit) (λ r, Ok (cat_printed r))
  | Command.Create path file =>
      content ← lift (read_input file);
      report (Client.create_ path content) pretty_printed
  | Command.Edit path base_hash old_text new_text replace_all =>
      report (Client.edit_ path base_hash old_text new_text replace_all) pretty_printed
  | Command.Exec cwd profile timeout_ms argv =>
      if bool_decide (argv = []) then raise "exec requires at least one argv element"
      else report (Client.exec_ argv cwd profile timeout_ms) (λ r, Ok (exec_printed r))
  | Command.Rm path => report (Client.delete_ path) pretty_printed
  | Command.Undo operation_id => report (Client.undo_ operation_id) pretty_printed
  | Command.History limit => report (Client.history_ limit) pretty_printed
  | Command.Op operation_id => report (Client.operation_get operation_id) pretty_printed
  | Command.Status request_id => report (Client.request_status request_id) pretty_printed
  | Command.Gc keep => report (Client.gc keep) pretty_printed
  end.

(** [async_main_real]: the log is opened, the endpoint built, the connection
    made, the command run. *)
Definition async_main_real `{Connection} (open_log : string → result string unit)
    (dial : list string → result string unit) (cli : Cli) : M string printed :=
  lift (match Cli.log cli with
        | Some p => map_err (λ _, "open client log") (open_log p)
        | None => Ok tt
        end) ;;
  endpoint ← lift (endpoint_of cli);
  lift (map_err (λ _, "connect to server") (dial (Endpoint.control_argv endpoint))) ;;
  run_command (Cli.command cli).
End client.

(** ** The MCP server *)

Definition fleet_path (home fleet : option string) : result string string :=
  match fleet with
  | Some p => Ok p
  | None =>
      home ← ok_or home "HOME is not set; pass --fleet";
      Ok (path_join home ".agent-remote/workspaces.toml")
  end.

Definition location (e : Endpoint) : string :=
  match e with
  | Endpoint.Ssh host _ root _ _ => host +:+ ":" +:+ root
  | Endpoint.Local _ root _ _ => "(local):" +:+ root
  end.

(** The loop of [--check] from the [k]-th probe on: the lines printed, and
    how many workspaces are unhealthy. *)
Fixpoint check_loop `{Network} (fleet : list (string * FleetWorkspace)) (k : nat) : list string * nat :=
  match fleet with
  | [] => ([], 0)
  | (name, ws) :: fleet' =>
      let '(rows, unhealthy) := check_loop fleet' (S k) in
      let e := FleetWorkspace.endpoint ws in
      match check_workspace e k with
      | Ok _ => ((name +:+ " [" +:+ location e +:+ "]: ok") :: rows, unhealthy)
      | Err msg => ((name +:+ " [" +:+ location e +:+ "]: " +:+ msg) :: rows, S unhealthy)
      end
  end.

Definition check_fleet `{Network} (path : string) (fleet : gmap string FleetWorkspace)
    : list string * result string unit :=
  let '(rows, unhealthy) := check_loop (btree_items fleet) 0 in
  (("fleet config " +:+ path +:+ " ok: " +:+ pretty (N.of_nat (size fleet)) +:+ " workspace(s)") :: rows,
   if Nat.eqb unhealthy 0 then Ok tt
   else Err (pretty (N.of_nat unhealthy) +:+ " workspace(s) unhealthy")).

(** [main]: the lines printed, and the failure, or the fleet to serve. *)
Definition mcp_main `{Network} `{FleetToml} (home fleet_arg : option string) (check : bool)
    (read_file : string → result string string) : list string * result string (option Fleet) :=
  match (path ← fleet_path home fleet_arg;
         text ← map_err (λ _, "read fleet config " +:+ debug_name path
                               +:+ "; create it or pass --fleet") (read_file path);
         fleet ← map_err (λ _, "invalid fleet config " +:+ debug_name path) (parse_fleet text);
         Ok (path, fleet)) with
  | Err e => ([], Err e)
  | Ok (path, fleet) =>
      if check then
        let '(rows, r) := check_fleet path fleet in (rows, _ ← r; Ok None)
      else ([], Ok (Some (Fleet_new fleet)))
  end.

(** ** The interaction log *)

Module ClientLog.
Record ClientLog := Mk { file : bytes; errored : bool }.
End ClientLog.
Abbreviation ClientLog := ClientLog.ClientLog.

(** A freshly opened log appends to what the file holds. *)
Definition log_open (held : bytes) : ClientLog := ClientLog.Mk held false.

(** [append_json]: [failed] says that the write or the flush fails, having put
    so many bytes into the file. *)
Definition append_json (text : bytes) (failed : option nat) (log : ClientLog) : ClientLog :=
  if ClientLog.errored log then log
  else
    let line := text ++ [nl] in
    match failed with
    | None => ClientLog.Mk (ClientLog.file log ++ line) false
    | Some k => ClientLog.Mk (ClientLog.file log ++ take k line) true
    end.

(** The entries, as the fields [json!] is given; their text is [serde_json]'s. *)
Inductive LogEntry :=
| LogRequest (request_id : string) (ts_ms : N) (line : string)
| LogResponse (request_id : string) (ts_ms : N) (message : ServerMessage)
| LogRaw (request_id : string) (ts_ms : N) (line : string).

Definition log_request `{JsonCodec LogEntry} (request_id : string) (now : N) (raw_line : string) :=
  append_json (json (LogRequest request_id now raw_line)).
Definition log_response `{JsonCodec LogEntry} (request_id : string) (now : N) (msg : ServerMessage) :=
  append_json (json (LogResponse request_id now msg)).
Definition log_raw `{JsonCodec LogEntry} (request_id : string) (now : N) (raw_line : string) :=
  append_json (json (LogRaw request_id now raw_line)).

(** ** Properties *)

Section checking.
Context `{Network}.

Lemma check_loop_spec fleet k :
  let '(rows, unhealthy) := check_loop fleet k in
  length rows = length fleet ∧
  (unhealthy = 0 ↔ ∀ i name ws, fleet !! i = Some (name, ws) →
     is_ok (check_workspace (FleetWorkspace.endpoint ws) (k + i)) = true).
Proof.
  revert k. induction fleet as [|[name ws] fleet IH]; intros k; cbn [check_loop].
  { split; [done|]. split; [|done]. intros _ i name ws. by rewrite lookup_nil. }
  specialize (IH (S k)). destruct (check_loop fleet (S k)) as [rows unhealthy]. destruct IH as [Hlen Hun].
  assert ((∀ i name' ws', ((name, ws) :: fleet) !! i = Some (name', ws') →
             is_ok (check_workspace (FleetWorkspace.endpoint ws') (k + i)) = true) ↔
          is_ok (check_workspace (FleetWorkspace.endpoint ws) k) = true ∧ unhealthy = 0) as Hsplit.
  { rewrite Hun. split.
    - intros Ha. split; [specialize (Ha 0 name ws eq_refl); by rewrite Nat.add_0_r in Ha|].
      intros i name' ws' Hl. specialize (Ha (S i) name' ws' Hl).
      by replace (S k + i) with (k + S i) by lia.
    - intros [Hh Ht] [|i] name' ws' Hl; [injection Hl as <- <-; by rewrite Nat.add_0_r|].
      replace (k + S i) with (S k + i) by lia. by eapply Ht. }
  destruct (check_workspace _ k); cbn [is_ok length] in *; (split; [congruence|]); rewrite Hsplit; naive_solver.
Qed.

(** [--check] succeeds exactly when every workspace of the fleet answers its
    one probe, and reports a line for each. *)
Theorem check_fleet_spec path fleet :
  let '(rows, r) := check_fleet path fleet in
  length rows = S (length (btree_items fleet)) ∧
  (r = Ok tt ↔ ∀ i name ws, btree_items fleet !! i = Some (name, ws) →
     is_ok (check_workspace (FleetWorkspace.endpoint ws) i) = true).
Proof.
  unfold check_fleet. pose proof (check_loop_spec (btree_items fleet) 0) as Hl.
  destruct (check_loop _ 0) as [rows unhealthy]. destruct Hl as [Hlen Hun]. split; [cbn; congruence|].
  cbn [Nat.add] in Hun. rewrite <- Hun. by destruct unhealthy.
Qed.
End checking.

(** The entries written, up to the first failure and with the part of that one
    that got into the file. *)
Fixpoint log_written (entries : list (bytes * option nat)) : bytes :=
  match entries with
  | [] => []
  | (text, None) :: rest => (text ++ [nl]) ++ log_written rest
  | (text, Some k) :: _ => take k (text ++ [nl])
  end.

(** The interaction log holds whole lines, in order, up to the first failure;
    a failed write ends the logging for good, so that nothing is ever appended
    to a torn line. *)
Theorem client_log_spec held entries :
  let log := foldl (λ log '(text, failed), append_json text failed log) (log_open held) entries in
  ClientLog.file log = held ++ log_written entries ∧
  ClientLog.errored log = existsb (λ e, bool_decide (is_Some e.2)) entries.
Proof.
  assert (∀ entries log, ClientLog.errored log = true →
    foldl (λ log '(text, failed), append_json text failed log) log entries = log) as Hstop.
  { clear. induction entries as [|[text failed] entries IH]; intros log He; [done|]. cbn [foldl].
    assert (append_json text failed log = log) as -> by (unfold append_json; by rewrite He). by apply IH. }
  revert held. induction entries as [|[text [k|]] entries IH]; intros held; cbn [foldl].
  - by rewrite app_nil_r.
  - by rewrite Hstop.
  - change (append_json text None (log_open held)) with (log_open (held ++ text ++ [nl])).
    destruct (IH (held ++ text ++ [nl])) as [-> ->]. split; [|done].
    by rewrite <- (assoc_L (++)).
Qed.

(** A command that needs an input it does not get sends nothing. *)
Theorem missing_input_sends_nothing `{JsonValues} `{!ToValue FileEntry} `{!ToValue MutationResult}
    `{!ToValue UndoResult} `{!ToValue (list AnyOperationRecord)} `{!ToValue OperationDetails}
    `{!ToValue RequestStatusResult} `{!ToValue GcResult} `{Connection} read_input w :
  (∀ cwd profile timeout_ms,
     run_command read_input (Command.Exec cwd profile timeout_ms []) w
     = (Raised "exec requires at least one argv element", w)) ∧
  (∀ path file e, read_input file = Err e →
     run_command read_input (Command.Create path file) w = (Raised e, w)).
Proof.
  split; [done|]. intros path file e He. cbn [run_command]. by rewrite He.
Qed.
