(* ===== verification/ClientConn.v ===== *)
(** * ClientConn: one connection shared by concurrent calls

    Models the connection half of
    [crates/agent-remote-client/src/lib.rs]: [Client::connect] with its reader
    task, [send_request_with_timeout], and the ids of requests.  Calls, the
    reader and the network run concurrently; the model is a step relation in
    which each step is what one task does between two suspension points, in
    any order.

    A call in its [select!] is followed poll by poll: [wait_closed] makes a
    [Notified] future, looks at the flag again, and is woken by a notification
    later than the future; only then come the timer and the channel.  The
    reader task is followed through what it does after its loop.

    The theorems: an answer reaches the call it belongs to and no other, and
    no call is ever left waiting without the means to finish. *)

From S2P Require Import Prelude Text Protocol World Jsonl ClientApi.

(** ** Request ids *)

(** [unique_id]: clock, process id and counter. *)
Definition unique_id (ts pid n : N) : string :=
  to_hex 16 ts +:+ "-" +:+ to_hex 8 pid +:+ "-" +:+ to_hex 8 n.
Definition next_request_id (ts pid n : N) : string := "req-" +:+ unique_id ts pid n.

Lemma unique_id_inj ts pid n ts' pid' n' :
  (ts <= u64_max)%N → (pid <= u64_max)%N → (n <= u64_max)%N →
  (ts' <= u64_max)%N → (pid' <= u64_max)%N → (n' <= u64_max)%N →
  unique_id ts pid n = unique_id ts' pid' n' → ts = ts' ∧ pid = pid' ∧ n = n'.
Proof.
  intros Hts Hpid Hn Hts' Hpid' Hn' Heq. unfold unique_id in Heq.
  apply split_dash in Heq as [Ht Heq]; [|apply to_hex_no_dash..].
  apply split_dash in Heq as [Hp Heq]; [|apply to_hex_no_dash..].
  apply (f_equal (of_hex 0)) in Ht, Hp, Heq. rewrite !of_hex_to_hex in Ht, Hp, Heq by done. done.
Qed.

(** ** The state *)

(** A [oneshot] channel, seen from its receiver. *)
Inductive channel := Pending | Sent (m : ServerMessage) | Dropped.

(** Where a call of [send_request_with_timeout] stands.  It is known by its
    request id.  From [Entering] on it is in the [select!], which is biased: a
    poll of it polls [wait_closed], the timer and the channel in this order.
    [g] says whether the waiters had been notified when the [Notified] future
    of [wait_closed] was made; the future is ready once that has changed. *)
Inductive call :=
| Checked                        (* saw an open connection, has its id *)
| Writing                        (* registered in the reply map *)
| Entering                       (* [wait_closed] at its first look at the flag *)
| Arming                         (* at the head of its loop *)
| Rechecking (g : bool)          (* has the future, is to look at the flag again *)
| Waiting (g : bool)             (* suspended at [notified.await] *)
| Woken                          (* past it *)
| PollTimer (g : bool)           (* [wait_closed] was not ready, the timer is next *)
| PollReply (g : bool)           (* nor was the timer, the channel is next *)
| TimingOut                      (* the timer branch was taken *)
| Finished (r : result ClientError (string * ServerMessage)).

(** Where the reader task of [Client::connect] stands: in [reader_loop], or
    having done so much of what comes after it. *)
Inductive reader_stage := Reading | Ended | Stored | Drained | Done.

Record conn := MkConn {
  pid : N;
  reply_map : gset string;               (* the ids whose sender is held *)
  channels : gmap string channel;
  calls : gmap string call;
  made : N;                              (* [COUNTER], before it wraps *)
  reader : reader_stage;
  closed : bool;
  notified : bool;                       (* [notify_waiters] was called *)
  received : list ServerMessage }.       (* every message read, latest first *)

(** [Client::connect]. *)
Definition connect (process : N) : conn :=
  MkConn process ∅ ∅ ∅ 0 Reading false false [].

Definition set_call (id : string) (s : call) (c : conn) : conn :=
  MkConn (pid c) (reply_map c) (channels c) (<[id := s]> (calls c)) (made c)
    (reader c) (closed c) (notified c) (received c).

(** [next_request_id] and [oneshot::channel]. *)
Definition begin_call (ts : N) (c : conn) : conn :=
  let id := next_request_id ts (pid c) (as_u64 (made c)) in
  MkConn (pid c) (reply_map c) (<[id := Pending]> (channels c)) (<[id := Checked]> (calls c))
    (made c + 1) (reader c) (closed c) (notified c) (received c).

(** [reply_map.lock().await.insert(..)]. *)
Definition register (id : string) (c : conn) : conn :=
  MkConn (pid c) ({[id]} ∪ reply_map c) (channels c) (<[id := Writing]> (calls c)) (made c)
    (reader c) (closed c) (notified c) (received c).

(** [wait_closed] looks at the flag: it returns, or goes on as [s]. *)
Definition check_closed (id : string) (s : call) (c : conn) : conn :=
  set_call id (if closed c then Finished (Err ClientError.Closed) else s) c.

(** A poll of the [select!]: the [Notified] future first. *)
Definition poll (id : string) (g : bool) (c : conn) : conn :=
  set_call id (if Bool.eqb (notified c) g then PollTimer g else Woken) c.

(** Its last branch: the channel. *)
Definition poll_reply (id : string) (g : bool) (c : conn) : conn :=
  set_call id (match channels c !! id with
               | Some (Sent m) => Finished (Ok (id, m))
               | Some Dropped => Finished (Err ClientError.Closed)
               | _ => Waiting g
               end) c.

(** [reply_map.lock().await.remove(&request_id)] after a timeout: the sender
    is dropped. *)
Definition unregister (id : string) (c : conn) : conn :=
  MkConn (pid c) (reply_map c ∖ {[id]}) (channels c)
    (<[id := Finished (Err ClientError.Timeout)]> (calls c)) (made c)
    (reader c) (closed c) (notified c) (received c).

(** The reader on a parsed message: the sender is taken out of the map and
    used. *)
Definition deliver (m : ServerMessage) (c : conn) : conn :=
  let rid := ServerMessage.request_id m in
  MkConn (pid c) (reply_map c ∖ {[rid]})
    (if decide (rid ∈ reply_map c) then <[rid := Sent m]> (channels c) else channels c)
    (calls c) (made c) (reader c) (closed c) (notified c) (m :: received c).

(** One round of [reader_loop]. *)
Definition reader_line `{JsonCodec ServerMessage} (l : bytes) (c : conn) : conn :=
  let trimmed := trim l in
  if bool_decide (trimmed = []) then c
  else match from_json trimmed with Ok m => deliver m c | Err _ => c end.

(** The reader task after its loop: [closed.store(true)], [drain_waiters],
    [notify_waiters]. *)
Definition set_reader (r : reader_stage) (c : conn) : conn :=
  MkConn (pid c) (reply_map c) (channels c) (calls c) (made c) r (closed c)
    (notified c) (received c).
Definition store_closed (c : conn) : conn :=
  MkConn (pid c) (reply_map c) (channels c) (calls c) (made c) (reader c) true
    (notified c) (received c).
(** Dropping the held senders is seen by their receivers. *)
Definition drop_senders (held : gset string) (chs : gmap string channel) : gmap string channel :=
  map_imap (λ id ch, Some (if decide (id ∈ held) then Dropped else ch)) chs.
Arguments drop_senders : simpl never.
Definition drain_waiters (c : conn) : conn :=
  MkConn (pid c) ∅ (drop_senders (reply_map c) (channels c))
    (calls c) (made c) (reader c) (closed c) (notified c) (received c).
Definition notify_waiters (c : conn) : conn :=
  MkConn (pid c) (reply_map c) (channels c) (calls c) (made c) (reader c) (closed c)
    true (received c).

(** ** The steps *)

Section steps.
Context `{JsonCodec ServerMessage}.

Inductive step : conn → conn → Prop :=
(** A call starts on a connection it sees open, ... *)
| step_begin ts c :
    closed c = false → step c (begin_call (as_u64 ts) c)
(** ... registers for the reply, and writes its line. *)
| step_register id c :
    calls c !! id = Some Checked → step c (register id c)
| step_serde_error id text c :
    calls c !! id = Some Writing → step c (set_call id (Finished (Err (ClientError.Serde text))) c)
| step_write_error id e c :
    calls c !! id = Some Writing → step c (set_call id (Finished (Err (ClientError.Io e))) c)
| step_written id c :
    calls c !! id = Some Writing → step c (set_call id Entering c)
(** The [select!]: [wait_closed] up to its suspension, ... *)
| step_enter id c :
    calls c !! id = Some Entering → step c (check_closed id Arming c)
| step_arm id c :
    calls c !! id = Some Arming → step c (set_call id (Rechecking (notified c)) c)
| step_recheck id g c :
    calls c !! id = Some (Rechecking g) → step c (check_closed id (Waiting g) c)
(** ... a poll, which finds the future ready or goes on to the timer, which
    has elapsed or not, and to the channel. *)
| step_poll id g c :
    calls c !! id = Some (Waiting g) → step c (poll id g c)
| step_woken id c :
    calls c !! id = Some Woken → step c (check_closed id Arming c)
| step_elapsed id g c :
    calls c !! id = Some (PollTimer g) → step c (set_call id TimingOut c)
| step_not_elapsed id g c :
    calls c !! id = Some (PollTimer g) → step c (set_call id (PollReply g) c)
| step_reply id g c :
    calls c !! id = Some (PollReply g) → step c (poll_reply id g c)
| step_timeout id c :
    calls c !! id = Some TimingOut → step c (unregister id c)
(** The reader task. *)
| step_line l c :
    reader c = Reading → utf8_valid l = true → step c (reader_line l c)
| step_eof c : reader c = Reading → step c (set_reader Ended c)
| step_close c : reader c = Ended → step c (set_reader Stored (store_closed c))
| step_drain c : reader c = Stored → step c (set_reader Drained (drain_waiters c))
| step_notify c : reader c = Drained → step c (set_reader Done (notify_waiters c)).

Inductive reachable (process : N) : conn → Prop :=
| reach_connect : reachable process (connect process)
| reach_step c c' : reachable process c → step c c' → reachable process c'.
End steps.

(** ** The invariant *)

Section invariant.
Context `{JsonCodec ServerMessage}.

(** The task of the call waits for its channel, or is about to. *)
Definition in_flight (s : call) : Prop :=
  match s with Checked | TimingOut | Finished _ => False | _ => True end.

(** The call is past its second look at the flag. *)
Definition armed (s : call) : option bool :=
  match s with Waiting g | PollTimer g | PollReply g => Some g | _ => None end.

Definition is_closing (r : reader_stage) : bool :=
  match r with Reading | Ended => false | _ => true end.
Definition is_drained (r : reader_stage) : bool :=
  match r with Drained | Done => true | _ => false end.
Definition is_done (r : reader_stage) : bool := match r with Done => true | _ => false end.

(** A call past its second look saw an open connection there, so its future is
    older than the notification; and once the senders are dropped, its
    channel is no longer open. *)
Definition armed_well (c : conn) (id : string) (g : bool) : Prop :=
  g = false ∧ (is_drained (reader c) = true → channels c !! id ≠ Some Pending).

Record inv (process : N) (c : conn) : Prop := {
  inv_pid : pid c = process;
  inv_map id : id ∈ reply_map c → channels c !! id = Some Pending;
  inv_checked id : calls c !! id = Some Checked → channels c !! id = Some Pending ∧ id ∉ reply_map c;
  inv_pending id s : calls c !! id = Some s → in_flight s →
    id ∈ reply_map c ∨ ∃ ch, channels c !! id = Some ch ∧ ch ≠ Pending;
  inv_sent id m : channels c !! id = Some (Sent m) →
    ServerMessage.request_id m = id ∧ m ∈ received c;
  inv_answer id rid m : calls c !! id = Some (Finished (Ok (rid, m))) →
    rid = id ∧ channels c !! id = Some (Sent m);
  inv_dropped id : channels c !! id = Some Dropped → closed c = true;
  inv_closed : closed c = is_closing (reader c);
  inv_notified : notified c = is_done (reader c);
  inv_future id g : calls c !! id = Some (Rechecking g) → g = true → notified c = true;
  inv_armed id s g : calls c !! id = Some s → armed s = Some g → armed_well c id g;
  inv_calls id : is_Some (calls c !! id) ↔ is_Some (channels c !! id);
  inv_ids id : is_Some (channels c !! id) →
    ∃ ts n, (ts <= u64_max)%N ∧ (n < made c)%N ∧ id = next_request_id ts process n }.

Lemma inv_connect process : inv process (connect process).
Proof.
  split; cbn; try done; intros *; rewrite ?lookup_empty; try done; try set_solver.
Qed.

(** A call may take the stage [s]. *)
Definition stage_ok (c : conn) (id : string) (s : call) : Prop :=
  match s with
  | Checked => False
  | Rechecking g => g = true → notified c = true
  | Finished (Ok (rid, m)) => rid = id ∧ channels c !! id = Some (Sent m)
  | s => ∀ g, armed s = Some g → armed_well c id g
  end.

Lemma inv_set_call process id s0 s c :
  inv process c → calls c !! id = Some s0 → (in_flight s → in_flight s0) → stage_ok c id s →
  inv process (set_call id s c).
Proof.
  intros Hi Hs0 Hf Ho. destruct Hi. split; cbn in *; try done.
  - intros i. rewrite lookup_insert_Some. intros [[<- ->]|[]]; [done|auto].
  - intros i s'. rewrite lookup_insert_Some. naive_solver.
  - intros i rid m. rewrite lookup_insert_Some. intros [[<- ->]|[]]; [done|auto].
  - intros i g. rewrite lookup_insert_Some. intros [[<- ->]|[]]; [done|eauto].
  - intros i s' g. rewrite lookup_insert_Some. intros [[<- <-]|[_ Hs']] Hg; [|by eapply inv_armed0].
    destruct s; try discriminate Hg; by apply Ho.
  - intros i. destruct (decide (i = id)) as [->|].
    + rewrite lookup_insert_eq, <- inv_calls0, Hs0. split; by eexists.
    + by rewrite lookup_insert_ne.
Qed.

Lemma inv_begin process ts c :
  (process <= u64_max)%N → (ts <= u64_max)%N → inv process c → (made c <= u64_max)%N →
  inv process (begin_call ts c).
Proof.
  intros Hp Hts Hi Hm. set (id := next_request_id ts process (made c)).
  assert (as_u64 (made c) = made c) as Hw by (unfold as_u64; apply N.mod_small; lia).
  assert (channels c !! id = None) as Hfresh.
  { apply eq_None_not_Some. intros (ts' & n & Hts' & Hn & Heq)%(inv_ids _ _ Hi).
    unfold id, next_request_id in Heq. apply append_inj_l in Heq.
    apply unique_id_inj in Heq as (_ & _ & ?); lia. }
  assert (calls c !! id = None) as Hnew.
  { apply eq_None_not_Some. rewrite (inv_calls _ _ Hi), Hfresh. by intros [? ?]. }
  assert (id ∉ reply_map c) as Hnot by (intros Hin%(inv_map _ _ Hi); congruence).
  destruct Hi. split; cbn; rewrite ?inv_pid0, ?Hw; fold id; try done.
  - intros i Hin. rewrite lookup_insert_ne; [auto|]. by intros <-.
  - intros i. rewrite !lookup_insert_Some. naive_solver.
  - intros i s. rewrite lookup_insert_Some. intros [[<- <-]|[Hne Hs]] Hf; [by destruct Hf|].
    rewrite lookup_insert_ne by done. by eapply inv_pending0.
  - intros i m. rewrite lookup_insert_Some. naive_solver.
  - intros i rid m. rewrite !lookup_insert_Some. naive_solver.
  - intros i. rewrite lookup_insert_Some. naive_solver.
  - intros i g. rewrite lookup_insert_Some. naive_solver.
  - intros i s g. rewrite lookup_insert_Some. intros [[<- <-]|[Hne Hs]] Hg; [done|].
    unfold armed_well. cbn. rewrite ?inv_pid0, ?Hw, lookup_insert_ne by done. by apply (inv_armed0 i s).
  - intros i. rewrite !lookup_insert_is_Some'. naive_solver.
  - intros i. rewrite lookup_insert_is_Some'. intros [<-|Hs].
    + exists ts, (made c). split_and!; [done|lia|done].
    + destruct (inv_ids0 i Hs) as (ts' & n & ? & ? & ->). exists ts', n. split_and!; [done|lia|done].
Qed.

Lemma inv_register process id c :
  inv process c → calls c !! id = Some Checked → inv process (register id c).
Proof.
  intros Hi Hc. destruct (inv_checked _ _ Hi id Hc) as [Hp Hn].
  destruct Hi. split; cbn; try done.
  - intros i. rewrite elem_of_union, elem_of_singleton. naive_solver.
  - intros i. rewrite lookup_insert_Some. set_solver.
  - intros i s. rewrite lookup_insert_Some. intros [[<- <-]|[Hne Hs]] Hf; [set_solver|].
    destruct (inv_pending0 i s Hs Hf); [set_solver|by right].
  - intros i rid m. rewrite lookup_insert_Some. naive_solver.
  - intros i g. rewrite lookup_insert_Some. naive_solver.
  - intros i s g. rewrite lookup_insert_Some. intros [[<- <-]|[Hne Hs]] Hg; [done|].
    by apply (inv_armed0 i s).
  - intros i. rewrite lookup_insert_is_Some', <- inv_calls0. split; [|by right].
    intros [<-|?]; [by eexists|done].
Qed.

Lemma inv_unregister process id c :
  inv process c → calls c !! id = Some TimingOut → inv process (unregister id c).
Proof.
  intros Hi Hc. destruct Hi. split; cbn; try done.
  - intros i. set_solver.
  - intros i. rewrite lookup_insert_Some. set_solver.
  - intros i s. rewrite lookup_insert_Some. intros [[<- <-]|[Hne Hs]] Hf; [by destruct Hf|].
    destruct (inv_pending0 i s Hs Hf); [set_solver|by right].
  - intros i rid m. rewrite lookup_insert_Some. naive_solver.
  - intros i g. rewrite lookup_insert_Some. naive_solver.
  - intros i s g. rewrite lookup_insert_Some. intros [[<- <-]|[Hne Hs]] Hg; [done|].
    by apply (inv_armed0 i s).
  - intros i. rewrite lookup_insert_is_Some', <- inv_calls0. split; [|by right].
    intros [<-|?]; [by eexists|done].
Qed.

Lemma inv_deliver process m c :
  inv process c → reader c = Reading → inv process (deliver m c).
Proof.
  intros Hi Hread. set (rid := ServerMessage.request_id m). destruct Hi.
  split; cbn; fold rid; try done.
  - intros i Hin. destruct (decide (rid ∈ reply_map c)); [|set_solver].
    rewrite lookup_insert_ne by set_solver. set_solver.
  - intros i Hc. destruct (inv_checked0 i Hc) as [Hp Hn]. split; [|set_solver].
    destruct (decide (rid ∈ reply_map c)); [|done]. by rewrite lookup_insert_ne by set_solver.
  - intros i s Hs Hf. destruct (decide (i = rid)) as [->|Hne].
    + right. destruct (inv_pending0 _ _ Hs Hf) as [Hin|Hch].
      * rewrite decide_True by done. exists (Sent m). by rewrite lookup_insert_eq.
      * destruct (decide (rid ∈ reply_map c)); [|done]. exists (Sent m). by rewrite lookup_insert_eq.
    + destruct (inv_pending0 _ _ Hs Hf) as [Hin|Hch]; [left; set_solver|right].
      destruct (decide (rid ∈ reply_map c)); [|done]. by rewrite lookup_insert_ne.
  - intros i m'. destruct (decide (rid ∈ reply_map c)).
    + rewrite lookup_insert_Some. intros [[<- [= <-]]|[Hne Hs]]; [set_solver|].
      destruct (inv_sent0 _ _ Hs). set_solver.
    + intros Hs. destruct (inv_sent0 _ _ Hs). set_solver.
  - intros i rid' m' Hs. destruct (inv_answer0 _ _ _ Hs) as [-> Hch]. split; [done|].
    destruct (decide (rid ∈ reply_map c)) as [Hin|]; [|done].
    rewrite lookup_insert_ne; [done|]. intros <-. apply inv_map0 in Hin. congruence.
  - intros i. destruct (decide (rid ∈ reply_map c)); [|by apply inv_dropped0].
    rewrite lookup_insert_Some. naive_solver.
  - intros i s g Hs Hg. destruct (inv_armed0 i s g Hs Hg) as [-> _].
    split; [done|]. cbn. by rewrite Hread.
  - intros i. rewrite inv_calls0. destruct (decide (rid ∈ reply_map c)) as [Hin%inv_map0|]; [|done].
    rewrite lookup_insert_is_Some'. split; [by right|]. intros [<-|?]; [by eexists|done].
  - intros i. destruct (decide (rid ∈ reply_map c)) as [Hin%inv_map0|]; [|by apply inv_ids0].
    rewrite lookup_insert_is_Some'. intros [<-|?]; apply inv_ids0; [by eexists|done].
Qed.

Lemma lookup_drop_senders held chs i ch :
  drop_senders held chs !! i = Some ch ↔
  ∃ ch', chs !! i = Some ch' ∧ ch = if decide (i ∈ held) then Dropped else ch'.
Proof. unfold drop_senders. rewrite map_lookup_imap. destruct (chs !! i); cbn; naive_solver. Qed.

#[local] Opaque drop_senders.

Lemma inv_drain process c :
  inv process c → reader c = Stored → inv process (set_reader Drained (drain_waiters c)).
Proof.
  intros Hi Hst. destruct Hi. rewrite Hst in inv_closed0, inv_notified0.
  pose proof (lookup_drop_senders (reply_map c) (channels c)) as Hl.
  assert (∀ i s, calls c !! i = Some s → in_flight s →
    ∃ ch, drop_senders (reply_map c) (channels c) !! i = Some ch ∧ ch ≠ Pending) as Hopen.
  { intros i s Hs Hf. destruct (decide (i ∈ reply_map c)) as [Hin|Hin].
    - exists Dropped. rewrite Hl. split; [|done]. exists Pending. rewrite decide_True by done. auto.
    - destruct (inv_pending0 _ _ Hs Hf) as [?|(ch & Hch & Hne)]; [done|].
      exists ch. rewrite Hl. split; [|done]. exists ch. by rewrite decide_False. }
  split; cbn; try done.
  - intros i Hc. destruct (inv_checked0 i Hc) as [Hp Hn]. split; [|apply not_elem_of_empty].
    rewrite Hl. exists Pending. by rewrite decide_False.
  - intros i s Hs Hf. right. by eapply Hopen.
  - intros i m. rewrite Hl. intros (ch & Hch & Heq). case_decide; [done|]. subst ch. auto.
  - intros i rid m Hs. destruct (inv_answer0 _ _ _ Hs) as [-> Hch]. split; [done|].
    rewrite Hl. exists (Sent m). split; [done|]. rewrite decide_False; [done|].
    intros Hin%inv_map0. congruence.
  - intros i s g Hs Hg. destruct (inv_armed0 i s g Hs Hg) as [-> _]. split; [done|].
    intros _. cbn. destruct (Hopen i s Hs) as (ch & -> & ?); [by destruct s|congruence].
  - intros i. rewrite inv_calls0. split; intros [ch Hch].
    + eexists. rewrite Hl. by exists ch.
    + apply Hl in Hch as (ch' & ? & _). by eexists.
  - intros i [ch (ch' & Hch & _)%Hl]. apply inv_ids0. by eexists.
Qed.

(** The reader goes on without touching map and channels. *)
Lemma inv_reader process r cl no c :
  inv process c → is_drained r = is_drained (reader c) →
  cl = is_closing r → no = is_done r → (closed c = true → cl = true) → (notified c = true → no = true) →
  inv process (MkConn (pid c) (reply_map c) (channels c) (calls c) (made c) r cl no (received c)).
Proof.
  intros Hi Hr Hcl Hn Hcl' Hn'. destruct Hi. split; cbn; try done; eauto.
  intros i s g Hs Hg. destruct (inv_armed0 i s g Hs Hg) as [-> Hd]. split; [done|].
  cbn. by rewrite Hr.
Qed.

Lemma inv_step process c c' :
  (process <= u64_max)%N → inv process c → (made c <= u64_max)%N → step c c' → inv process c'.
Proof.
  intros Hp Hi Hm Hst. pose proof (inv_closed _ _ Hi) as Hcl. pose proof (inv_notified _ _ Hi) as Hno.
  destruct Hst as [| |id ? c Hc|id ? c Hc|id c Hc|id c Hc|id c Hc|id g c Hc|id g c Hc|id c Hc|id g c Hc
                  |id g c Hc|id g c Hc| | |c Hr|c Hr| |c Hr].
  - apply inv_begin; [done|apply as_u64_le|done..].
  - by apply inv_register.
  - by eapply inv_set_call.
  - by eapply inv_set_call.
  - by eapply inv_set_call.
  - unfold check_closed. by eapply inv_set_call; [done..| |]; destruct (closed c).
  - by eapply inv_set_call; [done..| |intros ->].
  - unfold check_closed. eapply inv_set_call; [done..|by destruct (closed c)|].
    destruct (closed c) eqn:Hopen; [done|]. intros g' [= <-]. split.
    + destruct g; [|done]. rewrite (inv_future _ _ Hi id true Hc eq_refl) in Hno. by destruct (reader c).
    + by destruct (reader c).
  - unfold poll. eapply inv_set_call; [done..|by destruct (Bool.eqb _ _)|].
    destruct (Bool.eqb _ _); [|done]. intros g' [= <-]. by apply (inv_armed _ _ Hi id (Waiting g)).
  - unfold check_closed. by eapply inv_set_call; [done..| |]; destruct (closed c).
  - by eapply inv_set_call.
  - eapply inv_set_call; [done..|]. intros g' [= <-]. by apply (inv_armed _ _ Hi id (PollTimer g)).
  - unfold poll_reply. pose proof (inv_armed _ _ Hi id _ g Hc eq_refl) as Ha.
    eapply inv_set_call; [done..|done|].
    destruct (channels c !! id) as [[]|] eqn:Hch; try done; by intros g' [= <-].
  - by apply inv_unregister.
  - unfold reader_line. case_bool_decide; [done|]. destruct (from_json _); [by apply inv_deliver|done].
  - rewrite Hr in Hcl, Hno. by apply (inv_reader _ _ _ _ c); rewrite ?Hr.
  - rewrite Hr in Hcl, Hno. by apply (inv_reader _ _ _ _ c); rewrite ?Hr.
  - by apply inv_drain.
  - rewrite Hr in Hcl, Hno. by apply (inv_reader _ _ _ _ c); rewrite ?Hr.
Qed.

Lemma made_step c c' : step c c' → (made c <= made c')%N.
Proof.
  intros []; cbn; try lia.
  unfold reader_line. case_bool_decide; [lia|]. destruct (from_json _); cbn; lia.
Qed.

Lemma made_steps c c' : rtc step c c' → (made c <= made c')%N.
Proof. induction 1 as [|c1 c2 c3 Hst _ IH]; [done|]. apply made_step in Hst. lia. Qed.

Lemma steps_inv process c c' :
  (process <= u64_max)%N → inv process c → (made c' <= u64_max)%N → rtc step c c' → inv process c'.
Proof.
  intros Hp Hi Hm. induction 1 as [|c1 c2 c3 Hst Hsteps IH]; [done|].
  pose proof (made_steps _ _ Hsteps). pose proof (made_step _ _ Hst).
  apply IH; [|done]. apply (inv_step _ c1); [done..|lia|done].
Qed.

(** As long as the process has not made 2^64 calls. *)
Lemma reachable_inv process c :
  (process <= u64_max)%N → reachable process c → (made c <= u64_max)%N → inv process c.
Proof.
  intros Hp. induction 1 as [|c c' Hr IH Hst]; intros Hm; [apply inv_connect|].
  pose proof (made_step _ _ Hst). apply (inv_step _ c); [done|apply IH; lia|lia|done].
Qed.
End invariant.

(** ** Progress *)

Section progress.
Context `{JsonCodec ServerMessage} (process : N).

(** Steps of the connection lead to the call finishing with [r]. *)
Definition can_finish (c : conn) (id : string) (r : result ClientError (string * ServerMessage)) : Prop :=
  ∃ c', rtc step c c' ∧ calls c' !! id = Some (Finished r).

Lemma can_finish_step c c' id r : step c c' → can_finish c' id r → can_finish c id r.
Proof. intros Hs (c'' & Hc & Hr). exists c''. split; [by eapply rtc_l|done]. Qed.

Lemma can_finish_now c id r :
  step c (set_call id (Finished r) c) → can_finish c id r.
Proof.
  intros Hs. exists (set_call id (Finished r) c). split; [by apply rtc_once|apply lookup_insert_eq].
Qed.

(** The call moves on by a step of its own. *)
Lemma can_finish_move c id s r :
  step c (set_call id s c) →
  (calls (set_call id s c) !! id = Some s → can_finish (set_call id s c) id r) → can_finish c id r.
Proof. intros Hs Hr. eapply can_finish_step; [exact Hs|]. apply Hr, lookup_insert_eq. Qed.

Definition not_timeout (r : result ClientError (string * ServerMessage)) : Prop :=
  r ≠ Err ClientError.Timeout.

Lemma check_closed_finishes c id s :
  closed c = true → step c (check_closed id s c) → can_finish c id (Err ClientError.Closed).
Proof. unfold check_closed. intros ->. apply can_finish_now. Qed.

Lemma entered_finishes c id :
  closed c = true → calls c !! id = Some Entering → can_finish c id (Err ClientError.Closed).
Proof. intros Hcl Hc. eapply check_closed_finishes; [done|by apply step_enter]. Qed.

Lemma written_finishes c id :
  closed c = true → calls c !! id = Some Writing → can_finish c id (Err ClientError.Closed).
Proof.
  intros Hcl Hc. eapply can_finish_move; [by apply step_written|]. by apply entered_finishes.
Qed.

(** On a connection whose reader is done, every way leads out. *)
Lemma done_finishes c id s :
  inv process c → reader c = Done → calls c !! id = Some s → (∀ r, s ≠ Finished r) →
  ∃ r, can_finish c id r ∧ (s ≠ TimingOut → not_timeout r).
Proof.
  intros Hi Hd Hc Hs. pose proof (inv_closed _ _ Hi) as Hcl. pose proof (inv_notified _ _ Hi) as Hno.
  rewrite Hd in Hcl, Hno. cbn in Hcl, Hno.
  assert (∀ g, armed s = Some g → g = false ∧ channels c !! id ≠ Some Pending) as Harmed.
  { intros g Hg. destruct (inv_armed _ _ Hi id s g Hc Hg) as [-> Hch]. rewrite Hd in Hch. auto. }
  assert (∀ c', channels c' = channels c → (∃ g, calls c' !! id = Some (PollReply g)) →
    is_Some (armed s) → ∃ r, can_finish c' id r ∧ not_timeout r) as Hreply.
  { intros c' Heq [g Hg] [g' Hg']. apply Harmed in Hg' as [_ Hch].
    assert (is_Some (channels c !! id)) as [ch Hch'] by (apply (inv_calls _ _ Hi); by eexists).
    pose proof (step_reply id g c' Hg) as Hst. unfold poll_reply in Hst.
    rewrite Heq, Hch' in Hst. destruct ch; [congruence|..]; (eexists; split; [by apply can_finish_now|done]). }
  destruct s as [| | | |g|g| |g|g| |r]; [..|by destruct (Hs r)].
  - exists (Err ClientError.Closed). split; [|done].
    eapply can_finish_step; [by apply step_register|]. apply written_finishes; [done|apply lookup_insert_eq].
  - exists (Err ClientError.Closed). split; [|done]. by apply written_finishes.
  - exists (Err ClientError.Closed). split; [|done]. by apply entered_finishes.
  - exists (Err ClientError.Closed). split; [|done]. eapply can_finish_move; [by apply step_arm|].
    intros Hc'. eapply check_closed_finishes; [done|by eapply step_recheck].
  - exists (Err ClientError.Closed). split; [|done].
    eapply check_closed_finishes; [done|by eapply step_recheck].
  - exists (Err ClientError.Closed). split; [|done]. destruct (Harmed g eq_refl) as [-> _].
    pose proof (step_poll id false c Hc) as Hst. unfold poll in Hst. rewrite Hno in Hst.
    eapply can_finish_move; [exact Hst|]. intros Hc'. eapply check_closed_finishes; [done|by apply step_woken].
  - exists (Err ClientError.Closed). split; [|done]. eapply check_closed_finishes; [done|by apply step_woken].
  - destruct (Hreply (set_call id (PollReply g) c)) as (r & Hr & Ht); [done| |by eexists|].
    { exists g. apply lookup_insert_eq. }
    exists r. split; [|done]. eapply can_finish_step; [by eapply step_not_elapsed|done].
  - destruct (Hreply c) as (r & Hr & Ht); [done|by eexists|by eexists|]. by exists r.
  - exists (Err ClientError.Timeout). split; [|done]. eexists. split; [by apply rtc_once, step_timeout|].
    apply lookup_insert_eq.
Qed.

(** The reader, once it has left its loop, ends without anyone's help. *)
Lemma reader_done c :
  reader c ≠ Reading → ∃ c', rtc step c c' ∧ reader c' = Done ∧ calls c' = calls c ∧ made c' = made c.
Proof.
  assert (∀ c, reader c = Drained → ∃ c', rtc step c c' ∧ reader c' = Done ∧ calls c' = calls c ∧ made c' = made c)
    as Hdrained.
  { intros c0 Hr. eexists. split; [by apply rtc_once, step_notify|done]. }
  assert (∀ c, reader c = Stored → ∃ c', rtc step c c' ∧ reader c' = Done ∧ calls c' = calls c ∧ made c' = made c)
    as Hstored.
  { intros c0 Hr. destruct (Hdrained (set_reader Drained (drain_waiters c0)) eq_refl) as (c' & ? & ?).
    exists c'. split; [|done]. by eapply rtc_l; [apply step_drain|]. }
  intros Hr. destruct (reader c) eqn:Hrc; [done| |by apply Hstored|by apply Hdrained|by exists c].
  destruct (Hstored (set_reader Stored (store_closed c)) eq_refl) as (c' & ? & ?).
  exists c'. split; [|done]. by eapply rtc_l; [apply step_close|].
Qed.

(** While the reader reads, a call whose answer was sent takes it. *)
Lemma sent_finishes c id s m :
  inv process c → reader c = Reading → calls c !! id = Some s → in_flight s →
  channels c !! id = Some (Sent m) → can_finish c id (Ok (id, m)).
Proof.
  intros Hi Hd Hc Hf Hch. pose proof (inv_closed _ _ Hi) as Hcl. pose proof (inv_notified _ _ Hi) as Hno.
  rewrite Hd in Hcl, Hno. cbn in Hcl, Hno.
  assert (∀ g, armed s = Some g → g = false) as Harmed.
  { intros g Hg. by destruct (inv_armed _ _ Hi id s g Hc Hg). }
  set (open c := channels c !! id = Some (Sent m) ∧ closed c = false ∧ notified c = false).
  assert (∀ s' c', open c' → open (set_call id s' c')) as Hset by done.
  assert (∀ c' g, open c' → calls c' !! id = Some (PollReply g) → can_finish c' id (Ok (id, m))) as H1.
  { intros c' g (Hch' & _) Hc'. pose proof (step_reply id g c' Hc') as Hst. unfold poll_reply in Hst.
    rewrite Hch' in Hst. by apply can_finish_now. }
  assert (∀ c' g, open c' → calls c' !! id = Some (PollTimer g) → can_finish c' id (Ok (id, m))) as H2.
  { intros c' g Ho Hc'. eapply can_finish_move; [by eapply step_not_elapsed|]. by apply H1, Hset. }
  assert (∀ c', open c' → calls c' !! id = Some (Waiting false) → can_finish c' id (Ok (id, m))) as H3.
  { intros c' Ho Hc'. pose proof (step_poll id false c' Hc') as Hst. unfold poll in Hst.
    destruct Ho as (? & ? & Hno'). rewrite Hno' in Hst. eapply can_finish_move; [exact Hst|].
    by apply H2. }
  assert (∀ c', open c' → calls c' !! id = Some (Rechecking false) → can_finish c' id (Ok (id, m))) as H4.
  { intros c' Ho Hc'. pose proof (step_recheck id false c' Hc') as Hst. unfold check_closed in Hst.
    destruct Ho as (? & Hcl' & ?). rewrite Hcl' in Hst. eapply can_finish_move; [exact Hst|].
    by apply H3. }
  assert (∀ c', open c' → calls c' !! id = Some Arming → can_finish c' id (Ok (id, m))) as H5.
  { intros c' Ho Hc'. pose proof (step_arm id c' Hc') as Hst. destruct Ho as (? & ? & Hno').
    rewrite Hno' in Hst. eapply can_finish_move; [exact Hst|]. by apply H4. }
  assert (∀ c', open c' → calls c' !! id = Some Entering → can_finish c' id (Ok (id, m))) as H6.
  { intros c' Ho Hc'. pose proof (step_enter id c' Hc') as Hst. unfold check_closed in Hst.
    destruct Ho as (? & Hcl' & ?). rewrite Hcl' in Hst. eapply can_finish_move; [exact Hst|].
    by apply H5. }
  assert (open c) as Ho by done.
  destruct s as [| | | |g|g| |g|g| |r]; try done.
  - eapply can_finish_move; [by apply step_written|]. by apply H6, Hset.
  - by apply H6.
  - by apply H5.
  - apply H4; [done|]. destruct g; [|done]. pose proof (inv_future _ _ Hi id true Hc eq_refl). congruence.
  - rewrite (Harmed g eq_refl) in Hc. by apply H3.
  - pose proof (step_woken id c Hc) as Hst. unfold check_closed in Hst. rewrite Hcl in Hst.
    eapply can_finish_move; [exact Hst|]. by apply H5, Hset.
  - by eapply H2.
  - by eapply H1.
Qed.

(** It can be sent as long as its sender is held. *)
Lemma line_delivers c id s l m :
  inv process c → reader c = Reading → calls c !! id = Some s → in_flight s → id ∈ reply_map c →
  from_json (trim l) = Ok m → trim l ≠ [] → ServerMessage.request_id m = id →
  can_finish (reader_line l c) id (Ok (id, m)).
Proof.
  intros Hi Hd Hc Hf Hin Hl Hne Hid.
  assert (reader_line l c = deliver m c) as -> by (unfold reader_line; by rewrite bool_decide_false, Hl).
  eapply (sent_finishes _ _ s); [by apply inv_deliver|done..|].
  cbn. rewrite Hid, decide_True by done. apply lookup_insert_eq.
Qed.
End progress.

(** ** Properties *)

(** C25: an answer reaches the call it belongs to.  However calls, reader and
    network interleave, a call that finished with an answer finished with one
    that was read from the connection and carries the id of this very call
    -- as long as the process has made fewer than 2^64 calls. *)
Theorem answers_reach_their_call `{JsonCodec ServerMessage} process c id rid m :
  (process <= u64_max)%N → reachable process c → (made c <= u64_max)%N →
  calls c !! id = Some (Finished (Ok (rid, m))) →
  rid = id ∧ ServerMessage.request_id m = id ∧ m ∈ received c.
Proof.
  intros Hp Hr Hm Hc. pose proof (reachable_inv _ _ Hp Hr Hm) as Hi.
  destruct (inv_answer _ _ Hi _ _ _ Hc) as [-> Hs].
  destruct (inv_sent _ _ Hi _ _ Hs). done.
Qed.

(** C26: no call is left waiting for nothing.  While the reader reads, a call
    in the [select!] has its answer already and can finish with it, or its
    sender is registered, so that any line with an answer of its id lets it
    finish with exactly that answer.  Once the reader has left its loop, every
    call can finish, and without its timer unless that has fired already.  And once the reader is done, a call
    suspended in [wait_closed] has been woken twice over: its [Notified] future
    is ready, and its channel is no longer open. *)
Theorem no_call_is_forgotten `{JsonCodec ServerMessage} process c id s :
  (process <= u64_max)%N → reachable process c → (made c <= u64_max)%N →
  calls c !! id = Some s → (∀ r, s ≠ Finished r) →
  (reader c = Reading → in_flight s →
     (∃ m, channels c !! id = Some (Sent m) ∧ can_finish c id (Ok (id, m))) ∨
     (id ∈ reply_map c ∧
      ∀ l m, from_json (trim l) = Ok m → trim l ≠ [] → ServerMessage.request_id m = id →
        can_finish (reader_line l c) id (Ok (id, m)))) ∧
  (reader c ≠ Reading → ∃ r, can_finish c id r ∧ (s ≠ TimingOut → r ≠ Err ClientError.Timeout)) ∧
  (reader c = Done → ∀ g, s = Waiting g → notified c ≠ g ∧ channels c !! id ≠ Some Pending).
Proof.
  intros Hp Hr Hm Hc Hs. pose proof (reachable_inv _ _ Hp Hr Hm) as Hi. split_and!.
  - intros Hd Hf. pose proof (inv_closed _ _ Hi) as Hcl. rewrite Hd in Hcl.
    destruct (inv_pending _ _ Hi id s Hc Hf) as [Hin|([|m|] & Hch & Hne)]; [right|done|left|].
    + split; [done|]. intros l m Hl Hne Hid. by eapply line_delivers.
    + exists m. split; [done|]. by eapply sent_finishes.
    + by rewrite (inv_dropped _ _ Hi id Hch) in Hcl.
  - intros Hd. destruct (reader_done c Hd) as (c' & Hsteps & Hd' & Hc' & Hm').
    assert (inv process c') as Hi' by (eapply steps_inv; [exact Hp|exact Hi|by rewrite Hm'|done]).
    rewrite <- Hc' in Hc.
    destruct (done_finishes process c' id s Hi' Hd' Hc Hs) as (r & (c'' & Hfin & Hr') & Ht).
    exists r. split; [|done]. exists c''. split; [by etrans|done].
  - intros Hd g ->. destruct (inv_armed _ _ Hi id _ g Hc eq_refl) as [-> Hch].
    rewrite (inv_notified _ _ Hi), Hd. split; [done|]. apply Hch. by rewrite Hd.
Qed.

(** Request ids are unique.  Two ids are equal only when clock reading,
    process id and counter all are. *)
Theorem request_ids_unique ts process n ts' process' n' :
  (ts <= u64_max)%N → (process <= u64_max)%N → (n <= u64_max)%N →
  (ts' <= u64_max)%N → (process' <= u64_max)%N → (n' <= u64_max)%N →
  next_request_id ts process n = next_request_id ts' process' n' →
  ts = ts' ∧ process = process' ∧ n = n'.
Proof.
  intros ?????? Heq. unfold next_request_id in Heq. apply append_inj_l in Heq.
  by apply unique_id_inj in Heq.
Qed.
