(* ===== verification/UndoDurability.v ===== *)
(** * UndoDurability: undo gives back what the operation took

    [handle_undo_wp] is the undo of a recorded operation as a request on a
    server at rest; the theorems compose it with the three mutations of
    [Durability.v]: an operation followed by its undo. *)

From S2P Require Import Prelude Text Protocol World Fs Hash FsSpec Workspace Jsonl Store.
From S2P Require Import StoreSpec FsOps FsOpsSpec Undo UndoSpec Prune Transfer Recovery Crash.
From S2P Require Import Config Exec Server Durability.

Definition undo_request (rid op_id : string) : Request := Request.Mk rid (RequestBody.Undo op_id).

Section undo.
Context `{CrashOnly} `{TempfileLaws} `{Sha256Laws} `{HashIterLaws}
        `{Processes} `{TomlConfig}
        `{JsonCodecLaws AnyOperationRecord} `{JsonCodecLaws RequestLogLine}.
Context (srv : Server) (n : N) (w : world) (rid : string).
Context (rs : list AnyOperationRecord) (ls : list RequestLogLine).
Context (target : FsOperationRecord) (abs : World.path).
Context (current before : option string) (after : string) (blob : option bytes).
Context (mid done_ told tnew : tree → Prop).

Abbreviation ws := (Server.workspace srv).
Abbreviation op_id := (FsOperationRecord.operation_id target).
Abbreviation target_blob := (blob_path op_id "before").

(** The undo of a record that is there, whose plan and whose change go
    through, sent as a new request to a server at rest. *)
Record good_undo : Prop := {
  undo_quiet : quiet n w rs ls;
  undo_fresh : fresh_request rid rs ls;
  undo_ids : ids_left w;
  undo_record : find_record (w_mem w) op_id = Some (AnyOperationRecord.Fs target);
  undo_id_ne : op_id ≠ next_op_id w;
  undo_kind : FsOperationRecord.kind target ≠ OperationKind.Undo;
  undo_resolves : resolve (w_fs w) ws (FsOperationRecord.path target) = Ok abs;
  undo_current : hash_of (w_fs w) abs = Ok current;
  undo_after : FsOperationRecord.before_hash target
               = if decide (after = FILE_DELETED_SENTINEL) then None else Some after;
  undo_plans w1 : w_fs w1 = w_fs w → w_sd w1 !! target_blob = w_sd w !! target_blob →
    plans w1 abs target current before after blob ∧ applies w1 abs target mid done_;
  undo_old : told (w_fs w);
  undo_mid t : mid t → told t ∨ tnew t;
  undo_done t : done_ t → tnew t }.

Lemma handle_undo_wp :
  good_undo →
  wp (handle srv (undo_request rid op_id)) w
    (ended n w rs ls rid "undo" OperationKind.Undo (FsOperationRecord.path target) before after
       blob done_ told tnew (undone target after)).
Proof.
  intros Hg. unfold handle. cbn [Request.body Request.request_id undo_request].
  eapply (claimed_mutation_wp n w rs ls _ _ _ _ _ _ _ mid); try apply Hg.
  - done.
  - intros now. unfold answer_of, reconstruct_fs, undone. cbn. by rewrite (undo_after Hg).
  - intros w1 (Hf1 & Hm1 & Hs1) Hl1 Φ HK HW. cbn [dispatch]. unfold handle_undo.
    assert (find_record (w_mem w1) op_id = Some (AnyOperationRecord.Fs target)) as Hrec.
    { rewrite Hm1. apply Hg. }
    apply wp_bind, wp_get_mem. rewrite Hrec.
    assert (w_sd w1 !! target_blob = w_sd w !! target_blob) as Hsd.
    { apply Hs1, blob_path_not_log. set_solver. }
    destruct (undo_plans Hg w1 Hf1 Hsd) as [Hplans Happlies].
    eapply (undo_wp w1 abs target current before after blob mid done_); try done.
    + apply Hg.
    + unfold next_op_id. rewrite Hm1. apply Hg.
    + rewrite Hf1. apply Hg.
    + rewrite Hf1. apply Hg.
    + intros e w' Hf _. by destruct crash_only_fails.
    + intros w2 blob' Hw2 Hblob. rewrite (Hblob crash_only_fails). by apply HW.
Qed.

(** Without faults, it is answered and done. *)
Lemma undo_succeeds `{!FaultFree} :
  good_undo →
  ∃ w', handle srv (undo_request rid op_id) w
          = (Returned (ServerMessage.Result rid (undone target after (next_op_id w))), w') ∧
    done_ (w_fs w').
Proof.
  intros Hg%handle_undo_wp. unfold wp in Hg. destruct (handle _ _ _) as [[msg|e|] w']; cbn in Hg.
  - destruct Hg as (-> & Ht & _). by exists w'.
  - done.
  - by destruct Hg as [?%fault_free_dies _].
Qed.
End undo.

(** A mutation that is recorded can be undone by a new request. *)
Section chain.
Context `{FaultFree} `{TempfileLaws} `{Sha256Laws} `{HashIterLaws}
        `{JsonCodecLaws AnyOperationRecord} `{JsonCodecLaws RequestLogLine}.

Lemma next_op_id_ne w w' :
  (next_id (w_mem w) + 1 < u64_max)%N → next_id (w_mem w') = (next_id (w_mem w) + 1)%N →
  next_op_id w ≠ next_op_id w'.
Proof.
  unfold next_op_id, u64_add. intros Hroom ->. rewrite !N.mod_small by lia.
  intros Heq. apply (f_equal (λ s, strip_prefix s "op-")) in Heq.
  rewrite !strip_prefix_append in Heq. injection Heq as Heq.
  assert (parse_u64 (pretty (next_id (w_mem w) + 1)%N)
    = parse_u64 (pretty (next_id (w_mem w) + 1 + 1)%N)) as Hp by by rewrite Heq.
  rewrite !parse_u64_pretty in Hp by lia. injection Hp. lia.
Qed.
End chain.

(** C11: undo takes an edit back.  An edit followed by the undo of its
    operation, each sent as a new request to a server at rest: the file has
    its old content and its old mode again, and the rest of the tree is as it
    was before the edit; the answer reports the hash of the old content. *)
Theorem undo_restores_edit `{FaultFree} `{TempfileLaws} `{Sha256Laws} `{HashIterLaws}
    `{Processes} `{TomlConfig} `{JsonCodecLaws AnyOperationRecord} `{JsonCodecLaws RequestLogLine}
    srv n w rid path base old new all rs ls abs original content mode mtime rid' :
  good_edit srv n w rid path base old new all rs ls abs original content mode mtime →
  (next_id (w_mem w) + 1 < u64_max)%N → rid' ≠ rid → fresh_request rid' rs ls →
  ∃ w1 w2 mtime',
    handle srv (edit_request rid path base old new all) w
      = (Returned (mutation_answer w rid (Some base) (hash_bytes content)), w1) ∧
    handle srv (undo_request rid' (next_op_id w)) w1
      = (Returned (ServerMessage.Result rid' (ResultBody.Undo
           (UndoResult.Mk (next_op_id w1) (Some base) base))), w2) ∧
    w_fs w2 = <[abs := File original mode mtime']> (w_fs w).
Proof.
  intros Hgood Hroom Hne Hfresh. pose proof fault_free_crash_only.
  destruct (ended_succeeds _ _ _ _ _ _ _ _ _ _ _ _ _ _ _ _
    (handle_edit_wp _ _ _ _ _ _ _ _ _ _ _ _ _ _ _ _ Hgood))
    as (w1 & Hrun & [mt1 Ht1] & _ & [now Hrec] & Hblob & Hid & rs1 & ls1 & Hq1 & Hf1).
  destruct Hgood as (Hwf & Hws & _ & _ & _ & Hplan & Hlook).
  destruct (edit_plan_Ok _ _ _ _ _ _ _ _ _ _ Hplan) as (Hr & -> & (m & mt & Hm) & _).
  destruct (resolved_metadata _ _ _ _ _ Hwf Hws Hr Hm) as [Hreal _].
  assert (installed (w_fs w) abs content mode (w_fs w1)) as Hi by by exists mt1.
  pose proof (extends_installed _ _ _ _ _ _ _ _ Hlook Hi) as He.
  assert (real (w_fs w1) abs) as Hreal1 by by eapply real_extends.
  assert (w_fs w1 !! abs = Some (File content mode mt1)) as Hlook1
    by (rewrite Ht1; apply lookup_insert_eq).
  set (target := mutation_record w rid OperationKind.Edit path (Some (hash_bytes original))
    (hash_bytes content) now) in *.
  destruct (real_file_split _ _ _ _ _ Hreal1 Hlook1) as (p & s & -> & Hp & Hd).
  assert (name_ok s) as Hs by (apply real_names, Forall_app in Hreal1 as [_ Hs]; by inversion Hs).
  destruct (undo_succeeds srv n w1 rid' rs1 ls1 target (p ++ [s])
    (Some (hash_bytes content)) (Some (hash_bytes content)) (hash_bytes original) (Some content)
    (λ t', beside (w_fs w1) (p ++ [s]) t' ∨
       ∃ m, installed (w_fs w1) (p ++ [s]) original m t' ∧ (¬ fails → m = mode))
    (λ t', ∃ m, installed (w_fs w1) (p ++ [s]) original m t' ∧ (¬ fails → m = mode))
    (λ t', beside (w_fs w1) (p ++ [s]) t' )
    (λ t', ∃ m, installed (w_fs w1) (p ++ [s]) original m t' ∧ (¬ fails → m = mode)))
    as (w2 & Hrun2 & m2 & [mt2 Ht2] & Hm2).
  - split.
    + exact Hq1.
    + by apply Hf1.
    + unfold ids_left. rewrite Hid. lia.
    + exact Hrec.
    + by apply next_op_id_ne.
    + done.
    + by eapply (resolve_extends (w_fs w)).
    + by eapply hash_of_real.
    + cbn. by rewrite decide_False by apply hash_not_sentinel.
    + intros w3 Hf3 Hs3. split.
      * eapply undo_edit_plan; [|done|done|by rewrite Hs3].
        rewrite Hf3. by apply metadata_real.
      * rewrite <- Hf3 in *. apply undo_restore_applies; try done; [|by rewrite Hs3].
        right. eauto.
    + by left.
    + done.
    + done.
  - exists w1, w2, mt2. split_and!; [done|exact Hrun2|].
    rewrite Ht2, Ht1, insert_insert_eq, Hm2; [done|apply fault_free_fails].
Qed.

(** Undo takes a creation back.  A creation followed by the undo of its
    operation leaves the tree exactly as it was. *)
Theorem undo_removes_creation `{FaultFree} `{TempfileLaws} `{Sha256Laws} `{HashIterLaws}
    `{Processes} `{TomlConfig} `{JsonCodecLaws AnyOperationRecord} `{JsonCodecLaws RequestLogLine}
    srv n w rid path content rs ls p s rid' :
  good_create srv n w rid path content rs ls p s →
  names_entry (w_fs w) (Server.workspace srv) path p s →
  (next_id (w_mem w) + 1 < u64_max)%N → rid' ≠ rid → fresh_request rid' rs ls →
  ∃ w1 w2,
    handle srv (create_request rid path content) w
      = (Returned (mutation_answer w rid None (hash_bytes (as_bytes content))), w1) ∧
    handle srv (undo_request rid' (next_op_id w)) w1
      = (Returned (ServerMessage.Result rid' (ResultBody.Undo
           (UndoResult.Mk (next_op_id w1) None FILE_DELETED_SENTINEL))), w2) ∧
    w_fs w2 = w_fs w.
Proof.
  intros Hgood (a & Ha & Hc) Hroom Hne Hfresh. pose proof fault_free_crash_only.
  destruct (ended_succeeds _ _ _ _ _ _ _ _ _ _ _ _ _ _ _ _
    (handle_create_wp _ _ _ _ _ _ _ _ _ _ Hgood))
    as (w1 & Hrun & (mt & Ht1) & _ & [now Hrec] & _ & Hid & rs1 & ls1 & Hq1 & Hf1).
  destruct Hgood as (Hws & _ & _ & _ & _ & Hr & Hp & Hd & Hs & Hfree & _).
  destruct Ht1 as [Ht1|[Hno _]]; [|by destruct Hno; apply fault_free_fails].
  set (bs := as_bytes content) in *.
  assert (extends (w_fs w) (w_fs w1)) as He.
  { rewrite Ht1. apply extends_insert. intros n'. by rewrite Hfree. }
  assert (w_fs w1 !! (p ++ [s]) = Some (File bs 420 mt)) as Hlook1
    by (rewrite Ht1; apply lookup_insert_eq).
  assert (real (w_fs w1) (p ++ [s])) as Hreal1.
  { econstructor; [by apply (real_extends (w_fs w))|by apply (extends_dir (w_fs w))|done|done|done]. }
  assert (resolve (w_fs w1) (Server.workspace srv) path = Ok (p ++ [s])) as Hr1.
  { apply (resolve_entry (w_fs w)); [done|done| |by apply (extends_dir (w_fs w))|done|].
    - exists a. split; [done|]. by apply (walk_extends (w_fs w)).
    - rewrite Hlook1. by intros n' [= <-]. }
  set (target := mutation_record w rid OperationKind.Create path None (hash_bytes bs) now) in *.
  destruct (undo_succeeds srv n w1 rid' rs1 ls1 target (p ++ [s])
    (Some (hash_bytes bs)) (Some (hash_bytes bs)) FILE_DELETED_SENTINEL (Some bs)
    (λ t', t' = w_fs w1 ∨ t' = delete (p ++ [s]) (w_fs w1))
    (λ t', t' = delete (p ++ [s]) (w_fs w1))
    (λ t', t' = w_fs w1) (λ t', t' = delete (p ++ [s]) (w_fs w1)))
    as (w2 & Hrun2 & Ht2).
  - split.
    + exact Hq1.
    + by apply Hf1.
    + unfold ids_left. rewrite Hid. lia.
    + exact Hrec.
    + by apply next_op_id_ne.
    + done.
    + exact Hr1.
    + by eapply hash_of_real.
    + cbn. by rewrite decide_True.
    + intros w3 Hf3 Hs3. split.
      * apply (undo_create_plan _ _ _ bs 420 mt); [|done|done].
        rewrite Hf3. by apply metadata_real.
      * rewrite <- Hf3 in *. by eapply undo_remove_applies.
    + done.
    + done.
    + done.
  - exists w1, w2. split_and!; [done|exact Hrun2|].
    rewrite Ht2, Ht1. by apply delete_insert_id.
Qed.

(** C32: undo takes a deletion back, but for the mode.  A deletion followed by
    the undo of its operation: the file is there again with its content, and
    the rest of the tree is as it was; but the file now has the mode 0600 of
    a temporary file, whatever mode it had. *)
Theorem undo_restores_deletion `{FaultFree} `{TempfileLaws} `{Sha256Laws} `{HashIterLaws}
    `{Processes} `{TomlConfig} `{JsonCodecLaws AnyOperationRecord} `{JsonCodecLaws RequestLogLine}
    srv n w rid path rs ls p s data mode mtime rid' :
  good_delete srv n w rid path rs ls (p ++ [s]) data mode mtime →
  names_entry (w_fs w) (Server.workspace srv) path p s → strip_prefix s ".tmp" = None →
  (next_id (w_mem w) + 1 < u64_max)%N → rid' ≠ rid → fresh_request rid' rs ls →
  ∃ w1 w2 mtime',
    handle srv (delete_request rid path) w
      = (Returned (mutation_answer w rid (Some (hash_bytes data)) FILE_DELETED_SENTINEL), w1) ∧
    handle srv (undo_request rid' (next_op_id w)) w1
      = (Returned (ServerMessage.Result rid' (ResultBody.Undo
           (UndoResult.Mk (next_op_id w1) (Some (hash_bytes data)) (hash_bytes data)))), w2) ∧
    w_fs w2 = <[p ++ [s] := File data 384 mtime']> (w_fs w).
Proof.
  intros Hgood (a & Ha & Hc) Hnt Hroom Hne Hfresh. pose proof fault_free_crash_only.
  destruct (ended_succeeds _ _ _ _ _ _ _ _ _ _ _ _ _ (λ t', t' = delete (p ++ [s]) (w_fs w)) _ _
    (handle_delete_wp _ _ _ _ _ _ _ _ _ _ _ Hgood))
    as (w1 & Hrun & Ht1 & _ & [now Hrec] & Hblob & Hid & rs1 & ls1 & Hq1 & Hf1).
  destruct Hgood as (Hwf & Hws & _ & _ & _ & Hr & Hm).
  destruct (resolved_metadata _ _ _ _ _ Hwf Hws Hr Hm) as [Hreal Hlook].
  pose proof (keeps_ways_delete _ _ _ _ _ Hlook) as Hk.
  destruct (real_parent_dir _ _ _ Hreal) as [Hp Hd].
  assert (name_ok s) as Hs by (apply real_names, Forall_app in Hreal as [_ Hs]; by inversion Hs).
  rewrite <- Ht1 in Hk. pose proof (keeps_ways_dir _ _ _ Hk Hd) as Hd1.
  assert (w_fs w1 !! (p ++ [s]) = None) as Hlook1 by (rewrite Ht1; apply lookup_delete_eq).
  assert (real (w_fs w1) p) as Hp1.
  { rewrite Ht1. apply real_delete_file; [done|by rewrite Hlook|apply snoc_ne]. }
  assert (resolve (w_fs w1) (Server.workspace srv) path = Ok (p ++ [s])) as Hr1.
  { apply (resolve_entry (w_fs w)); [done|done| |done|done|].
    - exists a. split; [done|]. by apply (walk_keeps_ways (w_fs w)).
    - by rewrite Hlook1. }
  set (target := mutation_record w rid OperationKind.Delete path (Some (hash_bytes data))
    FILE_DELETED_SENTINEL now) in *.
  destruct (undo_succeeds srv n w1 rid' rs1 ls1 target (p ++ [s])
    None None (hash_bytes data) None
    (λ t', beside (w_fs w1) (p ++ [s]) t' ∨
       ∃ m, installed (w_fs w1) (p ++ [s]) data m t' ∧ (¬ fails → m = 384%N))
    (λ t', ∃ m, installed (w_fs w1) (p ++ [s]) data m t' ∧ (¬ fails → m = 384%N))
    (λ t', beside (w_fs w1) (p ++ [s]) t' )
    (λ t', ∃ m, installed (w_fs w1) (p ++ [s]) data m t' ∧ (¬ fails → m = 384%N)))
    as (w2 & Hrun2 & m2 & [mt2 Ht2] & Hm2).
  - split.
    + exact Hq1.
    + by apply Hf1.
    + unfold ids_left. rewrite Hid. lia.
    + exact Hrec.
    + by apply next_op_id_ne.
    + done.
    + exact Hr1.
    + by apply hash_of_missing.
    + cbn. by rewrite decide_False by apply hash_not_sentinel.
    + intros w3 Hf3 Hs3. split.
      * apply undo_delete_plan; [done|done|by rewrite Hs3].
      * rewrite <- Hf3 in *. apply undo_restore_applies; try done; [|by rewrite Hs3].
        by left.
    + by left.
    + done.
    + done.
  - exists w1, w2, mt2. split_and!; [done|exact Hrun2|].
    rewrite Ht2, Ht1, Hm2 by apply fault_free_fails. apply insert_delete_eq.
Qed.

(** C19: the undo of an edit, too, happens once or not at all, however often
    the process dies: after the restart the file has the edited content and
    the undo is forgotten, or it has the old content and the undo is
    recorded, its request answered. *)
Theorem undo_edit_survives_crashes `{CrashOnly} `{TempfileLaws} `{Sha256Laws} `{HashIterLaws}
    `{Processes} `{TomlConfig} `{JsonCodecLaws AnyOperationRecord} `{JsonCodecLaws RequestLogLine}
    srv n w rid rs ls target abs original content mode mtime w1 w2 :
  tree_wf (w_fs w) → ws_canonical (w_fs w) (Server.workspace srv) →
  quiet n w rs ls → fresh_request rid rs ls → ids_left w →
  find_record (w_mem w) (FsOperationRecord.operation_id target)
    = Some (AnyOperationRecord.Fs target) →
  FsOperationRecord.operation_id target ≠ next_op_id w →
  FsOperationRecord.kind target = OperationKind.Edit →
  FsOperationRecord.before_hash target = Some (hash_bytes original) →
  FsOperationRecord.after_hash target = hash_bytes content →
  w_sd w !! blob_path (FsOperationRecord.operation_id target) "before" = Some original →
  resolve (w_fs w) (Server.workspace srv) (FsOperationRecord.path target) = Ok abs →
  metadata (w_fs w) abs = Ok (File content mode mtime) →
  hash_bytes original ≠ hash_bytes content →
  handle srv (undo_request rid (FsOperationRecord.operation_id target)) w = (Killed, w1) →
  died_reopening (Server.workspace srv) w1 w2 →
  match reopen (Server.workspace srv) w2 with
  | (Returned _, w3) =>
      (beside (w_fs w) abs (w_fs w3) ∧ requests (w_mem w3) !! rid = None) ∨
      (installed (w_fs w) abs original mode (w_fs w3) ∧
       requests (w_mem w3) !! rid = Some (done_entry (ServerMessage.Result rid
         (undone target (hash_bytes original) (next_op_id w)))))
  | (Raised _, _) => False
  | (Killed, _) => True
  end.
Proof.
  intros Hwf Hws Hq Hf Hids Hrec Hidne Hkind Hbefore Hafter Hblob Hr Hm Hne Hrun Hdied.
  destruct (resolved_metadata _ _ _ _ _ Hwf Hws Hr Hm) as [Hreal Hlook].
  destruct (real_file_split _ _ _ _ _ Hreal Hlook) as (p & s & -> & Hp & Hd).
  assert (name_ok s) as Hs by (apply real_names, Forall_app in Hreal as [_ Hs]; by inversion Hs).
  pose proof (handle_undo_wp srv n w rid rs ls target (p ++ [s])
    (Some (hash_bytes content)) (Some (hash_bytes content)) (hash_bytes original) (Some content)
    (λ t', beside (w_fs w) (p ++ [s]) t' ∨
       ∃ m, installed (w_fs w) (p ++ [s]) original m t' ∧ (¬ fails → m = mode))
    (λ t', ∃ m, installed (w_fs w) (p ++ [s]) original m t' ∧ (¬ fails → m = mode))
    (beside (w_fs w) (p ++ [s])) (installed (w_fs w) (p ++ [s]) original mode)) as Hwp.
  assert (∀ t', (∃ m, installed (w_fs w) (p ++ [s]) original m t' ∧ (¬ fails → m = mode)) →
    installed (w_fs w) (p ++ [s]) original mode t') as Hmode.
  { intros t' (m & Hi & Hmm). by rewrite <- (Hmm crash_only_fails). }
  opose proof (Hwp _) as Hended.
  { split.
    - exact Hq.
    - exact Hf.
    - exact Hids.
    - exact Hrec.
    - exact Hidne.
    - by rewrite Hkind.
    - exact Hr.
    - by rewrite (hash_of_metadata _ _ _ Hm).
    - by rewrite decide_False by apply hash_not_sentinel.
    - intros w3 Hf3 Hs3. split.
      + eapply undo_edit_plan; [by rewrite Hf3|by rewrite Hbefore|done|by rewrite Hs3].
      + rewrite <- Hf3 in *. apply undo_restore_applies; try done;
          [right; eauto|by rewrite Hbefore|by rewrite Hs3].
    - by left.
    - intros t' [?|?]; auto.
    - exact Hmode. }
  destruct (wp_run _ _ _ _ _ Hrun Hended) as (_ & now & Hdoubt).
  eapply (reopened_wp _ _ "undo") in Hdied;
    [|by eapply (edit_marker_decidable OperationKind.Undo (w_fs w))|done|exact Hdoubt].
  unfold wp in Hdied. destruct (reopen _ _) as [[acts|e|] w3]; cbn in Hdied; [|done|done].
  destruct Hdied as [(Ht & Hq3 & _)|(Ht & Hq3 & _)]; [by left|right]. split; [done|].
  etrans; [exact Hq3|]. do 2 f_equal. unfold answer_of, reconstruct_fs, undone. cbn.
  by rewrite Hbefore, decide_False by apply hash_not_sentinel.
Qed.
