(* ===== verification/Witnesses.v ===== *)
(** * Witnesses: the theorems at concrete inputs

    For each theorem with hypotheses, a run of the model on the machine of
    [Concrete.v] (or a small literal input) at which they hold. *)

From S2P Require Import Prelude Text Protocol World Fs Hash FsSpec Workspace Jsonl Store.
From S2P Require Import StoreSpec FsOps FsOpsSpec Undo UndoSpec Prune Transfer Recovery Crash.
From S2P Require Import PruneSpec Config Exec Server ServerSpec Durability Codec Concrete.
From S2P Require Import UndoDurability.

Lemma run_pair {A B} (p : A * B) a : p.1 = a → p = (a, p.2).
Proof. destruct p. by intros [= ->]. Qed.

(** ** The small workspace *)

Definition hello_hash : string := hash_bytes hello.
Definition bye : bytes := as_bytes "hello there".

Lemma fresh_nothing rid : fresh_request rid [] [].
Proof. split; [reflexivity|]. intros i r Hr. set_solver. Qed.

Lemma ids_left_world0 : ids_left world0.
Proof. reflexivity. Qed.

Lemma good_edit0 :
  good_edit srv0 0 world0 "r1" "note.txt" hello_hash "world" "there" false [] []
    note hello bye 420 7.
Proof.
  split_and!; [exact tree0_wf|exact ws_tree0|exact world0_quiet|apply fresh_nothing
              |exact ids_left_world0|vm_compute; reflexivity|reflexivity].
Qed.

Lemma good_delete0 : good_delete srv0 0 world0 "r1" "note.txt" [] [] note hello 420 7.
Proof.
  split_and!; [exact tree0_wf|exact ws_tree0|exact world0_quiet|apply fresh_nothing
              |exact ids_left_world0|vm_compute; reflexivity|vm_compute; reflexivity].
Qed.

Lemma real_r : real tree0 ["r"].
Proof. exact (proj1 ws_tree0). Qed.

Lemma good_create0 :
  good_create srv0 0 world0 "r1" "new.txt" "fresh" [] [] ["r"] "new.txt".
Proof.
  split_and!; [exact ws_tree0|exact world0_quiet|apply fresh_nothing|exact ids_left_world0
              |vm_compute; done|vm_compute; reflexivity|exact real_r|reflexivity
              |by vm_compute; split_and!|reflexivity|reflexivity].
Qed.

Lemma names_note : names_entry tree0 ws "note.txt" ["r"] "note.txt".
Proof. exists ["r"]. split; vm_compute; reflexivity. Qed.
Lemma names_new : names_entry tree0 ws "new.txt" ["r"] "new.txt".
Proof. exists ["r"]. split; vm_compute; reflexivity. Qed.

(** ** Runs to the end *)

Section calm.
#[local] Instance calm_env : Env := calm.

Lemma edit_succeeds_witness :
  good_edit srv0 0 world0 "r1" "note.txt" hello_hash "world" "there" false [] []
    note hello bye 420 7 ∧
  ∃ w', handle srv0 (edit_request "r1" "note.txt" hello_hash "world" "there" false) world0
          = (Returned (mutation_answer world0 "r1" (Some hello_hash) (hash_bytes bye)), w').
Proof.
  split; [exact good_edit0|]. destruct (edit_succeeds _ _ _ _ _ _ _ _ _ _ _ _ _ _ _ _ good_edit0)
    as (w' & Hw' & _). exists w'. exact Hw'.
Defined.

Lemma delete_succeeds_witness :
  good_delete srv0 0 world0 "r1" "note.txt" [] [] note hello 420 7 ∧
  ∃ w', handle srv0 (delete_request "r1" "note.txt") world0
          = (Returned (mutation_answer world0 "r1" (Some hello_hash) FILE_DELETED_SENTINEL), w') ∧
        w_fs w' = delete note tree0.
Proof.
  split; [exact good_delete0|].
  destruct (delete_succeeds _ _ _ _ _ _ _ _ _ _ _ good_delete0) as (w' & Hw' & Hfs & _).
  exists w'. split; [exact Hw'|exact Hfs].
Defined.

Lemma create_succeeds_witness :
  good_create srv0 0 world0 "r1" "new.txt" "fresh" [] [] ["r"] "new.txt" ∧
  ∃ w' mtime, handle srv0 (create_request "r1" "new.txt" "fresh") world0
          = (Returned (mutation_answer world0 "r1" None (hash_bytes (as_bytes "fresh"))), w') ∧
        w_fs w' = <[["r"; "new.txt"] := File (as_bytes "fresh") 420 mtime]> tree0.
Proof.
  split; [exact good_create0|].
  destruct (create_succeeds _ _ _ _ _ _ _ _ _ _ good_create0) as (w' & Hw' & [mtime Hfs] & _).
  exists w', mtime. split; [exact Hw'|exact Hfs].
Defined.

Lemma undo_restores_edit_witness :
  ∃ w1 w2 mtime,
    handle srv0 (edit_request "r1" "note.txt" hello_hash "world" "there" false) world0
      = (Returned (mutation_answer world0 "r1" (Some hello_hash) (hash_bytes bye)), w1) ∧
    handle srv0 (undo_request "r2" "op-1") w1
      = (Returned (ServerMessage.Result "r2" (ResultBody.Undo
           (UndoResult.Mk (next_op_id w1) (Some hello_hash) hello_hash))), w2) ∧
    w_fs w2 = <[note := File hello 420 mtime]> tree0.
Proof.
  exact (undo_restores_edit _ _ _ _ _ _ _ _ _ _ _ _ _ _ _ _ "r2" good_edit0 eq_refl
           ltac:(done) (fresh_nothing _)).
Defined.

Lemma undo_removes_creation_witness :
  ∃ w1 w2,
    handle srv0 (create_request "r1" "new.txt" "fresh") world0
      = (Returned (mutation_answer world0 "r1" None (hash_bytes (as_bytes "fresh"))), w1) ∧
    handle srv0 (undo_request "r2" "op-1") w1
      = (Returned (ServerMessage.Result "r2" (ResultBody.Undo
           (UndoResult.Mk (next_op_id w1) None FILE_DELETED_SENTINEL))), w2) ∧
    w_fs w2 = tree0.
Proof.
  exact (undo_removes_creation _ _ _ _ _ _ _ _ _ _ "r2" good_create0 names_new eq_refl
           ltac:(done) (fresh_nothing _)).
Defined.

Lemma undo_restores_deletion_witness :
  ∃ w1 w2 mtime,
    handle srv0 (delete_request "r1" "note.txt") world0
      = (Returned (mutation_answer world0 "r1" (Some hello_hash) FILE_DELETED_SENTINEL), w1) ∧
    handle srv0 (undo_request "r2" "op-1") w1
      = (Returned (ServerMessage.Result "r2" (ResultBody.Undo
           (UndoResult.Mk (next_op_id w1) (Some hello_hash) hello_hash))), w2) ∧
    w_fs w2 = <[note := File hello 384 mtime]> tree0.
Proof.
  exact (undo_restores_deletion srv0 0 world0 "r1" "note.txt" [] [] ["r"] "note.txt" hello 420 7 "r2"
           good_delete0 names_note eq_refl eq_refl ltac:(done) (fresh_nothing _)).
Defined.

(** The world an edit of the note leaves. *)
Definition world1 : world :=
  (handle srv0 (edit_request "r1" "note.txt" hello_hash "world" "there" false) world0).2.
End calm.

(** ** Runs the process dies in *)

Section killed.
#[local] Instance killed_env : Env := killing 20.

Lemma edit_survives_crashes_witness :
  let w1 := (handle srv0 (edit_request "r1" "note.txt" hello_hash "world" "there" false) world0).2 in
  happens_or_not ws (beside tree0 note) (installed tree0 note bye 420) "r1"
    (mutation_answer world0 "r1" (Some hello_hash) (hash_bytes bye))
    (mutation_record world0 "r1" OperationKind.Edit "note.txt" (Some hello_hash) (hash_bytes bye)) w1.
Proof.
  eapply (edit_survives_crashes srv0 0 world0 "r1" "note.txt" hello_hash "world" "there" false
    [] [] note hello bye 420 7); [exact good_edit0|by vm_compute| |apply died_never].
  apply run_pair. vm_compute. reflexivity.
Defined.

Lemma delete_survives_crashes_witness :
  let w1 := (handle srv0 (delete_request "r1" "note.txt") world0).2 in
  happens_or_not ws (λ t, t = tree0) (λ t, t = delete note tree0) "r1"
    (mutation_answer world0 "r1" (Some hello_hash) FILE_DELETED_SENTINEL)
    (mutation_record world0 "r1" OperationKind.Delete "note.txt" (Some hello_hash)
       FILE_DELETED_SENTINEL) w1.
Proof.
  eapply (delete_survives_crashes srv0 0 world0 "r1" "note.txt" [] [] ["r"] "note.txt" hello 420 7);
    [exact good_delete0|exact names_note| |apply died_never].
  apply run_pair. vm_compute. reflexivity.
Defined.

Lemma create_survives_crashes_witness :
  let w1 := (handle srv0 (create_request "r1" "new.txt" "fresh") world0).2 in
  happens_or_not ws (beside tree0 ["r"; "new.txt"]) (created tree0 ["r"] "new.txt" (as_bytes "fresh") False)
    "r1" (mutation_answer world0 "r1" None (hash_bytes (as_bytes "fresh")))
    (mutation_record world0 "r1" OperationKind.Create "new.txt" None (hash_bytes (as_bytes "fresh"))) w1.
Proof.
  eapply (create_survives_crashes srv0 0 world0 "r1" "new.txt" "fresh" [] [] ["r"] "new.txt");
    [exact good_create0|exact names_new| |apply died_never].
  apply run_pair. vm_compute. reflexivity.
Defined.
End killed.

(** ** Pure functions, logs and tables *)

Lemma resolve_confined_witness :
  let p := ["r"; "note.txt"] in
  resolve tree0 ws "note.txt" = Ok p ∧ ["r"] `prefix_of` p ∧ real tree0 p.
Proof.
  assert (resolve tree0 ws "note.txt" = Ok ["r"; "note.txt"]) as Hr by (vm_compute; reflexivity).
  destruct (resolve_confined _ _ _ _ tree0_wf ws_tree0 Hr) as (Hp & Hm & _).
  split_and!; [exact Hr|exact Hp|].
  by destruct (Hm (File hello 420 7) ltac:(vm_compute; reflexivity)).
Defined.

Lemma load_from_str_valid_witness : valid_config ServerConfig.default.
Proof.
  assert (load_from_str "" = Ok ServerConfig.default) as Hl by (vm_compute; reflexivity).
  apply (load_from_str_valid _ _ Hl).
Defined.

Lemma capture_any_chunks_witness :
  ExecOutput.total_bytes (finish (foldl push OutputCapture.default [as_bytes "out"; as_bytes "put"]))
  = 6%N.
Proof. apply (capture_any_chunks [as_bytes "out"; as_bytes "put"]). by vm_compute. Defined.

Lemma edit_text_spec_witness :
  ∃ pre post, leftmost hello (as_bytes "world") pre ∧
    hello = pre ++ as_bytes "world" ++ post ∧ bye = pre ++ as_bytes "there" ++ post.
Proof.
  pose proof (edit_text_spec "note.txt" hello (as_bytes "world") (as_bytes "there") false
    ltac:(done) ltac:(done) eq_refl eq_refl) as Hs.
  assert (edit_text "note.txt" hello (as_bytes "world") (as_bytes "there") false = Ok bye) as He
    by (vm_compute; reflexivity).
  rewrite He in Hs. apply Hs.
Defined.

Lemma read_page_spec_witness :
  match read_page hello (Some 3%N) (Some 4%N) with
  | Ok r => ReadResult.hash r = Some hello_hash
  | Err e => ProtocolError.code e = InvalidRequest
  end.
Proof.
  pose proof (read_page_spec hello (Some 3%N) (Some 4%N) ltac:(by vm_compute)) as Hr.
  cbv zeta in Hr. destruct (read_page _ _ _) as [r|e]; [|apply Hr].
  destruct Hr as (_ & _ & _ & e & _ & _ & _ & _ & Hh & _). exact Hh.
Defined.

Lemma read_all_whole_witness : read_all (S (length hello)) hello 0 4 = Some hello.
Proof. apply read_all_whole; by vm_compute. Defined.

Definition entries0 : list ListEntry :=
  [ListEntry.Mk "b" ListKind.File (Some 1%N); ListEntry.Mk "a" ListKind.File (Some 2%N)].

Lemma list_all_whole_witness :
  ∃ es, list_all (S (length entries0)) entries0 0 1 = Some es ∧ es ≡ₚ entries0.
Proof.
  destruct (list_all_whole entries0 1 ltac:(by vm_compute) ltac:(done)) as [(es & He & Hp & _) _].
  exists es. split; [exact He|exact Hp].
Defined.

Section logs.
#[local] Instance log_env : Env := calm.

Definition line0 : RequestLogLine := claim_line "r1" "edit".
Definition line1 : RequestLogLine := claim_line "r2" "edit".

Definition torn_world : world :=
  World tree0 {[requests_path := lines [line0] ++ take 7 (line line1)]} empty_memory 0 [].

Lemma load_log_repairs_witness :
  let '(o, w') := load_log (T := RequestLogLine) requests_path torn_world in
  only_sd requests_path torn_world w'.
Proof.
  pose proof (load_log_repairs requests_path [line0] line1 7 torn_world ltac:(by vm_compute)) as Hl.
  destruct (load_log requests_path torn_world) as [o w']. apply Hl.
Defined.

Lemma load_lines_keeps_every_line_witness :
  ∃ vs1 vs2, [line0; line1] = vs1 ++ vs2 ∧
    Forall2 line_holds [json line0; json line1] vs1 ∧ length vs2 ≤ 1.
Proof.
  apply (load_lines_keeps_every_line requests_path [json line0; json line1] [] [line0; line1] false).
  - repeat constructor; apply json_one_line.
  - set_solver.
  - vm_compute. reflexivity.
Defined.

Lemma handle_answers_witness :
  match handle srv0 (delete_request "r1" "note.txt") world0 with
  | (Returned msg, _) => ServerMessage.request_id msg = "r1"
  | (Raised _, _) => False
  | (Killed, _) => True
  end.
Proof. apply (handle_answers srv0 (delete_request "r1" "note.txt")). intros e msg. done. Defined.

Definition asked_world : world := set_mem (put_request "r1" (error_entry panic_empty_shell)) world0.

Lemma handle_replays_witness :
  handle srv0 (delete_request "r1" "note.txt") asked_world
  = (Returned (ServerMessage.Error "r1" panic_empty_shell), asked_world).
Proof.
  exact (handle_replays srv0 (delete_request "r1" "note.txt") asked_world
    (error_entry panic_empty_shell) eq_refl eq_refl).
Defined.
End logs.

(** ** Undo and pruning after an edit *)

Definition edit0 : Request := edit_request "r1" "note.txt" hello_hash "world" "there" false.
Definition edited : world := (handle (H:=calm) srv0 edit0 world0).2.
Definition marker0 : AnyOperationRecord :=
  AnyOperationRecord.Prepared (PreparedRecord.Mk "op-1" "r1" OperationKind.Edit "note.txt"
    (Some hello_hash) (hash_bytes bye) 10).
Definition target0 : FsOperationRecord :=
  FsOperationRecord.Mk "op-1" "r1" OperationKind.Edit "note.txt" (Some hello_hash) (hash_bytes bye) 23.
Definition edited_log : list AnyOperationRecord := [marker0; AnyOperationRecord.Fs target0].
Definition edited_requests : list RequestLogLine :=
  [claim_line "r1" "edit"; done_line "r1" (mutation_answer world0 "r1" (Some hello_hash) (hash_bytes bye))].

Lemma edited_quiet : quiet 0 edited edited_log edited_requests.
Proof.
  split.
  - split; vm_compute; reflexivity.
  - left. split; vm_compute; reflexivity.
  - vm_compute. reflexivity.
  - intros i p Hp.
    assert (index_records edited_log = {["op-1" := AnyOperationRecord.Fs target0]}) as Hi
      by (vm_compute; reflexivity).
    rewrite Hi in Hp. apply lookup_singleton_Some in Hp as [_ Hp]. discriminate Hp.
  - intros i e He.
    assert (requests_of_log edited_requests = {["r1" := done_entry (mutation_answer world0 "r1"
      (Some hello_hash) (hash_bytes bye))]}) as Hi by (vm_compute; reflexivity).
    rewrite Hi in He. apply lookup_singleton_Some in He as [_ <-]. reflexivity.
  - intros r Hr. unfold edited_log in Hr. rewrite !elem_of_cons, elem_of_nil in Hr.
    destruct Hr as [->|[->|[]]]; vm_compute; discriminate.
Qed.

Lemma fresh_edited : fresh_request "r2" edited_log edited_requests.
Proof.
  split; [vm_compute; reflexivity|]. intros i r Hr.
  assert (index_records edited_log = {["op-1" := AnyOperationRecord.Fs target0]}) as Hi
    by (vm_compute; reflexivity).
  rewrite Hi in Hr. apply lookup_singleton_Some in Hr as [_ <-]. vm_compute. reflexivity.
Qed.

Section killed_undo.
#[local] Instance killed_undo_env : Env := killing 46.

Lemma undo_edit_survives_crashes_witness :
  match reopen ws (handle srv0 (undo_request "r2" "op-1") edited).2 with
  | (Returned _, w3) =>
      (beside (w_fs edited) note (w_fs w3) ∧ requests (w_mem w3) !! "r2" = None) ∨
      (installed (w_fs edited) note hello 420 (w_fs w3) ∧
       requests (w_mem w3) !! "r2" = Some (done_entry (ServerMessage.Result "r2"
         (undone target0 hello_hash (next_op_id edited)))))
  | (Raised _, _) => False
  | (Killed, _) => True
  end.
Proof.
  apply (undo_edit_survives_crashes srv0 0 edited "r2" edited_log edited_requests target0 note
    hello bye 420 19000000 (handle srv0 (undo_request "r2" "op-1") edited).2
    (handle srv0 (undo_request "r2" "op-1") edited).2).
  - apply tree_wfb_ok. vm_compute. reflexivity.
  - split; apply (realb_ok _ []); first [vm_compute; reflexivity|by constructor].
  - exact edited_quiet.
  - exact fresh_edited.
  - vm_compute. reflexivity.
  - vm_compute. reflexivity.
  - vm_compute. discriminate.
  - reflexivity.
  - reflexivity.
  - reflexivity.
  - vm_compute. reflexivity.
  - vm_compute. reflexivity.
  - vm_compute. reflexivity.
  - vm_compute. discriminate.
  - apply run_pair. vm_compute. reflexivity.
  - apply died_never.
Defined.
End killed_undo.

(** Pruning to nothing, and starting again. *)
Lemma prune_survives_restart_witness :
  let w1 := (prune (H:=calm) 0 edited).2 in
  let w2 := (OperationStore_new (H:=calm) w1).2 in
  records (w_mem w2) ≡ₚ [] ∧ next_id (w_mem w2) = 1%N.
Proof.
  destruct (prune_survives_restart calm calm 0 edited (PruneStats.Mk 1 1 0)
    (prune (H:=calm) 0 edited).2
    (OperationStore_new (H:=calm) (prune (H:=calm) 0 edited).2).2) as (Hr & _ & Hn & _).
  - vm_compute. repeat constructor. set_solver.
  - vm_compute. discriminate.
  - intros r k Hr. assert (records (w_mem edited) = [AnyOperationRecord.Fs target0]) as Heq
      by (vm_compute; reflexivity).
    rewrite Heq in Hr. apply list_elem_of_singleton in Hr as ->. vm_compute.
    intros [= <-]. discriminate.
  - apply run_pair. vm_compute. reflexivity.
  - apply run_pair. vm_compute. reflexivity.
  - split; [exact Hr|exact Hn].
Defined.

(** A process killed in its second system call, before a byte is written. *)
Definition killed_early : Env :=
  {| env_fault n := if Nat.eqb n 1 then Kill 0 else NoFault; env_clock _ := 0%N |}.

Lemma interrupted_prune_blocks_start_witness :
  ∃ w1, prune (H:=killed_early) 0 (World (w_fs edited) (w_sd edited) (w_mem edited) 0 []) = (Killed, w1) ∧
    ∀ later : Env, ∃ o w2, OperationStore_new (H:=later) w1 = (o, w2) ∧ o ≠ Returned tt.
Proof.
  destruct (interrupted_prune_blocks_start killed_early 0
    (World (w_fs edited) (w_sd edited) (w_mem edited) 0 []) eq_refl eq_refl) as (w1 & Hw1 & _ & Hl).
  exists w1. split; [|exact Hl]. exact Hw1.
Defined.

(** ** A command that runs out of time

    It prints a line and writes a file, then another one, and does not end: at
    its timeout of two milliseconds its group is killed, and once more when
    its descendants keep the pipes open. *)

Definition writes (name : string) : tree → tree := <[["r"; name] := File [] 420 0]>.
Definition sleepy : process_run :=
  ProcessRun 100 [MkRound 500000 (writes "a") (Some (Received (StreamEvent.Stdout hello)));
                  MkRound 700000 (writes "b") None]
    (1000%N, id) [MkRound 5 (writes "c") (Some (Drained (StreamEvent.Stderr bye)))].
#[local] Instance sleepy_processes : Processes := { spawn _ _ := Ok sleepy }.

Lemma exec_times_out :
  let '(o, w') := exec (H:=calm) ws ServerConfig.default None None ["work"] (Some 2%N) "op-1" world0 in
  o = Returned (ExecOutcome.Mk "op-1" ExecTermination.TimedOut (output_of hello) (output_of bye) 2002 true) ∧
  w_fs w' = writes "c" (writes "b" (writes "a" tree0)) ∧
  w_trace w' = [EvKillGroup; EvKillGroup; EvSpawn ["work"] ["r"]].
Proof. vm_compute. split_and!; reflexivity. Qed.

(** The server dies while the command runs. *)
Lemma exec_cut_off :
  let '(o, w') := exec (H:=killing 3) ws ServerConfig.default None None ["work"] (Some 2%N) "op-1" world0 in
  o = Killed ∧ w_fs w' = writes "b" (writes "a" tree0) ∧ w_trace w' = [EvSpawn ["work"] ["r"]].
Proof. vm_compute. split_and!; reflexivity. Qed.
