(* ===== verification/ClientWitnesses.v ===== *)
(** * ClientWitnesses: the client's theorems at concrete inputs

    Runs of the connection model with two concurrent calls, and the client's
    calls over a server on the machine of [Concrete.v]. *)

From S2P Require Import Prelude Text Protocol World Fs Hash FsSpec Workspace Jsonl Store StoreSpec.
From S2P Require Import FsOps Undo Prune Transfer Recovery Config Exec Server ServerSpec Durability.
From S2P Require Import Codec Concrete ClientApi Agreement ClientConn Witnesses.

(** ** A connection *)

Definition rid1 : string := next_request_id 7 42 0.
Definition rid2 : string := next_request_id 7 42 1.
Definition answer1 : ServerMessage :=
  ServerMessage.Result rid1 (ResultBody.UploadAbort "xfer-0").

(** Both calls write their line, enter the [select!] and are suspended. *)
Definition suspended (id : string) (c : conn) : conn :=
  check_closed id (Waiting false) (set_call id (Rechecking false)
    (check_closed id Arming (set_call id Entering c))).
Definition select_both (c : conn) : conn := suspended rid2 (suspended rid1 c).

(** Two calls; the first one has its answer on the way. *)
Definition conn_two : conn :=
  let c := register rid1 (begin_call (as_u64 7) (connect 42)) in
  let c := register rid2 (begin_call (as_u64 7) c) in
  select_both c.

Lemma reachable_suspended id c :
  reachable 42 c → calls c !! id = Some Writing → closed c = false → notified c = false →
  reachable 42 (suspended id c).
Proof.
  intros Hr Hc Hcl Hno. unfold suspended, check_closed. cbn [closed set_call]. rewrite Hcl.
  assert (∀ s' c0, calls (set_call id s' c0) !! id = Some s') as Hset by (intros; apply lookup_insert_eq).
  set (c1 := set_call id Entering c).
  assert (reachable 42 (set_call id Arming c1)) as H1.
  { pose proof (step_enter id c1 (Hset _ _)) as Hst. unfold check_closed in Hst. cbn [closed set_call c1] in Hst.
    rewrite Hcl in Hst. eapply reach_step; [|exact Hst]. eapply reach_step; [exact Hr|by apply step_written]. }
  pose proof (step_arm id _ (Hset Arming c1)) as H2. cbn [notified set_call c1] in H2. rewrite Hno in H2.
  pose proof (step_recheck id false _ (Hset (Rechecking false) (set_call id Arming c1))) as H3.
  unfold check_closed in H3. cbn [closed set_call c1] in H3. rewrite Hcl in H3.
  eapply reach_step; [|exact H3]. eapply reach_step; [exact H1|exact H2].
Qed.

Lemma reachable_two : reachable 42 conn_two.
Proof.
  unfold conn_two, select_both. apply reachable_suspended; [|vm_compute; reflexivity..].
  apply reachable_suspended; [|vm_compute; reflexivity..].
  eapply reach_step; [|apply step_register; vm_compute; reflexivity].
  eapply reach_step; [|apply step_begin; reflexivity].
  eapply reach_step; [|apply step_register; vm_compute; reflexivity].
  eapply reach_step; [|apply step_begin; reflexivity].
  apply reach_connect.
Qed.

(** The answer is read, and the call takes it. *)
Definition conn_answered : conn :=
  poll_reply rid1 false (set_call rid1 (PollReply false)
    (poll rid1 false (reader_line (json answer1 ++ [nl]) conn_two))).

Lemma reachable_answered : reachable 42 conn_answered.
Proof.
  unfold conn_answered.
  eapply reach_step; [|apply step_reply; vm_compute; reflexivity].
  eapply reach_step; [|eapply step_not_elapsed; vm_compute; reflexivity].
  eapply reach_step; [|apply step_poll; vm_compute; reflexivity].
  eapply reach_step; [|apply step_line; vm_compute; reflexivity].
  exact reachable_two.
Qed.

Lemma answers_reach_their_call_witness :
  reachable 42 conn_answered ∧
  calls conn_answered !! rid1 = Some (Finished (Ok (rid1, answer1))) ∧
  answer1 ∈ received conn_answered.
Proof.
  split; [exact reachable_answered|]. split; [vm_compute; reflexivity|].
  refine (proj2 (proj2 (answers_reach_their_call 42 conn_answered rid1 rid1 answer1 _ _ _ _))).
  - by vm_compute.
  - exact reachable_answered.
  - by vm_compute.
  - vm_compute. reflexivity.
Defined.

(** The connection ends while the second call is suspended. *)
Definition conn_ended : conn :=
  set_reader Done (notify_waiters (set_reader Drained (drain_waiters
    (set_reader Stored (store_closed (set_reader Ended conn_answered)))))).

Lemma reachable_ended : reachable 42 conn_ended.
Proof.
  unfold conn_ended.
  eapply reach_step; [|apply step_notify; reflexivity].
  eapply reach_step; [|apply step_drain; reflexivity].
  eapply reach_step; [|apply step_close; reflexivity].
  eapply reach_step; [|apply step_eof; reflexivity].
  exact reachable_answered.
Qed.

Lemma no_call_is_forgotten_witness :
  reader conn_ended = Done ∧ calls conn_ended !! rid2 = Some (Waiting false) ∧
  (∃ r, can_finish conn_ended rid2 r ∧ r ≠ Err ClientError.Timeout) ∧
  notified conn_ended ≠ false ∧ channels conn_ended !! rid2 ≠ Some Pending.
Proof.
  assert (calls conn_ended !! rid2 = Some (Waiting false)) as Hc by (vm_compute; reflexivity).
  pose proof (no_call_is_forgotten 42 conn_ended rid2 (Waiting false) ltac:(by vm_compute)
    reachable_ended ltac:(by vm_compute) Hc ltac:(done)) as (_ & H1 & H2).
  split; [reflexivity|]. split; [exact Hc|]. split.
  - destruct H1 as (r & Hr & Ht); [discriminate|]. exists r. split; [exact Hr|]. apply Ht. discriminate.
  - exact (H2 eq_refl false eq_refl).
Defined.

Lemma request_ids_unique_witness :
  rid1 = next_request_id 7 42 0 ∧ (7 = 7 ∧ 42 = 42 ∧ 0 = 0)%N.
Proof.
  split; [reflexivity|].
  by refine (request_ids_unique 7 42 0 7 42 0 _ _ _ _ _ _ eq_refl); vm_compute.
Defined.

(** ** Calls on a server *)

Definition unused_id (w : world) : string :=
  ts (1 + total_length (elements (dom (requests (w_mem w))))).

Lemma unused_id_fresh w : requests (w_mem w) !! unused_id w = None.
Proof.
  apply not_elem_of_dom. intros Hin. apply elem_of_elements, total_length_elem in Hin.
  unfold unused_id in Hin. rewrite ts_length in Hin. lia.
Qed.

Section calm.
#[local] Instance calm_env : Env := calm.

Lemma answers_agree_witness :
  match handle srv0 (Request.Mk "r1" (RequestBody.Stat "note.txt")) world0 with
  | (Returned msg, _) => ServerMessage.request_id msg = "r1" ∧
                         agrees (RequestBody.Stat "note.txt") msg
  | (Raised _, _) => False
  | (Killed, _) => True
  end.
Proof.
  exact (answers_agree srv0 (Request.Mk "r1" (RequestBody.Stat "note.txt")) world0 eq_refl).
Defined.

#[local] Instance connection0 : Connection := linked unused_id srv0.
#[local] Instance connection0_laws : ConnectionLaws := linked_laws unused_id unused_id_fresh srv0.

Lemma calls_deliver_witness :
  delivers (Client.delete_ "note.txt") (RequestBody.Delete "note.txt") DEFAULT_REQUEST_TIMEOUT
    (λ a r, r = ResultBody.Mutation a) ∧
  ∃ a w', Client.delete_ "note.txt" world0 = (Returned a, w') ∧ w_fs w' = delete note tree0.
Proof.
  split.
  - destruct calls_deliver as (_ & _ & _ & _ & _ & H & _). exact (H "note.txt").
  - eexists _, _. split; [vm_compute; reflexivity|vm_compute; reflexivity].
Defined.
End calm.
