(* ===== verification/TransferWitnesses.v ===== *)
(** * TransferWitnesses: transfers and the fleet at concrete inputs

    The theorems of [TransferSpec.v], [DownloadSpec.v], [UploadSpec.v] and
    [McpSpec.v] applied to runs on the machine of [Concrete.v], with a second
    small machine for the client. *)

From S2P Require Import Prelude Text Protocol World Fs Hash FsSpec Workspace Jsonl Store StoreSpec.
From S2P Require Import FsOps Undo Prune Transfer TransferSpec Recovery Config Exec Server ServerSpec.
From S2P Require Import Durability Codec Concrete ClientApi Agreement ClientTransfer DownloadSpec.
From S2P Require Import UploadHandlers Wire UploadSpec Mcp McpSpec Witnesses ClientWitnesses.

(** ** Codecs for the messages of the data plane *)

#[local] Instance header_eq : EqDecision SendHeader.SendHeader.
Proof. solve_decision. Defined.
#[local] Instance header_countable : Countable SendHeader.SendHeader :=
  inj_countable' SendHeader.size SendHeader.Mk (λ '(SendHeader.Mk _), eq_refl).
#[local] Instance trailer_eq : EqDecision SendTrailer.SendTrailer.
Proof. solve_decision. Defined.
#[local] Instance trailer_countable : Countable SendTrailer.SendTrailer :=
  inj_countable' SendTrailer.sha256 SendTrailer.Mk (λ '(SendTrailer.Mk _), eq_refl).
#[local] Instance metadata_eq : EqDecision ReceiveMetadata.ReceiveMetadata.
Proof. solve_decision. Defined.
#[local] Instance metadata_countable : Countable ReceiveMetadata.ReceiveMetadata :=
  inj_countable' (λ m, (ReceiveMetadata.size m, ReceiveMetadata.sha256 m))
    (λ '(n, h), ReceiveMetadata.Mk n h) (λ '(ReceiveMetadata.Mk _ _), eq_refl).

Section calm.
#[local] Instance calm_env : Env := calm.

(** ** A download *)

Definition home : tree :=
  <[[] := Dir 493 4096]> (<[["home"] := Dir 493 4096]> ∅).
Definition local0 : world := World home ∅ empty_memory 0 [].
Definition target_out : LocalTarget :=
  MkTarget "/home/out.txt" ["home"; "out.txt"] (Some ("/home", ["home"])).
Definition here : Endpoint := Endpoint.Local "agent-remote-server" "/r" None None.

Definition out0 := (SendHeader.Mk (lenN hello), hello, SendTrailer.Mk hello_hash).

(** The sender's output arrives in two reads. *)
#[local] Instance sender0 : SenderProcess := {
  sender_spawn _ := Ok (MkSender [Ok (take 20 (send_output out0)); Ok (drop 20 (send_output out0))]
                          (Ok (MkExit true "exit status: 0"))) }.

Lemma target_out_local : local_target target_out home ["home"] "out.txt" "/home".
Proof.
  split_and!; try done. by apply (realb_ok home [] ["home"]); [constructor|].
Qed.

Lemma download_checked_witness :
  let '(o, w') := install_download here "note.txt" target_out false local0 in
  match o with
  | Returned (size, sha) => ∃ run data mt,
      sender_says here "note.txt" run ∧
      framed (stream (MkReader [] (sender_reads run))) data size sha ∧
      installable false (w_fs local0) ["home"] "out.txt" ∧
      w_fs w' = <[["home"] ++ ["out.txt"] := File data 384 mt]> (w_fs local0)
  | _ => beside (w_fs local0) (["home"] ++ ["out.txt"]) (w_fs w')
  end.
Proof.
  pose proof (download_checked here "note.txt" false target_out ["home"] "out.txt" "/home" local0
           target_out_local) as Hd. exact Hd.
Defined.

Lemma sender0_clean :
  clean (MkReader [] [Ok (take 20 (send_output out0)); Ok (drop 20 (send_output out0))]).
Proof. repeat constructor; eexists; (split; [reflexivity|by vm_compute]). Qed.

Lemma sender0_says : sender_says here "note.txt"
  (MkSender [Ok (take 20 (send_output out0)); Ok (drop 20 (send_output out0))]
     (Ok (MkExit true "exit status: 0"))).
Proof. split; [reflexivity|]. by eexists. Qed.

Definition remote : world := (run_transfer_send ["r"] ["s"] "note.txt" world0).2.

Lemma remote_run : run_transfer_send ["r"] ["s"] "note.txt" world0 = (Returned out0, remote).
Proof.
  assert ((run_transfer_send ["r"] ["s"] "note.txt" world0).1 = Returned out0) as Hrun
    by (vm_compute; reflexivity).
  exact (run_pair _ _ Hrun).
Qed.

Lemma download_roundtrip_witness :
  ∃ ws abs data, resolve (w_fs remote) ws "note.txt" = Ok abs ∧ tree_read (w_fs remote) abs = Ok data ∧
    ∃ w' mt, install_download here "note.txt" target_out false local0
        = (Returned (lenN data, hash_bytes data), w') ∧
      w_fs w' = <[["home"] ++ ["out.txt"] := File data 384 mt]> (w_fs local0).
Proof.
  assert (tree_wf (w_fs remote)) as Hwf by (apply tree_wfb_ok; vm_compute; reflexivity).
  destruct (download_roundtrip here "note.txt" false target_out calm ["r"] ["s"] world0 out0 remote
    remote_run Hwf) as (ws' & abs & data & Hr & Hd & Hgo).
  exists ws', abs, data. split; [exact Hr|]. split; [exact Hd|].
  assert (flat [Ok (take 20 (send_output out0)); Ok (drop 20 (send_output out0))] = send_output out0)
    as Hflat by (vm_compute; reflexivity).
  specialize (Hgo calm _ ["home"] "out.txt" "/home" local0 calm_fault_free sender0_says sender0_clean
    Hflat target_out_local eq_refl).
  exact Hgo.
Defined.

(** ** A sweep *)

Lemma sweep_removes_only_abandoned_witness :
  let '(o, w') := sweep_stale_staging_tree (E:=ProtocolError) ["r"] [] 0 world0 in
  swept [] 0 (w_fs world0) (w_fs w') ∧ w_sd w' = w_sd world0 ∧ w_mem w' = w_mem world0 ∧ ∀ e, o ≠ Raised e.
Proof.
  pose proof (sweep_removes_only_abandoned (E:=ProtocolError) ["r"] [] 0 world0 tree0_wf real_r eq_refl)
    as Hs. exact Hs.
Defined.

(** ** An upload *)

Definition source0 : LocalSource :=
  MkSource "/home/a" (Ok (File hello 420 7)) (Ok tt) [Ok (take 4 hello); Ok (drop 4 hello)].
Definition cut0 (bs : bytes) : list bytes := match bs with [] => [] | _ => [bs] end.

Lemma cut0_flat bs : flat (Ok <$> cut0 bs) = bs.
Proof. destruct bs; [done|]. cbn. by rewrite app_nil_r. Qed.

(** Wires on which nothing goes wrong but, maybe, what the receiver reads. *)
Definition wire_of (input : bytes → bytes) : Wire := MkWire (λ _, Ok tt) (λ _ _ _, Ok tt) (λ _ _, Ok tt)
  (λ _ sent, Ok <$> cut0 (input sent)) (λ _ _, calm) (λ _ _, Truthful) (λ _ _, false) (λ _ _, Delivered).
Definition wire0 : Wire := wire_of id.

Lemma wire0_sound : sound_wire wire0.
Proof.
  split; try done. intros argv sent. split; [apply cut0_flat|]. cbn. intros e He.
  apply list_elem_of_fmap in He as (? & ? & _). done.
Qed.

#[local] Instance receiver0 : ReceiverProcess := linked_receiver (endpoint_bin here) wire0.
#[local] Instance connection0 : Connection := lossy wire0 (linked unused_id srv0).

(** The name of the new file has no slash. *)
Lemma new_no_slash : Forall (λ x, no_slash x = true) (["r"] ++ ["new.txt"]).
Proof. by repeat constructor. Qed.

Lemma upload_delivers_witness :
  ∃ r w', upload_file here source0 "new.txt" false 5 world0 = (Returned r, w') ∧
  ∃ op data received t1 mt,
    local_data source0 data ∧
    r = TransferResult.Mk op TransferDirection.Upload "new.txt" (lenN data) (hash_bytes data) 5 ∧
    swept (in_flight_staging (uploads (w_mem world0))) STALE_STAGING_MAX_AGE (w_fs world0) t1 ∧
    (false = false → t1 !! (["r"] ++ ["new.txt"]) = None) ∧
    w_fs w' = <[["r"] ++ ["new.txt"] := File received 384 mt]> t1 ∧
    intact received data.
Proof.
  assert (∃ r w', upload_file here source0 "new.txt" false 5 world0 = (Returned r, w')) as (r & w' & Hr).
  { eexists _, _. vm_compute. reflexivity. }
  pose proof (upload_delivers unused_id unused_id_fresh srv0 wire0 here source0
    "new.txt" false 5 ["r"] "new.txt" world0) as Hu.
  exists r, w'. split; [exact Hr|].
  change (@upload_file _ _ _ _ here source0 "new.txt" false 5 world0 = (Returned r, w')) in Hr.
  unfold connection, receiver in Hu. unfold connection0, receiver0 in Hr. rewrite Hr in Hu. apply Hu.
  - vm_compute. reflexivity.
  - exact real_r.
  - reflexivity.
  - exact new_no_slash.
  - intros meta Hm. injection Hm as <-. by vm_compute.
Defined.

Lemma upload_succeeds_witness :
  ∃ op mt t1 w', let data := flat (source_reads source0) in
    upload_file here source0 "new.txt" false 5 world0
    = (Returned (TransferResult.Mk op TransferDirection.Upload "new.txt" (lenN data) (hash_bytes data) 5), w') ∧
    swept (in_flight_staging (uploads (w_mem world0))) STALE_STAGING_MAX_AGE (w_fs world0) t1 ∧
    w_fs w' = <[["r"] ++ ["new.txt"] := File data 384 mt]> t1.
Proof.
  assert (uploadable false ["r"] "new.txt" source0 (w_fs world0)) as Hup.
  { split; [by vm_compute|]. split; [by vm_compute|]. exists hello, 420%N, 7%N. split; [done|].
    split; [done|]. split; [|by vm_compute]. intros e He. cbn in He. set_solver. }
  pose proof (upload_succeeds unused_id unused_id_fresh srv0 wire0 here source0
    "new.txt" false 5 ["r"] "new.txt" world0 wire0_sound) as Hu.
  apply Hu; [by vm_compute|exact real_r|done|exact new_no_slash| |exact Hup].
  intros meta Hm. injection Hm as <-. by vm_compute.
Defined.

(** Another upload is under way. *)
Definition mem1 : memory :=
  MkMemory 0 [] ∅ {[transfer_id_of 7 0 :=
    PendingUpload.Mk ["r"; ".agent-remote-upload.b.x.part"] ["r"; "b"] "b" false]} 1.
Definition world1 : world := World tree0 ∅ mem1 0 [].

Lemma mem1_issued : ids_issued mem1.
Proof.
  intros id [u Hu]. cbn in Hu. apply lookup_singleton_Some in Hu as [<- _]. exists 7%N, 0%N. split_and!; [by vm_compute|done..].
Qed.

Lemma abort_undoes_prepare_witness :
  let in_flight := in_flight_staging (uploads (w_mem world1)) in
  let '(o, w1) := upload_prepare ws "new.txt" false world1 in
  match o with
  | Returned (ResultBody.UploadPrepare (UploadPrepareResult.Mk id staging_path)) =>
      let '(o', w2) := upload_abort id w1 in
      match o' with
      | Returned _ =>
          uploads (w_mem w2) = uploads (w_mem world1) ∧ ids_issued (w_mem w2) ∧
          swept in_flight STALE_STAGING_MAX_AGE (w_fs world1) (w_fs w2) ∧
          ((∀ q, ¬ abandoned in_flight STALE_STAGING_MAX_AGE (w_fs world1) q) → w_fs w2 = w_fs world1) ∧
          ∀ rid size sha dur, upload_commit rid id size sha dur w2 = (Raised (unknown_transfer id), w2)
      | Raised _ => fails
      | Killed => dies
      end
  | Returned _ => False
  | _ => True
  end.
Proof.
  assert (resolve (w_fs world1) ws "new.txt" = Ok (["r"] ++ ["new.txt"])) as Hr by (vm_compute; reflexivity).
  pose proof (abort_undoes_prepare ws "new.txt" false ["r"] "new.txt" world1 Hr real_r eq_refl
    mem1_issued eq_refl) as Ha.
  exact Ha.
Defined.

(** ** Tools *)

#[local] Instance no_json : JsonValues := {
  Value := string; insert_if_object k v x := k +:+ ": " +:+ v +:+ ", " +:+ x;
  to_string_pretty x := Ok x; rows_to_string rows := Ok (String.concat ", " (row_name <$> rows)) }.
#[local] Instance no_value T : ToValue T := { to_value _ := Ok "..." }.
#[local] Instance connection1 : Connection := linked unused_id srv0.
#[local] Instance connection1_laws : ConnectionLaws := linked_laws unused_id unused_id_fresh srv0.

Lemma tool_is_its_request_witness :
  ∃ report w', tool_call here "main" (DeleteFile "note.txt") world0 = (Returned report, w') ∧
    is_error report = false.
Proof.
  pose proof (tool_is_its_request here "main" (DeleteFile "note.txt") (RequestBody.Delete "note.txt")
    DEFAULT_REQUEST_TIMEOUT world0 eq_refl) as Ht.
  destruct (send_request_with_timeout (RequestBody.Delete "note.txt") DEFAULT_REQUEST_TIMEOUT world0)
    as [o w'] eqn:Hsend.
  assert (match o with Returned (_, ServerMessage.Result _ (ResultBody.Mutation _)) => True | _ => False end)
    as Ho.
  { change o with ((o, w').1). rewrite <- Hsend. vm_compute. exact I. }
  destruct o as [[rid [rid' r|rid' e]]|e|]; try (exfalso; exact Ho).
  destruct Ht as (report & Hrep & Hcall). exists report, w'. split; [exact Hcall|].
  destruct r; try (exfalso; exact Ho). cbn in Hrep. injection Hrep as <-. reflexivity.
Defined.
End calm.

(** ** A fleet *)

Definition entry_at (host : option string) (root : string) : WorkspaceEntry :=
  WorkspaceEntry.Mk host root None None None None.
Definition file0 : gmap string WorkspaceEntry :=
  <["a" := entry_at None "/r"]> (<["b" := entry_at (Some "h") "/r"]>
    (<["c" := entry_at None "/r"]> ∅)).
#[local] Instance toml0 : FleetToml := { fleet_from_str _ := Ok file0 }.

Lemma parse_fleet_spec_witness :
  ∃ prev name e e', prev ≠ name ∧ file0 !! prev = Some e' ∧ file0 !! name = Some e ∧
    address e' = address e ∧ parse_fleet "" = Err (same_address prev name).
Proof.
  destruct (@parse_fleet_spec toml0 "" file0 eq_refl) as (_ & _ & Hdup). apply Hdup.
  intros Hd. assert ("a" = "c") as Heq by (eapply Hd; vm_compute; reflexivity). discriminate Heq.
Defined.

(** ** An upload that is cut off

    The server dies in a call of the commit, the file that was to be
    overwritten being there still, and in one after the rename. *)

Definition source1 : LocalSource :=
  MkSource "/home/b" (Ok (File (as_bytes "fresh") 420 7)) (Ok tt) [Ok (as_bytes "fresh")].

Definition upload_over (env : Env) (wire : Wire) : outcome ClientError TransferResult * world :=
  @upload_file _ _ (lossy wire (linked (H:=env) unused_id srv0)) (linked_receiver (endpoint_bin here) wire)
    here source1 "note.txt" true 5 world0.
Definition cut_off (k : nat) : outcome ClientError TransferResult * world := upload_over (killing k) wire0.

Definition not_done (k : nat) : Prop := not_returned (cut_off k).1.
Definition on_target (w : world) : option bytes :=
  match w_fs w !! note with Some (File data _ _) => Some data | _ => None end.

(** The wire may also turn the bytes around, or lose the answer to the commit. *)
Definition reversing : Wire := wire_of reverse.
Definition forgetful : Wire := MkWire (wire_spawn wire0) (wire_write wire0) (wire_close wire0)
  (wire_input wire0) (wire_env wire0) (wire_report wire0) (wire_dies wire0)
  (λ _ body, match body with RequestBody.UploadCommit _ _ _ _ => AnswerLost ClientError.Timeout | _ => Delivered end).

Lemma upload_spares_target_witness :
  (not_done 11 ∧ on_target (cut_off 11).2 = Some hello) ∧
  (not_done 12 ∧ on_target (cut_off 12).2 = Some (as_bytes "fresh")) ∧
  (not_returned (upload_over calm reversing).1 ∧ on_target (upload_over calm reversing).2 = Some hello) ∧
  (not_returned (upload_over calm forgetful).1 ∧
     on_target (upload_over calm forgetful).2 = Some (as_bytes "fresh")) ∧
  ∀ env wire, target_spared true ["r"] "note.txt" source1 (w_fs world0) (w_fs (upload_over env wire).2).
Proof.
  split; [split; [exact I|vm_compute; reflexivity]|]. split; [split; [exact I|vm_compute; reflexivity]|].
  split; [split; [exact I|vm_compute; reflexivity]|]. split; [split; [exact I|vm_compute; reflexivity]|].
  intros env wire. pose proof (upload_spares_target (H:=env) unused_id
    unused_id_fresh srv0 wire here source1 "note.txt" true 5 ["r"] "note.txt" world0) as Hu.
  assert (let '(_, w') := upload_over env wire in
    target_spared true ["r"] "note.txt" source1 (w_fs world0) (w_fs w')) as Hs.
  { apply Hu; [reflexivity|vm_compute; reflexivity|exact real_r|reflexivity|by repeat constructor|].
    intros meta Hm. injection Hm as <-. by vm_compute. }
  destruct (upload_over env wire) as [o w']. exact Hs.
Defined.
