(* ===== verification/ConcurrencyWitnesses.v ===== *)
(** * ConcurrencyWitnesses: side-by-side requests at concrete inputs

    The theorems of [Concurrency.v] and [ConcurrencyLog.v] applied to a run
    in which a command and a listing are both in progress, with the serializer
    of [Codec.v]; and the theorem of [Schedule.v] to a connection. *)

From S2P Require Import Prelude Text Protocol World Fs Hash Workspace Jsonl Store Prune PruneSpec.
From S2P Require Import Crash Server Codec Concrete Concurrency ConcurrencyLog Tables Schedule.

Definition command : Request := Request.Mk "r0" (RequestBody.Exec ["make"] None None None).
Definition listing : Request := Request.Mk "r1" (RequestBody.List "." None None).

(** The claim of one request, from its arrival to its handler. *)
Definition claimed_by (t : nat) (req : Request) (s : state) : state :=
  set_phase t req Running (note [task_id req] [] [] false
    (on_mem (insert_entry (task_id req) (claimed (task_op req)))
      (set_phase t req ClaimWritten (write_newline 0
        (set_phase t req (ClaimText 0) (write_text 0 (json (claim_line req))
          (set_phase t req (ClaimOpen 0)
            (set_phase t req Unseen (set_phase t req Arrived s))))))))).

Definition both_running : state := claimed_by 1 listing (claimed_by 0 command (start empty_memory [])).

Lemma claimed_by_reachable t req s :
  generation (reqlog s) = 0 → tables_lock s = None → tasks s !! t = None →
  requests (mem s) !! task_id req = None →
  bypasses (Request.body req) = false → guarded (Request.body req) = false →
  rtc step s (claimed_by t req s).
Proof.
  intros Hgen Hl Ht Hr Hb Hg.
  go (step_arrive _ t req). go (step_unseen _ t req). go (step_claim_open _ t req).
  replace (generation _) with 0 by (symmetry; exact Hgen).
  go (step_claim_text _ t req 0). go (step_claim_newline _ t req 0).
  go (step_claim_won _ t req). rewrite Hg. apply rtc_refl.
Qed.

Lemma both_running_reachable : reachable empty_memory [] both_running.
Proof.
  unfold reachable, both_running. etrans; apply claimed_by_reachable; reflexivity.
Qed.

Lemma both_running_distinct : distinct_ids both_running.
Proof.
  intros t t' req req' p p'. unfold both_running, claimed_by, start. cbn.
  rewrite !lookup_insert_Some, !lookup_empty. intros Ht Ht' Hid.
  repeat (destruct_or?; destruct_and?); simplify_eq; try done; try congruence.
Qed.

Lemma requests_run_once_witness :
  reachable empty_memory [] both_running ∧
  (∀ rid, times (claims both_running) rid + present (requests empty_memory !! rid)
     = times (forgotten both_running) rid + present (requests (mem both_running) !! rid)) ∧
  (∀ t t' req req' p p', tasks both_running !! t = Some (req, p) →
     tasks both_running !! t' = Some (req', p') →
     (owns p = true → task_id req ∈ claims both_running) ∧
     (owns p = true → owns p' = true → task_id req = task_id req' → t = t') ∧
     (in_section req p = true → in_section req' p' = true → t = t')) ∧
  ((next_id empty_memory + lenN (op_ids both_running) <= u64_max)%N → NoDup (op_ids both_running)).
Proof.
  split; [exact both_running_reachable|].
  pose proof (requests_run_once empty_memory [] both_running both_running_reachable) as H. exact H.
Defined.

Lemma results_are_durable_witness :
  requests_of_log [] = requests empty_memory ∧ disturbed both_running = false ∧
  ∃ ls' b, load_lines requests_path 0 (lines_of (contents (reqlog both_running))) = Ok (ls', b) ∧
    (∀ rid e, requests (mem both_running) !! rid = Some e → has_result e = true →
       requests_of_log ls' !! rid = Some e) ∧
    (∀ t req p, tasks both_running !! t = Some (req, p) → working p = true →
       text_line req p = None →
       requests_of_log ls' !! task_id req = Some (claimed (task_op req))).
Proof.
  assert (disturbed both_running = false) as Hd by (vm_compute; reflexivity).
  split; [reflexivity|]. split; [exact Hd|].
  pose proof (results_are_durable empty_memory [] both_running eq_refl both_running_reachable
    both_running_distinct Hd) as H. exact H.
Defined.

Lemma appends_garble_log_witness :
  ∃ s, reachable empty_memory [] s ∧
    tasks s !! 0 = Some (command, Answered (message_of "r0" (Err (ProtocolError.new ExecFailed "no")))) ∧
    tasks s !! 1 = Some (listing, Answered (message_of "r1" (Ok (ResultBody.List (ListResult.Mk [] None))))) ∧
    ∀ ls b, load_lines (T:=RequestLogLine) requests_path 0 (lines_of (contents (reqlog s))) ≠ Ok (ls, b).
Proof.
  pose proof (appends_garble_log command listing (Err (ProtocolError.new ExecFailed "no"))
    (Ok (ResultBody.List (ListResult.Mk [] None))) ltac:(done) eq_refl eq_refl eq_refl eq_refl) as H.
  exact H.
Defined.

(** ** A connection *)

Section connection.
#[local] Instance calm_env : Env := calm.

Definition served_lines : list bytes := [line listing; as_bytes "nonsense"; line listing].

Lemma connection_is_a_schedule_witness :
  let '(o, w') := run srv0 served_lines world0 in
  ∃ s, reachable (w_mem world0) [] s ∧ same_tables (w_mem w') (mem s) ∧
    content requests_path w' = contents (reqlog s) ∧
    match o with Returned ms => idle s ∧ Forall (reported s) ms | _ => True end.
Proof.
  pose proof (connection_is_a_schedule srv0 served_lines world0 (w_mem world0) []
                (reflexivity _) (eq_refl _)) as H.
  exact H.
Defined.
End connection.

(** The same, with the process dying in the write of the second result. *)
Section dying.
#[local] Instance dying_env : Env := killing 14.

Definition asked : Request := Request.Mk "r2" (RequestBody.RequestStatus "r1").
Definition dying_lines : list bytes := [line listing; line asked].

Lemma connection_log_is_durable_witness :
  (run srv0 dying_lines world0).1 = Killed ∧
  let '(o, w') := run srv0 dying_lines world0 in
  ∃ rls' b, load_lines requests_path 0 (lines_of (content requests_path w')) = Ok (rls', b) ∧
    ∀ rid e, requests (w_mem w') !! rid = Some e → has_result e = true →
      requests_of_log rls' !! rid = Some e.
Proof.
  split; [vm_compute; reflexivity|].
  assert (NoDup (request_ids dying_lines)) as Hn.
  { apply (bool_decide_unpack _). vm_compute. exact I. }
  pose proof (connection_log_is_durable srv0 dying_lines world0 [] (eq_refl _) (eq_refl _) Hn) as H.
  exact H.
Defined.
End dying.
