(* ===== verification/CommandLineWitnesses.v ===== *)
(** * CommandLineWitnesses: the command lines at a concrete endpoint

    An option parser with the laws of [ServerMain.ClapLaws], and the theorem on
    the command lines applied to an endpoint behind ssh. *)

From S2P Require Import Prelude Text Protocol World Fs Hash Workspace Jsonl Store Prune Transfer.
From S2P Require Import Recovery Config Exec Server Codec Concrete ClientApi ClientTransfer Wire UploadSpec ServerMain.

(** Options and values, alternating. *)
Definition flag_of (w : string) : option Flag :=
  find_first (λ f, bool_decide (flag_text f = w))
    [FRoot; FStateBase; FConfig; FHistoryLimit; FTransferReceive; FExpectSize; FTransferSend].

Fixpoint read_pairs (words : list string) (a : Args) : option Args :=
  match words with
  | [] => Some a
  | [_] => None
  | w :: v :: rest => f ← flag_of w; if plain v then set_flag f v a ≫= read_pairs rest else None
  end.

#[export] Instance alternating : Clap := { parse_args words :=
  match words with
  | [] => Err "no program name"
  | _ :: words =>
      match read_pairs words default_args with
      | Some a => if admissible a then Ok a else Err "the argument cannot be used"
      | None => Err "unexpected argument"
      end
  end }.

Lemma read_pairs_words pairs a b :
  forallb plain pairs.*2 = true → args_of pairs a = Some b → read_pairs (words_of pairs) a = Some b.
Proof.
  revert a. induction pairs as [|[f v] pairs IH]; intros a Hp Ha; [done|].
  cbn in Hp. apply andb_true_iff in Hp as [Hv Hp].
  change (words_of ((f, v) :: pairs)) with (flag_text f :: v :: words_of pairs).
  cbn [read_pairs]. replace (flag_of (flag_text f)) with (Some f) by by destruct f.
  cbn [mbind option_bind]. rewrite Hv. cbn [args_of] in Ha.
  destruct (set_flag f v a) as [a'|]; [|done]. cbn in Ha |- *. by apply IH.
Qed.

#[export] Instance alternating_laws : ClapLaws.
Proof.
  intros bin pairs a Hn Hp Ha Had. cbn.
  by rewrite (read_pairs_words _ _ _ Hp Ha), Had.
Qed.

Section calm.
#[local] Instance calm_env : Env := calm.

Definition there : Endpoint :=
  Endpoint.Ssh "build host" "/opt/agent's server" "/home/me/a project" None (Some "profiles.toml").

(** No request is sent on this standard input. *)
#[local] Instance no_requests : JsonCodec Request := {| json _ := []; from_json _ := Err "" |}.

Lemma endpoints_reach_the_server_witness :
  let runs argv (run : M string Output) := ∃ words a,
    starts there argv words ∧ parse_args words = Ok a ∧
    main text_path (Some "/home/me") [] [] (λ _, Ok "") a = run in
  runs (Endpoint.control_argv there)
    (base ← lift (resolve_state_base (Some "/home/me") (endpoint_state_base there));
     serve text_path [] (λ _, Ok "") (endpoint_root there) base (endpoint_config there) (Some 1000%N)) ∧
  runs (Endpoint.transfer_receive_argv there "/r/.part" 11)
    (receive_into text_path [] "/r/.part" 11) ∧
  runs (Endpoint.transfer_send_argv there "out/it's here.bin")
    (base ← lift (resolve_state_base (Some "/home/me") (endpoint_state_base there));
     send text_path (endpoint_root there) base "out/it's here.bin").
Proof.
  pose proof (endpoints_reach_the_server text_path (Some "/home/me") [] [] (λ _, Ok "") there
    "/r/.part" "out/it's here.bin" 11 eq_refl eq_refl eq_refl eq_refl eq_refl eq_refl ltac:(by vm_compute)) as H.
  exact H.
Defined.
End calm.
