(* ===== verification/DirLockWitnesses.v ===== *)
(** * DirLockWitnesses: two servers over one state directory

    The theorems of [DirLock.v] at concrete inputs: a process that has started
    and served, and another that is refused; and the two tests of the lock in
    [store.rs], as evaluations of [acquire_dir_lock]. *)

From S2P Require Import Prelude Text Protocol World Fs Hash Workspace Jsonl Store Prune.
From S2P Require Import Recovery Transfer Config Exec Server Codec Concrete DirLock.

#[local] Open Scope N_scope.

Definition lock_listing : Request := Request.Mk "r1" (RequestBody.List "." None None).

(** ** The processes *)

Section calm.
#[local] Instance calm_env : Env := calm.

Definition boot : outcome string Server * world :=
  (map_raise ProtocolError.display OperationStore_load ;; Server_start ws None None) world0.
Definition listed : outcome ProtocolError ServerMessage * world := handle srv0 lock_listing boot.2.

Lemma boot_starts : starts ws world0 (Returned srv0) boot.2.
Proof.
  exists calm_env, None, None. change (boot = (Returned srv0, boot.2)).
  rewrite (surjective_pairing boot) at 1.
  assert (boot.1 = Returned srv0) as -> by (vm_compute; reflexivity). reflexivity.
Qed.

Lemma listed_serves : ∃ m, serves srv0 boot.2 (Returned m) listed.2.
Proof.
  assert (∃ m, listed.1 = Returned m) as [m Hm] by (eexists; vm_compute; reflexivity).
  exists m, calm_env, lock_listing. change (listed = (Returned m, listed.2)).
  rewrite (surjective_pairing listed) at 1. by rewrite Hm.
Qed.

(** Process 7 starts and serves, process 8 comes and is refused. *)
Definition before_locks : system := idle_system (w_sd world0) (w_fs world0).
Definition has_lock : system := set_proc 7 Granted (set_holder (Some 7) (set_proc 7 (Trying 0) before_locks)).
Definition opening : system :=
  set_proc 7 Opening (set_lock_file (record_pid true 2 7 (lock_file has_lock)) has_lock).
Definition serving : system :=
  set_proc 7 (Serving srv0 boot.2 listed.2) (set_disk listed.2
    (set_proc 7 (Serving srv0 boot.2 boot.2) (set_disk boot.2 opening))).
Definition too_late : system :=
  let s := set_proc 8 (Denied 0) (set_proc 8 (Trying 0) serving) in
  MkSystem STARTUP_GRACE (holder s) (lock_file s) (disk s) (files s) (procs s).
Definition two_processes : system :=
  set_proc 8 (Refused (lock_refused "/s" (holder_note (Ok (lock_file too_late)))))
    (set_proc 8 Giving_up too_late).

(** The refusal names the process that serves. *)
Example refusal_names_holder :
  holder_note (Ok (lock_file too_late)) = " (held by pid 7)".
Proof. by vm_compute. Qed.

Ltac one_step r := eapply rtc_l; [apply r; try by vm_compute|].

Lemma two_processes_reachable :
  reachable "/s" STARTUP_GRACE (w_sd world0) (w_fs world0) two_processes.
Proof.
  destruct listed_serves as [m Hm].
  unfold reachable. one_step (step_arrive "/s" STARTUP_GRACE before_locks 7).
  one_step (step_grant "/s" STARTUP_GRACE (set_proc 7 (Trying 0) before_locks) 7 0).
  one_step (step_record "/s" STARTUP_GRACE has_lock 7 true 2).
  eapply rtc_l.
  { apply (step_start "/s" STARTUP_GRACE opening 7 ws world0 srv0 boot.2); [done|exact boot_starts]. }
  eapply rtc_l.
  { eapply (step_serve "/s" STARTUP_GRACE (set_proc 7 (Serving srv0 boot.2 boot.2) (set_disk boot.2 opening))
      7 srv0 boot.2 boot.2 m listed.2); [done|].
    assert (∀ w, seen_from (set_proc 7 (Serving srv0 boot.2 boot.2) (set_disk w opening)) w = w) as Hsame
      by by intros [].
    by rewrite Hsame. }
  one_step (step_arrive "/s" STARTUP_GRACE serving 8).
  one_step (step_deny "/s" STARTUP_GRACE (set_proc 8 (Trying 0) serving) 8 0).
  eapply rtc_l. { apply step_time with (t := STARTUP_GRACE). by vm_compute. }
  one_step (step_give_up "/s" STARTUP_GRACE too_late 8 0).
  eapply rtc_l.
  { eapply (step_refuse _ _ _ 8 (Ok (lock_file too_late))); [by vm_compute|]. intros bs Hbs. symmetry.
    exact (f_equal (λ r, match r with Ok x => x | Err _ => bs end) Hbs). }
  apply rtc_refl.
Qed.

Lemma server_alone_witness :
  holder two_processes = Some 7 ∧
  (∀ q ph', procs two_processes !! q = Some ph' → holds ph' → q = 7) ∧
  ∀ srv w0 w, Serving srv0 boot.2 listed.2 = Serving srv w0 w →
    w_sd w = disk two_processes ∧ rtc (session srv) w0 w ∧
    ∃ ws wi, starts ws wi (Returned srv) w0.
Proof.
  assert (procs two_processes !! 7 = Some (Serving srv0 boot.2 listed.2)) as Hp.
  { unfold two_processes, too_late, serving, set_proc, set_disk. cbn [procs].
    by rewrite !lookup_insert_ne, lookup_insert_eq by done. }
  pose proof (server_alone "/s" STARTUP_GRACE (w_sd world0) (w_fs world0) two_processes 7 _
    two_processes_reachable Hp I) as H.
  exact H.
Defined.
End calm.

(** ** The call *)

(** The lock is free from the moment [free] on. *)
Definition until_free (free : N) (reading : bytes) : LockMachine :=
  {| lock_open := Ok tt; lock_flock := λ t, free <=? t; lock_lag _ := 1000; lock_late _ := 70000;
     lock_reading := Ok reading |}.

(** [second_lock_on_same_dir_fails]: without a grace period the second call is
    refused at once, and granted when the first is dropped. *)
Example second_lock_fails :
  acquire_dir_lock (H:=until_free (millis 9) (as_bytes "7" ++ [nl])) "/s" 0 0
  = Some (2000, Err (lock_refused "/s" " (held by pid 7)")).
Proof. by vm_compute. Qed.
Example second_lock_after_drop :
  acquire_dir_lock (H:=until_free (millis 9) []) "/s" 0 (millis 9) = Some (9001000, Ok tt).
Proof. by vm_compute. Qed.

(** [grace_period_waits_for_release]: dropped after 300 ms, the lock is
    granted to a call that has five seconds. *)
Example waits_for_release :
  acquire_dir_lock (H:=until_free (millis 300) (as_bytes "7")) "/s" STARTUP_GRACE 0
  = Some (300427000, Ok tt).
Proof. vm_compute. reflexivity. Qed.
